(* ===== verification/_CoqProject ===== *)
-Q . S2P
Prelude.v
Utils.v
Flows.v
Headers.v
IpHeader.v
TcpHeader.v
RingBuffer.v
ReorderedBuffer.v
Conformance.v
Packet.v
Mpsc.v
Batch.v
Operators.v
Pipelines.v
Scheduler.v
Programs.v
Stores.v
Groups.v
Config.v
Ports.v
Display.v
Context.v
Queues.v
Forwarding.v
Control.v
Agents.v
SharedState.v
Native.v
Maglev.v
Lpm.v
NatNf.v
Reconstruction.v
Acl.v
Functions.v
NfPipelines.v
Stages.v
NfGroups.v
Payloads.v
Routing.v
Generation.v
Delay.v
Chain.v
