(* ===== verification/Prelude.v ===== *)
(** * NetBricks: a verification library

    NetBricks is a framework for network functions. A program reads a configuration, opens
    network ports through DPDK, starts one scheduler thread per core and installs on each a
    pipeline of batch operators; every execution of a pipeline receives a batch of packet
    buffers (mbufs) from a port queue, parses and rewrites headers, filters, groups and
    merges, and sends the packets out. This library models the framework
    ([src/framework/src]) and the network functions built on it ([src/test]) as executable
    definitions and proves what makes them correct.

    ** How the parts fit together

    - [config] builds a [NetbricksConfiguration] from a TOML document or from flags;
    - [scheduler/context.rs] opens its ports ([interface/port], [interface/dpdk.rs]), gives
      every core its receive queues, starts the scheduler threads and commands them;
    - [scheduler] runs the installed tasks round robin ([standalone_scheduler.rs]) or on
      request ([embedded_scheduler.rs]);
    - a task is a batch operator ([operators]) that ends in a send; operators pull packets
      ([interface/packet.rs]) from the batch they wrap ([packet_batch.rs]), down to a
      receive from a port or from a queue ([queues]) filled by a group-by;
    - packets are views of mbufs ([native/zcsi/mbuf.rs]) through headers ([headers]);
    - [state] offers network functions a byte ring, a reordering buffer for TCP streams and
      per-flow stores; [utils] flows and prefixes; [control] servers for a control plane;
      [shared_state] named memory regions; [allocators], [native] memory helpers;
    - a network function ([src/test/*/src/nf.rs]) is a closure or two and the pipeline it
      builds around them; its [main.rs] installs one pipeline per receive queue.

    ** Files

    - [Prelude]: outcomes of a computation ([Ret], [Panic], [NoFuel], [Undef]), the state
      monad [St] with [let*], the error monad [let?], machine integers with wrap-around and
      the two build profiles, byte strings, vectors, loops with fuel; the hint database
      [nb_total] of computations that return; lemmas shared by all files.
    - [Utils]: rounding ([utils/mod.rs]). [Flows]: flows and prefixes ([utils/flow.rs]).
    - [Headers], [IpHeader], [TcpHeader]: [headers/*.rs]. A header is the struct the code
      declares; [Packed] is its memory layout; the specification is the wire format.
    - [RingBuffer]: [state/ring_buffer.rs]. [ReorderedBuffer]:
      [state/reordered_buffer/reordered_buffer.rs] (Modules [Segments], [Reorder]).
    - [Conformance]: the tests of the framework ([framework/tests]) as programs over the
      models above, each shown to pass.
    - [Packet]: Module [Mbuf] is [native/zcsi/mbuf.rs], Module [Pkt] [interface/packet.rs],
      over a heap from mbuf pointers to mbufs.
    - [Mpsc]: [queues/mpsc_mbuf_queue.rs]; Module [Mpsc] runs operations to completion,
      Module [Interleave] is the same code as a transition system of atomic accesses.
    - [Batch]: [operators/packet_batch.rs] and the port traits of [interface/mod.rs].
      [Operators]: the other batch operators, one Module each, with the traits
      [BatchIterator], [Act], [Executable] as classes. [Groups]: [operators/group_by.rs].
    - [Pipelines]: the interface [BatchLaws] that one batch promises to the operator around
      it, instances for the operators, and theorems on pipelines proved against it.
    - [Scheduler]: Modules [Standalone] and [Embedded]. [Programs]: a chain of dependent tasks
      ([test/embedded-scheduler-dependency-test]). [Stores]: the flow stores
      ([dp_mergeable.rs], [cp_mergeable.rs], [mergeable.rs]).
    - [Config]: [config/*.rs]. [Ports]: [interface/port/*.rs] (Modules [Phy], [Virt]) and
      [interface/dpdk.rs] (Module [Runtime]). [Context]: [scheduler/context.rs].
    - [Display]: the [Display] implementations of headers and ports. [Queues]: the counters
      of the queues that initialization hands out. [Forwarding]: ports, batches, operators
      and packets put together in one pipeline.
    - [Control]: [control/*.rs]. [Agents]: agents for it ([test/sctp-test]). [SharedState]: [shared_state/*.rs]. [Native]:
      [allocators/cache_aligned.rs], [native/libnuma.rs], [utils/asm.rs].
    - Network functions without their pipelines: [Maglev] (consistent hashing,
      [test/maglev]), [Lpm] (longest prefix match, [test/lpm]), [NatNf] (address translation,
      [test/nat]), [Acl] (firewall rules, [test/acl-fw]), [Reconstruction] (TCP streams,
      [test/tcp_payload]).
    - The tools that take an operator to byte strings: [Functions] says where a chain of
      operators sees a header ([FrameView]) and what a closure does to a frame ([FrameFn],
      [FrameTest]); [NfPipelines] uses it for the pipelines of the translator and the
      firewall; [Stages] composes operators one by one ([acted], [Wraps]), metadata and
      closures that only look included; [NfGroups] does the same for tasks that split packets
      over queues ([spread_frames]) and for the load balancer.
    - Pipelines on top of them: [Payloads] (splitting by protocol, metadata, streams, merging),
      [Routing] (the lookup table of [test/lpm]), [Generation] ([test/packet_generation]),
      [Delay] ([test/shutdown-test], from the configuration to the end of the scheduler
      thread), [Chain] ([test/chain-test], [test/macswap]).

    ** What the theorems show

    - Containers: the ring buffer refines a bounded FIFO of bytes over every history; the
      mbuf queue refines a bounded FIFO of mbufs when run sequentially, and for any number
      of producers interleaved at every shared access delivers what was committed, in order,
      once; a spinning producer waits for one that can move. The reordering buffer refines an
      in-order stream as long as there is no gap and no retransmission crosses the wrap-around
      of the numbers or ends exactly at the expected one, and delivers any number of repeated
      and overlapping segments behind one gap in order once the gap is filled; elsewhere (a
      gap filled in part, a retransmission that ends at the expected number after everything
      was read, one across the wrap-around, a merged segment of more than 65535 bytes) it is
      stated what it does instead.
    - Packets: accessors of IPv4 and TCP refine the wire format (but for a fragment offset of
      more than 13 bits, which spills into the flags); flows, but for their protocol, headers
      and metadata round-trip; moving the ends of an mbuf stays in its buffer; pushing a header inserts it.
    - Batches and pipelines: dropping keeps the order and frees exactly what it should; a
      filter keeps what its closure accepts; a transform runs once per cycle; a merge serves
      its parents round robin; a pipeline accounts for every mbuf, and between the queues of
      an opened port never leaks one, however often it runs; a group-by hands every packet to
      its group.
    - Scheduling and life cycle: a scheduler runs its tasks until the shutdown; dependencies
      run first; initialization gives every queue to its core and returns a context or a
      configuration error; start, install, execute, stop returns with every thread joined; a
      barrier pauses and releases all threads.
    - Configuration and ports: which documents a reader accepts (those of the schema,
      and some with malformed queues), that a configuration written out is read back, which
      queues a command line gives to which cores; ports have as many counters as queues, refuse
      queues they do not have (but for one), and count their traffic.
    - Stores, control plane, shared state: the data-path store is a last-write table, the
      control-plane store loses no update while full batches find room; events are delivered
      once, connections keep distinct tokens, an agent leaves no message unread; which sizes a shared region accepts.
    - Network functions, on the byte strings of the packets of a batch: the lookup tables of
      the load balancer and of the router answer as their specifications do, and the tasks
      around them hand every packet to the queue of its answer; translator, firewall and
      chain forward exactly the packets they should, rewritten as they should; the
      reconstruction forwards the TCP packets and keeps the text of every flow; the generator
      sends what it makes. Where a function misbehaves the theorem excludes the case and a
      lemma shows it: a gate with its top bit set, a rule that names a port, a packet without
      a flow, a packet with no time to live, a flow that is not opened by a SYN. Each theorem says as well what the port is offered, what is freed
      and that the pipeline is ready for the next batch, and each builder is proved to build
      the pipeline that the theorem is about.
    - All of it together: from a successful initialization a core installs its pipelines, runs
      each of them once per round and returns at the shutdown without having leaked an mbuf.

    ** Conventions, bounds and fuel

    Integers are [Z], with the width of the Rust type written in the operation ([uadd 64],
    [wrapping_add 32], [wrap], [as_signed]). Plain arithmetic panics on overflow when the
    profile has overflow checks and wraps otherwise; theorems quantify over the profile.
    A panic is [Panic], an out-of-bounds raw access or an overlapping [copy_nonoverlapping]
    is [Undef]. Loops that do not recurse on data take fuel: [loop_fuel] greater than the
    number of packets of a batch is enough for every loop over a batch; the merge loop of the
    reordering buffer needs one step per segment when it ends at all; the compare-and-swap
    loops of the mbuf queue need a single iteration when run without interference; the
    scheduler needs one unit per task of every round before the shutdown; [exec_task]
    needs the number of the task plus one; the table of the load balancer takes as many turns
    as it has slots; a read of the payload reconstruction takes at most the 2047 bytes of its
    buffer; the delay loop takes the delay; a batch holds 32 packets. Theorems that a call
    returns state the fuel; [NoFuel] also stands for a call of the context that blocks for ever.
    [Interleave] takes atomic accesses in a sequentially consistent order, and its reachable
    states are those before a free-running counter has passed 2^64.

    ** Parameters

    Code that is not in the repository is an argument of the definitions that use it, with
    what is relied on stated as a class of laws or as a hypothesis: the mbuf allocator
    ([Zcsi]), DPDK and the PCI pattern ([Dpdk], [DriverLaws], [NativeTotal], [NativeSilent],
    [OwnershipLaws], [MachineLaws]), that mbufs the application holds alone can be freed
    ([FreesHeld]) and that the pool hands out blank ones ([Allocates]), libnuma ([Numa]), the
    checksum, CRC and the hash functions, [byteorder] ([BigEndian]), the TOML and flag
    parsers ([Toml], [Matches]), the order in which hash maps list their keys ([HashOrder]),
    epoll, sockets and the agents of the control plane, the shared-memory calls ([Shm]), the
    time-stamp counter, closures ([FnMut], [FnRef]), tasks, and ports ([PacketRx],
    [PacketTx]). Each is instantiated by a concrete machine in a [..Sample] module.

    ** Not modelled

    - foreign function declarations ([native/mod.rs], [zcsi.rs], [native_include]): they have
      no body; [cpuid], [pause] and [lat], which only have an effect on the processor;
    - output other than what [Display] formats and the reconstruction prints: [println!],
      [print_error]; messages of [error_chain] other than the arguments of its variants;
    - failure to spawn a thread and exhaustion of Rust's own allocator;
    - races between threads on the relaxed port counters (a load followed by a store): bursts
      are counted one at a time; weak memory orders in general;
    - the build with the [packet_offset] feature, which names a type that does not exist and
      does not compile;
    - the main programs under [src/test] beyond the functions that install pipelines: they
      parse options, sleep and print statistics; [test/tcp_reconstruction], which is the
      reconstruction without the text; test programs that repeat a modelled function;
    - [build.rs], which calls the binding generator, and the C code. *)

From Stdlib Require Export ZArith Lia Btauto.
From stdpp Require Export base numbers list gmap strings.

#[export] Set Default Proof Using "Type".
Open Scope Z_scope.

(** ** Outcomes of a computation

    A Rust computation returns a value, panics (assertion, index out of range,
    [unwrap] on an error, checked arithmetic), for a loop run with fuel has not
    returned yet, or has undefined behaviour (an access through a raw pointer
    outside the memory it points into, overlapping [copy_nonoverlapping]). *)

Inductive outcome (A : Type) : Type :=
| Ret (a : A)
| Panic
| NoFuel
| Undef.
Arguments Ret {A} a.
Arguments Panic {A}.
Arguments NoFuel {A}.
Arguments Undef {A}.

Definition obind {A B} (m : outcome A) (f : A -> outcome B) : outcome B :=
  match m with
  | Ret a => f a
  | Panic => Panic
  | NoFuel => NoFuel
  | Undef => Undef
  end.

Declare Scope nb_scope.
Delimit Scope nb_scope with nb.
Open Scope nb_scope.

Notation "'let!' x := m 'in' k" := (obind m (fun x => k))
  (at level 10, x name, m at level 100, k at level 200) : nb_scope.
Notation "'let!' ' p := m 'in' k" := (obind m (fun x => match x with p => k end))
  (at level 10, p strict pattern, m at level 100, k at level 200) : nb_scope.

(** [assert!(b)] *)
Definition assert_ {A} (b : bool) (k : outcome A) : outcome A :=
  if b then k else Panic.

(** [o.unwrap()] / [o.expect(..)] on an [Option] *)
Definition unwrap {A} (o : option A) : outcome A :=
  match o with Some a => Ret a | None => Panic end.

Definition returns {A} (m : outcome A) : Prop := exists a, m = Ret a.

Lemma obind_Ret_inv {A B} (m : outcome A) (f : A -> outcome B) b :
  obind m f = Ret b -> exists a, m = Ret a /\ f a = Ret b.
Proof. destruct m; simpl; intros; try discriminate; eauto. Qed.

Lemma obind_assoc {A B C} (m : outcome A) (f : A -> outcome B) (g : B -> outcome C) :
  obind (obind m f) g = obind m (fun a => obind (f a) g).
Proof. by destruct m. Qed.

Lemma assert_true {A} b (k : outcome A) : b = true -> assert_ b k = k.
Proof. by intros ->. Qed.

Lemma assert_Ret_inv {A} b (k : outcome A) a : assert_ b k = Ret a -> b = true /\ k = Ret a.
Proof. destruct b; simpl; [done|discriminate]. Qed.

(** [iter().map(f).collect()] for a closure that may panic *)
Fixpoint collect {A B} (f : A -> outcome B) (l : list A) : outcome (list B) :=
  match l with
  | [] => Ret []
  | x :: l => let! y := f x in let! ys := collect f l in Ret (y :: ys)
  end.

(** [for x in l { body }] over a state that the body may change *)
Fixpoint each {A S} (body : A -> S -> outcome S) (l : list A) (s : S) : outcome S :=
  match l with
  | [] => Ret s
  | x :: l => let! s := body x s in each body l s
  end.

Lemma each_app {A S} (body : A -> S -> outcome S) l l' s :
  each body (l ++ l') s = obind (each body l s) (each body l').
Proof. revert s. induction l as [|x l IH]; intros s; simpl; [done|]. by destruct (body x s); simpl. Qed.

(** A loop that keeps an invariant indexed by the elements it has seen *)
Lemma each_inv {A S} (body : A -> S -> outcome S) (Inv : list A -> S -> Prop) l s :
  Inv [] s ->
  (forall past x rest s, l = past ++ x :: rest -> Inv past s -> exists s', body x s = Ret s' /\ Inv (past ++ [x]) s') ->
  exists s', each body l s = Ret s' /\ Inv l s'.
Proof.
  intros H0 Hstep. cut (forall rest past s, l = past ++ rest -> Inv past s ->
    exists s', each body rest s = Ret s' /\ Inv l s'); [intros Hc; by apply (Hc l [])|].
  induction rest as [|x rest IH]; intros past s' Hl Hp; simpl.
  - rewrite app_nil_r in Hl. subst. eauto.
  - destruct (Hstep past x rest s' Hl Hp) as (s1 & -> & H1). simpl. apply (IH (past ++ [x])); [|done].
    by rewrite <-app_assoc.
Qed.

Lemma collect_fmap {A B} (f : A -> outcome B) (g : A -> B) l :
  (forall x, x ∈ l -> f x = Ret (g x)) -> collect f l = Ret (g <$> l).
Proof.
  induction l as [|x l IH]; intros Hf; simpl; [done|]. rewrite Hf by left. simpl. rewrite IH; [done|].
  intros. apply Hf. by right.
Qed.

(** Peel the [let!]s and assertions off a hypothesis [H : _ = Ret _]. *)
Ltac outcome_inv :=
  repeat match goal with
  | H : obind _ _ = Ret _ |- _ =>
      let a := fresh "v" in let H1 := fresh "E" in
      apply obind_Ret_inv in H as (a & H1 & H)
  | H : assert_ _ _ = Ret _ |- _ =>
      let H1 := fresh "A" in apply assert_Ret_inv in H as [H1 H]
  | H : Ret _ = Ret _ |- _ => injection H as H; subst
  | H : Panic = Ret _ |- _ => discriminate H
  | H : NoFuel = Ret _ |- _ => discriminate H
  | H : Undef = Ret _ |- _ => discriminate H
  | x : (_ * _)%type |- _ => destruct x
  end.

(** ** Computations over a shared state

    [St S A] threads a state of type [S]; the code mutates it through pointers. *)

Definition St (S A : Type) : Type := S -> outcome (A * S).

Definition sret {S A} (a : A) : St S A := fun s => Ret (a, s).
Definition sbind {S A B} (m : St S A) (k : A -> St S B) : St S B :=
  fun s => match m s with
           | Ret (a, s) => k a s
           | Panic => Panic
           | NoFuel => NoFuel
           | Undef => Undef
           end.
Definition slift {S A} (m : outcome A) : St S A :=
  fun s => match m with
           | Ret a => Ret (a, s)
           | Panic => Panic
           | NoFuel => NoFuel
           | Undef => Undef
           end.

Notation "'let*' x := m 'in' k" := (sbind m (fun x => k))
  (at level 10, x name, m at level 100, k at level 200) : nb_scope.
Notation "'let*' ' p := m 'in' k" := (sbind m (fun x => match x with p => k end))
  (at level 10, p strict pattern, m at level 100, k at level 200) : nb_scope.

Lemma sbind_Ret {S A B} (m : St S A) (k : A -> St S B) s a s' :
  m s = Ret (a, s') -> sbind m k s = k a s'.
Proof. unfold sbind. by intros ->. Qed.

Lemma sbind_Ret_inv {S A B} (m : St S A) (k : A -> St S B) s b s'' :
  sbind m k s = Ret (b, s'') -> exists a s', m s = Ret (a, s') /\ k a s' = Ret (b, s'').
Proof. unfold sbind. destruct (m s) as [[a s']| | |]; try done. eauto. Qed.

Lemma sbind_assoc {S A B C} (m : St S A) (f : A -> St S B) (g : B -> St S C) s :
  sbind (sbind m f) g s = sbind m (fun a => sbind (f a) g) s.
Proof. unfold sbind. by destruct (m s) as [[a s']| | |]. Qed.

Lemma slift_Ret {S A} (m : outcome A) (s : S) a : m = Ret a -> slift m s = Ret (a, s).
Proof. by intros ->. Qed.

Definition spanic {S A} : St S A := fun _ => Panic.
Definition sgets {S A} (f : S -> A) : St S A := fun s => Ret (f s, s).
Definition smodify {S} (f : S -> S) : St S unit := fun s => Ret (tt, f s).

(** Run a computation on the part of the state that [get] selects and [put] writes back:
    a method called on a field, or through the mutable reference another method returns. *)
Definition zoom {S S' A} (get : S -> S') (put : S' -> S -> S) (m : St S' A) : St S A :=
  fun s => match m (get s) with
           | Ret (a, s') => Ret (a, put s' s)
           | Panic => Panic
           | NoFuel => NoFuel
           | Undef => Undef
           end.

Lemma zoom_Ret {S S' A} (get : S -> S') put (m : St S' A) s a s' :
  m (get s) = Ret (a, s') -> zoom get put m s = Ret (a, put s' s).
Proof. unfold zoom. by intros ->. Qed.

Lemma zoom_Ret_inv {S S' A} (get : S -> S') put (m : St S' A) s a s'' :
  zoom get put m s = Ret (a, s'') -> exists s', m (get s) = Ret (a, s') /\ s'' = put s' s.
Proof. unfold zoom. destruct (m (get s)) as [[? ?]| | |]; try done. intros [= -> <-]. eauto. Qed.

(** Computations that return from every state *)
Definition total {S A} (m : St S A) : Prop := forall s, exists a s', m s = Ret (a, s').

Create HintDb nb_total.

Lemma total_sret {S A} (a : A) : total (sret a : St S A).
Proof. intros s. by eexists _, _. Qed.
Lemma total_smodify {S} (f : S -> S) : total (smodify f).
Proof. intros s. by eexists _, _. Qed.
Lemma total_sgets {S A} (f : S -> A) : total (sgets f).
Proof. intros s. by eexists _, _. Qed.
Lemma total_slift {S A} (m : outcome A) a : m = Ret a -> total (slift m : St S A).
Proof. intros -> s. by eexists _, _. Qed.
Lemma total_sbind {S A B} (m : St S A) (k : A -> St S B) : total m -> (forall a, total (k a)) -> total (sbind m k).
Proof. intros Hm Hk s. destruct (Hm s) as (a & s' & E). destruct (Hk a s') as (b & s'' & E'). exists b, s''. by rewrite (sbind_Ret _ _ _ _ _ E). Qed.
Lemma total_if {S A} (b : bool) (m k : St S A) : total m -> total k -> total (if b then m else k).
Proof. by destruct b. Qed.

#[export] Hint Resolve total_sret total_smodify total_sgets total_sbind total_if : nb_total.

(** ** Rust's [Result] with the framework's error kinds ([common/errors.rs]) *)

Inductive ErrorKind : Type :=
| FailedAllocation
| FailedDeallocation
| FailedToInitializePort (port : Z)
| BadQueue
| CannotSend
| BadDev (dev : string)
| BadVdev (vdev : string)
| BadTxQueue (port queue : Z)
| BadRxQueue (port queue : Z)
| BadOffset (offset : Z)
| MetadataTooLarge
| RingAllocationFailure
| InvalidRingSize (size : Z)
| RingDuplicationFailure
| ConfigurationError (description : string)
| NoRunningSchedulerOnCore (core : Z).

Inductive result (A : Type) : Type :=
| Ok (a : A)
| Err (e : ErrorKind).
Arguments Ok {A} a.
Arguments Err {A} e.

(** [r.unwrap()] / [r.expect(..)] on a [Result] *)
Definition unwrap_ok {A} (r : result A) : outcome A :=
  match r with Ok a => Ret a | Err _ => Panic end.

(** [try!(r)] and [r?] *)
Definition rbind {A B} (r : result A) (f : A -> result B) : result B :=
  match r with Ok a => f a | Err e => Err e end.

Notation "'let?' x := m 'in' k" := (rbind m (fun x => k))
  (at level 10, x name, m at level 100, k at level 200) : nb_scope.

Lemma rbind_Ok_inv {A B} (r : result A) (f : A -> result B) b :
  rbind r f = Ok b -> exists a, r = Ok a /\ f a = Ok b.
Proof. destruct r; simpl; [eauto|done]. Qed.

Lemma rbind_Err_inv {A B} (r : result A) (f : A -> result B) e :
  rbind r f = Err e -> r = Err e \/ exists a, r = Ok a /\ f a = Err e.
Proof. destruct r; simpl; [eauto|]. intros [= ->]. by left. Qed.

Definition is_ok {A} (r : result A) : bool := match r with Ok _ => true | Err _ => false end.

Lemma is_ok_bind {A B} (r : result A) (f : A -> result B) (b b' : bool) :
  is_ok r = b -> (forall a, r = Ok a -> is_ok (f a) = b') -> is_ok (rbind r f) = b && b'.
Proof. intros <-. destruct r; simpl; [|done]. by intros ->. Qed.

(** A [for] loop that pushes the result of every step, or returns the first error *)
Fixpoint traverse {A B} (f : A -> result B) (l : list A) : result (list B) :=
  match l with
  | [] => Ok []
  | x :: l => let? y := f x in let? ys := traverse f l in Ok (y :: ys)
  end.

Lemma traverse_Ok {A B} (f : A -> result B) l ys : traverse f l = Ok ys <-> Forall2 (fun x y => f x = Ok y) l ys.
Proof.
  revert ys. induction l as [|x l IH]; intros ys; simpl.
  - split; [intros [= <-]; constructor|by inversion 1].
  - split.
    + intros (y & Hy & (ys' & Hys & [= <-])%rbind_Ok_inv)%rbind_Ok_inv. constructor; [done|]. by apply IH.
    + inversion 1 as [|? y ? ys' Hy Hys]; subst. rewrite Hy. simpl. by rewrite (proj2 (IH _) Hys).
Qed.

Lemma traverse_Err {A B} (f : A -> result B) l e : traverse f l = Err e -> exists x, x ∈ l /\ f x = Err e.
Proof.
  induction l as [|x l IH]; simpl; [done|]. intros [Hx|(y & Hy & H)]%rbind_Err_inv.
  - exists x. split; [left|done].
  - apply rbind_Err_inv in H as [H|(ys & _ & [=])]. destruct (IH H) as (z & Hz & ?). exists z. split; [by right|done].
Qed.

Lemma is_ok_traverse {A B} (f : A -> result B) l : is_ok (traverse f l) = forallb (fun x => is_ok (f x)) l.
Proof.
  induction l as [|x l IH]; [done|]. simpl. rewrite <-IH. destruct (f x); simpl; [|done]. by destruct (traverse f l).
Qed.

(** ** Build configuration

    [overflow_checks] is on in a debug build, where overflowing [+], [-], [*]
    panic, and off in the [--release] build of [build.sh], where they wrap.
    [performance] is the cargo feature of that name. *)

Class Profile : Type := { overflow_checks : bool; performance : bool }.

Definition release : Profile := {| overflow_checks := false; performance := false |}.
Definition debug : Profile := {| overflow_checks := true; performance := false |}.

(** ** Machine integers: a [w]-bit unsigned integer is a [Z] in [0, 2^w) *)

Definition wrap (w z : Z) : Z := z mod 2 ^ w.
Definition uint (w z : Z) : Prop := 0 <= z < 2 ^ w.

#[export] Instance uint_dec w z : Decision (uint w z).
Proof. unfold uint. apply _. Defined.

Definition wrapping_add (w a b : Z) : Z := wrap w (a + b).
Definition wrapping_sub (w a b : Z) : Z := wrap w (a - b).

(** A result outside the type panics under overflow checks and wraps otherwise. *)
Definition fit `{Profile} (w z : Z) : outcome Z :=
  if (0 <=? z) && (z <? 2 ^ w) then Ret z
  else if overflow_checks then Panic else Ret (wrap w z).

Definition uadd `{Profile} (w a b : Z) : outcome Z := fit w (a + b).
Definition usub `{Profile} (w a b : Z) : outcome Z := fit w (a - b).
Definition umul `{Profile} (w a b : Z) : outcome Z := fit w (a * b).

(** [a << s]: the amount must be below the width; release builds mask it. *)
Definition ushl `{Profile} (w a s : Z) : outcome Z :=
  if s <? w then Ret (wrap w (Z.shiftl a s))
  else if overflow_checks then Panic else Ret (wrap w (Z.shiftl a (s mod w))).

(** [!a] on a [w]-bit unsigned integer *)
Definition unot (w a : Z) : Z := Z.lxor a (Z.ones w).

(** [z as i32], [z as u32] and the like *)
Definition as_signed (w z : Z) : Z := (z + 2 ^ (w - 1)) mod 2 ^ w - 2 ^ (w - 1).

Definition sint (w z : Z) : Prop := - 2 ^ (w - 1) <= z < 2 ^ (w - 1).

#[export] Instance sint_dec w z : Decision (sint w z).
Proof. unfold sint. apply _. Defined.

Lemma as_signed_range w z : 0 < w -> sint w (as_signed w z).
Proof.
  intros Hw. unfold sint, as_signed.
  assert (2 ^ w = 2 * 2 ^ (w - 1)) as -> by (rewrite <-Z.pow_succ_r by lia; f_equal; lia).
  assert (0 < 2 ^ (w - 1)) by (apply Z.pow_pos_nonneg; lia).
  pose proof (Z.mod_pos_bound (z + 2 ^ (w - 1)) (2 * 2 ^ (w - 1)) ltac:(lia)). lia.
Qed.

Lemma as_signed_small w z : 0 < w -> sint w z -> as_signed w z = z.
Proof.
  intros Hw. unfold sint, as_signed.
  assert (2 ^ w = 2 * 2 ^ (w - 1)) as -> by (rewrite <-Z.pow_succ_r by lia; f_equal; lia).
  intros. rewrite Z.mod_small by lia. lia.
Qed.

(** [a % b] on unsigned values *)
Definition urem (a b : Z) : outcome Z := if b =? 0 then Panic else Ret (a mod b).

Lemma urem_pos a b : 0 < b -> urem a b = Ret (a mod b).
Proof. intros Hb. unfold urem. by rewrite (proj2 (Z.eqb_neq _ _)) by lia. Qed.

Lemma wrap_range w z : 0 <= w -> uint w (wrap w z).
Proof. intros. apply Z.mod_pos_bound. by apply Z.pow_pos_nonneg. Qed.

Lemma wrap_small w z : uint w z -> wrap w z = z.
Proof. intros [??]. by apply Z.mod_small. Qed.

Lemma fit_small `{Profile} w z : uint w z -> fit w z = Ret z.
Proof.
  intros [??]. unfold fit.
  by rewrite (proj2 (Z.leb_le _ _)), (proj2 (Z.ltb_lt _ _)).
Qed.

Lemma uadd_small `{Profile} w a b : uint w (a + b) -> uadd w a b = Ret (a + b).
Proof. apply fit_small. Qed.
Lemma usub_small `{Profile} w a b : uint w (a - b) -> usub w a b = Ret (a - b).
Proof. apply fit_small. Qed.

Lemma umul_small `{Profile} w a b : uint w (a * b) -> umul w a b = Ret (a * b).
Proof. apply fit_small. Qed.

Lemma wrap_wrap_add_l w a b : wrap w (wrap w a + b) = wrap w (a + b).
Proof. apply Zplus_mod_idemp_l. Qed.
Lemma wrap_wrap_sub_l w a b : wrap w (wrap w a - b) = wrap w (a - b).
Proof. apply Zminus_mod_idemp_l. Qed.
Lemma wrap_wrap_sub_r w a b : wrap w (a - wrap w b) = wrap w (a - b).
Proof. apply Zminus_mod_idemp_r. Qed.
Lemma wrap_wrap_add_r w a b : wrap w (a + wrap w b) = wrap w (a + b).
Proof. apply Zplus_mod_idemp_r. Qed.

Lemma wrap_add_pow w z : 0 <= w -> wrap w (z + 2 ^ w) = wrap w z.
Proof.
  intros. unfold wrap. rewrite <- Zplus_mod_idemp_r, Z_mod_same_full. f_equal. lia.
Qed.

(** ** Bit fields

    [getf x lo w] reads the [w] bits of [x] from bit [lo] up; [setf x lo w v]
    replaces them. The accessors of the header structs are instances. *)

Definition getf (x lo w : Z) : Z := Z.land (Z.shiftr x lo) (Z.ones w).
Definition setf (x lo w v : Z) : Z :=
  Z.lor (Z.ldiff x (Z.shiftl (Z.ones w) lo)) (Z.shiftl v lo).

Lemma testbit_ones_dec w i : 0 <= w -> 0 <= i -> Z.testbit (Z.ones w) i = (i <? w).
Proof. intros. rewrite Z.testbit_ones by done. by rewrite (proj2 (Z.leb_le _ _)). Qed.

Lemma uint_testbit_high w z i : uint w z -> w <= i -> Z.testbit z i = false.
Proof.
  intros Hz ?. destruct (decide (w < 0)).
  { destruct Hz as [? Hz]. rewrite Z.pow_neg_r in Hz; lia. }
  rewrite <- (wrap_small w z) by done. apply Z.mod_pow2_bits_high. lia.
Qed.

Lemma testbit_uint w z :
  0 <= w -> (forall i, w <= i -> Z.testbit z i = false) -> uint w z.
Proof.
  intros ? Hi. replace z with (wrap w z); [by apply wrap_range|].
  apply Z.bits_inj'. intros i ?. unfold wrap.
  destruct (decide (i < w)).
  - by rewrite Z.mod_pow2_bits_low by lia.
  - rewrite Z.mod_pow2_bits_high by lia. symmetry. apply Hi. lia.
Qed.

Lemma getf_testbit x lo w i :
  0 <= lo -> 0 <= w -> 0 <= i ->
  Z.testbit (getf x lo w) i = (i <? w) && Z.testbit x (i + lo).
Proof.
  intros. unfold getf.
  rewrite Z.land_spec, testbit_ones_dec, Z.shiftr_spec by done. apply andb_comm.
Qed.

Lemma setf_testbit x lo w v i :
  0 <= lo -> 0 <= w -> uint w v -> 0 <= i ->
  Z.testbit (setf x lo w v) i =
  if (lo <=? i) && (i <? lo + w) then Z.testbit v (i - lo) else Z.testbit x i.
Proof.
  intros ?? Hv ?. unfold setf.
  rewrite Z.lor_spec, Z.ldiff_spec, !Z.shiftl_spec by done.
  destruct (Z.leb_spec lo i); simpl.
  - rewrite testbit_ones_dec by lia.
    destruct (Z.ltb_spec (i - lo) w), (Z.ltb_spec i (lo + w)); try lia; simpl.
    + by rewrite andb_false_r.
    + rewrite (uint_testbit_high w v) by (done || lia).
      by rewrite andb_true_r, orb_false_r.
  - rewrite !(Z.testbit_neg_r _ (i - lo)) by lia.
    by rewrite andb_true_r, orb_false_r.
Qed.

Lemma getf_uint x lo w : 0 <= w -> uint w (getf x lo w).
Proof. intros. unfold getf. rewrite Z.land_ones by done. by apply wrap_range. Qed.

Lemma getf_setf_same x lo w v :
  0 <= lo -> 0 <= w -> uint w v -> getf (setf x lo w v) lo w = v.
Proof.
  intros ?? Hv. apply Z.bits_inj'. intros i ?.
  rewrite getf_testbit, setf_testbit by (done || lia).
  destruct (Z.ltb_spec i w); simpl.
  - rewrite (proj2 (Z.leb_le lo (i + lo))), (proj2 (Z.ltb_lt (i + lo) (lo + w))) by lia.
    simpl. f_equal. lia.
  - symmetry. by apply (uint_testbit_high w).
Qed.

Lemma getf_setf_other x lo w v lo' w' :
  0 <= lo -> 0 <= w -> uint w v -> 0 <= lo' -> 0 <= w' ->
  lo + w <= lo' \/ lo' + w' <= lo ->
  getf (setf x lo w v) lo' w' = getf x lo' w'.
Proof.
  intros ?? Hv ?? Hdis. apply Z.bits_inj'. intros i ?.
  rewrite !getf_testbit, setf_testbit by (done || lia).
  destruct (Z.ltb_spec i w'); simpl; [|done].
  destruct (Z.leb_spec lo (i + lo')), (Z.ltb_spec (i + lo') (lo + w)); simpl; try done. lia.
Qed.

Lemma setf_uint W x lo w v :
  0 <= lo -> 0 <= w -> lo + w <= W -> uint W x -> uint w v -> uint W (setf x lo w v).
Proof.
  intros ??? Hx Hv. apply testbit_uint; [lia|]. intros i ?.
  rewrite setf_testbit by (done || lia).
  destruct (Z.leb_spec lo i), (Z.ltb_spec i (lo + w)); simpl; try lia;
    by apply (uint_testbit_high W).
Qed.

(** The two shapes in which the code spells a field read and a field write. *)
Lemma getf_mask_shift x lo w :
  0 <= lo -> 0 <= w -> Z.shiftr (Z.land x (Z.shiftl (Z.ones w) lo)) lo = getf x lo w.
Proof.
  intros. apply Z.bits_inj'. intros i ?.
  rewrite getf_testbit, Z.shiftr_spec, Z.land_spec, Z.shiftl_spec by lia.
  rewrite testbit_ones_dec by lia. replace (i + lo - lo) with i by lia. apply andb_comm.
Qed.

Lemma setf_mask_or W x lo w v :
  0 <= lo -> 0 <= w -> lo + w <= W -> uint W x ->
  Z.lor (Z.land x (unot W (Z.shiftl (Z.ones w) lo))) (Z.shiftl v lo) = setf x lo w v.
Proof.
  intros ??? Hx. unfold setf. f_equal. apply Z.bits_inj'. intros i ?. unfold unot.
  rewrite Z.land_spec, Z.ldiff_spec, Z.lxor_spec, testbit_ones_dec by lia.
  destruct (Z.ltb_spec i W).
  - by rewrite xorb_true_r.
  - by rewrite (uint_testbit_high W x) by done.
Qed.

Lemma unot_uint w a : 0 <= w -> uint w a -> uint w (unot w a).
Proof.
  intros ? Ha. apply testbit_uint; [done|]. intros i ?. unfold unot.
  rewrite Z.lxor_spec, testbit_ones_dec by lia.
  rewrite (uint_testbit_high w a) by done. by destruct (Z.ltb_spec i w); [lia|].
Qed.

Lemma land_uint w a b : 0 <= w -> uint w a -> uint w (Z.land a b).
Proof.
  intros ? Ha. apply testbit_uint; [done|]. intros i ?.
  by rewrite Z.land_spec, (uint_testbit_high w a).
Qed.

Lemma lor_uint w a b : 0 <= w -> uint w a -> uint w b -> uint w (Z.lor a b).
Proof.
  intros ? Ha Hb. apply testbit_uint; [done|]. intros i ?.
  by rewrite Z.lor_spec, (uint_testbit_high w a), (uint_testbit_high w b).
Qed.

Lemma uint_weaken w w' z : uint w z -> 0 <= w <= w' -> uint w' z.
Proof.
  intros [??] ?. split; [done|]. eapply Z.lt_le_trans; [done|]. apply Z.pow_le_mono_r; lia.
Qed.

(** Single bits, as the flag constants of the code use them *)
Lemma testbit_pow2_dec k i : 0 <= k -> 0 <= i -> Z.testbit (2 ^ k) i = (i =? k).
Proof. intros. rewrite Z.pow2_bits_eqb by done. apply Z.eqb_sym. Qed.

Lemma lor_bit x k : 0 <= k -> Z.lor x (2 ^ k) = setf x k 1 1.
Proof.
  intros. apply Z.bits_inj'. intros i ?.
  rewrite setf_testbit, Z.lor_spec, testbit_pow2_dec by (unfold uint; lia).
  destruct (Z.eqb_spec i k) as [->|].
  - rewrite orb_true_r, (proj2 (Z.leb_le _ _)), (proj2 (Z.ltb_lt _ _)), Z.sub_diag by lia. done.
  - rewrite orb_false_r. destruct (Z.leb_spec k i), (Z.ltb_spec i (k + 1)); simpl; (done || lia).
Qed.

Lemma land_unot_bit W x k : 0 <= k < W -> uint W x -> Z.land x (unot W (2 ^ k)) = setf x k 1 0.
Proof.
  intros ? Hx. apply Z.bits_inj'. intros i ?. unfold unot.
  rewrite setf_testbit, Z.land_spec, Z.lxor_spec, testbit_pow2_dec, testbit_ones_dec, Z.bits_0
    by (unfold uint; lia).
  destruct (Z.eqb_spec i k) as [->|].
  - rewrite (proj2 (Z.leb_le _ _)), !(proj2 (Z.ltb_lt _ _)) by lia. simpl. apply andb_false_r.
  - destruct (Z.leb_spec k i), (Z.ltb_spec i (k + 1)), (Z.ltb_spec i W); simpl; try lia;
      rewrite ?andb_true_r; try done; by rewrite (uint_testbit_high W x) by (done || lia).
Qed.

Lemma getf_bit x k : 0 <= k -> getf x k 1 = Z.b2z (Z.testbit x k).
Proof.
  intros. apply Z.bits_inj'. intros i ?. rewrite getf_testbit by lia.
  destruct (Z.ltb_spec i 1); simpl.
  - replace i with 0 by lia. rewrite Z.add_0_l. by destruct (Z.testbit x k).
  - destruct (Z.testbit x k); [|by rewrite Z.bits_0].
    symmetry. apply (uint_testbit_high 1); [unfold uint; simpl; lia|lia].
Qed.

Lemma land_bit_nonzero x k : 0 <= k -> negb (Z.land x (2 ^ k) =? 0) = Z.testbit x k.
Proof.
  intros. destruct (Z.testbit x k) eqn:E.
  - destruct (Z.eqb_spec (Z.land x (2 ^ k)) 0) as [E0|]; [|done].
    apply (f_equal (fun z => Z.testbit z k)) in E0.
    by rewrite Z.land_spec, E, testbit_pow2_dec, Z.eqb_refl, Z.bits_0 in E0 by done.
  - destruct (Z.eqb_spec (Z.land x (2 ^ k)) 0) as [|E0]; [done|]. exfalso. apply E0.
    apply Z.bits_inj'. intros i ?. rewrite Z.land_spec, testbit_pow2_dec, Z.bits_0 by done.
    destruct (Z.eqb_spec i k) as [->|]; [by rewrite E|apply andb_false_r].
Qed.

(** Split on every comparison of the goal that [lia] does not decide. *)
Ltac cmp_cases :=
  repeat match goal with
  | |- context [?a <? ?b] => destruct (Z.ltb_spec a b); try lia; simpl
  | |- context [?a <=? ?b] => destruct (Z.leb_spec a b); try lia; simpl
  end.

(** ** Byte order: [u16::to_be] and friends on a little-endian machine swap bytes *)

Definition swap16 (x : Z) : Z :=
  Z.lor (Z.shiftl (getf x 0 8) 8) (getf x 8 8).
Definition swap32 (x : Z) : Z :=
  Z.lor (Z.lor (Z.shiftl (getf x 0 8) 24) (Z.shiftl (getf x 8 8) 16))
        (Z.lor (Z.shiftl (getf x 16 8) 8) (getf x 24 8)).

Lemma swap16_testbit x i :
  0 <= i ->
  Z.testbit (swap16 x) i = (i <? 16) && Z.testbit x (if i <? 8 then i + 8 else i - 8).
Proof.
  intros. unfold swap16. rewrite Z.lor_spec, Z.shiftl_spec, (getf_testbit x 8 8) by lia.
  destruct (Z.ltb_spec i 8).
  - rewrite (Z.testbit_neg_r _ (i - 8)) by lia. by rewrite (proj2 (Z.ltb_lt i 16)) by lia.
  - rewrite getf_testbit by lia. simpl. rewrite orb_false_r.
    replace (i - 8 + 0) with (i - 8) by lia. f_equal.
    destruct (Z.ltb_spec (i - 8) 8), (Z.ltb_spec i 16); lia.
Qed.

Lemma swap32_testbit x i :
  0 <= i ->
  Z.testbit (swap32 x) i =
  (i <? 32) && Z.testbit x (if i <? 8 then i + 24 else if i <? 16 then i + 8
                            else if i <? 24 then i - 8 else i - 24).
Proof.
  intros. unfold swap32. rewrite !Z.lor_spec, !Z.shiftl_spec, (getf_testbit x 24 8) by lia.
  assert (Hf : forall lo sh, 0 <= lo -> 0 <= sh ->
    Z.testbit (getf x lo 8) (i - sh) = (sh <=? i) && (i <? sh + 8) && Z.testbit x (i - sh + lo)).
  { intros lo sh ??. destruct (Z.leb_spec sh i); simpl.
    - rewrite getf_testbit by lia. f_equal.
      destruct (Z.ltb_spec (i - sh) 8), (Z.ltb_spec i (sh + 8)); lia.
    - by apply Z.testbit_neg_r; lia. }
  rewrite !Hf by lia.
  cmp_cases; rewrite ?orb_false_r; try done; f_equal; lia.
Qed.

Lemma swap16_uint x : uint 16 (swap16 x).
Proof.
  apply testbit_uint; [done|]. intros i ?. rewrite swap16_testbit by lia.
  by rewrite (proj2 (Z.ltb_ge i 16)) by lia.
Qed.

Lemma swap32_uint x : uint 32 (swap32 x).
Proof.
  apply testbit_uint; [done|]. intros i ?. rewrite swap32_testbit by lia.
  by rewrite (proj2 (Z.ltb_ge i 32)) by lia.
Qed.

Lemma swap16_swap16 x : uint 16 x -> swap16 (swap16 x) = x.
Proof.
  intros Hx. apply Z.bits_inj'. intros i ?. rewrite swap16_testbit by done.
  destruct (Z.ltb_spec i 16); simpl; [|by rewrite (uint_testbit_high 16 x)].
  destruct (Z.ltb_spec i 8); rewrite swap16_testbit by lia;
    cmp_cases; f_equal; lia.
Qed.

Lemma swap32_swap32 x : uint 32 x -> swap32 (swap32 x) = x.
Proof.
  intros Hx. apply Z.bits_inj'. intros i ?. rewrite swap32_testbit by done.
  destruct (Z.ltb_spec i 32); simpl; [|by rewrite (uint_testbit_high 32 x)].
  destruct (Z.ltb_spec i 8); [|destruct (Z.ltb_spec i 16); [|destruct (Z.ltb_spec i 24)]];
    rewrite swap32_testbit by lia;
    cmp_cases; f_equal; lia.
Qed.

Abbreviation zlen l := (Z.of_nat (length l)).

(** ** Byte strings: a byte is a [Z] in [0, 256) *)

Definition bytes_ok (l : list Z) : Prop := Forall (uint 8) l.

#[export] Instance bytes_ok_dec l : Decision (bytes_ok l).
Proof. unfold bytes_ok. apply _. Defined.

Fixpoint le_bytes (n : nat) (z : Z) : list Z :=
  match n with
  | O => []
  | S n => getf z 0 8 :: le_bytes n (Z.shiftr z 8)
  end.

Fixpoint le_val (l : list Z) : Z :=
  match l with
  | [] => 0
  | b :: l => b + 2 ^ 8 * le_val l
  end.

Definition be_bytes (n : nat) (z : Z) : list Z := rev (le_bytes n z).
Definition be_val (l : list Z) : Z := le_val (rev l).

Lemma length_le_bytes n z : length (le_bytes n z) = n.
Proof. revert z. induction n; simpl; intros; auto. Qed.

Lemma le_bytes_ok n z : bytes_ok (le_bytes n z).
Proof.
  unfold bytes_ok. revert z. induction n; simpl; intros; constructor; auto. by apply getf_uint.
Qed.

Lemma le_val_bytes n z : le_val (le_bytes n z) = wrap (8 * Z.of_nat n) z.
Proof.
  revert z. induction n as [|n IH]; intros z.
  { unfold wrap. simpl. by rewrite Z.mod_1_r. }
  simpl le_bytes. simpl le_val. rewrite IH. unfold wrap, getf.
  rewrite Z.land_ones, Z.shiftr_0_r, Z.shiftr_div_pow2 by lia.
  replace (8 * Z.of_nat (S n)) with (8 + 8 * Z.of_nat n) by lia.
  rewrite Z.pow_add_r by lia.
  rewrite (Z.rem_mul_r z (2 ^ 8)); [done|lia|]. apply Z.pow_pos_nonneg; lia.
Qed.

Lemma le_val_uint l : bytes_ok l -> uint (8 * zlen l) (le_val l).
Proof.
  unfold uint. induction 1 as [|b l [??] ? IH]; cbn [le_val length]; [by simpl|].
  replace (8 * Z.of_nat (S (length l))) with (8 + 8 * zlen l) by lia.
  rewrite Z.pow_add_r by lia. lia.
Qed.

Lemma le_bytes_val l : bytes_ok l -> le_bytes (length l) (le_val l) = l.
Proof.
  induction 1 as [|b l [Hb0 Hb1] ? IH]; [done|]. cbn [le_val length le_bytes].
  assert (Hm : forall z, (b + 2 ^ 8 * z) mod 2 ^ 8 = b).
  { intros. rewrite (Z.mul_comm (2 ^ 8)), Z.mod_add by lia. by apply Z.mod_small. }
  assert (Hd : forall z, (b + 2 ^ 8 * z) / 2 ^ 8 = z).
  { intros. rewrite (Z.mul_comm (2 ^ 8)), Z.div_add by lia. rewrite Z.div_small by lia. lia. }
  f_equal.
  - unfold getf. by rewrite Z.land_ones, Z.shiftr_0_r, Hm by lia.
  - by rewrite Z.shiftr_div_pow2, Hd, IH by lia.
Qed.

Lemma length_be_bytes n z : length (be_bytes n z) = n.
Proof. unfold be_bytes. by rewrite length_rev, length_le_bytes. Qed.

Lemma be_val_bytes n z : be_val (be_bytes n z) = wrap (8 * Z.of_nat n) z.
Proof. unfold be_val, be_bytes. by rewrite rev_involutive, le_val_bytes. Qed.

Lemma be_bytes_ok n z : bytes_ok (be_bytes n z).
Proof. unfold be_bytes, bytes_ok. apply Forall_rev, le_bytes_ok. Qed.

Lemma bytes_ok_app a b : bytes_ok a -> bytes_ok b -> bytes_ok (a ++ b).
Proof. apply Forall_app_2. Qed.

Lemma bytes_ok_take n l : bytes_ok l -> bytes_ok (take n l).
Proof. apply Forall_take. Qed.
Lemma bytes_ok_drop n l : bytes_ok l -> bytes_ok (drop n l).
Proof. apply Forall_drop. Qed.

(** Two's-complement-free arithmetic facts about fields of a word. *)
Lemma getf_div x lo w : 0 <= lo -> 0 <= w -> getf x lo w = (x / 2 ^ lo) mod 2 ^ w.
Proof. intros. unfold getf. by rewrite Z.land_ones, Z.shiftr_div_pow2. Qed.

Lemma getf_getf x lo w lo' w' :
  0 <= lo -> 0 <= w -> 0 <= lo' -> 0 <= w' -> lo' + w' <= w ->
  getf (getf x lo w) lo' w' = getf x (lo + lo') w'.
Proof.
  intros. apply Z.bits_inj'. intros i ?. rewrite !getf_testbit by lia.
  destruct (Z.ltb_spec i w'); simpl; [|done]. rewrite (proj2 (Z.ltb_lt _ _)) by lia. simpl.
  f_equal. lia.
Qed.

Lemma getf_shiftr x lo w s :
  0 <= lo -> 0 <= w -> 0 <= s -> getf (Z.shiftr x s) lo w = getf x (s + lo) w.
Proof.
  intros. apply Z.bits_inj'. intros i ?. rewrite !getf_testbit, Z.shiftr_spec by lia.
  do 2 f_equal. lia.
Qed.

Lemma getf_all w x : 0 <= w -> uint w x -> getf x 0 w = x.
Proof. intros. unfold getf. rewrite Z.land_ones, Z.shiftr_0_r by done. by apply wrap_small. Qed.

Lemma lor_shiftl_add a b k : 0 <= k -> uint k b -> Z.lor (Z.shiftl a k) b = a * 2 ^ k + b.
Proof.
  intros Hk Hb. rewrite <- Z.shiftl_mul_pow2 by done. symmetry. apply Z.add_nocarry_lor.
  apply Z.bits_inj'. intros i ?. rewrite Z.land_spec, Z.bits_0, Z.shiftl_spec by done.
  destruct (decide (i < k)).
  - by rewrite Z.testbit_neg_r by lia.
  - rewrite (uint_testbit_high k b) by (done || lia). apply andb_false_r.
Qed.

Lemma swap16_be x : swap16 x = be_val (le_bytes 2 x).
Proof.
  unfold swap16. rewrite lor_shiftl_add by (try apply getf_uint; lia).
  unfold be_val. cbn [le_bytes rev app le_val].
  rewrite (getf_shiftr x 0 8 8) by lia. change (8 + 0) with 8. lia.
Qed.

Lemma swap32_be x : swap32 x = be_val (le_bytes 4 x).
Proof.
  unfold swap32. unfold be_val. cbn [le_bytes rev app le_val].
  rewrite !Z.shiftr_shiftr, !(getf_shiftr x 0 8) by lia.
  change (8 + 0) with 8. change (8 + 8 + 0) with 16. change (8 + (8 + 8) + 0) with 24.
  set (a := getf x 0 8). set (b := getf x 8 8). set (c := getf x 16 8). set (d := getf x 24 8).
  assert (uint 8 a /\ uint 8 b /\ uint 8 c /\ uint 8 d) as (?&?&?&?)
    by (split_and!; by apply getf_uint).
  rewrite (lor_shiftl_add c d 8) by (done || lia).
  assert (Hl : Z.lor (Z.shiftl a 24) (Z.shiftl b 16) = Z.shiftl (a * 2 ^ 8 + b) 16).
  { rewrite <- lor_shiftl_add by (done || lia).
    by rewrite Z.shiftl_lor, Z.shiftl_shiftl by lia. }
  rewrite Hl, lor_shiftl_add by (unfold uint in *; lia). lia.
Qed.

Lemma le_bytes_2 x : le_bytes 2 x = [getf x 0 8; getf x 8 8].
Proof. unfold le_bytes. rewrite getf_shiftr by lia. done. Qed.

Lemma le_bytes_4 x : le_bytes 4 x = [getf x 0 8; getf x 8 8; getf x 16 8; getf x 24 8].
Proof. unfold le_bytes. by rewrite !Z.shiftr_shiftr, !getf_shiftr by lia. Qed.

Lemma be_val_pair x lo :
  0 <= lo -> be_val [getf x lo 8; getf x (lo + 8) 8] = swap16 (getf x lo 16).
Proof.
  intros. rewrite swap16_be, le_bytes_2, !getf_getf by lia. by rewrite Z.add_0_r.
Qed.

Lemma wrap_getf k x lo w : 0 <= w <= k -> wrap k (getf x lo w) = getf x lo w.
Proof. intros. apply wrap_small, (uint_weaken w); [apply getf_uint|]; lia. Qed.

Lemma land_ones_id w v : 0 <= w -> uint w v -> Z.land v (Z.ones w) = v.
Proof. intros. rewrite Z.land_ones by done. by apply wrap_small. Qed.

Lemma le_bytes_1 x : le_bytes 1 x = [getf x 0 8].
Proof. done. Qed.

(** ** Vectors and slices: indexing out of range panics *)


Section vectors.
Context {A : Type}.
Implicit Types l d : list A.

(** [l[i]] *)
Definition vindex l (i : Z) : outcome A :=
  if 0 <=? i then unwrap (l !! Z.to_nat i) else Panic.

(** [l[i] = v] *)
Definition vset l (i : Z) (v : A) : outcome (list A) :=
  if (0 <=? i) && (i <? zlen l) then Ret (<[Z.to_nat i := v]> l) else Panic.

(** [&l[a..b]] *)
Definition vslice l (a b : Z) : outcome (list A) :=
  if (0 <=? a) && (a <=? b) && (b <=? zlen l)
  then Ret (take (Z.to_nat (b - a)) (drop (Z.to_nat a) l)) else Panic.

(** The contents of [l] after [d] is copied over it from position [off]. *)
Definition splice l (off : Z) d : list A :=
  take (Z.to_nat off) l ++ d ++ drop (Z.to_nat off + length d) l.

Lemma vindex_Ret l i x :
  vindex l i = Ret x <-> 0 <= i /\ l !! Z.to_nat i = Some x.
Proof.
  unfold vindex, unwrap. destruct (Z.leb_spec 0 i); [|split; [done|lia]].
  destruct (l !! Z.to_nat i) eqn:E; split; [intros [= ->]|intros [? [= ->]]|done|intros [? [=]]]; done.
Qed.

Lemma vindex_lt l i : 0 <= i < zlen l -> exists x, vindex l i = Ret x.
Proof.
  intros. destruct (lookup_lt_is_Some_2 l (Z.to_nat i)) as [x Hx]; [lia|].
  exists x. apply vindex_Ret. split; [lia|done].
Qed.

Lemma vindex_oob l i : zlen l <= i -> vindex l i = Panic.
Proof.
  intros. unfold vindex, unwrap. destruct (Z.leb_spec 0 i); [|done].
  by rewrite lookup_ge_None_2 by lia.
Qed.

Lemma vset_Ret l i v : 0 <= i < zlen l -> vset l i v = Ret (<[Z.to_nat i := v]> l).
Proof.
  intros. unfold vset. by rewrite (proj2 (Z.leb_le _ _)), (proj2 (Z.ltb_lt _ _)) by lia.
Qed.

Lemma vslice_Ret l a b :
  0 <= a -> a <= b -> b <= zlen l ->
  vslice l a b = Ret (take (Z.to_nat (b - a)) (drop (Z.to_nat a) l)).
Proof. intros. unfold vslice. by rewrite !(proj2 (Z.leb_le _ _)) by lia. Qed.

Lemma vslice_Ret_inv l a b d :
  vslice l a b = Ret d -> (0 <= a <= b /\ b <= zlen l) /\ d = take (Z.to_nat (b - a)) (drop (Z.to_nat a) l).
Proof.
  unfold vslice. destruct (Z.leb_spec 0 a), (Z.leb_spec a b), (Z.leb_spec b (zlen l)); simpl; try done.
  intros [= <-]. split; [lia|done].
Qed.

Lemma vslice_from l a : 0 <= a <= zlen l -> vslice l a (zlen l) = Ret (drop (Z.to_nat a) l).
Proof. intros. rewrite vslice_Ret by lia. by rewrite take_ge by (rewrite length_drop; lia). Qed.

Lemma vslice_to l b : 0 <= b <= zlen l -> vslice l 0 b = Ret (take (Z.to_nat b) l).
Proof. intros. rewrite vslice_Ret by lia. by rewrite Z.sub_0_r, drop_0. Qed.

Lemma length_splice l off d :
  0 <= off -> off + zlen d <= zlen l -> length (splice l off d) = length l.
Proof. intros. unfold splice. rewrite !length_app, length_take, length_drop. lia. Qed.

Lemma splice_lookup l off d i :
  0 <= off -> off + zlen d <= zlen l ->
  splice l off d !! i =
  if decide (Z.to_nat off <= i < Z.to_nat off + length d)%nat
  then d !! (i - Z.to_nat off)%nat else l !! i.
Proof.
  intros. unfold splice. case_decide.
  - rewrite lookup_app_r; rewrite length_take_le by lia; [|lia].
    by rewrite lookup_app_l by lia.
  - destruct (decide (i < Z.to_nat off)%nat).
    + rewrite lookup_app_l by (rewrite length_take; lia). apply lookup_take_lt. lia.
    + rewrite lookup_app_r; rewrite length_take_le by lia; [|lia].
      rewrite lookup_app_r by lia. rewrite lookup_drop. f_equal. lia.
Qed.

Lemma splice_splice_same l off d d' :
  0 <= off -> off + zlen d <= zlen l -> length d' = length d ->
  splice (splice l off d) off d' = splice l off d'.
Proof.
  intros. apply list_eq. intros i.
  rewrite !splice_lookup by (rewrite ?length_splice; lia). repeat case_decide; (done || lia).
Qed.

Lemma splice_adjacent l off d d' :
  0 <= off -> off + zlen d + zlen d' <= zlen l ->
  splice (splice l (off + zlen d) d') off d = splice l off (d ++ d').
Proof.
  intros. apply list_eq. intros i.
  rewrite !splice_lookup by (rewrite ?length_splice, ?length_app; lia). rewrite length_app.
  repeat case_decide; try lia; try done;
    [by rewrite lookup_app_l by lia|rewrite lookup_app_r by lia; f_equal; lia].
Qed.

Lemma splice_nil l off : splice l off [] = l.
Proof. unfold splice. simpl. by rewrite Nat.add_0_r, take_drop. Qed.

Lemma vslice_splice_same l off d :
  0 <= off -> off + zlen d <= zlen l ->
  vslice (splice l off d) off (off + zlen d) = Ret d.
Proof.
  intros. rewrite vslice_Ret by (rewrite ?length_splice; lia). f_equal.
  unfold splice. rewrite drop_app_length' by (rewrite length_take; lia).
  by rewrite take_app_length' by lia.
Qed.

Lemma vslice_lookup l a b d :
  vslice l a b = Ret d ->
  0 <= a <= b /\ b <= zlen l /\ zlen d = b - a /\
  forall i, (i < length d)%nat -> d !! i = l !! (Z.to_nat a + i)%nat.
Proof.
  unfold vslice. intros Hs.
  destruct (Z.leb_spec 0 a), (Z.leb_spec a b), (Z.leb_spec b (zlen l)); simpl in Hs; try done.
  injection Hs as <-. rewrite length_take, length_drop. split_and!; try lia.
  intros i Hi. rewrite lookup_take_lt by lia. by rewrite lookup_drop.
Qed.

Lemma vslice_splice_disjoint l off d a b :
  0 <= off -> off + zlen d <= zlen l ->
  b <= off \/ off + zlen d <= a ->
  vslice (splice l off d) a b = vslice l a b.
Proof.
  intros ?? Hdis. unfold vslice. rewrite length_splice by done.
  destruct (Z.leb_spec 0 a), (Z.leb_spec a b), (Z.leb_spec b (zlen l)); simpl; try done.
  f_equal. apply list_eq. intros i. destruct (decide (i < Z.to_nat (b - a))%nat).
  - rewrite !lookup_take_lt, !lookup_drop, splice_lookup by lia. case_decide; [lia|done].
  - by rewrite !lookup_take_ge by lia.
Qed.

Lemma vindex_splice_disjoint l off d i :
  0 <= off -> off + zlen d <= zlen l -> i < off \/ off + zlen d <= i ->
  vindex (splice l off d) i = vindex l i.
Proof.
  intros. unfold vindex. destruct (Z.leb_spec 0 i); [|done]. f_equal.
  rewrite splice_lookup by done. case_decide; [lia|done].
Qed.

End vectors.

Lemma bytes_ok_splice l off d : bytes_ok l -> bytes_ok d -> bytes_ok (splice l off d).
Proof. intros. unfold bytes_ok, splice. by repeat apply Forall_app_2; [apply Forall_take| |apply Forall_drop]. Qed.

Lemma vindex_byte l i b : bytes_ok l -> vindex l i = Ret b -> uint 8 b.
Proof. intros Hl [_ Hb]%vindex_Ret. by eapply Forall_lookup_1. Qed.


#[global] Arguments wrap : simpl never.
#[global] Arguments fit : simpl never.
#[global] Arguments uadd : simpl never.
#[global] Arguments usub : simpl never.
#[global] Arguments umul : simpl never.
#[global] Arguments getf : simpl never.
#[global] Arguments setf : simpl never.
#[global] Arguments swap16 : simpl never.
#[global] Arguments swap32 : simpl never.
#[global] Arguments be_bytes : simpl never.
#[global] Arguments be_val : simpl never.
#[global] Arguments vindex : simpl never.
#[global] Arguments vset : simpl never.
#[global] Arguments vslice : simpl never.
#[global] Arguments splice : simpl never.
#[global] Arguments le_bytes : simpl never.
#[global] Arguments le_val : simpl never.

(** ** Hash maps *)

(** The order in which a hash map lists its keys *)
Class HashOrder (K : Type) `{Countable K} : Type := {
  keys : forall {A}, gmap K A -> list K;
  keys_permutation {A} (m : gmap K A) : keys m ≡ₚ (map_to_list m).*1
}.

Section hash_maps.
Context {K : Type} `{Countable K} {HO : HashOrder K}.

Lemma elem_of_keys {A} (m : gmap K A) k : k ∈ keys m <-> is_Some (m !! k).
Proof.
  rewrite keys_permutation, list_elem_of_fmap. split.
  - intros ([k' v] & -> & Hk%elem_of_map_to_list). eauto.
  - intros [v Hv]. exists (k, v). split; [done|]. by apply elem_of_map_to_list.
Qed.

Lemma NoDup_keys {A} (m : gmap K A) : NoDup (keys m).
Proof. rewrite keys_permutation. apply NoDup_fst_map_to_list. Qed.

(** [for (k, v) in &m] *)
Definition entries {A} (m : gmap K A) : list (K * A) := omap (fun k => (fun v => (k, v)) <$> m !! k) (keys m).

Lemma elem_of_entries {A} (m : gmap K A) k v : (k, v) ∈ entries m <-> m !! k = Some v.
Proof.
  unfold entries. rewrite list_elem_of_omap. split.
  - intros (k' & _ & Hk). destruct (m !! k') eqn:Hm; [|done]. by injection Hk as <- <-.
  - intros Hm. exists k. rewrite elem_of_keys, Hm. eauto.
Qed.

Lemma NoDup_entries {A} (m : gmap K A) : NoDup (entries m).*1.
Proof.
  unfold entries. assert (Hs : (omap (fun k => (fun v => (k, v)) <$> m !! k) (keys m)).*1 = filter (fun k => is_Some (m !! k)) (keys m)).
  { induction (keys m) as [|k ks IH]; [done|]. rewrite filter_cons. case_decide as Hd.
    - destruct Hd as [v Hv]. simpl. rewrite Hv. simpl. f_equal. exact IH.
    - apply eq_None_not_Some in Hd. simpl. rewrite Hd. exact IH. }
  rewrite Hs. apply NoDup_filter, NoDup_keys.
Qed.

End hash_maps.
