(* ===== verification/Utils.v ===== *)
(** * Utilities: rounding of sizes ([framework/src/utils/mod.rs])

    Pages and powers of two, on [usize] values. *)

From S2P Require Import Prelude.

(** ** Rounding ([utils/mod.rs]) *)

Definition PAGE_SIZE : Z := 4096.

Definition round_to_pages `{Profile} (buffer_size : Z) : outcome Z :=
  let! s := uadd 64 buffer_size (PAGE_SIZE - 1) in
  Ret (Z.land s (unot 64 (PAGE_SIZE - 1))).

Definition round_to_power_of_2 (size : Z) : Z :=
  let size := wrapping_sub 64 size 1 in
  let size := Z.lor size (Z.shiftr size 1) in
  let size := Z.lor size (Z.shiftr size 2) in
  let size := Z.lor size (Z.shiftr size 4) in
  let size := Z.lor size (Z.shiftr size 8) in
  let size := Z.lor size (Z.shiftr size 16) in
  let size := Z.lor size (Z.shiftr size 32) in
  wrapping_add 64 size 1.

(** [smeared n k x]: bit [i] of [x] is the disjunction of bits [i..i+k) of [n]. *)
Definition smeared (n k x : Z) : Prop :=
  forall i, 0 <= i -> Z.testbit x i = true <-> exists j, i <= j < i + k /\ Z.testbit n j = true.

Lemma smeared_start n : smeared n 1 n.
Proof.
  intros i Hi. split; [exists i; split; [lia|done]|].
  intros (j & ? & Hj). by replace i with j by lia.
Qed.

Lemma smeared_step n k x : 0 <= k -> smeared n k x -> smeared n (2 * k) (Z.lor x (Z.shiftr x k)).
Proof.
  intros Hk Hx i Hi. rewrite Z.lor_spec, orb_true_iff, Z.shiftr_spec by done.
  rewrite (Hx i), (Hx (i + k)) by lia. split.
  - intros [(j & ? & ?)|(j & ? & ?)]; exists j; split; (lia || done).
  - intros (j & ? & ?). destruct (decide (j < i + k)); [left|right]; exists j; split; (lia || done).
Qed.

Lemma smeared_ones n x :
  0 < n < 2 ^ 64 -> 0 <= x -> smeared n 64 x -> x = Z.ones (Z.log2 n + 1).
Proof.
  intros Hn Hx Hs. pose proof (Z.log2_nonneg n).
  assert (Z.log2 n < 64) by (apply (proj1 (Z.log2_lt_pow2 n 64 ltac:(lia))); lia).
  apply Z.bits_inj'. intros i Hi. rewrite testbit_ones_dec by lia.
  destruct (Z.ltb_spec i (Z.log2 n + 1)).
  - apply Hs; [done|]. exists (Z.log2 n). split; [lia|]. apply Z.bit_log2. lia.
  - apply not_true_is_false. intros Ht. apply Hs in Ht as (j & ? & Hj); [|done].
    rewrite Z.bits_above_log2 in Hj; [done|lia|lia].
Qed.

Lemma round_to_power_of_2_smear n x :
  0 < n < 2 ^ 64 ->
  x = Z.lor n (Z.shiftr n 1) ->
  forall x2 x4 x8 x16 x32,
  x2 = Z.lor x (Z.shiftr x 2) -> x4 = Z.lor x2 (Z.shiftr x2 4) ->
  x8 = Z.lor x4 (Z.shiftr x4 8) -> x16 = Z.lor x8 (Z.shiftr x8 16) ->
  x32 = Z.lor x16 (Z.shiftr x16 32) ->
  x32 = Z.ones (Z.log2 n + 1).
Proof.
  intros Hn -> x2 x4 x8 x16 x32 -> -> -> -> ->.
  apply smeared_ones; [done| |].
  - repeat first [apply Z.lor_nonneg; split | apply Z.shiftr_nonneg]; lia.
  - do 6 (apply smeared_step; [lia|]). apply smeared_start.
Qed.

(** The value computed for every input: the least power of two not below [size]
    when that fits a [usize], and [0] otherwise. *)
Lemma round_to_power_of_2_eq size :
  1 <= size < 2 ^ 64 ->
  round_to_power_of_2 size = if size <=? 2 ^ 63 then 2 ^ Z.log2_up size else 0.
Proof.
  intros Hs. unfold round_to_power_of_2, wrapping_sub.
  rewrite (wrap_small 64 (size - 1)) by (unfold uint; lia).
  destruct (decide (size = 1)) as [->|Hne]; [reflexivity|].
  rewrite (round_to_power_of_2_smear (size - 1) _ ltac:(lia) eq_refl _ _ _ _ _
             eq_refl eq_refl eq_refl eq_refl eq_refl).
  rewrite Z.ones_equiv. unfold wrapping_add.
  replace (Z.pred (2 ^ (Z.log2 (size - 1) + 1)) + 1) with (2 ^ (Z.log2 (size - 1) + 1)) by lia.
  assert (Hl : Z.log2_up size = Z.log2 (size - 1) + 1) by (rewrite Z.log2_up_eqn by lia; f_equal).
  pose proof (Z.log2_nonneg (size - 1)).
  destruct (Z.leb_spec size (2 ^ 63)).
  - rewrite Hl. apply wrap_small. split; [lia|]. apply Z.pow_lt_mono_r; [lia|lia|].
    cut (Z.log2 (size - 1) < 63); [lia|]. apply (proj1 (Z.log2_lt_pow2 (size - 1) 63 ltac:(lia))). lia.
  - replace (Z.log2 (size - 1)) with 63; [reflexivity|].
    symmetry. apply Z.log2_unique; lia.
Qed.

(** [round_to_power_of_2] returns the least power of two that is at least its
    argument, for every argument up to [2^63]. *)
Lemma round_to_power_of_2_least size :
  1 <= size <= 2 ^ 63 ->
  exists k, 0 <= k <= 63 /\ round_to_power_of_2 size = 2 ^ k /\ size <= 2 ^ k /\
  forall j, 0 <= j -> size <= 2 ^ j -> 2 ^ k <= 2 ^ j.
Proof.
  intros Hs. exists (Z.log2_up size).
  rewrite round_to_power_of_2_eq, (proj2 (Z.leb_le _ _)) by lia.
  pose proof (Z.log2_up_nonneg size).
  assert (size <= 2 ^ Z.log2_up size).
  { destruct (decide (size = 1)) as [->|]; [done|]. apply Z.log2_up_spec. lia. }
  repeat split; try lia.
  - apply Z.log2_up_le_pow2; lia.
  - intros j ? Hj. apply Z.pow_le_mono_r; [lia|]. apply Z.log2_up_le_pow2; lia.
Qed.

Lemma round_to_power_of_2_least_witness :
  exists k, 0 <= k <= 63 /\ round_to_power_of_2 33 = 2 ^ k /\ 33 <= 2 ^ k /\
  forall j, 0 <= j -> 33 <= 2 ^ j -> 2 ^ k <= 2 ^ j.
Proof. apply (round_to_power_of_2_least 33). lia. Defined.

Example round_to_power_of_2_large : round_to_power_of_2 (2 ^ 63 + 1) = 0.
Proof. reflexivity. Qed.

Lemma land_unot_low k s :
  0 <= k <= 64 -> uint 64 s -> Z.land s (unot 64 (Z.ones k)) = s - s mod 2 ^ k.
Proof.
  intros Hk Hs.
  assert (Hd : Z.land s (unot 64 (Z.ones k)) = Z.ldiff s (Z.ones k)).
  { apply Z.bits_inj'. intros i ?. unfold unot.
    rewrite Z.land_spec, Z.ldiff_spec, Z.lxor_spec, !testbit_ones_dec by lia.
    destruct (Z.ltb_spec i 64); simpl; [by rewrite xorb_true_r|].
    by rewrite (uint_testbit_high 64 s). }
  rewrite Hd, Z.ldiff_ones_r, Z.shiftl_mul_pow2, Z.shiftr_div_pow2 by lia.
  pose proof (Z.div_mod s (2 ^ k)). lia.
Qed.

(** [round_to_pages] rounds up to the least multiple of the page size, for
    every size that leaves room for the rounding. *)
Lemma round_to_pages_least `{Profile} n :
  0 <= n <= 2 ^ 64 - PAGE_SIZE ->
  exists r, round_to_pages n = Ret r /\ (PAGE_SIZE | r) /\ n <= r < n + PAGE_SIZE.
Proof.
  unfold PAGE_SIZE. intros Hn. unfold round_to_pages, PAGE_SIZE.
  rewrite uadd_small by (unfold uint; lia). simpl obind.
  change (4096 - 1) with (Z.ones 12). rewrite land_unot_low; [|lia|unfold uint; change (Z.ones 12) with 4095; lia].
  change (Z.ones 12) with 4095. change (2 ^ 12) with 4096.
  eexists. split; [done|]. pose proof (Z.mod_pos_bound (n + 4095) 4096 ltac:(lia)).
  split; [|lia]. exists ((n + 4095) / 4096). pose proof (Z.div_mod (n + 4095) 4096). lia.
Qed.

