(* ===== verification/Flows.v ===== *)
(** * IPv4 prefixes and flows ([framework/src/utils/flow.rs])

    [byteorder] is the interface [BigEndian]; the FNV hasher and DPDK's CRC and
    IPv4 checksum are arguments of the functions that call them. *)

From S2P Require Import Prelude.

(** ** The [byteorder] crate *)

Class BigEndian : Type := {
  read_u16 : list Z -> outcome Z;
  read_u32 : list Z -> outcome Z;
  write_u16 : list Z -> Z -> outcome (list Z);
  write_u32 : list Z -> Z -> outcome (list Z)
}.

(** Documented behaviour: the operations use the first 2 (or 4) bytes, most
    significant first, and panic on a shorter slice. *)
Class BigEndianLaws (B : BigEndian) : Prop := {
  read_u16_spec l :
    read_u16 l = if (length l <? 2)%nat then Panic else Ret (be_val (take 2 l));
  read_u32_spec l :
    read_u32 l = if (length l <? 4)%nat then Panic else Ret (be_val (take 4 l));
  write_u16_spec l n :
    write_u16 l n = if (length l <? 2)%nat then Panic else Ret (be_bytes 2 n ++ drop 2 l);
  write_u32_spec l n :
    write_u32 l n = if (length l <? 4)%nat then Panic else Ret (be_bytes 4 n ++ drop 4 l)
}.

(** A model of the interface, which shows that the laws can hold. *)
Definition byteorder : BigEndian := {|
  read_u16 l := if (length l <? 2)%nat then Panic else Ret (be_val (take 2 l));
  read_u32 l := if (length l <? 4)%nat then Panic else Ret (be_val (take 4 l));
  write_u16 l n := if (length l <? 2)%nat then Panic else Ret (be_bytes 2 n ++ drop 2 l);
  write_u32 l n := if (length l <? 4)%nat then Panic else Ret (be_bytes 4 n ++ drop 4 l)
|}.

Lemma byteorder_laws : BigEndianLaws byteorder.
Proof. by constructor. Qed.

(** [f(&mut bytes[a..b])] for a writer [f] of the crate *)
Definition write_slice (bytes : list Z) (a b : Z) (f : list Z -> outcome (list Z))
    : outcome (list Z) :=
  let! s := vslice bytes a b in
  let! s' := f s in
  Ret (splice bytes a s').

(** [f(&bytes[a..b])] for a reader [f] of the crate *)
Definition read_slice (bytes : list Z) (a b : Z) (f : list Z -> outcome Z) : outcome Z :=
  let! s := vslice bytes a b in f s.

Section laws.
Context `{BE : BigEndian} {BEL : BigEndianLaws BE}.

Lemma write_slice_u16 bytes a v :
  0 <= a -> a + 2 <= zlen bytes ->
  write_slice bytes a (a + 2) (fun s => write_u16 s v) = Ret (splice bytes a (be_bytes 2 v)).
Proof using BEL.
  intros. unfold write_slice. rewrite vslice_Ret by lia. cbn [obind]. rewrite write_u16_spec.
  rewrite (proj2 (Nat.ltb_ge _ _)) by (rewrite length_take, length_drop; lia). cbn [obind].
  rewrite drop_ge by (rewrite length_take, length_drop; lia). by rewrite app_nil_r.
Qed.

Lemma write_slice_u32 bytes a v :
  0 <= a -> a + 4 <= zlen bytes ->
  write_slice bytes a (a + 4) (fun s => write_u32 s v) = Ret (splice bytes a (be_bytes 4 v)).
Proof using BEL.
  intros. unfold write_slice. rewrite vslice_Ret by lia. cbn [obind]. rewrite write_u32_spec.
  rewrite (proj2 (Nat.ltb_ge _ _)) by (rewrite length_take, length_drop; lia). cbn [obind].
  rewrite drop_ge by (rewrite length_take, length_drop; lia). by rewrite app_nil_r.
Qed.

Lemma read_slice_u16_same bytes a v :
  0 <= a -> a + 2 <= zlen bytes -> uint 16 v ->
  read_slice (splice bytes a (be_bytes 2 v)) a (a + 2) read_u16 = Ret v.
Proof using BEL.
  intros. unfold read_slice. change 2 with (zlen (be_bytes 2 v)) in *.
  rewrite vslice_splice_same by done. simpl. rewrite read_u16_spec. simpl.
  f_equal. change (be_val (be_bytes 2 v) = v). by rewrite be_val_bytes, wrap_small.
Qed.

Lemma read_slice_u32_same bytes a v :
  0 <= a -> a + 4 <= zlen bytes -> uint 32 v ->
  read_slice (splice bytes a (be_bytes 4 v)) a (a + 4) read_u32 = Ret v.
Proof using BEL.
  intros. unfold read_slice. change 4 with (zlen (be_bytes 4 v)) in *.
  rewrite vslice_splice_same by done. simpl. rewrite read_u32_spec. simpl.
  f_equal. change (be_val (be_bytes 4 v) = v). by rewrite be_val_bytes, wrap_small.
Qed.

Lemma read_slice_splice bytes off d a b f :
  0 <= off -> off + zlen d <= zlen bytes -> b <= off \/ off + zlen d <= a ->
  read_slice (splice bytes off d) a b f = read_slice bytes a b f.
Proof. intros. unfold read_slice. by rewrite vslice_splice_disjoint. Qed.

End laws.

(** ** [Ipv4Prefix] *)

Record Ipv4Prefix : Type := mkIpv4Prefix { ip_address : Z; prefix : Z; mask : Z }.

Definition Ipv4Prefix_new `{Profile} (address prefix : Z) : outcome Ipv4Prefix :=
  let! mask :=
    if prefix =? 0 then Ret 0
    else
      let! inv_pfx := usub 8 32 prefix in
      let! bit := ushl 32 1 inv_pfx in
      let! low := usub 32 bit 1 in
      Ret (unot 32 low) in
  Ret {| ip_address := Z.land address mask; prefix := prefix; mask := mask |}.

Definition in_range (p : Ipv4Prefix) (address : Z) : bool :=
  Z.land address (mask p) =? ip_address p.

Lemma Ipv4Prefix_new_eq `{Profile} address p :
  0 <= p <= 32 ->
  Ipv4Prefix_new address p =
  let m := unot 32 (Z.ones (32 - p)) in
  Ret {| ip_address := Z.land address m; prefix := p; mask := m |}.
Proof.
  intros Hp. unfold Ipv4Prefix_new. destruct (Z.eqb_spec p 0) as [->|]; [reflexivity|].
  rewrite usub_small by (unfold uint; lia). simpl obind. unfold ushl.
  rewrite (proj2 (Z.ltb_lt _ _)) by lia. simpl obind.
  rewrite Z.shiftl_1_l.
  assert (0 < 2 ^ (32 - p)) by (apply Z.pow_pos_nonneg; lia).
  assert (2 ^ (32 - p) < 2 ^ 32) by (apply Z.pow_lt_mono_r; lia).
  rewrite wrap_small by (unfold uint; lia).
  rewrite usub_small by (unfold uint; lia). simpl obind.
  by rewrite Z.ones_equiv, <- Z.sub_1_r.
Qed.

Lemma land_unot_ones_testbit a k i :
  0 <= k <= 32 -> 0 <= i ->
  Z.testbit (Z.land a (unot 32 (Z.ones k))) i = (k <=? i) && (i <? 32) && Z.testbit a i.
Proof.
  intros. unfold unot. rewrite Z.land_spec, Z.lxor_spec, !testbit_ones_dec by lia.
  destruct (Z.ltb_spec i k), (Z.ltb_spec i 32), (Z.leb_spec k i); try lia; simpl;
    by rewrite ?andb_true_r, ?andb_false_r.
Qed.

(** an address is in range of [Ipv4Prefix::new(address, p)] exactly when its
    first [p] bits are those of [address], for every prefix length up to 32. *)
Lemma in_range_iff `{Profile} address p a :
  0 <= p <= 32 -> uint 32 address -> uint 32 a ->
  exists pfx, Ipv4Prefix_new address p = Ret pfx /\
  (in_range pfx a = true <-> Z.shiftr a (32 - p) = Z.shiftr address (32 - p)).
Proof.
  intros Hp Haddr Ha. eexists. split; [by apply Ipv4Prefix_new_eq|].
  unfold in_range; simpl. rewrite Z.eqb_eq. split; intros E.
  - apply Z.bits_inj'. intros i ?. rewrite !Z.shiftr_spec by done.
    apply (f_equal (fun z => Z.testbit z (i + (32 - p)))) in E.
    rewrite !land_unot_ones_testbit, (proj2 (Z.leb_le _ _)) in E by lia. simpl in E.
    destruct (Z.ltb_spec (i + (32 - p)) 32); [done|].
    by rewrite !(uint_testbit_high 32).
  - apply Z.bits_inj'. intros i ?. rewrite !land_unot_ones_testbit by lia.
    destruct (Z.leb_spec (32 - p) i); simpl; [|done].
    apply (f_equal (fun z => Z.testbit z (i - (32 - p)))) in E.
    rewrite !Z.shiftr_spec in E by lia.
    by replace (i - (32 - p) + (32 - p)) with i in E by lia; rewrite E.
Qed.

(** 192.168.0.0/16 and 192.168.100.1 *)
Lemma in_range_iff_witness :
  exists pfx, @Ipv4Prefix_new release 3232235520 16 = Ret pfx /\
  (in_range pfx 3232261121 = true <->
   Z.shiftr 3232261121 (32 - 16) = Z.shiftr 3232235520 (32 - 16)).
Proof. apply (@in_range_iff release); unfold uint; lia. Defined.

(** ** [Flow] *)

Record Flow : Type := mkFlow {
  flow_src_ip : Z; flow_dst_ip : Z; flow_src_port : Z; flow_dst_port : Z; flow_proto : Z
}.

#[export] Instance Flow_eq_dec : EqDecision Flow.
Proof. solve_decision. Defined.

#[export] Instance Flow_countable : Countable Flow.
Proof.
  apply (inj_countable' (fun f => (flow_src_ip f, flow_dst_ip f, flow_src_port f, flow_dst_port f, flow_proto f))
           (fun '(a, b, c, d, e) => mkFlow a b c d e)). by intros [].
Defined.

Definition Flow_default : Flow := mkFlow 0 0 0 0 0.

Definition flow_ok (f : Flow) : Prop :=
  uint 32 (flow_src_ip f) /\ uint 32 (flow_dst_ip f) /\
  uint 16 (flow_src_port f) /\ uint 16 (flow_dst_port f) /\ uint 8 (flow_proto f).

Definition IHL_TO_BYTE_FACTOR : Z := 4.

Definition port_start_of (b0 : Z) : Z := Z.land b0 15 * IHL_TO_BYTE_FACTOR.

Section flow.
Context `{BE : BigEndian}.
Variable ipv4_cksum : list Z -> Z.
Variable fnv_hash : list Z -> Z.
Variable crc_hash_native : list Z -> Z -> Z -> Z.

Definition ipv4_extract_flow (bytes : list Z) : outcome (option Flow) :=
  let! b0 := vindex bytes 0 in
  let port_start := port_start_of b0 in
  let! proto := vindex bytes 9 in
  let! src_ip := read_slice bytes 12 16 read_u32 in
  let! dst_ip := read_slice bytes 16 20 read_u32 in
  let! src_port := read_slice bytes port_start (port_start + 2) read_u16 in
  let! dst_port := read_slice bytes (port_start + 2) (port_start + 2 + 2) read_u16 in
  Ret (Some (mkFlow src_ip dst_ip src_port dst_port proto)).

Definition reverse_flow (f : Flow) : Flow :=
  {| flow_src_ip := flow_dst_ip f; flow_dst_ip := flow_src_ip f;
     flow_src_port := flow_dst_port f; flow_dst_port := flow_src_port f;
     flow_proto := flow_proto f |}.

Definition ipcsum (payload : list Z) : Z := ipv4_cksum payload.

Definition ipv4_stamp_flow (f : Flow) (bytes : list Z) : outcome (list Z) :=
  let! b0 := vindex bytes 0 in
  let port_start := port_start_of b0 in
  let! bytes := write_slice bytes 12 (12 + 4) (fun s => write_u32 s (flow_src_ip f)) in
  let! bytes := write_slice bytes 16 (16 + 4) (fun s => write_u32 s (flow_dst_ip f)) in
  let! bytes := write_slice bytes port_start (port_start + 2) (fun s => write_u16 s (flow_src_port f)) in
  let! bytes := write_slice bytes (port_start + 2) (port_start + 2 + 2)
                  (fun s => write_u16 s (flow_dst_port f)) in
  let! bytes := write_slice bytes 10 (10 + 2) (fun s => write_u16 s 0) in
  let csum := ipcsum bytes in
  write_slice bytes 10 (10 + 2) (fun s => write_u16 s csum).

(** The 13 bytes of the packed, little-endian struct. *)
Definition flow_as_u8 (f : Flow) : list Z :=
  le_bytes 4 (flow_src_ip f) ++ le_bytes 4 (flow_dst_ip f) ++
  le_bytes 2 (flow_src_port f) ++ le_bytes 2 (flow_dst_port f) ++ le_bytes 1 (flow_proto f).

Definition flow_hash (f : Flow) : Z := fnv_hash (flow_as_u8 f).

Definition ipv4_flow_hash (bytes : list Z) (_iv : Z) : outcome Z :=
  let! o := ipv4_extract_flow bytes in
  match o with
  | Some flow => Ret (flow_hash flow)
  | None => Ret 0
  end.

(** [crc_hash] of a value given by its bytes in memory *)
Definition crc_hash (to_hash : list Z) (iv : Z) : Z :=
  crc_hash_native to_hash (wrap 32 (zlen to_hash)) iv.

End flow.

(** ** Properties of flows *)

Lemma reverse_flow_involutive f : reverse_flow (reverse_flow f) = f.
Proof. by destruct f. Qed.

Lemma le_bytes_inj n a b :
  uint (8 * Z.of_nat n) a -> uint (8 * Z.of_nat n) b -> le_bytes n a = le_bytes n b -> a = b.
Proof. intros Ha Hb E. apply (f_equal le_val) in E. by rewrite !le_val_bytes, !wrap_small in E. Qed.

Lemma flow_as_u8_inj f g : flow_ok f -> flow_ok g -> flow_as_u8 f = flow_as_u8 g -> f = g.
Proof.
  destruct f, g. intros (?&?&?&?&?) (?&?&?&?&?) E. unfold flow_as_u8 in E.
  cbn [flow_src_ip flow_dst_ip flow_src_port flow_dst_port flow_proto] in *.
  do 4 (let E' := fresh "E" in apply app_inj_1 in E as [E' E]; [|by rewrite !length_le_bytes];
        apply le_bytes_inj in E'; [|done|done]).
  apply le_bytes_inj in E; [|done|done]. by simplify_eq/=.
Qed.

(** The writes of [ipv4_stamp_flow], as one chain of splices. *)
Definition stamped (f : Flow) (ps : Z) (bytes : list Z) : list Z :=
  splice (splice (splice (splice (splice bytes
    12 (be_bytes 4 (flow_src_ip f))) 16 (be_bytes 4 (flow_dst_ip f)))
    ps (be_bytes 2 (flow_src_port f))) (ps + 2) (be_bytes 2 (flow_dst_port f)))
    10 (be_bytes 2 0).

Ltac splice_side := repeat first [rewrite length_be_bytes | rewrite length_splice]; try lia.

Section stamp.
Context `{BE : BigEndian} {BEL : BigEndianLaws BE} (ipv4_cksum : list Z -> Z).
Variables (bytes : list Z) (b0 : Z) (f : Flow).
Hypothesis Hb0 : vindex bytes 0 = Ret b0.
Let ps := port_start_of b0.
Hypothesis Hps : 20 <= ps.
Hypothesis Hlen : ps + 4 <= zlen bytes.

Lemma stamp_eq :
  ipv4_stamp_flow ipv4_cksum f bytes =
  Ret (splice (stamped f ps bytes) 10 (be_bytes 2 (ipv4_cksum (stamped f ps bytes)))).
Proof using BEL Hps Hlen Hb0.
  unfold ipv4_stamp_flow. rewrite Hb0. cbn [obind]. fold ps.
  rewrite write_slice_u32 by lia. cbn [obind].
  rewrite write_slice_u32 by splice_side. cbn [obind].
  rewrite write_slice_u16 by splice_side. cbn [obind].
  rewrite write_slice_u16 by splice_side. cbn [obind].
  rewrite write_slice_u16 by splice_side. cbn [obind].
  fold (stamped f ps bytes). unfold ipcsum.
  apply write_slice_u16; [lia|]. unfold stamped. splice_side.
Qed.

Lemma length_stamped : length (stamped f ps bytes) = length bytes.
Proof using Hps Hlen. unfold stamped. by repeat (rewrite length_splice by splice_side). Qed.

Lemma stamped_vindex i :
  0 <= i < 10 \/ 20 <= i < ps \/ ps + 4 <= i ->
  vindex (stamped f ps bytes) i = vindex bytes i.
Proof using Hps Hlen.
  intros. unfold stamped. by repeat (rewrite vindex_splice_disjoint by splice_side).
Qed.

Lemma extract_stamped d :
  length d = 2%nat -> flow_ok f ->
  exists proto, vindex bytes 9 = Ret proto /\
  ipv4_extract_flow (splice (stamped f ps bytes) 10 d) =
  Ret (Some {| flow_src_ip := flow_src_ip f; flow_dst_ip := flow_dst_ip f;
               flow_src_port := flow_src_port f; flow_dst_port := flow_dst_port f;
               flow_proto := proto |}).
Proof using BEL Hps Hlen Hb0.
  intros Hd (?&?&?&?&?). destruct (vindex_lt bytes 9) as [proto Hproto]; [lia|].
  exists proto. split; [done|]. pose proof length_stamped.
  unfold ipv4_extract_flow.
  rewrite !(vindex_splice_disjoint (stamped f ps bytes)) by lia.
  rewrite !stamped_vindex, Hb0, Hproto by lia. cbn [obind]. fold ps.
  change 16 with (12 + 4). change (12 + 4 + 4) with (16 + 4).
  unfold stamped.
  repeat (rewrite read_slice_splice by splice_side).
  rewrite read_slice_u32_same by (splice_side; done). cbn [obind].
  repeat (rewrite read_slice_splice by splice_side).
  rewrite read_slice_u32_same by (splice_side; done). cbn [obind].
  repeat (rewrite read_slice_splice by splice_side).
  rewrite read_slice_u16_same by (splice_side; done). cbn [obind].
  repeat (rewrite read_slice_splice by splice_side).
  rewrite read_slice_u16_same by (splice_side; done). done.
Qed.
End stamp.

(** C29: stamping a flow on an IPv4 packet whose header length is at least 20 bytes
    and which holds its ports, and then extracting, gives the addresses and ports of the flow
    back with the protocol that the packet had, which stamping does not write: a flow of the
    packet's protocol comes back as it was. The checksum field holds the checksum of the header computed with that field
    zero, and every byte outside the checksum, address and port fields is kept. *)
Theorem stamp_extract_roundtrip `{BE : BigEndian} {BEL : BigEndianLaws BE}
    (ipv4_cksum : list Z -> Z) bytes b0 f :
  (forall l, uint 16 (ipv4_cksum l)) ->
  flow_ok f -> vindex bytes 0 = Ret b0 ->
  20 <= port_start_of b0 -> port_start_of b0 + 4 <= zlen bytes ->
  exists bytes' proto,
    ipv4_stamp_flow ipv4_cksum f bytes = Ret bytes' /\
    length bytes' = length bytes /\
    vindex bytes 9 = Ret proto /\
    ipv4_extract_flow bytes' =
      Ret (Some {| flow_src_ip := flow_src_ip f; flow_dst_ip := flow_dst_ip f;
                   flow_src_port := flow_src_port f; flow_dst_port := flow_dst_port f;
                   flow_proto := proto |}) /\
    (flow_proto f = proto -> ipv4_extract_flow bytes' = Ret (Some f)) /\
    read_slice bytes' 10 (10 + 2) read_u16 =
      Ret (ipv4_cksum (splice bytes' 10 (be_bytes 2 0))) /\
    (forall i, 0 <= i < 10 \/ 20 <= i < port_start_of b0 \/ port_start_of b0 + 4 <= i ->
      vindex bytes' i = vindex bytes i).
Proof.
  intros Hc Hf Hb0 Hps Hlen.
  pose proof (length_stamped bytes b0 f Hps Hlen) as Hl.
  set (d := be_bytes 2 (ipv4_cksum (stamped f (port_start_of b0) bytes))).
  destruct (extract_stamped bytes b0 f Hb0 Hps Hlen d) as (proto & Hp & He);
    [apply length_be_bytes|done|].
  exists (splice (stamped f (port_start_of b0) bytes) 10 d), proto. split_and!.
  - by apply stamp_eq.
  - rewrite length_splice; unfold d; rewrite ?length_be_bytes; lia.
  - done.
  - done.
  - intros <-. fold d in He. rewrite He. by destruct f.
  - unfold d. rewrite read_slice_u16_same by (lia || apply Hc). f_equal. f_equal.
    rewrite splice_splice_same by (rewrite ?length_be_bytes; lia).
    unfold stamped at 2. rewrite splice_splice_same by splice_side. done.
  - intros i Hi. unfold d. rewrite vindex_splice_disjoint by (rewrite ?length_be_bytes; lia).
    by apply stamped_vindex.
Qed.

(** A 24-byte packet: IHL 5, protocol 6 (TCP). *)
Definition sample_packet : list Z :=
  [69; 0; 0; 24; 0; 0; 0; 0; 64; 6; 0; 0; 10; 0; 0; 1; 10; 0; 0; 2; 0; 80; 1; 187].

Lemma stamp_extract_roundtrip_witness :
  exists bytes',
    @ipv4_stamp_flow byteorder (fun l => wrap 16 (le_val l))
      (mkFlow 3232235521 3232235522 1024 443 6) sample_packet = Ret bytes' /\
    @ipv4_extract_flow byteorder bytes' =
      Ret (Some (mkFlow 3232235521 3232235522 1024 443 6)).
Proof.
  destruct (@stamp_extract_roundtrip byteorder byteorder_laws (fun l => wrap 16 (le_val l))
    sample_packet 69 (mkFlow 3232235521 3232235522 1024 443 6))
    as (bytes' & proto & Hs & _ & Hp & _ & He & _).
  - intros. by apply wrap_range.
  - unfold flow_ok, uint; simpl; lia.
  - reflexivity.
  - vm_compute; discriminate.
  - vm_compute; discriminate.
  - exists bytes'. split; [exact Hs|]. injection Hp as <-. by apply He.
Defined.
