(* ===== verification/Headers.v ===== *)
(** * Header interface, null and MAC headers
    ([framework/src/headers/{mod,null_header,mac}.rs])

    [EndOffset] is the trait of the same name. [Packed] is the memory layout of a
    [repr(C, packed)] struct on the little-endian target: how a header pointer into
    a packet buffer is read and written. *)

From S2P Require Import Prelude.

(** ** The trait [EndOffset] *)

Class EndOffset (T : Type) : Type := {
  PreviousHeader : Type;
  offset : T -> Z;
  size : Z;
  payload_size : T -> Z -> outcome Z;
  check_correct : T -> PreviousHeader -> bool
}.
#[global] Arguments size T {_}.
#[global] Arguments PreviousHeader T {_}.

(** ** Layout of packed structs *)

Class Packed (T : Type) : Type := {
  size_of : nat;
  encode : T -> list Z;
  decode : list Z -> T;
  wf : T -> Prop
}.
#[global] Arguments size_of T {_}.

Class PackedLaws (T : Type) (P : Packed T) : Prop := {
  length_encode h : wf h -> length (encode h) = size_of T;
  encode_bytes_ok h : wf h -> bytes_ok (encode h);
  decode_encode h rest : wf h -> decode (encode h ++ rest) = h;
  decode_wf l : bytes_ok l -> (size_of T <= length l)%nat -> wf (decode l);
  encode_decode l :
    bytes_ok l -> (size_of T <= length l)%nat -> encode (decode l) = take (size_of T) l
}.

(** [n]-byte little-endian field at byte [o] *)
Definition field (l : list Z) (o n : nat) : Z := le_val (take n (drop o l)).

Lemma field_app_skip a l o n : field (a ++ l) (length a + o) n = field l o n.
Proof. unfold field. by rewrite drop_app_add. Qed.

Lemma field_le_bytes n z l : uint (8 * Z.of_nat n) z -> field (le_bytes n z ++ l) 0 n = z.
Proof.
  intros. unfold field. rewrite drop_0, take_app_length' by (by rewrite length_le_bytes).
  by rewrite le_val_bytes, wrap_small.
Qed.

Lemma field_uint l o n :
  bytes_ok l -> (o + n <= length l)%nat -> uint (8 * Z.of_nat n) (field l o n).
Proof.
  intros. unfold field.
  replace (Z.of_nat n) with (zlen (take n (drop o l))) by (rewrite length_take, length_drop; lia).
  apply le_val_uint. by apply bytes_ok_take, bytes_ok_drop.
Qed.

Lemma le_bytes_field l o n :
  bytes_ok l -> (o + n <= length l)%nat -> le_bytes n (field l o n) = take n (drop o l).
Proof.
  intros. unfold field.
  assert (Hn : length (take n (drop o l)) = n) by (rewrite length_take, length_drop; lia).
  rewrite <- Hn at 1. apply le_bytes_val. by apply bytes_ok_take, bytes_ok_drop.
Qed.

(** A struct of unsigned integers is a list of fields (byte width, value). *)
Fixpoint enc_fields (fs : list (nat * Z)) : list Z :=
  match fs with
  | [] => []
  | (n, z) :: fs => le_bytes n z ++ enc_fields fs
  end.

Fixpoint dec_fields (ns : list nat) (l : list Z) : list Z :=
  match ns with
  | [] => []
  | n :: ns => le_val (take n l) :: dec_fields ns (drop n l)
  end.

Lemma length_enc_fields fs : length (enc_fields fs) = sum_list fs.*1.
Proof.
  induction fs as [|[n z] fs IH]; [done|]. csimpl. by rewrite length_app, length_le_bytes, IH.
Qed.

Lemma enc_fields_ok fs : bytes_ok (enc_fields fs).
Proof.
  induction fs as [|[n z] fs IH]; [constructor|]. apply bytes_ok_app; [apply le_bytes_ok|done].
Qed.

Lemma dec_enc_fields fs rest :
  Forall (fun f => uint (8 * Z.of_nat f.1) f.2) fs ->
  dec_fields fs.*1 (enc_fields fs ++ rest) = fs.*2.
Proof.
  induction 1 as [|[n z] fs Hz _ IH]; [done|]. csimpl in *.
  rewrite <- app_assoc, take_app_length', drop_app_length' by (by rewrite length_le_bytes).
  by rewrite le_val_bytes, wrap_small, IH.
Qed.

Lemma length_dec_fields ns l : length (dec_fields ns l) = length ns.
Proof. revert l. induction ns; simpl; auto. Qed.

Lemma dec_fields_uint ns l :
  bytes_ok l -> (sum_list ns <= length l)%nat ->
  Forall2 (fun n z => uint (8 * Z.of_nat n) z) ns (dec_fields ns l).
Proof.
  revert l. induction ns as [|n ns IH]; intros l Hl Hs; simpl in *; constructor.
  - replace (Z.of_nat n) with (zlen (take n l)) by (rewrite length_take; lia).
    by apply le_val_uint, bytes_ok_take.
  - apply IH; [by apply bytes_ok_drop|]. rewrite length_drop. lia.
Qed.

Lemma enc_dec_fields ns l :
  bytes_ok l -> (sum_list ns <= length l)%nat ->
  enc_fields (zip ns (dec_fields ns l)) = take (sum_list ns) l.
Proof.
  revert l. induction ns as [|n ns IH]; intros l Hl Hs; simpl in *; [done|].
  rewrite IH by (try apply bytes_ok_drop; rewrite ?length_drop; (done || lia)).
  assert (Hn : length (take n l) = n) by (rewrite length_take; lia).
  rewrite <- Hn at 1. rewrite le_bytes_val by (by apply bytes_ok_take).
  rewrite <- (take_drop n (take (n + sum_list ns) l)), take_take, take_drop_commute.
  f_equal. f_equal. lia.
Qed.

(** ** [NullHeader] *)

Inductive NullHeader : Type := null_header.

#[export] Instance NullHeader_EndOffset : EndOffset NullHeader := {|
  PreviousHeader := NullHeader;
  offset _ := 0;
  size := 0;
  payload_size _ hint := Ret hint;
  check_correct _ _ := true
|}.

#[export] Instance NullHeader_Packed : Packed NullHeader := {|
  size_of := 0; encode _ := []; decode _ := null_header; wf _ := True
|}.

Module Mac.

(** ** [MacAddress] *)

Record MacAddress : Type := mkMac { addr : list Z }.

Definition mac_ok (m : MacAddress) : Prop := length (addr m) = 6%nat /\ bytes_ok (addr m).

#[global] Instance MacAddress_eq_dec : EqDecision MacAddress.
Proof. solve_decision. Defined.

Definition MacAddress_default : MacAddress := mkMac [0; 0; 0; 0; 0; 0].

Definition MacAddress_new (a b c d e f : Z) : MacAddress := mkMac [a; b; c; d; e; f].

Definition new_from_slice (slice : list Z) : outcome MacAddress :=
  let! a := vindex slice 0 in
  let! b := vindex slice 1 in
  let! c := vindex slice 2 in
  let! d := vindex slice 3 in
  let! e := vindex slice 4 in
  let! f := vindex slice 5 in
  Ret (mkMac [a; b; c; d; e; f]).

(** [dst.copy_from_slice(src)]: the two slices must have equal length. *)
Definition copy_from_slice (dst src : list Z) : outcome (list Z) :=
  assert_ (length dst =? length src)%nat (Ret src).

Definition copy_address (self other : MacAddress) : outcome MacAddress :=
  let! a := copy_from_slice (addr self) (addr other) in Ret (mkMac a).

Definition MacAddress_clone (self : MacAddress) : outcome MacAddress :=
  let! a := copy_from_slice (addr MacAddress_default) (addr self) in Ret (mkMac a).

Definition MacAddress_eq (self other : MacAddress) : bool := bool_decide (addr self = addr other).

Lemma mac_ok_default : mac_ok MacAddress_default.
Proof. split; [done|]. unfold bytes_ok, uint; simpl. repeat constructor; lia. Qed.

Lemma copy_address_ok a b : mac_ok a -> mac_ok b -> copy_address a b = Ret b.
Proof.
  intros [Ha _] [Hb _]. unfold copy_address, copy_from_slice.
  rewrite Ha, Hb. simpl. by destruct b.
Qed.

(** ** [MacHeader] *)

Record MacHeader : Type := mkMacHeader { dst : MacAddress; src : MacAddress; etype_ : Z }.

Definition MacHeader_new : MacHeader := mkMacHeader MacAddress_default MacAddress_default 0.

Definition HDR_SIZE : Z := 14.
Definition HDR_SIZE_802_1Q : Z := HDR_SIZE + 4.
Definition HDR_SIZE_802_1AD : Z := HDR_SIZE_802_1Q + 4.

Definition MacHeader_offset `{Profile} (h : MacHeader) : Z :=
  if performance then HDR_SIZE
  else if etype_ h =? 33024 (* 0x8100 *) then HDR_SIZE_802_1Q
  else if etype_ h =? 37120 (* 0x9100 *) then HDR_SIZE_802_1AD
  else HDR_SIZE.

#[global] Instance MacHeader_EndOffset `{Profile} : EndOffset MacHeader := {|
  PreviousHeader := NullHeader;
  offset := MacHeader_offset;
  size := HDR_SIZE;
  payload_size h hint := usub 64 hint (MacHeader_offset h);
  check_correct _ _ := true
|}.

Definition etype (h : MacHeader) : Z := swap16 (etype_ h).
Definition set_etype (h : MacHeader) (e : Z) : MacHeader :=
  {| dst := dst h; src := src h; etype_ := swap16 e |}.

Definition swap_addresses (h : MacHeader) : outcome MacHeader :=
  let! tmp := copy_address MacAddress_default (src h) in
  let! src' := copy_address (src h) (dst h) in
  let! dst' := copy_address (dst h) tmp in
  Ret {| dst := dst'; src := src'; etype_ := etype_ h |}.

#[global] Instance MacHeader_Packed : Packed MacHeader := {|
  size_of := 14;
  encode h := addr (dst h) ++ addr (src h) ++ le_bytes 2 (etype_ h);
  decode l := {| dst := mkMac (take 6 l); src := mkMac (take 6 (drop 6 l)); etype_ := field l 12 2 |};
  wf h := mac_ok (dst h) /\ mac_ok (src h) /\ uint 16 (etype_ h)
|}.

#[global] Instance MacHeader_PackedLaws : PackedLaws MacHeader MacHeader_Packed.
Proof.
  constructor; simpl.
  - intros h ((?&?) & (?&?) & ?). rewrite !length_app, length_le_bytes. lia.
  - intros h ((?&?) & (?&?) & ?). repeat apply bytes_ok_app; try done. apply le_bytes_ok.
  - intros [[d] [s] e] rest ((Hd&?) & (Hs&?) & ?); simpl in *. f_equal.
    + by rewrite <- app_assoc, take_app_length'.
    + rewrite <- app_assoc, drop_app_length', <- app_assoc by done. by rewrite take_app_length'.
    + rewrite <- !app_assoc. change 12%nat with (6 + 6)%nat. rewrite <- Hd at 1.
      rewrite field_app_skip. rewrite <- Hs. rewrite <- (Nat.add_0_r (length s)).
      rewrite field_app_skip. by apply field_le_bytes.
  - intros l ??. unfold mac_ok; simpl. rewrite !length_take, !length_drop.
    split_and!; try lia; try by apply bytes_ok_take, bytes_ok_drop.
    + by apply bytes_ok_take.
    + apply (field_uint l 12 2); (done || lia).
  - intros l ??. rewrite le_bytes_field by (done || lia).
    rewrite <- (take_drop 6 (take 14 l)), <- (take_drop 6 (drop 6 (take 14 l))).
    rewrite !take_drop_commute, !drop_drop, !take_take. f_equal.
Qed.

(** [swap_addresses] never panics, exchanges the two addresses and keeps the
    Ethernet type; applied twice it is the identity. *)
Lemma swap_addresses_correct (h : MacHeader) :
  wf h ->
  exists h', swap_addresses h = Ret h' /\ wf h' /\
    dst h' = src h /\ src h' = dst h /\ etype h' = etype h /\ swap_addresses h' = Ret h.
Proof.
  intros (Hd & Hs & He).
  assert (Hsw : forall d s e, mac_ok d -> mac_ok s ->
    swap_addresses (mkMacHeader d s e) = Ret (mkMacHeader s d e)).
  { intros d s e ??. unfold swap_addresses; simpl.
    rewrite copy_address_ok; [|apply mac_ok_default|done]. simpl. by rewrite !copy_address_ok. }
  destruct h as [d s e]; simpl in *. eexists. split; [by apply Hsw|].
  split_and!; try done. by apply Hsw.
Qed.

(** the Ethernet type is stored in network order, so [etype] reads back what
    [set_etype] wrote; but [offset] compares the stored, byte-swapped, field with the
    VLAN types, so a frame whose type is 0x8100 or 0x9100 gets the untagged
    header length, and type 0x0081 gets the 802.1Q length. *)
Lemma mac_offset_uses_stored_order `{Profile} (h : MacHeader) (e : Z) :
  performance = false -> uint 16 e ->
  etype (set_etype h e) = e /\
  offset (set_etype h 33024) = HDR_SIZE /\
  offset (set_etype h 37120) = HDR_SIZE /\
  offset (set_etype h 129) = HDR_SIZE_802_1Q.
Proof.
  intros Hp He. unfold etype. simpl. rewrite swap16_swap16 by done.
  unfold MacHeader_offset. by rewrite Hp.
Qed.

Lemma mac_offset_uses_stored_order_witness :
  etype (set_etype MacHeader_new 33024) = 33024 /\
  @offset _ (@MacHeader_EndOffset release) (set_etype MacHeader_new 33024) = HDR_SIZE.
Proof.
  destruct (@mac_offset_uses_stored_order release MacHeader_new 33024) as (H1 & H2 & _);
    [reflexivity|unfold uint; lia|]. exact (conj H1 H2).
Defined.

End Mac.
