(* ===== verification/IpHeader.v ===== *)
(** * IPv4 header ([framework/src/headers/ip.rs])

    The struct keeps the header as five native-order words; the accessors mask and
    shift them. The specification is the wire format: [view] reads each field of
    RFC 791 from the bytes of the packet, and the theorems relate every accessor
    to it. *)

From S2P Require Import Prelude Flows Headers.

Module Ip.

Record IpHeader : Type := mkIpHeader {
  version_to_len : Z;
  id_to_foffset : Z;
  ttl_to_csum : Z;
  src_ip : Z;
  dst_ip : Z
}.

Definition new : IpHeader := mkIpHeader 0 0 0 0 0.

Definition with_w0 (h : IpHeader) (w : Z) : IpHeader :=
  mkIpHeader w (id_to_foffset h) (ttl_to_csum h) (src_ip h) (dst_ip h).
Definition with_w1 (h : IpHeader) (w : Z) : IpHeader :=
  mkIpHeader (version_to_len h) w (ttl_to_csum h) (src_ip h) (dst_ip h).
Definition with_w2 (h : IpHeader) (w : Z) : IpHeader :=
  mkIpHeader (version_to_len h) (id_to_foffset h) w (src_ip h) (dst_ip h).

Definition src (h : IpHeader) : Z := swap32 (src_ip h).
Definition set_src (h : IpHeader) (s : Z) : IpHeader :=
  mkIpHeader (version_to_len h) (id_to_foffset h) (ttl_to_csum h) (swap32 s) (dst_ip h).
Definition dst (h : IpHeader) : Z := swap32 (dst_ip h).
Definition set_dst (h : IpHeader) (d : Z) : IpHeader :=
  mkIpHeader (version_to_len h) (id_to_foffset h) (ttl_to_csum h) (src_ip h) (swap32 d).

Definition ttl (h : IpHeader) : Z := wrap 8 (Z.land (ttl_to_csum h) 0x000000ff).
Definition set_ttl (h : IpHeader) (t : Z) : IpHeader :=
  let blanked := Z.land (ttl_to_csum h) (unot 32 0x000000ff) in
  with_w2 h (Z.lor blanked t).

Definition protocol (h : IpHeader) : Z := wrap 8 (Z.shiftr (Z.land (ttl_to_csum h) 0xff00) 8).
Definition set_protocol (h : IpHeader) (p : Z) : IpHeader :=
  let blanked := Z.land (ttl_to_csum h) (unot 32 0xff00) in
  with_w2 h (Z.lor blanked (Z.shiftl p 8)).

Definition csum (h : IpHeader) : Z := wrap 16 (Z.shiftr (Z.land (ttl_to_csum h) 0xffff0000) 16).
Definition set_csum (h : IpHeader) (c : Z) : IpHeader :=
  let blanked := Z.land (ttl_to_csum h) (unot 32 0xffff0000) in
  with_w2 h (Z.lor blanked (Z.shiftl (swap16 c) 16)).

Definition id (h : IpHeader) : Z := swap16 (wrap 16 (Z.land (id_to_foffset h) 0xffff)).
Definition set_id (h : IpHeader) (i : Z) : IpHeader :=
  let blanked := Z.land (id_to_foffset h) (unot 32 0xffff) in
  with_w1 h (Z.lor blanked (swap16 i)).

Definition flags (h : IpHeader) : Z :=
  let flag_fragment := wrap 16 (Z.shiftr (id_to_foffset h) 21) in
  wrap 8 (Z.land flag_fragment 0x7).
Definition set_flags (h : IpHeader) (f : Z) : IpHeader :=
  with_w1 h (Z.lor (Z.land (id_to_foffset h) (unot 32 0x00e00000)) (Z.shiftl (Z.land f 0x7) (16 + 5))).

Definition fragment_offset (h : IpHeader) : Z :=
  let flag_fragment := wrap 16 (Z.land (id_to_foffset h) 0xffff) in
  swap16 (Z.shiftr (Z.land flag_fragment (unot 16 0xe)) 3).
Definition set_fragment_offset (h : IpHeader) (o : Z) : IpHeader :=
  let id_to_offset_le := swap32 (id_to_foffset h) in
  with_w1 h (swap32 (Z.lor (Z.land id_to_offset_le (unot 32 0x1fff)) o)).

Definition version (h : IpHeader) : Z := Z.shiftr (wrap 8 (Z.land (version_to_len h) 0xf0)) 4.
Definition set_version (h : IpHeader) (v : Z) : IpHeader :=
  with_w0 h (Z.lor (Z.land (version_to_len h) (unot 32 0xf0)) (Z.shiftl (Z.land v 0xf) 4)).

Definition ihl (h : IpHeader) : Z := wrap 8 (Z.land (version_to_len h) 0x0f).
Definition set_ihl (h : IpHeader) (i : Z) : IpHeader :=
  with_w0 h (Z.lor (Z.land (version_to_len h) (unot 32 0x0f)) (Z.land i 0x0f)).

Definition dscp (h : IpHeader) : Z := wrap 8 (Z.shiftr (Z.land (version_to_len h) 0xfc00) 10).
Definition set_dscp (h : IpHeader) (d : Z) : IpHeader :=
  with_w0 h (Z.lor (Z.land (version_to_len h) (unot 32 0xfc00)) (Z.shiftl (Z.land d 0x3f) 10)).

Definition ecn (h : IpHeader) : Z := wrap 8 (Z.shiftr (Z.land (version_to_len h) 0x0300) 8).
Definition set_ecn (h : IpHeader) (e : Z) : IpHeader :=
  with_w0 h (Z.lor (Z.land (version_to_len h) (unot 32 0x0300)) (Z.shiftl (Z.land e 0x03) 8)).

Definition length (h : IpHeader) : Z :=
  swap16 (wrap 16 (Z.shiftr (Z.land (version_to_len h) 0xffff0000) 16)).
Definition set_length (h : IpHeader) (len : Z) : IpHeader :=
  with_w0 h (Z.lor (Z.land (version_to_len h) (unot 32 0xffff0000)) (Z.shiftl (swap16 len) 16)).

(** [EndOffset for IpHeader] *)
Definition IpHeader_offset `{Profile} (h : IpHeader) : Z :=
  if performance then 20 else ihl h * 4.

Definition IpHeader_payload_size `{Profile} (h : IpHeader) : outcome Z :=
  usub 64 (length h) (IpHeader_offset h).

#[global] Instance IpHeader_EndOffset `{Profile} : EndOffset IpHeader := {|
  PreviousHeader := Mac.MacHeader;
  offset := IpHeader_offset;
  size := 20;
  payload_size h _ := IpHeader_payload_size h;
  check_correct _ _ := true
|}.

(** [flow] reads four bytes at [offset()] past the header's own address: [mem] is the
    memory from that address on. A read past its end is undefined behaviour in
    the source and a panic here. *)
Definition flow `{Profile} `{BigEndian} (h : IpHeader) (mem : list Z) : outcome (option Flow) :=
  let protocol := protocol h in
  let src_ip := src h in
  let dst_ip := dst h in
  if (protocol =? 6) || (protocol =? 17) then
    let! ps := IpHeader_payload_size h in
    if 4 <=? ps then
      let! port_slice := vslice mem (IpHeader_offset h) (IpHeader_offset h + 4) in
      let! dst_port := read_slice port_slice 0 2 read_u16 in
      let! src_port := read_slice port_slice 2 4 read_u16 in
      Ret (Some (mkFlow src_ip dst_ip src_port dst_port protocol))
    else Ret None
  else Ret None.

#[global] Instance IpHeader_Packed : Packed IpHeader := {|
  size_of := 20;
  encode h := enc_fields [(4, version_to_len h); (4, id_to_foffset h); (4, ttl_to_csum h);
                          (4, src_ip h); (4, dst_ip h)]%nat;
  decode l :=
    match dec_fields [4; 4; 4; 4; 4]%nat l with
    | [a; b; c; d; e] => mkIpHeader a b c d e
    | _ => new
    end;
  wf h := uint 32 (version_to_len h) /\ uint 32 (id_to_foffset h) /\ uint 32 (ttl_to_csum h) /\
          uint 32 (src_ip h) /\ uint 32 (dst_ip h)
|}.

#[global] Instance IpHeader_PackedLaws : PackedLaws IpHeader IpHeader_Packed.
Proof.
  constructor.
  - intros. apply length_enc_fields.
  - intros. apply enc_fields_ok.
  - intros [a b c d e] rest (?&?&?&?&?).
    unfold decode, encode, IpHeader_Packed.
    rewrite (dec_enc_fields [(4, a); (4, b); (4, c); (4, d); (4, e)]%nat); [done|].
    repeat (constructor; [assumption|]). constructor.
  - intros l Hl Hs. pose proof (dec_fields_uint [4; 4; 4; 4; 4]%nat l Hl Hs) as Hu.
    repeat match goal with H : Forall2 _ (_ :: _) _ |- _ => inversion H; clear H; subst end.
    unfold wf, decode, IpHeader_Packed. simpl in *. done.
  - intros l Hl Hs. exact (enc_dec_fields [4; 4; 4; 4; 4]%nat l Hl Hs).
Qed.

(** ** The wire format *)

Inductive ip_field : Type :=
| Version | Ihl | Dscp | Ecn | Length | Id | Flags | FragmentOffset | Ttl | Protocol | Csum | Src | Dst.

#[global] Instance ip_field_eq_dec : EqDecision ip_field.
Proof. solve_decision. Defined.

(** Width in bits of a field *)
Definition width (f : ip_field) : Z :=
  match f with
  | Version | Ihl => 4 | Dscp => 6 | Ecn => 2 | Flags => 3 | FragmentOffset => 13
  | Ttl | Protocol => 8 | Length | Id | Csum => 16 | Src | Dst => 32
  end.

(** RFC 791, figure 4: byte and bit position of every field *)
Definition view (l : list Z) (f : ip_field) : Z :=
  let b i := nth i l 0 in
  match f with
  | Version => getf (b 0%nat) 4 4
  | Ihl => getf (b 0%nat) 0 4
  | Dscp => getf (b 1%nat) 2 6
  | Ecn => getf (b 1%nat) 0 2
  | Length => be_val [b 2%nat; b 3%nat]
  | Id => be_val [b 4%nat; b 5%nat]
  | Flags => getf (b 6%nat) 5 3
  | FragmentOffset => getf (b 6%nat) 0 5 * 2 ^ 8 + b 7%nat
  | Ttl => b 8%nat
  | Protocol => b 9%nat
  | Csum => be_val [b 10%nat; b 11%nat]
  | Src => be_val [b 12%nat; b 13%nat; b 14%nat; b 15%nat]
  | Dst => be_val [b 16%nat; b 17%nat; b 18%nat; b 19%nat]
  end.

(** The setter and the getter of the source for each field *)
Definition ip_set (f : ip_field) : IpHeader -> Z -> IpHeader :=
  match f with
  | Version => set_version | Ihl => set_ihl | Dscp => set_dscp | Ecn => set_ecn
  | Length => set_length | Id => set_id | Flags => set_flags
  | FragmentOffset => set_fragment_offset | Ttl => set_ttl | Protocol => set_protocol
  | Csum => set_csum | Src => set_src | Dst => set_dst
  end.

Definition ip_get (f : ip_field) : IpHeader -> Z :=
  match f with
  | Version => version | Ihl => ihl | Dscp => dscp | Ecn => ecn
  | Length => length | Id => id | Flags => flags
  | FragmentOffset => fragment_offset | Ttl => ttl | Protocol => protocol
  | Csum => csum | Src => src | Dst => dst
  end.

(** ** Every accessor against the wire format *)

(** The view of a header, word by word *)
Definition word_view (h : IpHeader) (f : ip_field) : Z :=
  match f with
  | Version => getf (version_to_len h) 4 4
  | Ihl => getf (version_to_len h) 0 4
  | Dscp => getf (version_to_len h) 10 6
  | Ecn => getf (version_to_len h) 8 2
  | Length => swap16 (getf (version_to_len h) 16 16)
  | Id => swap16 (getf (id_to_foffset h) 0 16)
  | Flags => getf (id_to_foffset h) 21 3
  | FragmentOffset => getf (id_to_foffset h) 16 5 * 2 ^ 8 + getf (id_to_foffset h) 24 8
  | Ttl => getf (ttl_to_csum h) 0 8
  | Protocol => getf (ttl_to_csum h) 8 8
  | Csum => swap16 (getf (ttl_to_csum h) 16 16)
  | Src => swap32 (src_ip h)
  | Dst => swap32 (dst_ip h)
  end.

Lemma view_encode h f : view (encode h) f = word_view h f.
Proof.
  unfold encode, IpHeader_Packed, enc_fields. rewrite !le_bytes_4.
  destruct f; unfold view, word_view; cbn [nth app];
    rewrite ?getf_getf by lia; rewrite ?swap32_be, ?le_bytes_4;
    try apply be_val_pair; (done || lia).
Qed.

Lemma swap32_id w : getf (swap32 w) 16 16 = swap16 (getf w 0 16).
Proof.
  apply Z.bits_inj'. intros i ?. rewrite getf_testbit, swap16_testbit by lia.
  destruct (Z.ltb_spec i 16); simpl; [|done].
  rewrite swap32_testbit by lia.
  destruct (Z.ltb_spec i 8); rewrite getf_testbit by lia;
    cmp_cases; f_equal; lia.
Qed.

Lemma swap32_flags w : getf (swap32 w) 13 3 = getf w 21 3.
Proof.
  apply Z.bits_inj'. intros i ?. rewrite !getf_testbit by lia.
  destruct (Z.ltb_spec i 3); simpl; [|done]. rewrite swap32_testbit by lia.
  cmp_cases; f_equal; lia.
Qed.

Lemma swap32_foffset w : getf (swap32 w) 0 13 = getf w 16 5 * 2 ^ 8 + getf w 24 8.
Proof.
  rewrite <- lor_shiftl_add by (try apply getf_uint; lia).
  apply Z.bits_inj'. intros i ?.
  rewrite getf_testbit, Z.lor_spec, Z.shiftl_spec, (getf_testbit w 24 8) by lia.
  destruct (Z.ltb_spec i 8).
  - rewrite (Z.testbit_neg_r _ (i - 8)), swap32_testbit by lia.
    cmp_cases; f_equal; lia.
  - rewrite (getf_testbit w 16 5) by lia. simpl. rewrite orb_false_r.
    destruct (Z.ltb_spec i 13), (Z.ltb_spec (i - 8) 5); try lia; simpl.
    rewrite swap32_testbit by lia.
    cmp_cases; f_equal; lia.
Qed.

(** Getters: all but [csum] and [fragment_offset] read the field of the wire format. *)
Lemma ip_get_word f h :
  f <> Csum -> f <> FragmentOffset -> ip_get f h = word_view h f.
Proof.
  intros ??. destruct f; try done; simpl;
    unfold version, ihl, dscp, ecn, length, id, flags, ttl, protocol.
  - change 0xf0 with (Z.shiftl (Z.ones 4) 4).
    rewrite wrap_small; [by apply getf_mask_shift|].
    rewrite Z.land_comm. by apply land_uint.
  - change (Z.land (version_to_len h) 0x0f) with (getf (version_to_len h) 0 4).
    by rewrite wrap_getf.
  - change 0xfc00 with (Z.shiftl (Z.ones 6) 10). rewrite getf_mask_shift by lia. by rewrite wrap_getf.
  - change 0x0300 with (Z.shiftl (Z.ones 2) 8). rewrite getf_mask_shift by lia. by rewrite wrap_getf.
  - change 0xffff0000 with (Z.shiftl (Z.ones 16) 16). rewrite getf_mask_shift by lia.
    by rewrite wrap_getf.
  - change (Z.land (id_to_foffset h) 0xffff) with (getf (id_to_foffset h) 0 16). by rewrite wrap_getf.
  - unfold wrap at 2. rewrite <- Z.land_ones by lia. change (Z.land (Z.land ?a (Z.ones 16)) 7)
      with (Z.land (Z.land a (Z.ones 16)) (Z.ones 3)).
    rewrite <- Z.land_assoc. change (Z.land (Z.ones 16) (Z.ones 3)) with (Z.ones 3).
    change (Z.land (Z.shiftr (id_to_foffset h) 21) (Z.ones 3)) with (getf (id_to_foffset h) 21 3).
    by rewrite wrap_getf.
  - change (Z.land (ttl_to_csum h) 0xff) with (getf (ttl_to_csum h) 0 8). by rewrite wrap_getf.
  - change 0xff00 with (Z.shiftl (Z.ones 8) 8). rewrite getf_mask_shift by lia. by rewrite wrap_getf.
Qed.

(** Setters: each one is a field update of one word. *)
Lemma set_w0 h lo w v :
  wf h -> 0 <= lo -> 0 <= w -> lo + w <= 32 ->
  with_w0 h (Z.lor (Z.land (version_to_len h) (unot 32 (Z.shiftl (Z.ones w) lo))) (Z.shiftl v lo)) =
  with_w0 h (setf (version_to_len h) lo w v).
Proof. intros (?&_). intros. f_equal. by apply setf_mask_or. Qed.

Lemma set_w1 h lo w v :
  wf h -> 0 <= lo -> 0 <= w -> lo + w <= 32 ->
  with_w1 h (Z.lor (Z.land (id_to_foffset h) (unot 32 (Z.shiftl (Z.ones w) lo))) (Z.shiftl v lo)) =
  with_w1 h (setf (id_to_foffset h) lo w v).
Proof. intros (_&?&_). intros. f_equal. by apply setf_mask_or. Qed.

Lemma set_w2 h lo w v :
  wf h -> 0 <= lo -> 0 <= w -> lo + w <= 32 ->
  with_w2 h (Z.lor (Z.land (ttl_to_csum h) (unot 32 (Z.shiftl (Z.ones w) lo))) (Z.shiftl v lo)) =
  with_w2 h (setf (ttl_to_csum h) lo w v).
Proof. intros (_&_&?&_). intros. f_equal. by apply setf_mask_or. Qed.

(** What each setter does to the words *)
Definition word_set (f : ip_field) (h : IpHeader) (v : Z) : IpHeader :=
  match f with
  | Version => with_w0 h (setf (version_to_len h) 4 4 v)
  | Ihl => with_w0 h (setf (version_to_len h) 0 4 v)
  | Dscp => with_w0 h (setf (version_to_len h) 10 6 v)
  | Ecn => with_w0 h (setf (version_to_len h) 8 2 v)
  | Length => with_w0 h (setf (version_to_len h) 16 16 (swap16 v))
  | Id => with_w1 h (setf (id_to_foffset h) 0 16 (swap16 v))
  | Flags => with_w1 h (setf (id_to_foffset h) 21 3 v)
  | FragmentOffset => with_w1 h (swap32 (setf (swap32 (id_to_foffset h)) 0 13 v))
  | Ttl => with_w2 h (setf (ttl_to_csum h) 0 8 v)
  | Protocol => with_w2 h (setf (ttl_to_csum h) 8 8 v)
  | Csum => with_w2 h (setf (ttl_to_csum h) 16 16 (swap16 v))
  | Src => set_src h v
  | Dst => set_dst h v
  end.

Lemma ip_set_word f h v : wf h -> uint (width f) v -> ip_set f h v = word_set f h v.
Proof.
  intros Hh Hv. pose proof Hh as (?&?&?&?&?). destruct f; simpl in *;
    unfold set_version, set_ihl, set_dscp, set_ecn, set_length, set_id, set_flags,
      set_fragment_offset, set_ttl, set_protocol, set_csum.
  - rewrite (land_ones_id 4) by done. by apply (set_w0 h 4 4).
  - rewrite (land_ones_id 4) by done. by apply (set_w0 h 0 4).
  - rewrite (land_ones_id 6) by done. by apply (set_w0 h 10 6).
  - rewrite (land_ones_id 2) by done. by apply (set_w0 h 8 2).
  - by apply (set_w0 h 16 16).
  - by apply (set_w1 h 0 16).
  - rewrite (land_ones_id 3) by done. by apply (set_w1 h 21 3).
  - do 2 f_equal. apply (setf_mask_or 32 (swap32 (id_to_foffset h)) 0 13); try lia. apply swap32_uint.
  - by apply (set_w2 h 0 8).
  - by apply (set_w2 h 8 8).
  - by apply (set_w2 h 16 16).
  - done.
  - done.
Qed.

Lemma word_set_wf f h v : wf h -> uint (width f) v -> wf (word_set f h v).
Proof.
  intros (?&?&?&?&?) ?. destruct f; simpl in *; split_and!; try done;
    try apply swap32_uint; apply setf_uint; try done; try lia; apply swap16_uint.
Qed.

Lemma word_set_view f g h v :
  uint (width f) v ->
  word_view (word_set f h v) g = if decide (g = f) then v else word_view h g.
Proof.
  intros Hv. assert (Hd : g = f \/ g <> f) by (destruct (decide (g = f)); auto).
  destruct Hd as [->|Hd]; [rewrite decide_True by done|rewrite decide_False by done];
    destruct f; simpl in Hv; try (destruct g; try done); simpl; try done;
    (* the fragment offset is written through the byte-swapped word *)
    try match goal with |- context [swap32 (setf (swap32 ?w) 0 13 ?v)] =>
      assert (uint 32 (setf (swap32 w) 0 13 v))
        by (apply setf_uint; (done || lia || apply swap32_uint));
      rewrite <- ?swap32_id, <- ?swap32_flags, <- ?swap32_foffset, swap32_swap32 by done
    end;
    repeat first [rewrite getf_setf_same by (done || lia || apply swap16_uint)
                 |rewrite getf_setf_other by (done || lia || apply swap16_uint)
                 |rewrite swap16_swap16 by done|rewrite swap32_swap32 by done]; done.
Qed.

(** The width of the argument that a setter takes *)
Definition arg_width (f : ip_field) : Z :=
  match f with
  | Version | Ihl | Dscp | Ecn | Flags | Ttl | Protocol => 8
  | Length | Id | Csum | FragmentOffset => 16
  | Src | Dst => 32
  end.

(** All setters but [set_fragment_offset] cut their argument to the field. *)
Lemma ip_set_cut f h v :
  f <> FragmentOffset -> uint (arg_width f) v -> ip_set f h v = ip_set f h (v mod 2 ^ width f).
Proof.
  intros Hf Hv. assert (Hcut : forall n, 0 <= n -> Z.land (v mod 2 ^ n) (Z.ones n) = Z.land v (Z.ones n)).
  { intros n Hn. rewrite !Z.land_ones by done. apply Z.mod_mod. lia. }
  destruct f; try done; cbn [ip_set width arg_width] in *;
    try (by rewrite Z.mod_small by (unfold uint in Hv; lia)).
  - unfold set_version. change 0xf with (Z.ones 4). by rewrite Hcut.
  - unfold set_ihl. change 0x0f with (Z.ones 4) at 2 4. by rewrite Hcut.
  - unfold set_dscp. change 0x3f with (Z.ones 6). by rewrite Hcut.
  - unfold set_ecn. change 0x03 with (Z.ones 2). by rewrite Hcut.
  - unfold set_flags. change 0x7 with (Z.ones 3). by rewrite Hcut.
Qed.

Lemma swap32_setf_flags x v : uint 3 v -> swap32 (setf x 13 3 v) = setf (swap32 x) 21 3 v.
Proof.
  intros Hv. apply Z.bits_inj'. intros i Hi. rewrite swap32_testbit, !setf_testbit by (done || lia || (cmp_cases; lia)).
  rewrite swap32_testbit by done. cmp_cases; try done; f_equal; lia.
Qed.

(** [set_fragment_offset] adds the bits above the field to the flags. *)
Lemma set_fragment_offset_wide h v :
  wf h -> uint 16 v ->
  set_fragment_offset h v =
  word_set Flags (word_set FragmentOffset h (v mod 2 ^ 13)) (Z.lor (word_view h Flags) (Z.shiftr v 13)).
Proof.
  intros (_ & Hw & _) Hv. unfold set_fragment_offset. cbn [word_set with_w1 id_to_foffset word_view]. f_equal.
  set (x := swap32 (id_to_foffset h)).
  assert (Hm : uint 13 (v mod 2 ^ 13)) by (by apply wrap_range).
  assert (Hhi : uint 3 (Z.shiftr v 13)).
  { unfold uint in *. rewrite Z.shiftr_div_pow2 by done. split; [apply Z.div_pos; lia|apply Z.div_lt_upper_bound; lia]. }
  assert (Hfl : uint 3 (Z.lor (getf (id_to_foffset h) 21 3) (Z.shiftr v 13))) by (apply lor_uint; [done|by apply getf_uint|done]).
  rewrite <- swap32_setf_flags by done. f_equal.
  pose proof (swap32_flags (id_to_foffset h)) as Hx. fold x in Hx. rewrite <- Hx in Hfl |- *.
  apply Z.bits_inj'. intros i Hi. change 0x1fff with (Z.shiftl (Z.ones 13) 0). rewrite <- (Z.shiftl_0_r v) at 1.
  rewrite setf_mask_or by (done || lia || apply swap32_uint). unfold setf at 1.
  rewrite Z.lor_spec, Z.ldiff_spec, !Z.shiftl_0_r, testbit_ones_dec, !setf_testbit by (done || lia).
  rewrite Z.sub_0_r. destruct (Z.ltb_spec i 13).
  - rewrite (proj2 (Z.leb_gt 13 i)), (proj2 (Z.leb_le 0 i)), (proj2 (Z.ltb_lt i (0 + 13))) by lia. simpl.
    by rewrite andb_false_r, Z.mod_pow2_bits_low by lia.
  - rewrite (proj2 (Z.leb_le 13 i)), (proj2 (Z.ltb_ge i (0 + 13))), andb_false_r, andb_true_r by lia. simpl.
    destruct (Z.ltb_spec i (13 + 3)).
    + rewrite Z.lor_spec, getf_testbit, Z.shiftr_spec by lia. replace (i - 13 + 13) with i by lia.
      by rewrite (proj2 (Z.ltb_lt (i - 13) 3)) by lia.
    + by rewrite (uint_testbit_high 16 v), orb_false_r by (done || lia).
Qed.

(** C24: every one of the thirteen setters, given any value of its argument's type, keeps the
    header well formed, writes the low bits of the value that fit in its field of the wire
    format, and leaves the other twelve fields alone, with one exception: the bits of a
    fragment offset from 2^13 up are added to the flags, because [set_fragment_offset] does
    not cut its argument. *)
Theorem ip_setters_refine_wire f g (h : IpHeader) v :
  wf h -> uint (arg_width f) v ->
  wf (ip_set f h v) /\
  view (encode (ip_set f h v)) g =
    if decide (g = f) then v mod 2 ^ width f
    else if decide (f = FragmentOffset /\ g = Flags) then Z.lor (view (encode h) Flags) (Z.shiftr v 13)
    else view (encode h) g.
Proof.
  intros Hh Hv. assert (Hm : uint (width f) (v mod 2 ^ width f)) by (by apply wrap_range; destruct f).
  rewrite !view_encode. destruct (decide (f = FragmentOffset)) as [->|Hf].
  - cbn [ip_set arg_width width] in *. rewrite set_fragment_offset_wide by done.
    assert (Hfl : uint 3 (Z.lor (word_view h Flags) (Z.shiftr v 13))).
    { apply lor_uint; [done|by apply getf_uint|]. unfold uint in *. rewrite Z.shiftr_div_pow2 by done.
      split; [apply Z.div_pos; lia|apply Z.div_lt_upper_bound; lia]. }
    split; [apply word_set_wf; [by apply word_set_wf|done]|]. rewrite word_set_view, word_set_view by done.
    destruct (decide (g = Flags)) as [->|]; [repeat case_decide; naive_solver|].
    destruct (decide (g = FragmentOffset)); [done|]. by rewrite decide_False by naive_solver.
  - rewrite ip_set_cut, ip_set_word by done. split; [by apply word_set_wf|]. rewrite word_set_view by done.
    destruct (decide (g = f)); [done|]. by rewrite decide_False by naive_solver.
Qed.

Lemma ip_setters_refine_wire_witness :
  (wf (set_ttl new 64) /\ view (encode (set_ttl new 64)) Ttl = 64) /\
  view (encode (set_fragment_offset new 0x4001)) Flags = 2.
Proof.
  assert (Hn : wf new) by (simpl; unfold uint; simpl; lia). split.
  - exact (ip_setters_refine_wire Ttl Ttl new 64 Hn ltac:(split; [discriminate|reflexivity])).
  - exact (proj2 (ip_setters_refine_wire FragmentOffset Flags new 0x4001 Hn ltac:(split; [discriminate|reflexivity]))).
Defined.

(** every getter but [csum] and [fragment_offset] returns its field of the wire
    format of the header. *)
Lemma ip_getters_read_wire f (h : IpHeader) :
  f <> Csum -> f <> FragmentOffset -> ip_get f h = view (encode h) f.
Proof. intros. rewrite view_encode. by apply ip_get_word. Qed.

Lemma ip_getters_read_wire_witness : ip_get Length (set_length new 1500) = 1500.
Proof. rewrite (ip_getters_read_wire Length) by discriminate. reflexivity. Defined.

(** [csum] does not undo the byte order of [set_csum]: it returns the checksum of
    the wire format with its bytes exchanged, and [fragment_offset] reads bits of
    the identification field, so no value written with [set_fragment_offset] is
    ever read back. *)
Lemma csum_fragment_offset_diverge (h : IpHeader) c o :
  wf h -> uint 16 c -> uint 13 o ->
  csum (set_csum h c) = swap16 c /\
  fragment_offset (set_fragment_offset h o) = fragment_offset h /\
  view (encode (set_fragment_offset h o)) FragmentOffset = o.
Proof.
  intros Hh Hc Ho.
  pose proof (ip_set_word Csum h c Hh Hc) as Ec.
  pose proof (ip_set_word FragmentOffset h o Hh Ho) as Eo. simpl in Ec, Eo.
  rewrite view_encode, Ec, Eo. split_and!.
  - unfold csum; simpl. change 0xffff0000 with (Z.shiftl (Z.ones 16) 16).
    rewrite getf_mask_shift, getf_setf_same by (lia || apply swap16_uint).
    by apply wrap_small, swap16_uint.
  - unfold fragment_offset; simpl. do 4 f_equal.
    pose proof (word_set_view FragmentOffset Id h o Ho) as Hi. simpl in Hi.
    apply (f_equal swap16) in Hi. by rewrite !swap16_swap16 in Hi by (by apply getf_uint).
  - exact (word_set_view FragmentOffset FragmentOffset h o Ho).
Qed.

Lemma csum_fragment_offset_diverge_witness :
  csum (set_csum new 0x1234) = 0x3412 /\ fragment_offset (set_fragment_offset new 185) = 0.
Proof.
  destruct (csum_fragment_offset_diverge new 0x1234 185) as (H1 & H2 & _);
    [simpl; unfold uint; simpl; lia|unfold uint; lia|unfold uint; lia|].
  split; [exact H1|exact H2].
Defined.

(** ** Flows *)

Lemma decode_fields l a b c d e :
  dec_fields [4; 4; 4; 4; 4]%nat l = [a; b; c; d; e] -> decode l = mkIpHeader a b c d e.
Proof. intros E. unfold decode, IpHeader_Packed. by rewrite E. Qed.

Section flows.
Context {P : Profile} {BE : BigEndian} {BEL : BigEndianLaws BE}.
Variable mem : list Z.
Hypothesis Hmem : bytes_ok mem.
Hypothesis Hlen : (20 <= List.length mem)%nat.
Let h : IpHeader := decode mem.

Lemma nth_mem i : (i < 20)%nat -> vindex mem (Z.of_nat i) = Ret (nth i (encode h) 0).
Proof using Hmem Hlen.
  intros Hi. unfold h. rewrite encode_decode by done. apply vindex_Ret. split; [lia|].
  rewrite Nat2Z.id. destruct (lookup_lt_is_Some_2 mem i) as [x Hx]; [lia|]. rewrite Hx. f_equal.
  symmetry. apply nth_lookup_Some. by rewrite lookup_take_lt by (simpl; lia).
Qed.

Lemma read_u32_mem i :
  (i + 4 <= 20)%nat ->
  read_slice mem (Z.of_nat i) (Z.of_nat i + 4) read_u32 = Ret (be_val (take 4 (drop i (encode h)))).
Proof using BEL Hmem Hlen.
  intros Hi. unfold read_slice. rewrite vslice_Ret by lia. cbn [obind]. rewrite read_u32_spec.
  replace (Z.to_nat (Z.of_nat i + 4 - Z.of_nat i)) with 4%nat by lia. rewrite Nat2Z.id.
  rewrite (proj2 (Nat.ltb_ge _ _)) by (rewrite length_take, length_drop; lia).
  f_equal. f_equal. unfold h. rewrite encode_decode by done.
  rewrite take_take, Nat.min_id, !take_drop_commute, take_take. do 2 f_equal. simpl. lia.
Qed.

Lemma read_u16_sub o (s : list Z) k :
  vslice mem o (o + 4) = Ret s -> 0 <= k <= 2 ->
  read_slice s k (k + 2) read_u16 = read_slice mem (o + k) (o + k + 2) read_u16.
Proof using.
  clear Hmem Hlen. intros Hs Hk. destruct (vslice_lookup _ _ _ _ Hs) as (? & ? & Hls & Hl).
  unfold read_slice. rewrite !vslice_Ret by lia. cbn [obind]. f_equal.
  replace (k + 2 - k) with 2 by lia. replace (o + k + 2 - (o + k)) with 2 by lia.
  apply list_eq. intros i. destruct (decide (i < 2)%nat).
  - rewrite !lookup_take_lt, !lookup_drop by (simpl; lia). rewrite Hl by lia. f_equal. lia.
  - by rewrite !lookup_take_ge by (simpl; lia).
Qed.

(** What [flow] and [ipv4_extract_flow] return on the same memory *)
Lemma extract_of_flow f :
  performance = false -> flow h mem = Ret (Some f) ->
  ipv4_extract_flow mem =
  Ret (Some (mkFlow (flow_src_ip f) (flow_dst_ip f) (flow_dst_port f) (flow_src_port f) (flow_proto f))).
Proof using BEL Hmem Hlen.
  intros Hp Hf. unfold flow in Hf.
  destruct ((protocol h =? 6) || (protocol h =? 17)) eqn:Hproto; [|done].
  outcome_inv. destruct (4 <=? v) eqn:H4; [|done]. outcome_inv.
  assert (Ho : IpHeader_offset h = port_start_of (nth 0 (encode h) 0)).
  { unfold IpHeader_offset, port_start_of, IHL_TO_BYTE_FACTOR. rewrite Hp. f_equal.
    change (ihl h) with (ip_get Ihl h).
    rewrite ip_get_word by done. rewrite <- view_encode. reflexivity. }
  unfold ipv4_extract_flow.
  rewrite (nth_mem 0 ltac:(lia) : vindex mem 0 = _), (nth_mem 9 ltac:(lia) : vindex mem 9 = _).
  cbn [obind].
  rewrite (read_u32_mem 12 ltac:(lia) : read_slice mem 12 16 read_u32 = _).
  rewrite (read_u32_mem 16 ltac:(lia) : read_slice mem 16 20 read_u32 = _). cbn [obind].
  rewrite <- Ho.
  change 2 with (0 + 2) in E1 at 1. rewrite (read_u16_sub _ _ 0 E0) in E1 by lia.
  change 4 with (2 + 2) in E2 at 1. rewrite (read_u16_sub _ _ 2 E0) in E2 by lia.
  rewrite Z.add_0_r in E1. rewrite E1. cbn [obind]. rewrite E2. cbn [obind].
  do 3 f_equal; symmetry.
  - rewrite <- (view_encode h Src : _ = src h). reflexivity.
  - rewrite <- (view_encode h Dst : _ = dst h). reflexivity.
  - change (protocol h) with (ip_get Protocol h). rewrite ip_get_word by done.
    rewrite <- view_encode. reflexivity.
Qed.

Lemma flow_returns :
  performance = false ->
  protocol h = 6 \/ protocol h = 17 ->
  ihl h * 4 + 4 <= length h -> ihl h * 4 + 4 <= zlen mem ->
  exists f, flow h mem = Ret (Some f).
Proof using BEL.
  clear Hmem Hlen. intros Hp Hproto Hl Hm. unfold flow.
  assert (Hb : (protocol h =? 6) || (protocol h =? 17) = true)
    by (rewrite orb_true_iff, !Z.eqb_eq; done).
  assert (Hihl : uint 4 (ihl h)).
  { change (ihl h) with (ip_get Ihl h). rewrite ip_get_word by done. by apply getf_uint. }
  assert (Hlh : uint 16 (length h)) by apply swap16_uint.
  rewrite Hb. unfold IpHeader_payload_size, IpHeader_offset. rewrite Hp.
  unfold uint in *. rewrite usub_small by (unfold uint; lia). cbn [obind].
  rewrite (proj2 (Z.leb_le _ _)) by lia. rewrite vslice_Ret by lia. cbn [obind].
  unfold read_slice.
  rewrite !vslice_Ret by (rewrite ?length_take, ?length_drop; lia). cbn [obind].
  rewrite !read_u16_spec, !(proj2 (Nat.ltb_ge _ _))
    by (rewrite ?length_take, ?length_drop, ?length_take, ?length_drop; lia). cbn [obind]. eauto.
Qed.
End flows.

(** on the bytes of a TCP or UDP packet long enough to hold its ports, the header's
    [flow] method and [ipv4_extract_flow] both return a flow, and the two agree on
    addresses and protocol but have source and destination port exchanged:
    [flow] takes the first port of the packet as the destination. *)
Lemma flow_ports_exchanged {P : Profile} {BE : BigEndian} {BEL : BigEndianLaws BE} mem :
  performance = false -> bytes_ok mem -> (20 <= List.length mem)%nat ->
  let h : IpHeader := decode mem in
  protocol h = 6 \/ protocol h = 17 ->
  ihl h * 4 + 4 <= length h -> ihl h * 4 + 4 <= zlen mem ->
  exists f, flow h mem = Ret (Some f) /\
  ipv4_extract_flow mem =
  Ret (Some (mkFlow (flow_src_ip f) (flow_dst_ip f) (flow_dst_port f) (flow_src_port f) (flow_proto f))).
Proof.
  intros Hp Hm Hl h Hproto H1 H2. destruct (flow_returns mem) as [f Hf]; try done.
  exists f. split; [done|]. by apply extract_of_flow.
Qed.

Lemma flow_ports_exchanged_witness :
  exists f, @flow release byteorder (decode sample_packet) sample_packet = Ret (Some f) /\
    flow_src_port f = 443 /\ flow_dst_port f = 80.
Proof.
  destruct (@flow_ports_exchanged release byteorder byteorder_laws sample_packet)
    as (f & Hf & He).
  - reflexivity.
  - unfold bytes_ok, sample_packet, uint. repeat constructor; lia.
  - simpl; lia.
  - left. reflexivity.
  - vm_compute; discriminate.
  - vm_compute; discriminate.
  - exists f. split; [exact Hf|]. clear He. vm_compute in Hf. injection Hf as <-. split; reflexivity.
Defined.

End Ip.
