(* ===== verification/TcpHeader.v ===== *)
(** * TCP and UDP headers ([framework/src/headers/{tcp,udp}.rs])

    As for IPv4, every accessor is related to the wire format (RFC 793 with the
    ECN bits of RFC 3168 and 3540; RFC 768). *)

From S2P Require Import Prelude Headers IpHeader.

Module Tcp.

Record TcpHeader : Type := mkTcpHeader {
  src_port_ : Z; dst_port_ : Z; seq_ : Z; ack_ : Z;
  offset_to_ns : Z; flags_ : Z; window_ : Z; csum_ : Z; urgent_ : Z
}.

Definition new : TcpHeader := mkTcpHeader 0 0 0 0 0 0 0 0 0.

Definition CWR : Z := 0x80.
Definition ECE : Z := 0x40.
Definition URG : Z := 0x20.
Definition ACK : Z := 0x10.
Definition PSH : Z := 0x8.
Definition RST : Z := 0x4.
Definition SYN : Z := 0x2.
Definition FIN : Z := 0x1.

Definition with_offset_to_ns (h : TcpHeader) (v : Z) : TcpHeader :=
  mkTcpHeader (src_port_ h) (dst_port_ h) (seq_ h) (ack_ h) v (flags_ h) (window_ h) (csum_ h) (urgent_ h).
Definition with_flags (h : TcpHeader) (v : Z) : TcpHeader :=
  mkTcpHeader (src_port_ h) (dst_port_ h) (seq_ h) (ack_ h) (offset_to_ns h) v (window_ h) (csum_ h) (urgent_ h).

Definition src_port (h : TcpHeader) : Z := swap16 (src_port_ h).
Definition dst_port (h : TcpHeader) : Z := swap16 (dst_port_ h).
Definition set_src_port (h : TcpHeader) (p : Z) : TcpHeader :=
  mkTcpHeader (swap16 p) (dst_port_ h) (seq_ h) (ack_ h) (offset_to_ns h) (flags_ h) (window_ h) (csum_ h) (urgent_ h).
Definition set_dst_port (h : TcpHeader) (p : Z) : TcpHeader :=
  mkTcpHeader (src_port_ h) (swap16 p) (seq_ h) (ack_ h) (offset_to_ns h) (flags_ h) (window_ h) (csum_ h) (urgent_ h).
Definition seq_num (h : TcpHeader) : Z := swap32 (seq_ h).
Definition set_seq_num (h : TcpHeader) (s : Z) : TcpHeader :=
  mkTcpHeader (src_port_ h) (dst_port_ h) (swap32 s) (ack_ h) (offset_to_ns h) (flags_ h) (window_ h) (csum_ h) (urgent_ h).
Definition ack_num (h : TcpHeader) : Z := swap32 (ack_ h).
Definition set_ack_num (h : TcpHeader) (a : Z) : TcpHeader :=
  mkTcpHeader (src_port_ h) (dst_port_ h) (seq_ h) (swap32 a) (offset_to_ns h) (flags_ h) (window_ h) (csum_ h) (urgent_ h).

Definition data_offset (h : TcpHeader) : Z := Z.shiftr (Z.land (offset_to_ns h) 0xf0) 4.
Definition set_data_offset (h : TcpHeader) (o : Z) : TcpHeader :=
  with_offset_to_ns h (Z.lor (Z.land (offset_to_ns h) 0x0f) (wrap 8 (Z.shiftl o 4))).

Definition ns_flag (h : TcpHeader) : bool := Z.land (offset_to_ns h) 0x01 =? 1.
Definition set_ns (h : TcpHeader) : TcpHeader := with_offset_to_ns h (Z.lor (offset_to_ns h) 1).
Definition unset_ns (h : TcpHeader) : TcpHeader :=
  with_offset_to_ns h (Z.land (offset_to_ns h) (unot 8 0x1)).

Definition cwr_flag (h : TcpHeader) : bool := negb (Z.land (flags_ h) CWR =? 0).
Definition set_cwr_flag (h : TcpHeader) : TcpHeader := with_flags h (Z.lor (flags_ h) CWR).
Definition unset_cwr_flag (h : TcpHeader) : TcpHeader := with_flags h (Z.land (flags_ h) (unot 8 CWR)).
Definition ece_flag (h : TcpHeader) : bool := negb (Z.land (flags_ h) ECE =? 0).
Definition set_ece_flag (h : TcpHeader) : TcpHeader := with_flags h (Z.lor (flags_ h) ECE).
Definition unset_ece_flag (h : TcpHeader) : TcpHeader := with_flags h (Z.land (flags_ h) (unot 8 ECE)).
Definition urg_flag (h : TcpHeader) : bool := negb (Z.land (flags_ h) URG =? 0).
Definition set_urg_flag (h : TcpHeader) : TcpHeader := with_flags h (Z.lor (flags_ h) URG).
Definition unset_urg_flag (h : TcpHeader) : TcpHeader := with_flags h (Z.land (flags_ h) (unot 8 URG)).
Definition ack_flag (h : TcpHeader) : bool := negb (Z.land (flags_ h) ACK =? 0).
Definition set_ack_flag (h : TcpHeader) : TcpHeader := with_flags h (Z.lor (flags_ h) ACK).
Definition unset_ack_flag (h : TcpHeader) : TcpHeader := with_flags h (Z.land (flags_ h) (unot 8 ACK)).
Definition psh_flag (h : TcpHeader) : bool := negb (Z.land (flags_ h) PSH =? 0).
Definition set_psh_flag (h : TcpHeader) : TcpHeader := with_flags h (Z.lor (flags_ h) PSH).
Definition unset_psh_flag (h : TcpHeader) : TcpHeader := with_flags h (Z.land (flags_ h) (unot 8 PSH)).
Definition rst_flag (h : TcpHeader) : bool := negb (Z.land (flags_ h) RST =? 0).
Definition set_rst_flag (h : TcpHeader) : TcpHeader := with_flags h (Z.lor (flags_ h) RST).
Definition unset_rst_flag (h : TcpHeader) : TcpHeader := with_flags h (Z.land (flags_ h) (unot 8 RST)).
Definition syn_flag (h : TcpHeader) : bool := negb (Z.land (flags_ h) SYN =? 0).
Definition set_syn_flag (h : TcpHeader) : TcpHeader := with_flags h (Z.lor (flags_ h) SYN).
Definition unset_syn_flag (h : TcpHeader) : TcpHeader := with_flags h (Z.land (flags_ h) (unot 8 SYN)).
Definition fin_flag (h : TcpHeader) : bool := negb (Z.land (flags_ h) FIN =? 0).
Definition set_fin_flag (h : TcpHeader) : TcpHeader := with_flags h (Z.lor (flags_ h) FIN).
Definition unset_fin_flag (h : TcpHeader) : TcpHeader := with_flags h (Z.land (flags_ h) (unot 8 FIN)).

(** The text written by [fmt_flags] to a formatter that does not fail *)
Definition fmt_flags (h : TcpHeader) : string :=
  ("| " +:+
  (if ns_flag h then "NS " else "") +:+
  (if cwr_flag h then "CWR " else "") +:+
  (if ece_flag h then "ECE " else "") +:+
  (if urg_flag h then "URG " else "") +:+
  (if ack_flag h then "ACK " else "") +:+
  (if psh_flag h then "PSH " else "") +:+
  (if rst_flag h then "RST " else "") +:+
  (if syn_flag h then "SYN " else "") +:+
  (if fin_flag h then "FIN " else "") +:+
  "|")%string.

Definition window_size (h : TcpHeader) : Z := swap16 (window_ h).
Definition set_window_size (h : TcpHeader) (w : Z) : TcpHeader :=
  mkTcpHeader (src_port_ h) (dst_port_ h) (seq_ h) (ack_ h) (offset_to_ns h) (flags_ h) (swap16 w) (csum_ h) (urgent_ h).
Definition checksum (h : TcpHeader) : Z := swap16 (csum_ h).
Definition set_checksum (h : TcpHeader) (c : Z) : TcpHeader :=
  mkTcpHeader (src_port_ h) (dst_port_ h) (seq_ h) (ack_ h) (offset_to_ns h) (flags_ h) (window_ h) (swap16 c) (urgent_ h).
Definition urgent (h : TcpHeader) : Z := swap16 (urgent_ h).
Definition set_urgent (h : TcpHeader) (u : Z) : TcpHeader :=
  mkTcpHeader (src_port_ h) (dst_port_ h) (seq_ h) (ack_ h) (offset_to_ns h) (flags_ h) (window_ h) (csum_ h) (swap16 u).

(** [EndOffset for TcpHeader]; [data_offset() * 4] is [u8] arithmetic. *)
Definition TcpHeader_offset (h : TcpHeader) : Z := wrap 8 (data_offset h * 4).

#[global] Instance TcpHeader_EndOffset `{Profile} : EndOffset TcpHeader := {|
  PreviousHeader := Ip.IpHeader;
  offset := TcpHeader_offset;
  size := 20;
  payload_size h frame_size := usub 64 frame_size (TcpHeader_offset h);
  check_correct _ _ := true
|}.

#[global] Instance TcpHeader_Packed : Packed TcpHeader := {|
  size_of := 20;
  encode h := enc_fields [(2, src_port_ h); (2, dst_port_ h); (4, seq_ h); (4, ack_ h);
    (1, offset_to_ns h); (1, flags_ h); (2, window_ h); (2, csum_ h); (2, urgent_ h)]%nat;
  decode l :=
    match dec_fields [2; 2; 4; 4; 1; 1; 2; 2; 2]%nat l with
    | [a; b; c; d; e; f; g; i; j] => mkTcpHeader a b c d e f g i j
    | _ => new
    end;
  wf h := uint 16 (src_port_ h) /\ uint 16 (dst_port_ h) /\ uint 32 (seq_ h) /\ uint 32 (ack_ h) /\
    uint 8 (offset_to_ns h) /\ uint 8 (flags_ h) /\ uint 16 (window_ h) /\ uint 16 (csum_ h) /\
    uint 16 (urgent_ h)
|}.

#[global] Instance TcpHeader_PackedLaws : PackedLaws TcpHeader TcpHeader_Packed.
Proof.
  constructor.
  - intros. apply length_enc_fields.
  - intros. apply enc_fields_ok.
  - intros [a b c d e f g i j] rest (?&?&?&?&?&?&?&?&?).
    unfold decode, encode, TcpHeader_Packed.
    rewrite (dec_enc_fields [(2, a); (2, b); (4, c); (4, d); (1, e); (1, f); (2, g); (2, i); (2, j)]%nat);
      [done|]. repeat (constructor; [assumption|]). constructor.
  - intros l Hl Hs. pose proof (dec_fields_uint [2; 2; 4; 4; 1; 1; 2; 2; 2]%nat l Hl Hs) as Hu.
    repeat match goal with H : Forall2 _ (_ :: _) _ |- _ => inversion H; clear H; subst end.
    unfold wf, decode, TcpHeader_Packed. simpl in *. done.
  - intros l Hl Hs. exact (enc_dec_fields [2; 2; 4; 4; 1; 1; 2; 2; 2]%nat l Hl Hs).
Qed.

(** ** The wire format *)

Inductive tcp_field : Type :=
| SrcPort | DstPort | SeqNum | AckNum | DataOffset | NsF | CwrF | EceF | UrgF | AckF | PshF
| RstF | SynF | FinF | Window | Checksum | Urgent.

#[global] Instance tcp_field_eq_dec : EqDecision tcp_field.
Proof. solve_decision. Defined.

Definition width (f : tcp_field) : Z :=
  match f with
  | SrcPort | DstPort | Window | Checksum | Urgent => 16
  | SeqNum | AckNum => 32
  | DataOffset => 4
  | _ => 1
  end.

Definition view (l : list Z) (f : tcp_field) : Z :=
  let b i := nth i l 0 in
  match f with
  | SrcPort => be_val [b 0%nat; b 1%nat]
  | DstPort => be_val [b 2%nat; b 3%nat]
  | SeqNum => be_val [b 4%nat; b 5%nat; b 6%nat; b 7%nat]
  | AckNum => be_val [b 8%nat; b 9%nat; b 10%nat; b 11%nat]
  | DataOffset => getf (b 12%nat) 4 4
  | NsF => getf (b 12%nat) 0 1
  | CwrF => getf (b 13%nat) 7 1
  | EceF => getf (b 13%nat) 6 1
  | UrgF => getf (b 13%nat) 5 1
  | AckF => getf (b 13%nat) 4 1
  | PshF => getf (b 13%nat) 3 1
  | RstF => getf (b 13%nat) 2 1
  | SynF => getf (b 13%nat) 1 1
  | FinF => getf (b 13%nat) 0 1
  | Window => be_val [b 14%nat; b 15%nat]
  | Checksum => be_val [b 16%nat; b 17%nat]
  | Urgent => be_val [b 18%nat; b 19%nat]
  end.

(** Writing a one-bit field is the [set_] or the [unset_] method. *)
Definition flag_write (set unset : TcpHeader -> TcpHeader) (h : TcpHeader) (v : Z) : TcpHeader :=
  if v =? 0 then unset h else set h.

Definition tcp_set (f : tcp_field) : TcpHeader -> Z -> TcpHeader :=
  match f with
  | SrcPort => set_src_port | DstPort => set_dst_port | SeqNum => set_seq_num
  | AckNum => set_ack_num | DataOffset => set_data_offset
  | NsF => flag_write set_ns unset_ns
  | CwrF => flag_write set_cwr_flag unset_cwr_flag
  | EceF => flag_write set_ece_flag unset_ece_flag
  | UrgF => flag_write set_urg_flag unset_urg_flag
  | AckF => flag_write set_ack_flag unset_ack_flag
  | PshF => flag_write set_psh_flag unset_psh_flag
  | RstF => flag_write set_rst_flag unset_rst_flag
  | SynF => flag_write set_syn_flag unset_syn_flag
  | FinF => flag_write set_fin_flag unset_fin_flag
  | Window => set_window_size | Checksum => set_checksum | Urgent => set_urgent
  end.

Definition tcp_get (f : tcp_field) (h : TcpHeader) : Z :=
  match f with
  | SrcPort => src_port h | DstPort => dst_port h | SeqNum => seq_num h
  | AckNum => ack_num h | DataOffset => data_offset h
  | NsF => Z.b2z (ns_flag h)
  | CwrF => Z.b2z (cwr_flag h)
  | EceF => Z.b2z (ece_flag h)
  | UrgF => Z.b2z (urg_flag h)
  | AckF => Z.b2z (ack_flag h)
  | PshF => Z.b2z (psh_flag h)
  | RstF => Z.b2z (rst_flag h)
  | SynF => Z.b2z (syn_flag h)
  | FinF => Z.b2z (fin_flag h)
  | Window => window_size h | Checksum => checksum h | Urgent => urgent h
  end.

(** The view of a header, field by field of the struct *)
Definition word_view (h : TcpHeader) (f : tcp_field) : Z :=
  match f with
  | SrcPort => swap16 (src_port_ h)
  | DstPort => swap16 (dst_port_ h)
  | SeqNum => swap32 (seq_ h)
  | AckNum => swap32 (ack_ h)
  | DataOffset => getf (offset_to_ns h) 4 4
  | NsF => getf (offset_to_ns h) 0 1
  | CwrF => getf (flags_ h) 7 1
  | EceF => getf (flags_ h) 6 1
  | UrgF => getf (flags_ h) 5 1
  | AckF => getf (flags_ h) 4 1
  | PshF => getf (flags_ h) 3 1
  | RstF => getf (flags_ h) 2 1
  | SynF => getf (flags_ h) 1 1
  | FinF => getf (flags_ h) 0 1
  | Window => swap16 (window_ h)
  | Checksum => swap16 (csum_ h)
  | Urgent => swap16 (urgent_ h)
  end.

Lemma tcp_view_encode h f : view (encode h) f = word_view h f.
Proof.
  unfold encode, TcpHeader_Packed, enc_fields. rewrite !le_bytes_4, !le_bytes_2, !le_bytes_1.
  destruct f; unfold view, word_view; cbn [nth app];
    rewrite ?getf_getf by lia; rewrite ?swap32_be, ?swap16_be, ?le_bytes_4, ?le_bytes_2; done.
Qed.

Lemma tcp_get_word f h : tcp_get f h = word_view h f.
Proof.
  destruct f; simpl; try done;
    try (unfold cwr_flag, ece_flag, urg_flag, ack_flag, psh_flag, rst_flag, syn_flag, fin_flag;
         rewrite getf_bit by lia; f_equal;
         match goal with |- _ = Z.testbit ?x ?k => exact (land_bit_nonzero x k ltac:(lia)) end).
  - unfold data_offset. by apply (getf_mask_shift _ 4 4).
  - unfold ns_flag. change (Z.land (offset_to_ns h) 1) with (getf (offset_to_ns h) 0 1).
    rewrite getf_bit by lia. by destruct (Z.testbit _ _).
Qed.

(** What each setter does to the struct *)
Definition word_set (f : tcp_field) (h : TcpHeader) (v : Z) : TcpHeader :=
  match f with
  | SrcPort => set_src_port h v
  | DstPort => set_dst_port h v
  | SeqNum => set_seq_num h v
  | AckNum => set_ack_num h v
  | DataOffset => with_offset_to_ns h (setf (offset_to_ns h) 4 4 v)
  | NsF => with_offset_to_ns h (setf (offset_to_ns h) 0 1 v)
  | CwrF => with_flags h (setf (flags_ h) 7 1 v)
  | EceF => with_flags h (setf (flags_ h) 6 1 v)
  | UrgF => with_flags h (setf (flags_ h) 5 1 v)
  | AckF => with_flags h (setf (flags_ h) 4 1 v)
  | PshF => with_flags h (setf (flags_ h) 3 1 v)
  | RstF => with_flags h (setf (flags_ h) 2 1 v)
  | SynF => with_flags h (setf (flags_ h) 1 1 v)
  | FinF => with_flags h (setf (flags_ h) 0 1 v)
  | Window => set_window_size h v
  | Checksum => set_checksum h v
  | Urgent => set_urgent h v
  end.

Lemma flag_write_word set unset upd x k h v :
  0 <= k < 8 -> uint 8 x -> uint 1 v ->
  set h = upd h (Z.lor x (2 ^ k)) -> unset h = upd h (Z.land x (unot 8 (2 ^ k))) ->
  flag_write set unset h v = upd h (setf x k 1 v).
Proof.
  intros Hk Hx [??] Hs Hu. unfold flag_write. destruct (Z.eqb_spec v 0) as [->|].
  - by rewrite Hu, land_unot_bit.
  - replace v with 1 by lia. by rewrite Hs, lor_bit by lia.
Qed.

Lemma tcp_set_word f h v : wf h -> uint (width f) v -> tcp_set f h v = word_set f h v.
Proof.
  intros (?&?&?&?&Ho&Hf&?) Hv. destruct f; simpl in Hv; try done;
    try by apply (flag_write_word _ _ with_flags (flags_ h)).
  - simpl. unfold set_data_offset. f_equal.
    rewrite wrap_small; [by apply (setf_mask_or 8 _ 4 4)|].
    destruct Hv. unfold uint. rewrite Z.shiftl_mul_pow2; lia.
  - by apply (flag_write_word _ _ with_offset_to_ns (offset_to_ns h)).
Qed.

Lemma tcp_word_set_wf f h v : wf h -> uint (width f) v -> wf (word_set f h v).
Proof.
  intros (?&?&?&?&?&?&?&?&?) ?. destruct f; simpl in *; split_and!; try done;
    try apply swap32_uint; try apply swap16_uint; apply setf_uint; done || lia.
Qed.

Lemma tcp_word_set_view f g h v :
  uint (width f) v ->
  word_view (word_set f h v) g = if decide (g = f) then v else word_view h g.
Proof.
  intros Hv. assert (Hd : g = f \/ g <> f) by (destruct (decide (g = f)); auto).
  destruct Hd as [->|Hd]; [rewrite decide_True by done|rewrite decide_False by done];
    destruct f; simpl in Hv; try (destruct g; try done); simpl; try done;
    first [rewrite getf_setf_same by (done || lia) |rewrite getf_setf_other by (done || lia)
          |rewrite swap16_swap16 by done|rewrite swap32_swap32 by done]; done.
Qed.

(** C28: the accessors of the TCP header implement the wire format: every getter reads
    its field, and every setter (for a one-bit field the [set_]/[unset_] pair),
    given a value of the field's width, changes that field only. *)
Theorem tcp_accessors_refine_wire f g (h : TcpHeader) v :
  wf h -> uint (width f) v ->
  tcp_get g h = view (encode h) g /\
  wf (tcp_set f h v) /\
  view (encode (tcp_set f h v)) g = if decide (g = f) then v else view (encode h) g.
Proof.
  intros Hh Hv. rewrite tcp_set_word, !tcp_view_encode by done. split_and!.
  - apply tcp_get_word.
  - by apply tcp_word_set_wf.
  - by apply tcp_word_set_view.
Qed.

Lemma tcp_accessors_refine_wire_witness :
  view (encode (set_syn_flag new)) SynF = 1 /\ tcp_get AckF new = 0.
Proof.
  destruct (tcp_accessors_refine_wire SynF SynF new 1) as (_ & _ & H1);
    [simpl; unfold uint; lia|simpl; unfold uint; lia|].
  destruct (tcp_accessors_refine_wire SynF AckF new 1) as (H2 & _ & _);
    [simpl; unfold uint; lia|simpl; unfold uint; lia|].
  split; [exact H1|exact H2].
Defined.

(** The [u8] product of [offset] cannot overflow. *)
Lemma TcpHeader_offset_eq h : TcpHeader_offset h = data_offset h * 4.
Proof.
  unfold TcpHeader_offset. apply wrap_small.
  change (data_offset h) with (tcp_get DataOffset h). rewrite tcp_get_word. simpl.
  pose proof (getf_uint (offset_to_ns h) 4 4 ltac:(lia)). unfold uint in *. lia.
Qed.

End Tcp.

Module Udp.

Record UdpHeader : Type := mkUdpHeader { src_port_ : Z; dst_port_ : Z; len_ : Z; csum_ : Z }.

Definition new : UdpHeader := mkUdpHeader 0 0 0 0.

Definition src_port (h : UdpHeader) : Z := swap16 (src_port_ h).
Definition dst_port (h : UdpHeader) : Z := swap16 (dst_port_ h).
Definition set_src_port (h : UdpHeader) (p : Z) : UdpHeader :=
  mkUdpHeader (swap16 p) (dst_port_ h) (len_ h) (csum_ h).
Definition set_dst_port (h : UdpHeader) (p : Z) : UdpHeader :=
  mkUdpHeader (src_port_ h) (swap16 p) (len_ h) (csum_ h).
Definition length (h : UdpHeader) : Z := swap16 (len_ h).
Definition set_length (h : UdpHeader) (l : Z) : UdpHeader :=
  mkUdpHeader (src_port_ h) (dst_port_ h) (swap16 l) (csum_ h).
Definition checksum (h : UdpHeader) : Z := swap16 (csum_ h).
Definition set_checksum (h : UdpHeader) (c : Z) : UdpHeader :=
  mkUdpHeader (src_port_ h) (dst_port_ h) (len_ h) (swap16 c).

#[global] Instance UdpHeader_EndOffset `{Profile} : EndOffset UdpHeader := {|
  PreviousHeader := Ip.IpHeader;
  offset _ := 8;
  size := 8;
  payload_size h _ := usub 64 (length h) 8;
  check_correct _ _ := true
|}.

#[global] Instance UdpHeader_Packed : Packed UdpHeader := {|
  size_of := 8;
  encode h := enc_fields [(2, src_port_ h); (2, dst_port_ h); (2, len_ h); (2, csum_ h)]%nat;
  decode l :=
    match dec_fields [2; 2; 2; 2]%nat l with
    | [a; b; c; d] => mkUdpHeader a b c d
    | _ => new
    end;
  wf h := uint 16 (src_port_ h) /\ uint 16 (dst_port_ h) /\ uint 16 (len_ h) /\ uint 16 (csum_ h)
|}.

#[global] Instance UdpHeader_PackedLaws : PackedLaws UdpHeader UdpHeader_Packed.
Proof.
  constructor.
  - intros. apply length_enc_fields.
  - intros. apply enc_fields_ok.
  - intros [a b c d] rest (?&?&?&?). unfold decode, encode, UdpHeader_Packed.
    rewrite (dec_enc_fields [(2, a); (2, b); (2, c); (2, d)]%nat); [done|].
    repeat (constructor; [assumption|]). constructor.
  - intros l Hl Hs. pose proof (dec_fields_uint [2; 2; 2; 2]%nat l Hl Hs) as Hu.
    repeat match goal with H : Forall2 _ (_ :: _) _ |- _ => inversion H; clear H; subst end.
    unfold wf, decode, UdpHeader_Packed. simpl in *. done.
  - intros l Hl Hs. exact (enc_dec_fields [2; 2; 2; 2]%nat l Hl Hs).
Qed.

(** The four 16-bit fields of RFC 768, most significant byte first *)
Inductive udp_field : Type := SrcPort | DstPort | Length | Checksum.

Definition view (l : list Z) (f : udp_field) : Z :=
  let b i := nth i l 0 in
  match f with
  | SrcPort => be_val [b 0%nat; b 1%nat]
  | DstPort => be_val [b 2%nat; b 3%nat]
  | Length => be_val [b 4%nat; b 5%nat]
  | Checksum => be_val [b 6%nat; b 7%nat]
  end.

(** a UDP header built with its four setters has exactly those values on the wire
    and every getter reads them back. *)
Lemma udp_build_wire (h : UdpHeader) sp dp len c :
  uint 16 sp -> uint 16 dp -> uint 16 len -> uint 16 c ->
  let h' := set_checksum (set_length (set_dst_port (set_src_port h sp) dp) len) c in
  wf h' /\ (src_port h', dst_port h', length h', checksum h') = (sp, dp, len, c) /\
  view (encode h') = fun f => match f with SrcPort => sp | DstPort => dp | Length => len | Checksum => c end.
Proof.
  intros ???? h'. split_and!.
  - split_and!; apply swap16_uint.
  - unfold src_port, dst_port, length, checksum; simpl. by rewrite !swap16_swap16.
  - unfold encode, UdpHeader_Packed, enc_fields. rewrite !le_bytes_2.
    unfold view; cbn [nth app h' set_checksum set_length set_dst_port set_src_port
      src_port_ dst_port_ len_ csum_].
    rewrite <- !le_bytes_2, <- !swap16_be, !swap16_swap16 by done. done.
Qed.

Lemma udp_build_wire_witness :
  let h' := set_checksum (set_length (set_dst_port (set_src_port new 53) 1024) 20) 0 in
  (src_port h', dst_port h', length h', checksum h') = (53, 1024, 20, 0).
Proof.
  destruct (udp_build_wire new 53 1024 20 0) as (_ & H & _); [unfold uint; lia..|]. exact H.
Defined.

End Udp.
