(* ===== verification/RingBuffer.v ===== *)
(** * The byte ring buffer ([framework/src/state/ring_buffer.rs])

    [head] and [tail] are free-running [usize] counters that wrap at [2^64]; the
    low bits index the vector. The abstraction is the [window]: the bytes of the
    vector in the order in which they will be read, starting at [head]; the first
    [available] of them are the contents of the queue. *)

From S2P Require Import Prelude.

Module Ring.

Record RingBuffer : Type := mkRing {
  head : Z; tail : Z; size : Z; mask : Z; vec : list Z
}.

Definition with_head (rb : RingBuffer) (h : Z) : RingBuffer :=
  mkRing h (tail rb) (size rb) (mask rb) (vec rb).
Definition with_tail (rb : RingBuffer) (t : Z) : RingBuffer :=
  mkRing (head rb) t (size rb) (mask rb) (vec rb).
Definition with_vec (rb : RingBuffer) (v : list Z) : RingBuffer :=
  mkRing (head rb) (tail rb) (size rb) (mask rb) v.

(** ** [std::io::Read] and [Write] on slices: copy as much as fits *)

Definition io_read (src data : list Z) : Z * list Z :=
  let n := Z.min (zlen src) (zlen data) in
  (n, take (Z.to_nat n) src ++ drop (Z.to_nat n) data).

Definition io_write (dst data : list Z) : Z * list Z :=
  let n := Z.min (zlen dst) (zlen data) in
  (n, take (Z.to_nat n) data ++ drop (Z.to_nat n) dst).

(** ** Operations *)

Section operations.
Context {P : Profile}.

Definition new (bytes : Z) : outcome (result RingBuffer) :=
  let! b1 := usub 64 bytes 1 in
  if negb (Z.land bytes b1 =? 0) then Ret (Err (InvalidRingSize bytes))
  else Ret (Ok {| head := 0; tail := 0; size := bytes; mask := b1;
                  vec := replicate (Z.to_nat bytes) 0 |}).

(** Returns the byte count and the contents of [data] afterwards. *)
Definition wrapped_read (rb : RingBuffer) (offset : Z) (data : list Z) : outcome (Z * list Z) :=
  assert_ (offset <? size rb) (assert_ (zlen data <=? size rb) (
  let! src := vslice (vec rb) offset (zlen (vec rb)) in
  let '(bytes, data1) := io_read src data in
  let! fin := uadd 64 offset (zlen data) in
  if size rb <? fin then
    let! remaining := usub 64 (zlen data) bytes in
    let! src2 := vslice (vec rb) 0 remaining in
    let! rest := vslice data1 bytes (zlen data1) in
    let '(bytes2, rest') := io_read src2 rest in
    let! total := uadd 64 bytes bytes2 in
    Ret (total, splice data1 bytes rest')
  else Ret (bytes, data1))).

Definition wrapped_write (rb : RingBuffer) (offset : Z) (data : list Z) : outcome (Z * RingBuffer) :=
  assert_ (offset <? size rb) (assert_ (zlen data <=? size rb) (
  let! dst := vslice (vec rb) offset (zlen (vec rb)) in
  let '(bytes, dst') := io_write dst data in
  let vec1 := splice (vec rb) offset dst' in
  let! fin := uadd 64 offset (zlen data) in
  if size rb <? fin then
    let! remaining := usub 64 (zlen data) bytes in
    let! dst2 := vslice vec1 0 remaining in
    let! rest := vslice data bytes (zlen data) in
    let '(bytes2, dst2') := io_write dst2 rest in
    let! total := uadd 64 bytes bytes2 in
    Ret (total, with_vec rb (splice vec1 0 dst2'))
  else Ret (bytes, with_vec rb vec1))).

Definition write_at_offset (rb : RingBuffer) (offset : Z) (data : list Z) : outcome (Z * RingBuffer) :=
  wrapped_write rb offset data.

Definition read_from_offset (rb : RingBuffer) (offset : Z) (data : list Z) : outcome (Z * list Z) :=
  wrapped_read rb offset data.

Definition seek_tail (rb : RingBuffer) (increment_by : Z) : RingBuffer :=
  with_tail rb (wrapping_add 64 (tail rb) increment_by).

Definition write_at_tail (rb : RingBuffer) (data : list Z) : outcome (Z * RingBuffer) :=
  let available := wrapping_sub 64 (wrapping_add 64 (mask rb) (head rb)) (tail rb) in
  let write := Z.min (zlen data) available in
  let offset := Z.land (tail rb) (mask rb) in
  let rb := seek_tail rb write in
  let! data' := vslice data 0 write in
  wrapped_write rb offset data'.

Definition write_at_offset_from_tail (rb : RingBuffer) (offset : Z) (data : list Z)
    : outcome (Z * RingBuffer) :=
  let available := wrapping_sub 64 (wrapping_add 64 (mask rb) (head rb)) (tail rb) in
  if available <? offset then Ret (0, rb)
  else
    let offset_tail := wrapping_add 64 (tail rb) offset in
    let available_at_offset := wrapping_sub 64 (wrapping_add 64 (mask rb) (head rb)) offset_tail in
    let write := Z.min (zlen data) available_at_offset in
    let index := Z.land offset_tail (mask rb) in
    let! data' := vslice data 0 write in
    wrapped_write rb index data'.

Definition available (rb : RingBuffer) : Z := wrapping_sub 64 (tail rb) (head rb).

Definition read_offset (rb : RingBuffer) : Z := Z.land (head rb) (mask rb).

Definition read_from_head_with_increment (rb : RingBuffer) (data : list Z) (increment : Z)
    : outcome (Z * list Z * RingBuffer) :=
  let offset := read_offset rb in
  let to_read := Z.min (available rb) (zlen data) in
  let rb := with_head rb (wrapping_add 64 (head rb) (Z.min increment to_read)) in
  let! sub := vslice data 0 to_read in
  let! '(n, sub') := wrapped_read rb offset sub in
  Ret (n, splice data 0 sub', rb).

Definition read_from_head (rb : RingBuffer) (data : list Z) : outcome (Z * list Z * RingBuffer) :=
  read_from_head_with_increment rb data (zlen data).

Definition seek_head (rb : RingBuffer) (seek : Z) : outcome RingBuffer :=
  assert_ (seek <=? available rb) (Ret (with_head rb (wrapping_add 64 (head rb) seek))).

Definition len (rb : RingBuffer) : Z := size rb.

Definition clear (rb : RingBuffer) : RingBuffer := with_tail (with_head rb 0) 0.

End operations.

(** ** Invariant and abstraction *)

Definition Inv (rb : RingBuffer) : Prop :=
  (exists k, 0 <= k <= 63 /\ size rb = 2 ^ k) /\
  mask rb = size rb - 1 /\ zlen (vec rb) = size rb /\
  uint 64 (head rb) /\ uint 64 (tail rb) /\ available rb <= mask rb.

(** ** The vector as a circle *)

Lemma land_mask_mod x m : (exists k, 0 <= k <= 63 /\ m = 2 ^ k) -> Z.land x (m - 1) = x mod m.
Proof.
  intros (k & ? & ->). rewrite <- Z.land_ones by lia. f_equal. rewrite Z.ones_equiv. lia.
Qed.

Lemma uint64_mod x m : (exists k, 0 <= k <= 63 /\ m = 2 ^ k) -> wrap 64 x mod m = x mod m.
Proof.
  intros (k & ? & ->). unfold wrap. apply Z.mod_mod_divide.
  exists (2 ^ (64 - k)). rewrite <- Z.pow_add_r by lia. f_equal. lia.
Qed.

(** A vector read from position [off] on, wrapping around its end *)
Definition rotl (off : Z) (l : list Z) : list Z := drop (Z.to_nat off) l ++ take (Z.to_nat off) l.

Lemma length_rotl off l : length (rotl off l) = length l.
Proof. unfold rotl. rewrite length_app, length_drop, length_take. lia. Qed.

Lemma circle_pos off i s :
  0 <= off < s -> 0 <= i < s -> (off + i) mod s = if off + i <? s then off + i else off + i - s.
Proof.
  intros. destruct (Z.ltb_spec (off + i) s); [apply Z.mod_small; lia|].
  symmetry. apply (Z.mod_unique_pos _ _ 1); lia.
Qed.

Lemma rotl_lookup off l i :
  0 <= off < zlen l -> (i < length l)%nat ->
  rotl off l !! i = l !! Z.to_nat ((off + Z.of_nat i) mod zlen l).
Proof.
  intros. unfold rotl. rewrite circle_pos by lia. destruct (Z.ltb_spec (off + Z.of_nat i) (zlen l)).
  - rewrite lookup_app_l by (rewrite length_drop; lia). rewrite lookup_drop. f_equal. lia.
  - rewrite lookup_app_r; rewrite length_drop; [|lia].
    rewrite lookup_take_lt by lia. f_equal. lia.
Qed.

(** All [size] bytes in reading order from [head] *)
Definition window (rb : RingBuffer) : list Z := rotl (head rb mod size rb) (vec rb).

(** The bytes a reader will get *)
Definition contents (rb : RingBuffer) : list Z := take (Z.to_nat (available rb)) (window rb).

(** Free space: one byte of the vector is never used. *)
Definition free (rb : RingBuffer) : Z := mask rb - available rb.

Definition circle_ok (rb : RingBuffer) : Prop :=
  zlen (vec rb) = size rb /\ 0 < size rb <= 2 ^ 63.

Lemma zmod_diff a b s : 0 <= a < s -> 0 <= b < s -> (a - b) mod s = if b <=? a then a - b else a - b + s.
Proof.
  intros. destruct (Z.leb_spec b a); [apply Z.mod_small; lia|].
  symmetry. apply (Z.mod_unique_pos _ _ (-1)); lia.
Qed.

Lemma io_read_short src data :
  zlen src <= zlen data -> io_read src data = (zlen src, src ++ drop (length src) data).
Proof. intros. unfold io_read. by rewrite Z.min_l, Nat2Z.id, firstn_all by done. Qed.

Lemma io_read_long src data :
  zlen data <= zlen src -> io_read src data = (zlen data, take (length data) src).
Proof.
  intros. unfold io_read. rewrite Z.min_r, Nat2Z.id by done. by rewrite drop_all, app_nil_r.
Qed.

(** A slice write is a slice read in the other direction. *)
Lemma io_write_read dst data : io_write dst data = io_read data dst.
Proof. unfold io_write, io_read. by rewrite Z.min_comm. Qed.

Section circle.
Context {P : Profile}.

Lemma wrapped_read_spec rb off data :
  circle_ok rb -> 0 <= off < size rb -> zlen data <= size rb ->
  wrapped_read rb off data = Ret (zlen data, take (length data) (rotl off (vec rb))).
Proof.
  intros (Hv & ? & ?) ??. unfold wrapped_read, rotl.
  rewrite !assert_true by (apply Z.ltb_lt || apply Z.leb_le; lia).
  rewrite vslice_from by lia. cbn [obind].
  set (hd := drop (Z.to_nat off) (vec rb)).
  assert (Hhd : zlen hd = size rb - off) by (unfold hd; rewrite length_drop; lia).
  rewrite uadd_small by (unfold uint; lia). cbn [obind].
  destruct (Z.ltb_spec (size rb) (off + zlen data)).
  - rewrite io_read_short, usub_small by (unfold uint; lia). cbn [obind].
    rewrite vslice_to, vslice_from by (rewrite ?length_app; lia). cbn [obind].
    rewrite Nat2Z.id, drop_app_length.
    rewrite io_read_long by (rewrite length_take, length_drop; lia).
    rewrite length_drop, take_take, uadd_small by (unfold uint; lia). cbn [obind].
    unfold splice. rewrite Nat2Z.id, take_app_length, (take_app_ge hd) by lia.
    rewrite drop_ge by (rewrite length_app, length_take, length_drop; lia).
    rewrite app_nil_r, take_take. do 3 f_equal; [lia|]. f_equal. lia.
  - rewrite io_read_long by lia. by rewrite take_app_le by lia.
Qed.

Lemma wrapped_write_spec rb off data :
  circle_ok rb -> 0 <= off < size rb -> zlen data <= size rb ->
  exists v', wrapped_write rb off data = Ret (zlen data, with_vec rb v') /\
    length v' = length (vec rb) /\
    forall j, 0 <= j < size rb ->
      v' !! Z.to_nat j = if (j - off) mod size rb <? zlen data
                         then data !! Z.to_nat ((j - off) mod size rb) else vec rb !! Z.to_nat j.
Proof.
  intros (Hv & ? & ?) ??. unfold wrapped_write.
  rewrite !assert_true by (apply Z.ltb_lt || apply Z.leb_le; lia).
  rewrite vslice_from by lia. cbn [obind]. rewrite io_write_read.
  set (hd := drop (Z.to_nat off) (vec rb)).
  assert (Hhd : zlen hd = size rb - off) by (unfold hd; rewrite length_drop; lia).
  rewrite uadd_small by (unfold uint; lia). cbn [obind].
  destruct (Z.ltb_spec (size rb) (off + zlen data)).
  - rewrite io_read_long, usub_small by (unfold uint; lia). cbn [obind].
    assert (Hl : length (splice (vec rb) off (take (length hd) data)) = length (vec rb))
      by (apply length_splice; rewrite ?length_take; lia).
    rewrite vslice_to, vslice_from by lia. cbn [obind]. rewrite Nat2Z.id, ?io_write_read.
    rewrite io_read_short by (rewrite length_take, length_drop; lia).
    rewrite length_drop, uadd_small by (unfold uint; lia). cbn [obind].
    rewrite (drop_ge (take _ (splice _ _ _))), app_nil_r by (rewrite length_take; lia).
    eexists; split; [do 2 f_equal; lia|]. split; [rewrite length_splice; rewrite ?length_drop; lia|].
    intros j Hj. rewrite zmod_diff by lia. pose proof (Z.leb_spec off j) as Hcase.
    rewrite (splice_lookup _ 0), length_drop by (rewrite ?length_drop; lia).
    rewrite splice_lookup, length_take by (rewrite ?length_take; lia).
    destruct Hcase; repeat case_decide; cmp_cases; rewrite ?lookup_drop, ?lookup_take_lt by lia; f_equal; lia.
  - rewrite io_read_short by lia. eexists; split; [done|].
    split; [rewrite length_splice; rewrite ?length_app, ?length_drop; lia|].
    intros j Hj. rewrite zmod_diff by lia. pose proof (Z.leb_spec off j) as Hcase.
    rewrite splice_lookup, length_app, length_drop by (rewrite ?length_app, ?length_drop; lia).
    destruct Hcase; case_decide; cmp_cases; rewrite ?lookup_app_l by lia; try (f_equal; lia).
    all: rewrite lookup_app_r, lookup_drop by lia; unfold hd; rewrite lookup_drop; f_equal; lia.
Qed.

End circle.

(** ** Consequences of the invariant *)

Section invariant.
Context (rb : RingBuffer) (HI : Inv rb).

Lemma inv_size : 0 < size rb <= 2 ^ 63.
Proof using HI.
  destruct HI as ((k & ? & ->) & _). split; [lia|]. apply Z.pow_le_mono_r; lia.
Qed.

Lemma inv_pow2 : exists k, 0 <= k <= 63 /\ size rb = 2 ^ k.
Proof using HI. apply HI. Qed.

Lemma inv_circle : circle_ok rb.
Proof using HI. split; [apply HI|apply inv_size]. Qed.

Lemma inv_available : 0 <= available rb <= mask rb.
Proof using HI. split; [|apply HI]. by apply (wrap_range 64). Qed.

Lemma inv_mask : mask rb = size rb - 1.
Proof using HI. apply HI. Qed.

Lemma inv_land x : Z.land x (mask rb) = x mod size rb.
Proof using HI. rewrite inv_mask. apply land_mask_mod, inv_pow2. Qed.

Lemma inv_tail_pos k : (tail rb + k) mod size rb = (head rb + (available rb + k)) mod size rb.
Proof using HI.
  assert (E : tail rb mod size rb = (head rb + available rb) mod size rb).
  { unfold available, wrapping_sub. rewrite <- Zplus_mod_idemp_r.
    rewrite uint64_mod by apply inv_pow2. rewrite Zplus_mod_idemp_r. f_equal. lia. }
  by rewrite <- Zplus_mod_idemp_l, E, Zplus_mod_idemp_l, Z.add_assoc.
Qed.

(** The space computed from the counters is the space left in the window. *)
Lemma inv_space k :
  0 <= k <= free rb ->
  wrapping_sub 64 (wrapping_add 64 (mask rb) (head rb)) (wrapping_add 64 (tail rb) k) = free rb - k.
Proof using HI.
  intros Hk. pose proof inv_size. pose proof inv_mask. pose proof inv_available.
  unfold free, available, wrapping_sub, wrapping_add in *.
  rewrite wrap_wrap_sub_l, wrap_wrap_sub_r.
  replace (mask rb + head rb - (tail rb + k)) with (mask rb - k - (tail rb - head rb)) by lia.
  rewrite <- wrap_wrap_sub_r. rewrite wrap_small; [lia|]. unfold uint. lia.
Qed.

Lemma length_window : length (window rb) = length (vec rb).
Proof using. apply length_rotl. Qed.

Lemma window_lookup i :
  0 <= i < size rb -> window rb !! Z.to_nat i = vec rb !! Z.to_nat ((head rb + i) mod size rb).
Proof using HI.
  intros. destruct inv_circle as (Hv & ?). unfold window.
  pose proof (Z.mod_pos_bound (head rb) (size rb)).
  rewrite rotl_lookup by lia. rewrite Hv, Z2Nat.id by lia. by rewrite Zplus_mod_idemp_l.
Qed.

Lemma length_contents : zlen (contents rb) = available rb.
Proof using HI.
  pose proof inv_available. pose proof inv_mask. destruct inv_circle.
  unfold contents. rewrite length_take, length_window. lia.
Qed.

End invariant.

Section writes.
Context {P : Profile}.

(** Writing at the position [k] bytes past [head] replaces that part of the window. *)
Lemma window_write rb rb1 k data :
  Inv rb -> size rb1 = size rb -> vec rb1 = vec rb ->
  0 <= k -> k + zlen data <= size rb ->
  exists v', wrapped_write rb1 ((head rb + k) mod size rb) data = Ret (zlen data, with_vec rb1 v') /\
    length v' = length (vec rb) /\
    rotl (head rb mod size rb) v' = splice (window rb) k data.
Proof.
  intros HI Hs1 Hv1 Hk Hlen. pose proof (inv_size rb HI). destruct (inv_circle rb HI) as [Hv _].
  assert (Hh : 0 <= head rb mod size rb < size rb) by (apply Z.mod_pos_bound; lia).
  destruct (wrapped_write_spec rb1 ((head rb + k) mod size rb) data) as (v' & Hw & Hl & Hlook).
  { unfold circle_ok. rewrite Hs1, Hv1. lia. }
  { rewrite Hs1. apply Z.mod_pos_bound. lia. }
  { lia. }
  rewrite Hs1, Hv1 in *. exists v'. split_and!; [done|done|].
  apply list_eq. intros i. destruct (decide (i < length v')%nat) as [Hi|Hi].
  - rewrite rotl_lookup, Hl, Hv, Hlook by (try apply Z.mod_pos_bound; lia).
    rewrite splice_lookup by (rewrite ?length_window; lia).
    replace (window rb !! i) with (window rb !! Z.to_nat (Z.of_nat i)) by (by rewrite Nat2Z.id).
    rewrite (window_lookup rb HI) by lia.
    rewrite Zplus_mod_idemp_l, <- Zminus_mod.
    replace (head rb + Z.of_nat i - (head rb + k)) with (Z.of_nat i - k) by lia.
    pose proof (Z.mod_pos_bound (Z.of_nat i - k) (size rb)).
    destruct (decide (k = size rb)); [case_decide; cmp_cases; f_equal; lia|].
    rewrite zmod_diff by lia. destruct (Z.leb_spec k (Z.of_nat i)); case_decide; cmp_cases; f_equal; lia.
  - rewrite !lookup_ge_None_2; [done| |rewrite length_rotl; lia].
    rewrite length_splice; rewrite ?length_window; lia.
Qed.

(** Moving the counters *)
Lemma inv_counters rb h t :
  Inv rb -> uint 64 h -> uint 64 t -> wrapping_sub 64 t h <= mask rb ->
  Inv (mkRing h t (size rb) (mask rb) (vec rb)).
Proof. intros (?&?&?&?&?&?) ???. by refine (conj _ (conj _ (conj _ (conj _ (conj _ _))))). Qed.

Lemma inv_seek_tail rb n :
  Inv rb -> 0 <= n <= free rb ->
  Inv (seek_tail rb n) /\ available (seek_tail rb n) = available rb + n.
Proof.
  intros HI Hn. pose proof (inv_available rb HI). pose proof (inv_mask rb HI).
  pose proof (inv_size rb HI).
  assert (E : available (seek_tail rb n) = available rb + n).
  { unfold available, seek_tail, free, wrapping_sub, wrapping_add in *; simpl in *.
    rewrite wrap_wrap_sub_l.
    replace (tail rb + n - head rb) with (tail rb - head rb + n) by lia.
    rewrite <- wrap_wrap_add_l. apply wrap_small. unfold available, wrapping_sub in *.
    unfold uint. lia. }
  split; [|done]. unfold free in Hn. unfold available at 1 in E. simpl in E.
  apply inv_counters; [done|apply HI|by apply wrap_range|]. simpl. lia.
Qed.

Lemma inv_advance_head rb n :
  Inv rb -> 0 <= n <= available rb ->
  let rb' := with_head rb (wrapping_add 64 (head rb) n) in
  Inv rb' /\ available rb' = available rb - n /\ contents rb' = drop (Z.to_nat n) (contents rb).
Proof.
  intros HI Hn rb'. pose proof (inv_available rb HI). pose proof (inv_mask rb HI).
  pose proof (inv_size rb HI).
  assert (E : available rb' = available rb - n).
  { unfold available, wrapping_sub, wrapping_add in *; simpl in *. rewrite wrap_wrap_sub_r.
    replace (tail rb - (head rb + n)) with (tail rb - head rb - n) by lia.
    rewrite <- wrap_wrap_sub_l. apply wrap_small. unfold uint. lia. }
  assert (HI' : Inv rb').
  { unfold available at 1 in E. simpl in E.
    apply inv_counters; [done|by apply wrap_range|apply HI|]. simpl. lia. }
  split_and!; [done|done|]. destruct (inv_circle rb HI) as [Hv _].
  apply list_eq. intros i. unfold contents. rewrite E, lookup_drop.
  destruct (decide (Z.of_nat i < available rb - n)).
  - rewrite !lookup_take_lt by lia.
    rewrite <- (Nat2Z.id i) at 1. rewrite (window_lookup rb' HI') by (simpl; lia).
    replace (Z.to_nat n + i)%nat with (Z.to_nat (n + Z.of_nat i)) by lia.
    rewrite (window_lookup rb HI) by lia. simpl. unfold wrapping_add.
    rewrite <- Zplus_mod_idemp_l, uint64_mod, Zplus_mod_idemp_l by apply (inv_pow2 rb HI).
    do 3 f_equal. lia.
  - by rewrite !lookup_take_ge by lia.
Qed.

(** ** What each operation does to the queue *)

Lemma inv_with_vec rb v : Inv rb -> length v = length (vec rb) -> Inv (with_vec rb v).
Proof. intros (?&?&?&?&?&?) Hl. refine (conj _ (conj _ (conj _ _))); try done. simpl. lia. Qed.

Lemma write_at_tail_window rb data :
  Inv rb ->
  let n := Z.min (zlen data) (free rb) in
  exists rb', write_at_tail rb data = Ret (n, rb') /\ Inv rb' /\ mask rb' = mask rb /\
    available rb' = available rb + n /\
    window rb' = splice (window rb) (available rb) (take (Z.to_nat n) data).
Proof.
  intros HI n. pose proof (inv_available rb HI). pose proof (inv_mask rb HI).
  pose proof (inv_size rb HI). destruct (inv_circle rb HI) as [Hv _].
  pose proof (inv_space rb HI 0) as Hsp.
  pose proof (inv_tail_pos rb HI 0) as Ht. rewrite !Z.add_0_r in Ht.
  assert (Hw0 : wrapping_add 64 (tail rb) 0 = tail rb).
  { unfold wrapping_add. rewrite Z.add_0_r. apply wrap_small, HI. }
  rewrite Hw0, Z.sub_0_r in Hsp. unfold write_at_tail, free in *.
  rewrite Hsp by lia. rewrite (inv_land rb HI), Ht. fold n.
  rewrite vslice_to by lia. cbn [obind].
  destruct (window_write rb (seek_tail rb n) (available rb) (take (Z.to_nat n) data))
    as (v' & Hw & Hl & Hwin); try done; try lia.
  { rewrite length_take. lia. }
  destruct (inv_seek_tail rb n HI) as [HI1 Ha1]; [unfold free; lia|].
  rewrite Hw. eexists. split; [do 2 f_equal; rewrite length_take; lia|].
  by split_and!; [apply inv_with_vec| | |].
Qed.

(** Extending the readable part over bytes written right behind it *)
Lemma take_splice (w : list Z) a d :
  0 <= a -> a + zlen d <= zlen w ->
  take (Z.to_nat (a + zlen d)) (splice w a d) = take (Z.to_nat a) w ++ d.
Proof.
  intros. unfold splice. rewrite app_assoc. apply take_app_length'.
  rewrite length_app, length_take. lia.
Qed.

Lemma write_at_tail_spec rb data :
  Inv rb ->
  let n := Z.min (zlen data) (free rb) in
  exists rb', write_at_tail rb data = Ret (n, rb') /\ Inv rb' /\ mask rb' = mask rb /\
    contents rb' = contents rb ++ take (Z.to_nat n) data.
Proof.
  intros HI n. destruct (write_at_tail_window rb data HI) as (rb' & Hw & HI' & Hm & Ha & Hwin).
  exists rb'. split_and!; [done|done|done|]. fold n in Ha, Hwin.
  pose proof (inv_available rb HI). pose proof (inv_mask rb HI). destruct (inv_circle rb HI).
  assert (Hn : zlen (take (Z.to_nat n) data) = n) by (unfold free in n; rewrite length_take; lia).
  unfold contents. rewrite Ha, Hwin. rewrite <- Hn at 1.
  apply take_splice; [|rewrite length_window]; unfold free in *; lia.
Qed.

Lemma read_from_head_spec rb data increment :
  Inv rb -> 0 <= increment ->
  let n := Z.min (available rb) (zlen data) in
  exists rb', read_from_head_with_increment rb data increment =
      Ret (n, take (Z.to_nat n) (contents rb) ++ drop (Z.to_nat n) data, rb') /\
    Inv rb' /\ mask rb' = mask rb /\
    contents rb' = drop (Z.to_nat (Z.min increment n)) (contents rb).
Proof.
  intros HI Hinc n. pose proof (inv_available rb HI). pose proof (inv_mask rb HI).
  pose proof (inv_size rb HI). destruct (inv_circle rb HI) as [Hv _].
  destruct (inv_advance_head rb (Z.min increment n) HI) as (HI' & Ha & Hc); [lia|].
  unfold read_from_head_with_increment, read_offset. fold n. rewrite (inv_land rb HI).
  rewrite vslice_to by lia. cbn [obind].
  rewrite wrapped_read_spec; [|by apply inv_circle|apply Z.mod_pos_bound; simpl; lia|].
  2: { simpl. rewrite length_take. lia. }
  cbn [obind]. eexists. split; [|split_and!; done]. simpl. do 3 f_equal.
  - rewrite length_take. lia.
  - unfold splice, contents, window. simpl. rewrite !length_take, length_rotl, take_take.
    f_equal; f_equal; lia.
Qed.

Lemma seek_head_spec rb n :
  Inv rb -> 0 <= n ->
  if n <=? available rb
  then exists rb', seek_head rb n = Ret rb' /\ Inv rb' /\ mask rb' = mask rb /\
         contents rb' = drop (Z.to_nat n) (contents rb)
  else seek_head rb n = Panic.
Proof.
  intros HI ?. unfold seek_head. destruct (Z.leb_spec n (available rb)); [|done].
  destruct (inv_advance_head rb n HI) as (?&?&?); [lia|]. simpl. eauto.
Qed.

Lemma clear_spec rb : Inv rb -> Inv (clear rb) /\ contents (clear rb) = [].
Proof.
  intros HI. pose proof (inv_size rb HI). pose proof (inv_mask rb HI).
  split; [|done]. apply (inv_counters rb 0 0); [done|unfold uint; lia..|].
  unfold wrapping_sub. rewrite wrap_small by (unfold uint; lia). lia.
Qed.

End writes.

(** ** Construction *)

Lemma land_pred_zero_iff b : 0 < b -> Z.land b (b - 1) = 0 <-> exists k, 0 <= k /\ b = 2 ^ k.
Proof.
  intros Hb. split.
  - intros Hz. destruct (Z.log2_spec b Hb) as [Hlo Hhi]. pose proof (Z.log2_nonneg b).
    exists (Z.log2 b). split; [done|]. destruct (decide (b = 2 ^ Z.log2 b)); [done|exfalso].
    assert (El : Z.log2 (b - 1) = Z.log2 b) by (apply Z.log2_unique; lia).
    assert (Hb1 : Z.testbit (b - 1) (Z.log2 (b - 1)) = true) by (apply Z.bit_log2; lia).
    apply (f_equal (fun z => Z.testbit z (Z.log2 b))) in Hz. rewrite El in Hb1.
    by rewrite Z.land_spec, Z.bits_0, Z.bit_log2, Hb1 in Hz by done.
  - intros (k & ? & ->). rewrite Z.sub_1_r, <- Z.ones_equiv, Z.land_ones by done. apply Z_mod_same_full.
Qed.

Lemma new_pow2 `{Profile} k :
  0 <= k <= 63 ->
  exists rb, new (2 ^ k) = Ret (Ok rb) /\ Inv rb /\ contents rb = [] /\
    mask rb = 2 ^ k - 1 /\ available rb = 0.
Proof.
  intros Hk. assert (2 ^ k <= 2 ^ 63) by (apply Z.pow_le_mono_r; lia).
  unfold new. rewrite usub_small by (unfold uint; lia). cbn [obind].
  rewrite (proj2 (land_pred_zero_iff (2 ^ k) ltac:(lia))) by (exists k; split; [lia|done]).
  eexists. split; [done|]. split; [|done].
  refine (conj _ (conj _ (conj _ (conj _ (conj _ _))))); simpl; try done; try (unfold uint; lia).
  - exists k. split; [lia|done].
  - rewrite length_replicate. lia.
  - unfold available. simpl. change (wrapping_sub 64 0 0) with 0. lia.
Qed.

(** [RingBuffer::new] accepts exactly the powers of two (of a non-zero [usize]); on any
    other size it returns the [InvalidRingSize] error. An accepted ring satisfies the
    invariant, is empty and has all but one of its bytes free. *)
Lemma ring_new_spec `{Profile} bytes :
  0 < bytes < 2 ^ 64 ->
  ((exists k, 0 <= k /\ bytes = 2 ^ k) ->
     exists rb, new bytes = Ret (Ok rb) /\ Inv rb /\ contents rb = [] /\ free rb = bytes - 1) /\
  (~ (exists k, 0 <= k /\ bytes = 2 ^ k) -> new bytes = Ret (Err (InvalidRingSize bytes))).
Proof.
  intros Hb. pose proof (land_pred_zero_iff bytes ltac:(lia)) as Hiff. split.
  - intros (k & Hk & ->).
    destruct (new_pow2 k) as (rb & ? & ? & ? & Hm & Ha); [|by exists rb; unfold free; rewrite Hm, Ha, Z.sub_0_r].
    split; [done|]. cut (k < 64); [lia|]. apply (Z.pow_lt_mono_r_iff 2); lia.
  - intros Hn. unfold new. rewrite usub_small by (unfold uint; lia). cbn [obind].
    destruct (Z.eqb_spec (Z.land bytes (bytes - 1)) 0) as [E|E]; [tauto|done].
Qed.

Lemma ring_new_spec_witness :
  (exists rb, @new debug 8 = Ret (Ok rb) /\ Inv rb /\ contents rb = [] /\ free rb = 7) /\
  @new debug 12 = Ret (Err (InvalidRingSize 12)).
Proof.
  split.
  - apply (proj1 (@ring_new_spec debug 8 ltac:(lia))). exists 3. split; [lia|done].
  - apply (proj2 (@ring_new_spec debug 12 ltac:(lia))). rewrite <- land_pred_zero_iff by lia. done.
Defined.

(** ** The ring as a bounded queue of bytes

    The specification: a list of bytes with a capacity. Writing takes the prefix that
    fits; reading copies a prefix out and removes at most [increment] of it. *)

Inductive op : Type :=
| OpWrite (data : list Z)                     (* [write_at_tail] *)
| OpRead (data : list Z) (increment : Z)      (* [read_from_head_with_increment] *)
| OpSeekHead (seek : Z)
| OpAvailable
| OpClear.

(** The returned count and the caller's buffer afterwards *)
Definition reply : Type := Z * list Z.

Definition fifo_step (cap : Z) (o : op) (q : list Z) : outcome (reply * list Z) :=
  match o with
  | OpWrite data =>
      let n := Z.min (zlen data) (cap - zlen q) in
      Ret ((n, data), q ++ take (Z.to_nat n) data)
  | OpRead data increment =>
      let n := Z.min (zlen q) (zlen data) in
      Ret ((n, take (Z.to_nat n) q ++ drop (Z.to_nat n) data),
           drop (Z.to_nat (Z.min increment n)) q)
  | OpSeekHead seek => if seek <=? zlen q then Ret ((0, []), drop (Z.to_nat seek) q) else Panic
  | OpAvailable => Ret ((zlen q, []), q)
  | OpClear => Ret ((0, []), [])
  end.

Definition ring_step `{Profile} (o : op) (rb : RingBuffer) : outcome (reply * RingBuffer) :=
  match o with
  | OpWrite data => let! '(n, rb) := write_at_tail rb data in Ret ((n, data), rb)
  | OpRead data increment =>
      let! '(n, data, rb) := read_from_head_with_increment rb data increment in Ret ((n, data), rb)
  | OpSeekHead seek => let! rb := seek_head rb seek in Ret ((0, []), rb)
  | OpAvailable => Ret ((available rb, []), rb)
  | OpClear => Ret ((0, []), clear rb)
  end.

(** Run a history, collecting the replies. *)
Fixpoint run {S} (step : op -> S -> outcome (reply * S)) (ops : list op) (s : S)
    : outcome (list reply * S) :=
  match ops with
  | [] => Ret ([], s)
  | o :: ops =>
      let! '(r, s) := step o s in
      let! '(rs, s) := run step ops s in Ret (r :: rs, s)
  end.

Definition op_ok (o : op) : Prop :=
  match o with
  | OpRead _ increment => 0 <= increment
  | OpSeekHead seek => 0 <= seek
  | _ => True
  end.

Definition simulates (cap : Z) (m : outcome (reply * RingBuffer)) (m' : outcome (reply * list Z)) : Prop :=
  match m with
  | Ret (r, rb) => m' = Ret (r, contents rb) /\ Inv rb /\ mask rb = cap
  | Panic => m' = Panic
  | _ => False
  end.

Lemma ring_step_simulates `{Profile} o rb :
  Inv rb -> op_ok o -> simulates (mask rb) (ring_step o rb) (fifo_step (mask rb) o (contents rb)).
Proof.
  intros HI Ho. pose proof (length_contents rb HI) as Hlen.
  destruct o as [data|data inc|seek| |]; simpl in *.
  - destruct (write_at_tail_spec rb data HI) as (rb' & -> & ? & ? & Hc). simpl.
    rewrite Hc, Hlen. done.
  - destruct (read_from_head_spec rb data inc HI Ho) as (rb' & -> & ? & ? & Hc). simpl.
    rewrite Hc, Hlen. done.
  - pose proof (seek_head_spec rb seek HI Ho) as Hs. rewrite Hlen.
    destruct (seek <=? available rb); [destruct Hs as (rb' & -> & ? & ? & Hc)|rewrite Hs; done].
    simpl. by rewrite Hc.
  - by rewrite Hlen.
  - destruct (clear_spec rb HI) as [? Hc]. by rewrite Hc.
Qed.

(** C1: Over any history of writes, reads (with any increment), head seeks, availability
    queries and clears, a ring buffer returns exactly what a bounded FIFO of bytes of
    capacity [size - 1] returns, panics exactly when that queue does, keeps its invariant
    and ends with the queue's bytes; the wrap-around of the indices at the vector's end and
    of the counters at [2^64] is invisible. *)
Theorem ring_refines_fifo `{Profile} ops rb :
  Inv rb -> Forall op_ok ops ->
  match run ring_step ops rb with
  | Ret (rs, rb') => run (fifo_step (mask rb)) ops (contents rb) = Ret (rs, contents rb') /\ Inv rb'
  | Panic => run (fifo_step (mask rb)) ops (contents rb) = Panic
  | _ => False
  end.
Proof.
  intros HI Hok. revert rb HI. induction Hok as [|o ops Ho Hok IH]; intros rb HI; [done|].
  pose proof (ring_step_simulates o rb HI Ho) as Hs. cbn [run].
  destruct (ring_step o rb) as [[r rb1]| | |]; simpl in Hs |- *; [|by rewrite Hs|done..].
  destruct Hs as (-> & HI1 & Hm). simpl. specialize (IH rb1 HI1). rewrite Hm in IH.
  destruct (run ring_step ops rb1) as [[rs rb2]| | |]; simpl in IH |- *; [|by rewrite IH|done..].
  destruct IH as [-> ?]. done.
Qed.

(** A four-byte ring whose counters are about to wrap at [2^64] *)
Definition sample_ring : RingBuffer := mkRing (2 ^ 64 - 2) (2 ^ 64 - 1) 4 3 [10; 11; 12; 13].

Lemma sample_ring_inv : Inv sample_ring.
Proof.
  refine (conj (ex_intro _ 2 _) (conj _ (conj _ (conj _ (conj _ _))))); vm_compute; done.
Qed.

Definition sample_ops : list op := [OpWrite [1; 2; 3]; OpRead [0; 0] 1; OpSeekHead 1; OpAvailable].

Lemma ring_refines_fifo_witness :
  exists rb', @run _ (@ring_step release) sample_ops sample_ring =
      Ret ([(2, [1; 2; 3]); (2, [12; 1]); (0, []); (1, [])], rb') /\
    contents rb' = [2] /\ Inv rb'.
Proof.
  eexists. split; [vm_compute; reflexivity|]. split; [vm_compute; reflexivity|].
  exact (proj2 (@ring_refines_fifo release sample_ops sample_ring sample_ring_inv
    ltac:(repeat constructor; simpl; lia))).
Defined.

(** ** Out-of-order writes

    A segment is stored beyond the tail; nothing becomes readable until [seek_tail]. *)
Section out_of_order.
Context {P : Profile}.

Lemma write_at_offset_from_tail_spec rb offset data :
  Inv rb -> 0 <= offset <= free rb ->
  let n := Z.min (zlen data) (free rb - offset) in
  exists rb', write_at_offset_from_tail rb offset data = Ret (n, rb') /\ Inv rb' /\
    free rb' = free rb /\ available rb' = available rb /\
    window rb' = splice (window rb) (available rb + offset) (take (Z.to_nat n) data).
Proof.
  intros HI Ho n. pose proof (inv_available rb HI). pose proof (inv_mask rb HI).
  pose proof (inv_size rb HI). pose proof (inv_space rb HI 0) as Hsp.
  replace (wrapping_add 64 (tail rb) 0) with (tail rb) in Hsp.
  2: { unfold wrapping_add. rewrite Z.add_0_r. symmetry. apply wrap_small, HI. }
  unfold write_at_offset_from_tail. rewrite Hsp, Z.sub_0_r, (proj2 (Z.ltb_ge _ _)) by lia.
  rewrite (inv_space rb HI) by lia. fold n. rewrite (inv_land rb HI).
  unfold wrapping_add. rewrite uint64_mod by apply (inv_pow2 rb HI).
  rewrite (inv_tail_pos rb HI). rewrite vslice_to by (unfold free in *; lia). cbn [obind].
  destruct (window_write rb rb (available rb + offset) (take (Z.to_nat n) data))
    as (v' & Hw & Hl & Hwin); try done; try lia.
  { rewrite length_take. unfold free in *. lia. }
  rewrite Hw. eexists. split; [do 2 f_equal; rewrite length_take; lia|].
  split_and!; [by apply inv_with_vec|done|done|done].
Qed.

Lemma take_splice_splice (w : list Z) a off part seg :
  0 <= a -> zlen part <= off -> a + off + zlen seg <= zlen w ->
  take (Z.to_nat (a + off + zlen seg)) (splice (splice w (a + off) seg) a part) =
  take (Z.to_nat a) w ++ part ++ take (Z.to_nat (off - zlen part)) (drop (Z.to_nat (a + zlen part)) w) ++ seg.
Proof.
  intros. unfold splice at 1.
  assert (Ht : take (Z.to_nat a) (splice w (a + off) seg) = take (Z.to_nat a) w).
  { unfold splice. rewrite take_app_le by (rewrite length_take; lia). rewrite take_take. f_equal. lia. }
  rewrite Ht, !take_app_ge by (rewrite ?length_take; lia). do 2 f_equal.
  rewrite length_take. unfold splice.
  rewrite drop_app_le by (rewrite length_take; lia). rewrite app_assoc, take_app_length'.
  - f_equal. rewrite skipn_firstn_comm. f_equal; [lia|f_equal; lia].
  - rewrite length_app, length_drop, length_take. lia.
Qed.

(** The bytes of the window between the end of what is written at the tail and the segment
    beyond it become readable together with the segment. *)
Lemma out_of_order_fill rb offset part seg :
  Inv rb -> zlen part <= offset -> offset + zlen seg <= free rb ->
  exists rb1 rb2, write_at_offset_from_tail rb offset seg = Ret (zlen seg, rb1) /\
    Inv rb1 /\ mask rb1 = mask rb /\ available rb1 = available rb /\ contents rb1 = contents rb /\
    write_at_tail rb1 part = Ret (zlen part, rb2) /\
    Inv rb2 /\ mask rb2 = mask rb /\ available rb2 = available rb + zlen part /\
    let rb3 := seek_tail rb2 (offset - zlen part + zlen seg) in
    Inv rb3 /\ contents rb3 = contents rb ++ part ++
      take (Z.to_nat (offset - zlen part)) (drop (Z.to_nat (available rb + zlen part)) (window rb)) ++ seg.
Proof.
  intros HI Hpart Hfit. pose proof (inv_available rb HI). pose proof (inv_mask rb HI).
  destruct (inv_circle rb HI) as [Hv _]. pose proof (length_window rb) as Hlw.
  destruct (write_at_offset_from_tail_spec rb offset seg HI) as (rb1 & Hw1 & HI1 & Hf1 & Ha1 & Hwin1);
    [lia|]. rewrite Z.min_l, Nat2Z.id, firstn_all in * by lia.
  destruct (write_at_tail_window rb1 part HI1) as (rb2 & Hw2 & HI2 & Hm2 & Ha2 & Hwin2).
  rewrite Hf1, Z.min_l, Nat2Z.id, firstn_all in * by lia. rewrite Hwin1, Ha1 in Hwin2.
  assert (Hm1 : mask rb1 = mask rb) by (unfold free in *; lia).
  destruct (inv_seek_tail rb2 (offset - zlen part + zlen seg) HI2) as [HI3 Ha3].
  { unfold free in *. lia. }
  exists rb1, rb2. cbv zeta.
  repeat match goal with |- _ /\ _ => split end; try done; try lia.
  - unfold contents. rewrite Ha1, Hwin1. unfold splice. unfold free in *.
    rewrite take_app_le by (rewrite length_take, length_window; lia).
    rewrite take_take. f_equal. lia.
  - unfold contents at 1. rewrite Ha3, Ha2, Ha1.
    change (window (seek_tail rb2 (offset - zlen part + zlen seg))) with (window rb2). rewrite Hwin2.
    replace (available rb + zlen part + (offset - zlen part + zlen seg))
      with (available rb + offset + zlen seg) by lia.
    rewrite take_splice_splice by (unfold free in *; lia). done.
Qed.

(** Writing a segment beyond the tail leaves the readable bytes as they were, and after
    the gap before it has been written in order and the tail moved over the segment, a reader
    gets the old bytes, the gap's bytes and the segment, in this order. *)
Lemma ring_out_of_order_fill rb gap seg :
  Inv rb -> zlen gap + zlen seg <= free rb ->
  exists rb1 rb2, write_at_offset_from_tail rb (zlen gap) seg = Ret (zlen seg, rb1) /\
    Inv rb1 /\ contents rb1 = contents rb /\
    write_at_tail rb1 gap = Ret (zlen gap, rb2) /\
    Inv (seek_tail rb2 (zlen seg)) /\
    contents (seek_tail rb2 (zlen seg)) = contents rb ++ gap ++ seg.
Proof.
  intros HI Hfit.
  destruct (out_of_order_fill rb (zlen gap) gap seg HI) as (rb1&rb2&?&?&?&?&?&?&?&?&?&HI3&Hc);
    [lia|lia|].
  rewrite Z.sub_diag in HI3, Hc. exists rb1, rb2. by split_and!.
Qed.

End out_of_order.

Lemma ring_out_of_order_fill_witness :
  exists rb1 rb2, @write_at_offset_from_tail release sample_ring 1 [7] = Ret (1, rb1) /\
    Inv rb1 /\ contents rb1 = [12] /\
    @write_at_tail release rb1 [5] = Ret (1, rb2) /\
    Inv (seek_tail rb2 1) /\ contents (seek_tail rb2 1) = [12; 5; 7].
Proof. exact (@ring_out_of_order_fill release sample_ring [5] [7] sample_ring_inv ltac:(done)). Defined.

End Ring.
