(* ===== verification/ReorderedBuffer.v ===== *)
(** * The reordering buffer ([framework/src/state/reordered_buffer/reordered_buffer.rs])

    [Segments] is the linked list of received sequence ranges, kept in a vector with
    [isize] links ([-1] is the null link) and a free list. [Reorder] is the buffer: the
    byte ring of [RingBuffer.v], the segment list and the three-state connection machine.

    Loops take fuel, the number of iterations they may make; running out is [NoFuel].
    Theorems that a call returns give the fuel that is enough, and [merge_at_idx_spins]
    shows a call for which no fuel is. *)

From S2P Require Import Prelude Utils RingBuffer.

Module Segments.

Record Segment : Type := mkSegment { prev : Z; seq_ : Z; length_ : Z; next : Z; idx_ : Z }.

Definition Segment_new (idx seq length : Z) : Segment := mkSegment (-1) seq length (-1) idx.

Definition set_prev (v : Z) (s : Segment) : Segment := mkSegment v (seq_ s) (length_ s) (next s) (idx_ s).
Definition set_seq (v : Z) (s : Segment) : Segment := mkSegment (prev s) v (length_ s) (next s) (idx_ s).
Definition set_length (v : Z) (s : Segment) : Segment := mkSegment (prev s) (seq_ s) v (next s) (idx_ s).
Definition set_next (v : Z) (s : Segment) : Segment := mkSegment (prev s) (seq_ s) (length_ s) v (idx_ s).

Record SegmentList : Type := mkSegmentList {
  storage : list Segment; available : list Z; head : Z; tail : Z
}.

Definition with_storage (l : SegmentList) (st : list Segment) : SegmentList :=
  mkSegmentList st (available l) (head l) (tail l).
Definition with_available (l : SegmentList) (av : list Z) : SegmentList :=
  mkSegmentList (storage l) av (head l) (tail l).
Definition with_head (l : SegmentList) (h : Z) : SegmentList :=
  mkSegmentList (storage l) (available l) h (tail l).
Definition with_tail (l : SegmentList) (t : Z) : SegmentList :=
  mkSegmentList (storage l) (available l) (head l) t.

Definition U16_MAX : Z := 65535.

(** [self.storage[i as usize]]: a negative [isize] index is out of range. *)
Definition get (l : SegmentList) (i : Z) : outcome Segment := vindex (storage l) i.

(** [self.storage[i as usize].field = ..] *)
Definition upd (l : SegmentList) (i : Z) (f : Segment -> Segment) : outcome SegmentList :=
  let! s := get l i in
  let! st := vset (storage l) i (f s) in
  Ret (with_storage l st).

Section operations.
Context {P : Profile}.

Definition new (len : Z) : SegmentList :=
  {| storage := (fun i => Segment_new (Z.of_nat i) 0 0) <$> seq 0 (Z.to_nat len);
     available := Z.of_nat <$> seq 0 (Z.to_nat len);
     head := -1; tail := -1 |}.

Definition remove_node (l : SegmentList) (node : Z) : outcome SegmentList :=
  let! l := upd l node (set_length 0) in
  Ret (with_available l (available l ++ [node])).

Definition find_available_node (l : SegmentList) : Z * SegmentList :=
  match last (available l) with
  | Some nidx => (nidx, with_available l (removelast (available l)))
  | None =>
      let i := zlen (storage l) in
      (i, with_storage l (storage l ++ [Segment_new i 0 0]))
  end.

Definition insert_before_node (l : SegmentList) (nxt seq len : Z) : outcome (Z * SegmentList) :=
  let '(i, l) := find_available_node l in
  let! l := upd l i (set_seq seq) in
  let! l := upd l i (set_length len) in
  let! l := upd l i (set_next nxt) in
  if negb (nxt =? -1) then
    let! ns := get l nxt in
    let prv := prev ns in
    let! l := upd l i (set_prev prv) in
    let! l := upd l nxt (set_prev i) in
    if negb (prv =? -1) then
      let! l := upd l prv (set_next i) in Ret (i, l)
    else Ret (i, with_head l i)
  else
    let! l := upd l i (set_prev (-1)) in Ret (i, l).

Definition insert_after_node (l : SegmentList) (prv seq len : Z) : outcome (Z * SegmentList) :=
  let '(i, l) := find_available_node l in
  let! l := upd l i (set_seq seq) in
  let! l := upd l i (set_length len) in
  let! l := upd l i (set_prev prv) in
  let! ps := get l prv in
  let! l := upd l i (set_next (next ps)) in
  let! l := upd l prv (set_next i) in
  let! s := get l i in
  Ret (i, if next s =? -1 then with_tail l i else l).

Definition insert_at_tail (l : SegmentList) (seq len : Z) : outcome (Z * SegmentList) :=
  let '(i, l) := find_available_node l in
  let! l := upd l i (set_seq seq) in
  let! l := upd l i (set_length len) in
  let! l := upd l i (set_next (-1)) in
  let! l := upd l i (set_prev (tail l)) in
  let! l := upd l (tail l) (set_next i) in
  Ret (i, with_tail l i).

(** One pass of the [while] body: the list afterwards, and the next value of [next],
    or [None] after the [break]. *)
Definition merge_step (l : SegmentList) (idx nxt : Z) : outcome (SegmentList * option Z) :=
  let! s := get l idx in
  let end_ := wrapping_add 32 (seq_ s) (length_ s) in
  let! n := get l nxt in
  if seq_ n <=? end_ then
    let! over := usub 32 end_ (seq_ n) in
    let! merge_len := usub 64 (length_ n) over in
    let! new_len := uadd 64 merge_len (length_ s) in
    if new_len <=? U16_MAX then
      let! l := upd l idx (set_length (wrap 16 new_len)) in
      let to_free := nxt in
      let! f := get l to_free in
      let nxt := next f in
      let! l := upd l idx (set_next nxt) in
      let! l := (if negb (nxt =? -1) then upd l nxt (set_prev idx) else Ret l) in
      let! l := remove_node l to_free in
      Ret (l, Some nxt)
    else
      let! max_len := usub 16 U16_MAX (length_ s) in
      let! len1 := uadd 16 (length_ s) max_len in
      let! l := upd l idx (set_length len1) in
      let! n := get l nxt in
      let! len2 := usub 16 (length_ n) max_len in
      let! l := upd l nxt (set_length len2) in
      let! l := upd l nxt (set_seq (wrapping_add 32 (seq_ n) max_len)) in
      Ret (l, None)
  else Ret (l, Some nxt).

Fixpoint merge_loop (fuel : nat) (l : SegmentList) (idx nxt : Z) : outcome SegmentList :=
  if nxt =? -1 then Ret l
  else match fuel with
  | O => NoFuel
  | S fuel =>
      let! '(l, o) := merge_step l idx nxt in
      match o with
      | Some nxt => merge_loop fuel l idx nxt
      | None => Ret l
      end
  end.

Definition merge_at_idx (fuel : nat) (l : SegmentList) (idx : Z) : outcome SegmentList :=
  let! s := get l idx in merge_loop fuel l idx (next s).

(** The search of [insert_segment]: the value of [idx] when the loop ends. *)
Fixpoint insert_scan (fuel : nat) (l : SegmentList) (idx seq len : Z) : outcome (Z * SegmentList) :=
  if idx =? -1 then Ret (idx, l)
  else match fuel with
  | O => NoFuel
  | S fuel =>
      let end_ := wrapping_add 32 seq len in
      let! s := get l idx in
      let seg_end := wrapping_add 32 (seq_ s) (length_ s) in
      if seg_end =? seq then
        let! new_len := uadd 64 (length_ s) len in
        if new_len <=? U16_MAX then
          let! l := upd l idx (set_length (wrap 16 new_len)) in Ret (idx, l)
        else
          let! max_len := usub 16 U16_MAX (length_ s) in
          let! len1 := uadd 16 (length_ s) max_len in
          let! l := upd l idx (set_length len1) in
          let seq_new := wrapping_add 32 seq max_len in
          let! len_new := usub 16 len max_len in
          let! '(_, l) := insert_after_node l idx seq_new len_new in
          Ret (idx, l)
      else if end_ <=? seq_ s then insert_before_node l idx seq len
      else if seq_ s <=? seq then
        let new_end := Z.max seg_end end_ in
        let! d := usub 32 new_end (seq_ s) in
        let! l := upd l idx (set_length (wrap 16 d)) in Ret (idx, l)
      else insert_scan fuel l (next s) seq len
  end.

Definition insert_segment (fuel : nat) (l : SegmentList) (seq len : Z) : outcome (option Z * SegmentList) :=
  if head l =? -1 then
    let! '(i, l) := insert_before_node l (-1) seq len in
    Ret (Some i, with_tail (with_head l i) i)
  else
    let! '(i, l) := insert_scan fuel l (head l) seq len in
    if i =? -1 then
      let! '(i, l) := insert_at_tail l seq len in Ret (Some i, l)
    else
      let! l := merge_at_idx fuel l i in Ret (Some i, l).

Definition is_head (l : SegmentList) (seg : Z) : bool := head l =? seg.

Definition remove_head (l : SegmentList) : outcome SegmentList :=
  let h := head l in
  let! s := get l h in
  remove_node (with_head l (next s)) h.

Definition consume_head_data (fuel : nat) (l : SegmentList) (seq consumed : Z) : outcome (bool * SegmentList) :=
  let idx := head l in
  let! s := get l idx in
  if negb (seq_ s =? seq) then Ret (false, l)
  else
    let consume := Z.min consumed (length_ s) in
    let! l := upd l idx (set_seq (wrapping_add 32 (seq_ s) consume)) in
    let! len := usub 16 (length_ s) consume in
    let! l := upd l idx (set_length len) in
    let! l := (if len =? 0 then remove_head l else merge_at_idx fuel l idx) in
    Ret (consume =? consumed, l).

Fixpoint clear_loop (fuel : nat) (l : SegmentList) (idx : Z) : outcome SegmentList :=
  if idx =? -1 then Ret l
  else match fuel with
  | O => NoFuel
  | S fuel =>
      let! s := get l idx in
      let nxt := next s in
      let! l := remove_node l idx in
      clear_loop fuel l nxt
  end.

Definition clear (fuel : nat) (l : SegmentList) : outcome SegmentList :=
  let! l := clear_loop fuel l (head l) in
  Ret (with_tail (with_head l (-1)) (-1)).

Definition get_segment (l : SegmentList) (idx : Z) : outcome Segment := get l idx.

Definition one_segment (l : SegmentList) : outcome bool :=
  if head l =? -1 then Ret true
  else let! s := get l (head l) in Ret (next s =? -1).

End operations.

(** ** Node access *)

Lemma upd_get l i f s :
  get l i = Ret s -> upd l i f = Ret (with_storage l (<[Z.to_nat i := f s]> (storage l))).
Proof.
  intros Hg. unfold upd. rewrite Hg. cbn [obind]. unfold get in Hg.
  apply vindex_Ret in Hg as [? Hl%lookup_lt_Some]. by rewrite vset_Ret by lia.
Qed.

(** Consecutive writes to one node are one write. *)
Lemma upd_upd {A} l i f g (k : SegmentList -> outcome A) :
  obind (upd l i f) (fun l => obind (upd l i g) k) = obind (upd l i (fun s => g (f s))) k.
Proof.
  unfold upd, get. destruct (vindex (storage l) i) as [s| | |] eqn:E; [|done..]. cbn [obind].
  pose proof E as [? Hl]%vindex_Ret. pose proof (lookup_lt_Some _ _ _ Hl).
  rewrite !vset_Ret by lia. cbn [obind with_storage storage].
  assert (E2 : vindex (<[Z.to_nat i:=f s]> (storage l)) i = Ret (f s)).
  { apply vindex_Ret. split; [done|]. apply list_lookup_insert_eq. lia. }
  rewrite E2. cbn [obind]. rewrite vset_Ret by (rewrite length_insert; lia). cbn [obind].
  by rewrite list_insert_insert_eq.
Qed.

Lemma get_upd_same l l' i f s :
  get l i = Ret s -> upd l i f = Ret l' -> get l' i = Ret (f s).
Proof.
  intros Hg. rewrite (upd_get _ _ _ _ Hg). intros [= <-]. apply vindex_Ret in Hg as [? Hl].
  apply vindex_Ret. split; [done|]. apply list_lookup_insert_eq. eauto using lookup_lt_Some.
Qed.

Lemma get_upd_other l l' i j f : upd l i f = Ret l' -> j <> i -> get l' j = get l j.
Proof.
  intros Hu Hne. unfold upd in Hu. apply obind_Ret_inv in Hu as (s & Hg & Hu).
  apply obind_Ret_inv in Hu as (st & Hv & [= <-]). unfold get in *.
  apply vindex_Ret in Hg as [? Hl]. pose proof (lookup_lt_Some _ _ _ Hl).
  rewrite vset_Ret in Hv by lia. injection Hv as <-. unfold vindex. simpl.
  destruct (Z.leb_spec 0 j); [|done]. by rewrite list_lookup_insert_ne by lia.
Qed.

Lemma upd_frame l l' i f :
  upd l i f = Ret l' ->
  List.length (storage l') = List.length (storage l) /\ available l' = available l /\
  head l' = head l /\ tail l' = tail l.
Proof.
  intros Hu. unfold upd in Hu. apply obind_Ret_inv in Hu as (s & Hg & Hu).
  apply obind_Ret_inv in Hu as (st & Hv & [= <-]). unfold vset in Hv.
  destruct (_ && _); [|done]. injection Hv as <-. simpl. by rewrite length_insert.
Qed.

(** ** The free list *)

Definition free_ok (l : SegmentList) : Prop :=
  NoDup (available l) /\ Forall (fun i => 0 <= i < zlen (storage l)) (available l).

(** No segment is recorded. *)
Definition idle (l : SegmentList) : Prop := head l = -1 /\ free_ok l.

Lemma last_removelast {A} (l : list A) x : last l = Some x -> l = removelast l ++ [x].
Proof.
  intros Hl. destruct (decide (l = [])) as [->|Hne]; [done|].
  apply last_Some in Hl as (l' & ->). by rewrite removelast_last.
Qed.

Lemma find_available_node_spec l :
  free_ok l ->
  exists i l' s, find_available_node l = (i, l') /\ get l' i = Ret s /\ free_ok l' /\
    (i ∉ available l') /\ head l' = head l /\ tail l' = tail l /\
    (forall j sj, get l j = Ret sj -> get l' j = Ret sj) /\
    (forall j sj, get l j = Ret sj -> j ∉ available l -> j <> i /\ (j ∉ available l')).
Proof.
  intros [Hnd Hin]. unfold find_available_node. destruct (last (available l)) as [i|] eqn:E.
  - apply last_removelast in E. rewrite E in Hnd, Hin.
    apply NoDup_app in Hnd as (Hnd & Hdis & _). apply Forall_app in Hin as [Hin Hb].
    rewrite Forall_singleton in Hb. destruct (vindex_lt (storage l) i Hb) as [s Hs]. clear Hb.
    exists i, (with_available l (removelast (available l))), s. split_and!; try done.
    + intros Hx. apply (Hdis i Hx). set_solver.
    + intros j sj _ Hj. rewrite E in Hj. simpl. set_solver.
  - apply last_None in E. exists (zlen (storage l)). eexists. exists (Segment_new (zlen (storage l)) 0 0).
    split; [done|]. split; [|split; [|split_and!; try done]].
    + apply vindex_Ret. split; [lia|]. simpl. by rewrite Nat2Z.id, list_lookup_middle.
    + unfold free_ok. simpl. rewrite E. split; constructor.
    + simpl. rewrite E. set_solver.
    + intros j sj [? Hj]%vindex_Ret. apply vindex_Ret. split; [done|]. simpl. by apply lookup_app_l_Some.
    + intros j sj [? Hj%lookup_lt_Some]%vindex_Ret ?. split; [lia|done].
Qed.

Lemma new_idle len : idle (new len).
Proof.
  split; [done|]. unfold new. split; simpl.
  - apply NoDup_fmap_2; [apply _|]. apply NoDup_ListNoDup, seq_NoDup.
  - rewrite length_fmap, length_seq. apply Forall_fmap, Forall_forall.
    intros x Hx%elem_of_seq. simpl. lia.
Qed.

Lemma clear_idle fuel l : idle l -> exists l', clear fuel l = Ret l' /\ idle l'.
Proof.
  intros [Hh Hfr]. unfold clear. rewrite Hh. destruct fuel; cbn [clear_loop Z.eqb Pos.eqb obind];
    eexists; (split; [done|]); split; done.
Qed.

(** ** Lists of one segment *)

(** The list holds exactly the segment [q, q + n). *)
Definition single (l : SegmentList) (i q n : Z) : Prop :=
  head l = i /\ i <> -1 /\ free_ok l /\ (i ∉ available l) /\
  exists s, get l i = Ret s /\ seq_ s = q /\ length_ s = n /\ next s = -1 /\ prev s = -1.

Lemma get_nonneg l i s : get l i = Ret s -> 0 <= i < zlen (storage l).
Proof. intros [? Hl%lookup_lt_Some]%vindex_Ret. lia. Qed.

Lemma free_ok_frame l l' :
  List.length (storage l') = List.length (storage l) -> available l' = available l -> free_ok l -> free_ok l'.
Proof. intros Hs Ha [??]. unfold free_ok. by rewrite Ha, Hs. Qed.

Lemma single_upd l i q n f q' n' :
  single l i q n ->
  (forall s, seq_ s = q -> length_ s = n -> seq_ (f s) = q' /\ length_ (f s) = n' /\ next (f s) = next s /\ prev (f s) = prev s) ->
  exists l', upd l i f = Ret l' /\ single l' i q' n'.
Proof.
  intros (Hh & Hi & Hfr & Hin & s & Hg & Hq & Hn & Hnx & Hp) Hf.
  pose proof (upd_get _ _ f _ Hg) as Hu. eexists. split; [done|].
  destruct (upd_frame _ _ _ _ Hu) as (Hl & Ha & Hhd & _).
  destruct (Hf s Hq Hn) as (?&?&Hfn&Hfp).
  refine (conj _ (conj _ (conj _ (conj _ _)))).
  - by rewrite Hhd.
  - done.
  - by eapply free_ok_frame.
  - by rewrite Ha.
  - exists (f s). rewrite (get_upd_same _ _ _ _ _ Hg Hu), Hfn, Hfp. done.
Qed.

Section single_segment.
Context {P : Profile}.

Lemma merge_at_idx_last fuel l i q n : single l i q n -> merge_at_idx fuel l i = Ret l.
Proof.
  intros (_ & _ & _ & _ & s & Hg & _ & _ & Hnx & _). unfold merge_at_idx. rewrite Hg. cbn [obind].
  rewrite Hnx. by destruct fuel.
Qed.

Lemma insert_first fuel l q n :
  idle l -> exists i l', insert_segment fuel l q n = Ret (Some i, l') /\ single l' i q n.
Proof.
  intros [Hh Hfr]. unfold insert_segment. rewrite Hh. cbn [Z.eqb Pos.eqb].
  destruct (find_available_node_spec l Hfr) as (i & l1 & s & Hf & Hg & Hfr1 & Hin & _).
  unfold insert_before_node. rewrite Hf. cbn [negb Z.eqb Pos.eqb]. rewrite !upd_upd.
  rewrite (upd_get _ _ _ _ Hg). cbn [obind]. eexists i, _. split; [done|].
  pose proof (get_nonneg _ _ _ Hg) as Hnn.
  set (f := fun s0 => set_prev (-1) (set_next (-1) (set_length n (set_seq q s0)))).
  pose proof (upd_get _ _ f _ Hg) as Hu.
  refine (conj _ (conj _ (conj _ (conj _ _)))); simpl; [done|lia| |done|].
  - apply (free_ok_frame l1); simpl; [by rewrite length_insert|done|done].
  - exists (f s). split; [exact (get_upd_same _ _ _ _ _ Hg Hu)|done].
Qed.

(** A segment that starts inside or after the only one, but not exactly at its end, is taken
    to overlap it. *)
Lemma insert_covered fuel l i q n sq len :
  single l i q n -> 0 <= q -> 0 <= n -> 0 <= len -> q + n < 2 ^ 32 -> sq + len < 2 ^ 32 ->
  q <= sq -> q < sq + len \/ q < sq -> q + n <> sq -> Z.max (q + n) (sq + len) - q <= U16_MAX ->
  exists l', insert_segment (S fuel) l sq len = Ret (Some i, l') /\
    single l' i q (Z.max (q + n) (sq + len) - q).
Proof.
  intros HS ???????? Hmax. pose proof HS as (Hh & Hi & Hfr & Hin & s & Hg & Hq & Hn & Hnx & Hp).
  unfold insert_segment. rewrite Hh, (proj2 (Z.eqb_neq _ _)) by done. cbn [insert_scan].
  rewrite (proj2 (Z.eqb_neq i _)) by done. rewrite Hg. cbn [obind]. rewrite Hq, Hn.
  unfold wrapping_add. rewrite !wrap_small by (unfold uint; lia).
  rewrite (proj2 (Z.eqb_neq (q + n) _)), (proj2 (Z.leb_gt (sq + len) q)), (proj2 (Z.leb_le q sq)) by lia.
  rewrite usub_small by (unfold uint; lia). cbn [obind].
  unfold U16_MAX in *. rewrite wrap_small by (unfold uint; lia).
  destruct (single_upd l i q n (set_length (Z.max (q + n) (sq + len) - q))
    q (Z.max (q + n) (sq + len) - q) HS)
    as (l' & Hu & HS'); [by intros|]. rewrite Hu. cbn [obind].
  rewrite (proj2 (Z.eqb_neq i _)) by done. rewrite (merge_at_idx_last _ _ _ _ _ HS'). eauto.
Qed.

(** A segment that starts inside the only one or right at its end extends it. *)
Lemma insert_touching fuel l i q n sq len :
  single l i q n -> 0 <= q -> 0 <= n -> 0 < len -> q + n < 2 ^ 32 -> sq + len < 2 ^ 32 ->
  q <= sq <= q + n -> Z.max (q + n) (sq + len) - q <= U16_MAX ->
  exists l', insert_segment (S fuel) l sq len = Ret (Some i, l') /\
    single l' i q (Z.max (q + n) (sq + len) - q).
Proof.
  intros HS ?????? Hmax. destruct (decide (q + n = sq)) as [<-|]; [|apply (insert_covered fuel l i q n sq len HS); lia].
  pose proof HS as (Hh & Hi & Hfr & Hin & s & Hg & Hq & Hn & Hnx & Hp). unfold U16_MAX in *.
  unfold insert_segment. rewrite Hh, (proj2 (Z.eqb_neq _ _)) by done. cbn [insert_scan].
  rewrite (proj2 (Z.eqb_neq i _)) by done. rewrite Hg. cbn [obind]. rewrite Hq, Hn.
  unfold wrapping_add. rewrite (wrap_small 32 (q + n)), Z.eqb_refl by (unfold uint; lia).
  rewrite uadd_small by (unfold uint; lia). cbn [obind]. unfold U16_MAX. rewrite (proj2 (Z.leb_le _ _)) by lia.
  rewrite wrap_small by (unfold uint; lia). rewrite Z.max_r by lia. replace (q + n + len - q) with (n + len) by lia.
  destruct (single_upd l i q n (set_length (n + len)) q (n + len) HS) as (l' & Hu & HS'); [by intros|].
  rewrite Hu. cbn [obind]. rewrite (proj2 (Z.eqb_neq i _)) by done. rewrite (merge_at_idx_last _ _ _ _ _ HS'). eauto.
Qed.

(** The two nodes after a segment has been linked in front of the only one *)
Lemma insert_before_single l i q n sq len :
  single l i q n ->
  exists j l' sj si, insert_before_node l i sq len = Ret (j, l') /\ head l' = j /\ j <> i /\ j <> -1 /\
    free_ok l' /\ (i ∉ available l') /\ (j ∉ available l') /\
    get l' j = Ret sj /\ seq_ sj = sq /\ length_ sj = len /\ next sj = i /\ prev sj = -1 /\
    get l' i = Ret si /\ seq_ si = q /\ length_ si = n /\ next si = -1.
Proof.
  intros (Hh & Hi & Hfr & Hin & s & Hg & Hq & Hn & Hnx & Hp).
  destruct (find_available_node_spec l Hfr) as (j & l1 & sj & Hf & Hgj & Hfr1 & Hinj & _ & _ & Hkeep & Hne).
  destruct (Hne _ _ Hg Hin) as [Hij Hin1]. apply Hkeep in Hg.
  unfold insert_before_node. rewrite Hf, !upd_upd.
  set (f := fun s => set_next i (set_length len (set_seq sq s))).
  pose proof (upd_get _ _ f _ Hgj) as Hu1. rewrite Hu1. cbn [obind].
  set (l2 := with_storage l1 _) in *.
  rewrite (proj2 (Z.eqb_neq _ _)) by done. cbn [negb].
  assert (Hg2 : get l2 i = Ret s) by (rewrite (get_upd_other _ _ _ _ _ Hu1); done).
  assert (Hgj2 : get l2 j = Ret (f sj)) by (by eapply get_upd_same).
  rewrite Hg2. cbn [obind]. rewrite Hp. cbn [Z.eqb Pos.eqb negb].
  pose proof (upd_get _ _ (set_prev (-1)) _ Hgj2) as Hu3. rewrite Hu3. cbn [obind].
  set (l3 := with_storage l2 _) in *.
  assert (Hg3 : get l3 i = Ret s) by (rewrite (get_upd_other _ _ _ _ _ Hu3); done).
  assert (Hgj3 : get l3 j = Ret (set_prev (-1) (f sj))) by (by eapply get_upd_same).
  pose proof (upd_get _ _ (set_prev j) _ Hg3) as Hu4. rewrite Hu4. cbn [obind].
  set (l4 := with_storage l3 _) in *.
  assert (Hg4 : get l4 i = Ret (set_prev j s)) by (by eapply get_upd_same).
  assert (Hgj4 : get l4 j = Ret (set_prev (-1) (f sj))) by (rewrite (get_upd_other _ _ _ _ _ Hu4); done).
  pose proof (get_nonneg _ _ _ Hgj).
  exists j, (with_head l4 j), (set_prev (-1) (f sj)), (set_prev j s).
  refine (conj _ (conj _ (conj _ (conj _ (conj _ _))))); try done; try lia.
  apply (free_ok_frame l1); [|done|done]. simpl. by rewrite !length_insert.
Qed.

(** A segment that ends where the only one starts is linked in front and merged with it. *)
Lemma insert_in_front fuel l i q n sq len :
  single l i q n -> 0 <= sq -> 0 < len -> 0 <= n -> sq + len = q -> q + n < 2 ^ 32 -> len + n <= U16_MAX ->
  exists j l', insert_segment (S fuel) l sq len = Ret (Some j, l') /\ single l' j sq (len + n).
Proof.
  intros HS ????? Hmax. pose proof HS as (Hh & Hi & _ & _ & s & Hg & Hq & Hn & _).
  unfold insert_segment. rewrite Hh, (proj2 (Z.eqb_neq _ _)) by done. cbn [insert_scan].
  rewrite (proj2 (Z.eqb_neq i _)) by done. rewrite Hg. cbn [obind]. rewrite Hq, Hn.
  unfold wrapping_add. rewrite !wrap_small by (unfold uint; lia).
  rewrite (proj2 (Z.eqb_neq (q + n) _)), (proj2 (Z.leb_le (sq + len) q)) by lia.
  destruct (insert_before_single l i q n sq len HS) as
    (j & l1 & sj & si & -> & Hh1 & Hji & Hj & Hfr & Hini & Hinj & Hgj & Hsj & Hlj & Hnj & Hpj & Hgi & Hsi & Hli & Hni).
  cbn [obind]. rewrite (proj2 (Z.eqb_neq j _)) by done. unfold merge_at_idx. rewrite Hgj. cbn [obind].
  rewrite Hnj. cbn [merge_loop]. rewrite (proj2 (Z.eqb_neq i _)) by done.
  unfold merge_step. rewrite Hgj, Hgi. cbn [obind]. rewrite Hsj, Hlj, Hsi, Hli.
  unfold wrapping_add, U16_MAX in *. rewrite wrap_small by (unfold uint; lia).
  rewrite (proj2 (Z.leb_le q _)) by lia. rewrite usub_small by (unfold uint; lia). cbn [obind].
  rewrite usub_small by (unfold uint; lia). cbn [obind]. rewrite uadd_small by (unfold uint; lia). cbn [obind].
  rewrite (proj2 (Z.leb_le _ 65535)) by lia. rewrite wrap_small by (unfold uint; lia).
  replace (n - (sq + len - q) + len) with (len + n) by lia.
  pose proof (upd_get _ _ (set_length (len + n)) _ Hgj) as Hu1. rewrite Hu1. cbn [obind].
  set (l2 := with_storage l1 _) in *.
  assert (Hgi2 : get l2 i = Ret si) by (rewrite (get_upd_other _ _ _ _ _ Hu1); done).
  assert (Hgj2 : get l2 j = Ret (set_length (len + n) sj)) by (by eapply get_upd_same).
  rewrite Hgi2. cbn [obind]. rewrite Hni. cbn [Z.eqb Pos.eqb negb].
  pose proof (upd_get _ _ (set_next (-1)) _ Hgj2) as Hu3. rewrite Hu3. cbn [obind].
  set (l3 := with_storage l2 _) in *.
  assert (Hgi3 : get l3 i = Ret si) by (rewrite (get_upd_other _ _ _ _ _ Hu3); done).
  assert (Hgj3 : get l3 j = Ret (set_next (-1) (set_length (len + n) sj))) by (by eapply get_upd_same).
  unfold remove_node. pose proof (upd_get _ _ (set_length 0) _ Hgi3) as Hu4. rewrite Hu4. cbn [obind].
  set (l4 := with_storage l3 _) in *.
  assert (Hgj4 : get l4 j = Ret (set_next (-1) (set_length (len + n) sj)))
    by (rewrite (get_upd_other _ _ _ _ _ Hu4); done).
  exists j, (with_available l4 (available l4 ++ [i])). split; [by destruct fuel|].
  destruct Hfr as [Hnd Hall]. pose proof (get_nonneg _ _ _ Hgi) as Hib. clear Hmax.
  refine (conj _ (conj _ (conj (conj _ _) (conj _ _)))); simpl; try done.
  - apply NoDup_app; split_and!; [done| |apply NoDup_singleton].
    intros x Hx ->%list_elem_of_singleton. done.
  - rewrite !length_insert. apply Forall_app; split; [done|]. by constructor.
  - rewrite elem_of_app, list_elem_of_singleton. tauto.
  - eexists. split; [exact Hgj4|]. simpl. done.
Qed.

(** [merge_at_idx] makes no progress on a segment that ends before the next one starts. *)
Lemma merge_loop_spins fuel l idx nxt s n :
  get l idx = Ret s -> get l nxt = Ret n -> nxt <> -1 ->
  wrapping_add 32 (seq_ s) (length_ s) < seq_ n -> merge_loop fuel l idx nxt = NoFuel.
Proof.
  intros Hs Hn Hne Hlt. induction fuel as [|fuel IH]; cbn [merge_loop];
    rewrite (proj2 (Z.eqb_neq _ _)) by done; [done|].
  unfold merge_step. rewrite Hs, Hn. cbn [obind]. rewrite (proj2 (Z.leb_gt _ _)) by lia. done.
Qed.

Lemma insert_before_gap_spins fuel l i q n sq len :
  single l i q n -> 0 <= sq -> 0 <= len -> 0 <= n -> sq + len < q -> q + n < 2 ^ 32 ->
  insert_segment fuel l sq len = NoFuel.
Proof.
  intros HS ?????. pose proof HS as (Hh & Hi & _ & _ & s & Hg & Hq & Hn & _).
  unfold insert_segment. rewrite Hh, (proj2 (Z.eqb_neq _ _)) by done.
  destruct fuel as [|fuel]; cbn [insert_scan]; rewrite (proj2 (Z.eqb_neq i _)) by done; [done|].
  rewrite Hg. cbn [obind]. rewrite Hq, Hn.
  unfold wrapping_add. rewrite !wrap_small by (unfold uint; lia).
  rewrite (proj2 (Z.eqb_neq (q + n) _)), (proj2 (Z.leb_le (sq + len) q)) by lia.
  destruct (insert_before_single l i q n sq len HS) as
    (j & l1 & sj & si & -> & _ & _ & Hj & _ & _ & _ & Hgj & Hsj & Hlj & Hnj & _ & Hgi & Hsi & _).
  cbn [obind]. rewrite (proj2 (Z.eqb_neq j _)) by done. unfold merge_at_idx. rewrite Hgj. cbn [obind].
  rewrite Hnj, (merge_loop_spins _ _ _ _ _ _ Hgj Hgi Hi); [done|].
  rewrite Hsj, Hlj, Hsi. unfold wrapping_add. rewrite wrap_small by (unfold uint; lia). done.
Qed.

Lemma clear_single fuel l i q n :
  single l i q n -> exists l', clear (S fuel) l = Ret l' /\ idle l'.
Proof.
  intros (Hh & Hi & Hfr & Hin & s & Hg & Hq & Hn & Hnx & Hp). pose proof (get_nonneg _ _ _ Hg).
  unfold clear. rewrite Hh. cbn [clear_loop]. rewrite (proj2 (Z.eqb_neq i _)) by done.
  rewrite Hg. cbn [obind]. unfold remove_node. rewrite (upd_get _ _ _ _ Hg). cbn [obind].
  rewrite Hnx. destruct fuel; cbn [clear_loop Z.eqb Pos.eqb obind]; eexists; (split; [done|]);
    (split; [done|]); destruct Hfr as [Hnd Hall]; (split; simpl;
      [apply NoDup_app; split_and!; [done|intros x Hx ->%list_elem_of_singleton; done|apply NoDup_singleton]
      |rewrite length_insert; apply Forall_app; split; [done|by constructor]]).
Qed.

Lemma one_segment_single l i q n : single l i q n -> one_segment l = Ret true.
Proof.
  intros (Hh & Hi & _ & _ & s & Hg & _ & _ & Hnx & _). unfold one_segment.
  rewrite Hh, (proj2 (Z.eqb_neq _ _)) by done. rewrite Hg. cbn [obind]. by rewrite Hnx.
Qed.

End single_segment.

End Segments.

Module Reorder.

Inductive InsertionResult : Type :=
| Inserted (written available : Z)
| OutOfMemory (written available : Z).

Inductive State : Type := Closed | Connected | ConnectedOutOfOrder.

Record ReorderedBuffer : Type := mkReorderedBuffer {
  data : Ring.RingBuffer;
  segment_list : Segments.SegmentList;
  buffer_size : Z;
  state : State;
  head_seq : Z;
  tail_seq : Z
}.

Definition with_data (b : ReorderedBuffer) (d : Ring.RingBuffer) : ReorderedBuffer :=
  mkReorderedBuffer d (segment_list b) (buffer_size b) (state b) (head_seq b) (tail_seq b).
Definition with_segments (b : ReorderedBuffer) (l : Segments.SegmentList) : ReorderedBuffer :=
  mkReorderedBuffer (data b) l (buffer_size b) (state b) (head_seq b) (tail_seq b).
Definition with_state (b : ReorderedBuffer) (s : State) : ReorderedBuffer :=
  mkReorderedBuffer (data b) (segment_list b) (buffer_size b) s (head_seq b) (tail_seq b).
Definition with_head_seq (b : ReorderedBuffer) (s : Z) : ReorderedBuffer :=
  mkReorderedBuffer (data b) (segment_list b) (buffer_size b) (state b) s (tail_seq b).
Definition with_tail_seq (b : ReorderedBuffer) (s : Z) : ReorderedBuffer :=
  mkReorderedBuffer (data b) (segment_list b) (buffer_size b) (state b) (head_seq b) s.

Section operations.
Context {P : Profile}.

Definition available (b : ReorderedBuffer) : Z := Ring.available (data b).

Definition new_with_segments (bytes segment_size : Z) : outcome (result ReorderedBuffer) :=
  let rounded_bytes := round_to_power_of_2 bytes in
  let! r := Ring.new rounded_bytes in
  match r with
  | Err e => Ret (Err e)
  | Ok ring => Ret (Ok (mkReorderedBuffer ring (Segments.new segment_size) rounded_bytes Closed 0 0))
  end.

Definition new (bytes : Z) : outcome (result ReorderedBuffer) :=
  new_with_segments bytes (bytes / 64).

Definition reset (fuel : nat) (b : ReorderedBuffer) : outcome ReorderedBuffer :=
  let b := with_state b Closed in
  let! l := Segments.clear fuel (segment_list b) in
  Ret (with_data (with_segments b l) (Ring.clear (data b))).

Definition fast_path_insert (b : ReorderedBuffer) (d : list Z) : outcome (InsertionResult * ReorderedBuffer) :=
  let! '(written, ring) := Ring.write_at_tail (data b) d in
  let b := with_data b ring in
  let b := with_tail_seq b (wrapping_add 32 (tail_seq b) (wrap 32 written)) in
  Ret (if written =? zlen d then Inserted written (available b) else OutOfMemory written (available b), b).

Fixpoint add_head_loop (fuel : nat) (b : ReorderedBuffer) (to_insert seq : Z) : outcome ReorderedBuffer :=
  if to_insert <=? 0 then Ret b
  else match fuel with
  | O => NoFuel
  | S fuel' =>
      let insert := Z.min Segments.U16_MAX to_insert in
      let! '(_, l) := Segments.insert_segment fuel (segment_list b) seq insert in
      let b := with_segments b l in
      let! rest := usub 64 to_insert insert in
      add_head_loop fuel' b rest (wrapping_add 32 seq insert)
  end.

Definition add_head_to_seg_list (fuel : nat) (b : ReorderedBuffer) : outcome ReorderedBuffer :=
  add_head_loop fuel b (Ring.available (data b)) (head_seq b).

(** [out_of_order_insert] at the tail: its first branch *)
Definition out_of_order_at_tail (fuel : nat) (b : ReorderedBuffer) (d : list Z)
    : outcome (InsertionResult * ReorderedBuffer) :=
  let seq := tail_seq b in
  let! '(written, ring) := Ring.write_at_tail (data b) d in
  let b := with_data b ring in
  let b := with_tail_seq b (wrapping_add 32 (tail_seq b) (wrap 32 written)) in
  let! '(o, l) := Segments.insert_segment fuel (segment_list b) seq (wrap 16 written) in
  let! segment := unwrap o in
  let b := with_segments b l in
  assert_ (Segments.is_head (segment_list b) segment) (
  let! seg := Segments.get_segment (segment_list b) segment in
  let seg_end := wrapping_add 32 (Segments.seq_ seg) (Segments.length_ seg) in
  let incr := wrapping_sub 32 seg_end (tail_seq b) in
  let written := if wrap 32 written <? incr then incr else written in
  let b := with_tail_seq b seg_end in
  let b := with_data b (Ring.seek_tail (data b) incr) in
  let! one := Segments.one_segment (segment_list b) in
  let! b := (if one
             then let! l := Segments.clear fuel (segment_list b) in
                  Ret (with_state (with_segments b l) Connected)
             else Ret b) in
  Ret (Inserted written (available b), b)).

(** The recursive call of the source is made with [seq = self.tail_seq], so it takes the
    first branch. *)
Definition out_of_order_insert (fuel : nat) (b : ReorderedBuffer) (seq : Z) (d : list Z)
    : outcome (InsertionResult * ReorderedBuffer) :=
  if tail_seq b =? seq then out_of_order_at_tail fuel b d
  else if seq <=? tail_seq b then
    let! offset := usub 32 (tail_seq b) seq in
    if offset <? zlen d then
      let! rest := vslice d offset (zlen d) in out_of_order_at_tail fuel b rest
    else Ret (Inserted 0 (available b), b)
  else
    let! offset := usub 32 seq (tail_seq b) in
    let! '(written, ring) := Ring.write_at_offset_from_tail (data b) offset d in
    let b := with_data b ring in
    let! '(_, l) := Segments.insert_segment fuel (segment_list b) seq (wrap 16 written) in
    let b := with_segments b l in
    Ret (if written =? zlen d then Inserted written (available b) else OutOfMemory written (available b), b).

Definition slow_path_insert (fuel : nat) (b : ReorderedBuffer) (seq : Z) (d : list Z)
    : outcome (InsertionResult * ReorderedBuffer) :=
  let end_ := wrapping_add 32 seq (wrap 32 (zlen d)) in
  if (seq <? tail_seq b) && (tail_seq b <? end_) then
    let! begin := usub 32 (tail_seq b) seq in
    let! rest := vslice d begin (zlen d) in
    fast_path_insert b rest
  else if end_ <? tail_seq b then Ret (Inserted 0 (available b), b)
  else
    let b := with_state b ConnectedOutOfOrder in
    let! b := add_head_to_seg_list fuel b in
    out_of_order_insert fuel b seq d.

Definition seq (b : ReorderedBuffer) (s : Z) (d : list Z) : outcome (InsertionResult * ReorderedBuffer) :=
  match state b with
  | Closed => fast_path_insert (with_tail_seq (with_head_seq (with_state b Connected) s) s) d
  | _ => Panic
  end.

Definition add_data (fuel : nat) (b : ReorderedBuffer) (s : Z) (d : list Z)
    : outcome (InsertionResult * ReorderedBuffer) :=
  match state b with
  | Connected => if s =? tail_seq b then fast_path_insert b d else slow_path_insert fuel b s d
  | ConnectedOutOfOrder => out_of_order_insert fuel b s d
  | Closed => Panic
  end.

Definition read_data_common (b : ReorderedBuffer) (d : list Z) : outcome (Z * list Z * ReorderedBuffer) :=
  let! '(read, d, ring) := Ring.read_from_head (data b) d in
  let b := with_data b ring in
  Ret (read, d, with_head_seq b (wrapping_add 32 (head_seq b) (wrap 32 read))).

Definition read_data (fuel : nat) (b : ReorderedBuffer) (d : list Z) : outcome (Z * list Z * ReorderedBuffer) :=
  match state b with
  | Connected => read_data_common b d
  | ConnectedOutOfOrder =>
      let s := head_seq b in
      let! '(read, d, b) := read_data_common b d in
      let! '(_, l) := Segments.consume_head_data fuel (segment_list b) s (wrap 16 read) in
      Ret (read, d, with_segments b l)
  | Closed => Ret (0, d, b)
  end.

Definition is_established (b : ReorderedBuffer) : bool :=
  match state b with Closed => false | _ => true end.

End operations.

(** ** The in-order stream

    While nothing is missing the buffer should be a bounded queue that knows the next
    sequence number it expects: data at or before that number contributes the part not
    seen before. *)

Inductive op : Type := OpAdd (s : Z) (d : list Z) | OpRead (buf : list Z).
Inductive reply : Type := RInsert (r : InsertionResult) | RRead (n : Z) (buf : list Z).

(** The unread bytes and the next expected sequence number *)
Definition stream : Type := list Z * Z.

Definition stream_step (cap : Z) (o : op) (st : stream) : reply * stream :=
  let '(q, t) := st in
  match o with
  | OpAdd s d =>
      let fresh := drop (Z.to_nat (t - s)) d in
      let n := Z.min (zlen fresh) (cap - zlen q) in
      (RInsert (if n =? zlen fresh then Inserted n (zlen q + n) else OutOfMemory n (zlen q + n)),
       (q ++ take (Z.to_nat n) fresh, wrapping_add 32 t n))
  | OpRead buf =>
      let n := Z.min (zlen q) (zlen buf) in
      (RRead n (take (Z.to_nat n) q ++ drop (Z.to_nat n) buf), (drop (Z.to_nat n) q, t))
  end.

Definition buffer_step `{Profile} (fuel : nat) (o : op) (b : ReorderedBuffer) : outcome (reply * ReorderedBuffer) :=
  match o with
  | OpAdd s d => let! '(r, b) := add_data fuel b s d in Ret (RInsert r, b)
  | OpRead buf => let! '(n, buf, b) := read_data fuel b buf in Ret (RRead n buf, b)
  end.

(** Data without a gap before it: it starts at the expected number, or before it without
    wrapping around [2^32] and without ending exactly there. *)
Definition in_order (o : op) (t : Z) : Prop :=
  match o with
  | OpAdd s d => zlen d < 2 ^ 32 /\
      (s = t \/ (0 <= s < t /\ s + zlen d < 2 ^ 32 /\ s + zlen d <> t))
  | OpRead _ => True
  end.

Fixpoint stream_run (cap : Z) (ops : list op) (st : stream) : list reply * stream :=
  match ops with
  | [] => ([], st)
  | o :: ops =>
      let '(r, st) := stream_step cap o st in
      let '(rs, st) := stream_run cap ops st in (r :: rs, st)
  end.

Fixpoint all_in_order (cap : Z) (ops : list op) (st : stream) : Prop :=
  match ops with
  | [] => True
  | o :: ops => in_order o st.2 /\ all_in_order cap ops (stream_step cap o st).2
  end.

Fixpoint buffer_run `{Profile} (fuel : nat) (ops : list op) (b : ReorderedBuffer)
    : outcome (list reply * ReorderedBuffer) :=
  match ops with
  | [] => Ret ([], b)
  | o :: ops =>
      let! '(r, b) := buffer_step fuel o b in
      let! '(rs, b) := buffer_run fuel ops b in Ret (r :: rs, b)
  end.

(** The invariant of the [Connected] state: the sequence numbers frame the ring's bytes. *)
Definition CInv (b : ReorderedBuffer) : Prop :=
  state b = Connected /\ Ring.Inv (data b) /\ uint 32 (head_seq b) /\
  tail_seq b = wrapping_add 32 (head_seq b) (available b).

Definition abs (b : ReorderedBuffer) : stream := (Ring.contents (data b), tail_seq b).
Definition cap (b : ReorderedBuffer) : Z := Ring.mask (data b).

Section in_order_stream.
Context {P : Profile}.

Lemma fast_path_insert_spec b d :
  CInv b ->
  let n := Z.min (zlen d) (cap b - zlen (Ring.contents (data b))) in
  exists b', fast_path_insert b d =
      Ret (if n =? zlen d then Inserted n (zlen (Ring.contents (data b)) + n)
           else OutOfMemory n (zlen (Ring.contents (data b)) + n), b') /\
    CInv b' /\ cap b' = cap b /\ segment_list b' = segment_list b /\
    abs b' = (Ring.contents (data b) ++ take (Z.to_nat n) d, wrapping_add 32 (tail_seq b) n).
Proof.
  intros (Hst & HI & Hh & Ht) n. unfold fast_path_insert.
  pose proof (Ring.length_contents _ HI) as Hlc.
  destruct (Ring.write_at_tail_spec (data b) d HI) as (ring & -> & HI' & Hm & Hc).
  pose proof (Ring.inv_available _ HI) as Ha. unfold Ring.free in Hc |- *.
  replace (Z.min (zlen d) (Ring.mask (data b) - Ring.available (data b))) with n in *
    by (unfold n, cap; by rewrite Hlc).
  assert (Hn : 0 <= n <= zlen d) by (unfold n, cap; rewrite Hlc; lia).
  assert (Hav : Ring.available ring = zlen (Ring.contents (data b)) + n).
  { rewrite <- (Ring.length_contents _ HI'), Hc, length_app, length_take. lia. }
  cbn [obind]. unfold available; simpl. rewrite Hav. eexists. split; [done|].
  assert (Hts : wrapping_add 32 (tail_seq b) (wrap 32 n) = wrapping_add 32 (tail_seq b) n)
    by (unfold wrapping_add; by rewrite wrap_wrap_add_r).
  split_and!; [|done|done|].
  - split_and!; simpl; [done|done|done|].
    unfold available; simpl. rewrite Hts, Ht, Hav, Hlc. unfold wrapping_add, available.
    rewrite wrap_wrap_add_l. f_equal. lia.
  - unfold abs; simpl. by rewrite Hc, Hts.
Qed.

Lemma add_data_in_order fuel b s d :
  CInv b -> in_order (OpAdd s d) (tail_seq b) ->
  exists b', buffer_step fuel (OpAdd s d) b = Ret ((stream_step (cap b) (OpAdd s d) (abs b)).1, b') /\
    CInv b' /\ cap b' = cap b /\ segment_list b' = segment_list b /\ abs b' = (stream_step (cap b) (OpAdd s d) (abs b)).2.
Proof.
  intros HC (Hlen & Hs). pose proof HC as (Hst & HI & Hh & Ht).
  assert (Htu : uint 32 (tail_seq b)) by (rewrite Ht; by apply wrap_range).
  cbn [buffer_step]. unfold add_data. rewrite Hst. unfold stream_step, abs.
  destruct Hs as [->|(Hs & Hw & Hne)].
  - rewrite Z.eqb_refl, Z.sub_diag, drop_0.
    destruct (fast_path_insert_spec b d HC) as (b' & -> & HC' & Hcap & Hseg & Habs). eauto 6.
  - rewrite (proj2 (Z.eqb_neq _ _)) by lia. unfold slow_path_insert.
    rewrite (wrap_small 32 (zlen d)) by (unfold uint; lia).
    unfold wrapping_add at 1. rewrite wrap_small by (unfold uint; lia).
    rewrite (proj2 (Z.ltb_lt s _)) by lia. cbn [andb].
    destruct (Z.ltb_spec (tail_seq b) (s + zlen d)).
    + rewrite usub_small by (unfold uint in *; lia). cbn [obind].
      rewrite vslice_from by lia. cbn [obind].
      destruct (fast_path_insert_spec b (drop (Z.to_nat (tail_seq b - s)) d) HC)
        as (b' & -> & HC' & Hcap & Hseg & Habs). eauto 6.
    + unfold wrapping_add at 1. rewrite (wrap_small 32 (s + _)), (proj2 (Z.ltb_lt _ _)) by (unfold uint; lia).
      rewrite drop_ge by lia. simpl length. pose proof (Ring.length_contents _ HI) as Hlc.
      pose proof (Ring.inv_available _ HI). rewrite Z.min_l by (unfold cap; lia). simpl.
      exists b. unfold available. rewrite Hlc, Z.add_0_r, app_nil_r. unfold wrapping_add.
      rewrite Z.add_0_r, wrap_small by done. done.
Qed.

Lemma read_data_in_order fuel b buf :
  CInv b ->
  exists b', buffer_step fuel (OpRead buf) b = Ret ((stream_step (cap b) (OpRead buf) (abs b)).1, b') /\
    CInv b' /\ cap b' = cap b /\ segment_list b' = segment_list b /\ abs b' = (stream_step (cap b) (OpRead buf) (abs b)).2.
Proof.
  intros (Hst & HI & Hh & Ht). cbn [buffer_step]. unfold read_data, read_data_common, Ring.read_from_head.
  rewrite Hst. pose proof (Ring.length_contents _ HI) as Hlc. pose proof (Ring.inv_available _ HI).
  destruct (Ring.read_from_head_spec (data b) buf (zlen buf) HI) as (ring & -> & HI' & Hm & Hc); [lia|].
  cbn [obind]. unfold stream_step, abs. rewrite <- Hlc in *.
  set (n := Z.min (zlen (Ring.contents (data b))) (zlen buf)) in *.
  replace (Z.min (zlen buf) n) with n in Hc by lia.
  eexists. split; [done|]. split_and!; [|done|done|simpl; by rewrite Hc].
  split_and!; simpl; [done|done|by apply wrap_range|].
  rewrite Ht. unfold available; simpl. rewrite <- (Ring.length_contents _ HI'), Hc, length_drop.
  unfold available in *. rewrite <- Hlc. unfold wrapping_add. rewrite wrap_wrap_add_l.
  rewrite <- Z.add_assoc, <- wrap_wrap_add_r. rewrite <- (wrap_wrap_add_r 32 _ (wrap 32 n + _)).
  rewrite wrap_wrap_add_l. rewrite !wrap_wrap_add_r. f_equal. lia.
Qed.

End in_order_stream.

Lemma buffer_run_in_order `{Profile} fuel ops b :
  CInv b -> all_in_order (cap b) ops (abs b) ->
  exists b', buffer_run fuel ops b = Ret ((stream_run (cap b) ops (abs b)).1, b') /\
    CInv b' /\ abs b' = (stream_run (cap b) ops (abs b)).2.
Proof.
  revert b. induction ops as [|o ops IH]; intros b HC Hok; [by exists b|].
  destruct Hok as [Ho Hok].
  assert (exists b', buffer_step fuel o b = Ret ((stream_step (cap b) o (abs b)).1, b') /\
    CInv b' /\ cap b' = cap b /\ segment_list b' = segment_list b /\ abs b' = (stream_step (cap b) o (abs b)).2)
    as (b1 & Hs & HC1 & Hcap & _ & Habs).
  { destruct o; [by apply add_data_in_order|by apply read_data_in_order]. }
  destruct (IH b1 HC1) as (b2 & Hr & HC2 & Habs2); [by rewrite Hcap, Habs|].
  rewrite Hcap, Habs in Hr, Habs2. exists b2. cbn [buffer_run stream_run]. rewrite Hs. cbn [obind].
  destruct (stream_step (cap b) o (abs b)) as [r st]. simpl in *. rewrite Hr. cbn [obind].
  by destruct (stream_run (cap b) ops st).
Qed.

(** ** One gap *)

Section gap.
Context {P : Profile}.

(** A connected buffer with no recorded segment, and room for [room] more bytes without a
    wrap-around of the sequence numbers or of the 16-bit segment lengths *)
Definition gap_room (b : ReorderedBuffer) (room : Z) : Prop :=
  CInv b /\ Segments.idle (segment_list b) /\
  room <= Ring.free (data b) /\ head_seq b + available b + room < 2 ^ 32 /\
  available b + room <= Segments.U16_MAX.

Lemma gap_room_le b r r' : gap_room b r' -> r <= r' -> gap_room b r.
Proof. intros (?&?&?&?&?) ?. refine (conj _ (conj _ (conj _ (conj _ _)))); try done; lia. Qed.

(** What the segment list records once [seg] is stored [off] bytes beyond the tail *)
Definition recorded (b : ReorderedBuffer) (off len : Z) : Z * Z :=
  if available b =? 0 then (tail_seq b + off, len) else (head_seq b, available b + off + len).

Lemma gap_tail_seq b room : gap_room b room -> 0 <= room -> tail_seq b = head_seq b + available b.
Proof.
  intros ((_ & HI & Hh & Ht) & _ & _ & Hw & _) ?. pose proof (Ring.inv_available _ HI).
  rewrite Ht. apply wrap_small. unfold uint, available in *. lia.
Qed.

Lemma add_head_idle fuel b :
  Segments.idle (segment_list b) -> 0 <= available b <= Segments.U16_MAX ->
  exists l, add_head_to_seg_list (S fuel) b = Ret (with_segments b l) /\
    if available b =? 0 then l = segment_list b
    else exists i, Segments.single l i (head_seq b) (available b).
Proof.
  intros Hid Ha. unfold add_head_to_seg_list, available in *. cbn [add_head_loop].
  destruct (Z.leb_spec (Ring.available (data b)) 0).
  - exists (segment_list b). rewrite (proj2 (Z.eqb_eq _ _)) by lia. by destruct b.
  - rewrite Z.min_r by lia.
    destruct (Segments.insert_first (S fuel) (segment_list b) (head_seq b) (Ring.available (data b)) Hid)
      as (i & l & -> & HS). cbn [obind].
    rewrite usub_small by (unfold uint; lia). cbn [obind].
    rewrite Z.sub_diag. exists l. split; [by destruct fuel|].
    rewrite (proj2 (Z.eqb_neq _ _)) by lia. eauto.
Qed.

Lemma store_beyond_gap fuel b off seg rb1 :
  gap_room b (off + zlen seg) -> 0 < off ->
  Ring.write_at_offset_from_tail (data b) off seg = Ret (zlen seg, rb1) ->
  Ring.available rb1 = Ring.available (data b) ->
  exists l i, add_data (S fuel) b (tail_seq b + off) seg =
      Ret (Inserted (zlen seg) (available b),
           with_segments (with_data (with_state b ConnectedOutOfOrder) rb1) l) /\
    Segments.single l i (recorded b off (zlen seg)).1 (recorded b off (zlen seg)).2.
Proof.
  intros Hroom Hoff Hw Ha1. pose proof (gap_tail_seq b _ Hroom ltac:(lia)) as Ht.
  destruct Hroom as ((Hst & HI & Hh & _) & Hid & Hfree & Hwrap & H16).
  pose proof (Ring.inv_available _ HI) as Hav. fold (available b) in Hav.
  unfold Segments.U16_MAX, uint in *. unfold add_data. rewrite Hst.
  rewrite (proj2 (Z.eqb_neq _ _)) by lia. unfold slow_path_insert.
  rewrite (wrap_small 32 (zlen seg)) by (unfold uint; lia).
  unfold wrapping_add at 1 2. rewrite !wrap_small by (unfold uint; lia).
  rewrite (proj2 (Z.ltb_ge (tail_seq b + off) _)), (proj2 (Z.ltb_ge _ (tail_seq b))) by lia. cbn [andb].
  destruct (add_head_idle fuel (with_state b ConnectedOutOfOrder) Hid) as (l & -> & Hl).
  { unfold Segments.U16_MAX. change (available (with_state b ConnectedOutOfOrder)) with (available b). lia. }
  cbn [obind]. unfold out_of_order_insert. cbn [with_segments with_state tail_seq data segment_list].
  rewrite (proj2 (Z.eqb_neq (tail_seq b) _)), (proj2 (Z.leb_gt _ (tail_seq b))) by lia.
  rewrite usub_small by (unfold uint; lia). cbn [obind].
  replace (tail_seq b + off - tail_seq b) with off by lia. rewrite Hw. cbn [obind].
  rewrite (wrap_small 16) by (unfold uint; lia).
  change (available (with_state b ConnectedOutOfOrder)) with (available b) in Hl.
  assert (exists i l', Segments.insert_segment (S fuel) l (tail_seq b + off) (zlen seg) = Ret (Some i, l') /\
    Segments.single l' i (recorded b off (zlen seg)).1 (recorded b off (zlen seg)).2) as (i & l' & Hins & HS).
  { unfold recorded. destruct (Z.eqb_spec (available b) 0).
    - subst l. apply Segments.insert_first, Hid.
    - destruct Hl as (i & HS). cbn [with_state head_seq] in HS.
      destruct (Segments.insert_covered fuel l i (head_seq b) (available b) (tail_seq b + off) (zlen seg) HS)
        as (l' & Hi & HS'); unfold Segments.U16_MAX; try lia.
      exists i, l'. split; [done|]. rewrite Z.max_r in HS' by lia. simpl.
      by replace (available b + off + zlen seg) with (tail_seq b + off + zlen seg - head_seq b) by lia. }
  exists l', i. split; [|done]. cbn [with_data with_segments segment_list]. rewrite Hins. cbn [obind].
  rewrite Z.eqb_refl. unfold available at 1. simpl. by rewrite Ha1.
Qed.

(** Writing [part] at the tail then exposes everything up to the end of the stored segment. *)
Lemma fill_from_tail fuel b off len part i :
  state b = ConnectedOutOfOrder -> Ring.Inv (data b) ->
  Segments.single (segment_list b) i (recorded b off len).1 (recorded b off len).2 ->
  0 <= head_seq b -> tail_seq b = head_seq b + available b -> 0 <= len ->
  0 < zlen part <= off -> (available b <> 0 \/ zlen part = off) ->
  tail_seq b + off + len < 2 ^ 32 -> available b + off + len <= Segments.U16_MAX ->
  forall rb2, Ring.write_at_tail (data b) part = Ret (zlen part, rb2) ->
  let rb3 := Ring.seek_tail rb2 (off - zlen part + len) in
  exists l, add_data (S fuel) b (tail_seq b) part =
      Ret (Inserted (Z.max (zlen part) (off - zlen part + len)) (Ring.available rb3),
           mkReorderedBuffer rb3 l (buffer_size b) Connected (head_seq b) (tail_seq b + off + len)) /\
    Segments.idle l.
Proof.
  intros Hst HI HS Hh Ht Hlen Hpart Hcase Hwrap H16 rb2 Hw rb3.
  pose proof (Ring.inv_available _ HI) as Hav. fold (available b) in Hav.
  assert (exists j q n l', Segments.insert_segment (S fuel) (segment_list b) (tail_seq b) (zlen part)
      = Ret (Some j, l') /\ Segments.single l' j q n /\ 0 <= q /\ 0 <= n /\ q + n = tail_seq b + off + len)
    as (j & q & n & l' & Hins & HS' & Hq & Hn & Hqn).
  { unfold recorded, Segments.U16_MAX in *. destruct (Z.eqb_spec (available b) 0); simpl in HS.
    - destruct (Segments.insert_in_front fuel _ i _ _ (tail_seq b) (zlen part) HS) as (j & l' & Hi & HS');
        unfold Segments.U16_MAX; try lia.
      exists j. do 2 eexists. exists l'. split; [done|]. split; [done|]. lia.
    - destruct (Segments.insert_covered fuel _ i _ _ (tail_seq b) (zlen part) HS) as (l' & Hi & HS');
        unfold Segments.U16_MAX; try lia.
      exists i. do 2 eexists. exists l'. split; [done|]. split; [done|]. lia. }
  pose proof HS' as (Hhd & _ & _ & _ & sg & Hg & Hsq & Hsn & _). unfold Segments.U16_MAX in *.
  destruct (Segments.clear_single fuel l' j q n HS') as (l & Hcl & Hid).
  unfold add_data. rewrite Hst. unfold out_of_order_insert. rewrite Z.eqb_refl.
  unfold out_of_order_at_tail. rewrite Hw. cbn [obind].
  rewrite !(wrap_small 16) by (unfold uint; lia). cbn [with_tail_seq with_data segment_list tail_seq data].
  rewrite Hins. cbn [obind unwrap with_segments segment_list tail_seq data]. unfold Segments.is_head.
  rewrite Hhd, Z.eqb_refl. cbn [assert_]. unfold Segments.get_segment. rewrite Hg. cbn [obind].
  rewrite Hsq, Hsn. unfold wrapping_add, wrapping_sub.
  rewrite (wrap_small 32 (zlen part)) by (unfold uint; lia).
  rewrite (wrap_small 32 (tail_seq b + zlen part)), (wrap_small 32 (q + n)) by (unfold uint; lia).
  cbn [with_tail_seq with_data with_segments tail_seq data].
  rewrite (wrap_small 32 (q + n - _)) by (unfold uint; lia).
  rewrite (Segments.one_segment_single _ _ _ _ HS'). cbn [obind].
  cbn [with_tail_seq with_data with_segments segment_list]. rewrite Hcl. cbn [obind].
  replace (q + n - (tail_seq b + zlen part)) with (off - zlen part + len) by lia. fold rb3.
  exists l. split; [|done]. unfold available. simpl.
  replace (q + n) with (tail_seq b + off + len) by lia. do 3 f_equal.
  destruct (Z.ltb_spec (zlen part) (off - zlen part + len)); lia.
Qed.

(** The unread bytes after the gap of [off] bytes before [seg] was filled with [part] only:
    what the ring held at the missing positions is delivered in their place. *)
Definition exposed (b : ReorderedBuffer) (off : Z) (part seg : list Z) : list Z :=
  Ring.contents (data b) ++ part ++
  take (Z.to_nat (off - zlen part)) (drop (Z.to_nat (available b + zlen part)) (Ring.window (data b))) ++ seg.

Lemma gap_fill fuel b off part seg :
  gap_room b (off + zlen seg) -> 0 < zlen part <= off -> (available b <> 0 \/ zlen part = off) ->
  exists b1 b2,
    add_data (S fuel) b (tail_seq b + off) seg = Ret (Inserted (zlen seg) (available b), b1) /\
    state b1 = ConnectedOutOfOrder /\ tail_seq b1 = tail_seq b /\
    Ring.contents (data b1) = Ring.contents (data b) /\
    add_data (S fuel) b1 (tail_seq b) part =
      Ret (Inserted (Z.max (zlen part) (off - zlen part + zlen seg)) (available b + off + zlen seg), b2) /\
    CInv b2 /\ Segments.idle (segment_list b2) /\
    abs b2 = (exposed b off part seg, tail_seq b + off + zlen seg).
Proof.
  intros Hroom Hpart Hcase. pose proof (gap_tail_seq b _ Hroom ltac:(lia)) as Ht.
  pose proof Hroom as ((Hst & HI & Hh & _) & Hid & Hfree & Hwrap & H16).
  pose proof (Ring.inv_available _ HI) as Hav. fold (available b) in Hav.
  destruct (Ring.out_of_order_fill (data b) off part seg HI) as
    (rb1 & rb2 & Hw1 & HI1 & Hm1 & Ha1 & Hc1 & Hw2 & HI2 & Hm2 & Ha2 & HI3 & Hc3); [lia|lia|].
  destruct (store_beyond_gap fuel b off seg rb1 Hroom ltac:(lia) Hw1 Ha1) as (l & i & Hadd & HS).
  set (b1 := with_segments (with_data (with_state b ConnectedOutOfOrder) rb1) l) in *.
  assert (Hab : available b1 = available b) by done || (unfold available; simpl; done).
  destruct (fill_from_tail fuel b1 off (zlen seg) part i) with (rb2 := rb2) as (l2 & Hadd2 & Hid2);
    try done; try (unfold uint in *; simpl; lia).
  { unfold recorded in *. by rewrite Hab. }
  set (rb3 := Ring.seek_tail rb2 (off - zlen part + zlen seg)) in *.
  assert (Ha3 : Ring.available rb3 = available b + off + zlen seg).
  { rewrite <- (Ring.length_contents _ HI3), Hc3.
    pose proof (Ring.length_contents _ HI) as Hlc. pose proof (Ring.length_window (data b)) as Hlw.
    pose proof (Ring.inv_mask _ HI). destruct (Ring.inv_circle _ HI) as [Hv _].
    rewrite !length_app, length_take, length_drop. unfold available, Ring.free in *. lia. }
  rewrite Ha3 in Hadd2. exists b1. eexists.
  do 5 (split; [done|]). split; [|split; [done|]].
  - split; [done|]. split; [done|]. split; [done|].
    unfold uint, available in *. simpl. rewrite Ha3. unfold wrapping_add. symmetry.
    rewrite Ht. replace (head_seq b + Ring.available (data b) + off + zlen seg)
      with (head_seq b + (Ring.available (data b) + off + zlen seg)) by lia.
    apply wrap_small. unfold uint. lia.
  - unfold abs, exposed. simpl. by rewrite Hc3.
Qed.

(** *** More arrives while the gap is open *)

(** [b'] is [b] with [bytes] stored [off] bytes beyond the tail, all of them unreadable. *)
Definition waiting (b : ReorderedBuffer) (off : Z) (bytes : list Z) (b' : ReorderedBuffer) : Prop :=
  exists rb l i, b' = with_segments (with_data (with_state b ConnectedOutOfOrder) rb) l /\
    Ring.Inv rb /\ Ring.free rb = Ring.free (data b) /\ Ring.available rb = available b /\
    Ring.window rb = splice (Ring.window (data b)) (available b + off) bytes /\
    Segments.single l i (recorded b off (zlen bytes)).1 (recorded b off (zlen bytes)).2.

Lemma waiting_first fuel b off seg :
  gap_room b (off + zlen seg) -> 0 < off ->
  exists b1, add_data (S fuel) b (tail_seq b + off) seg = Ret (Inserted (zlen seg) (available b), b1) /\ waiting b off seg b1.
Proof.
  intros Hroom Hoff. pose proof Hroom as ((_ & HI & _) & _ & Hfree & _).
  destruct (Ring.write_at_offset_from_tail_spec (data b) off seg HI) as (rb & Hw & HI1 & Hf & Ha & Hwin); [lia|].
  rewrite Z.min_l, Nat2Z.id, firstn_all in * by lia.
  destruct (store_beyond_gap fuel b off seg rb Hroom Hoff Hw Ha) as (l & i & Hadd & HS).
  eexists. split; [exact Hadd|]. by exists rb, l, i.
Qed.

(** Bytes of one stream, stored from its start up to [h], with those from [o] up to [o + n] on top *)
Lemma splice_stream (w s : list Z) a h o n :
  0 <= a -> 0 <= o <= h -> 0 <= n -> h <= zlen s -> o + n <= zlen s -> a + zlen s <= zlen w ->
  splice (splice w a (take (Z.to_nat h) s)) (a + o) (take (Z.to_nat n) (drop (Z.to_nat o) s)) =
  splice w a (take (Z.to_nat (Z.max h (o + n))) s).
Proof.
  intros. assert (zlen (take (Z.to_nat h) s) = h) by (rewrite length_take; lia).
  assert (zlen (take (Z.to_nat n) (drop (Z.to_nat o) s)) = n) by (rewrite length_take, length_drop; lia).
  assert (zlen (take (Z.to_nat (Z.max h (o + n))) s) = Z.max h (o + n)) by (rewrite length_take; lia).
  assert (length (splice w a (take (Z.to_nat h) s)) = length w) by (apply length_splice; lia).
  apply list_eq. intros i. rewrite splice_lookup, !(splice_lookup w) by lia. repeat case_decide; try lia; [..|done].
  - rewrite !lookup_take_lt, lookup_drop by lia. f_equal. lia.
  - rewrite !lookup_take_lt by lia. done.
Qed.

Lemma waiting_next fuel b off s h o n b1 :
  gap_room b (off + zlen s) -> 0 < off -> 0 <= o <= h -> 0 < n -> h <= zlen s -> o + n <= zlen s ->
  waiting b off (take (Z.to_nat h) s) b1 ->
  exists b2, add_data (S fuel) b1 (tail_seq b + off + o) (take (Z.to_nat n) (drop (Z.to_nat o) s)) =
      Ret (Inserted n (available b), b2) /\
    waiting b off (take (Z.to_nat (Z.max h (o + n))) s) b2.
Proof.
  intros Hroom Hoff Ho Hn Hh Hon (rb & l & i & -> & HI & Hf & Ha & Hwin & HS).
  pose proof (gap_tail_seq b _ Hroom ltac:(lia)) as Ht. destruct Hroom as ((Hst & HIb & Hhs & _) & Hid & Hfree & Hwrap & H16).
  pose proof (Ring.inv_available _ HIb) as Hav. fold (available b) in Hav. unfold Segments.U16_MAX, uint in *.
  pose proof (Ring.length_window (data b)) as Hlw. destruct (Ring.inv_circle _ HIb) as [Hv _]. pose proof (Ring.inv_mask _ HIb).
  set (seg := take (Z.to_nat n) (drop (Z.to_nat o) s)). assert (Hseg : zlen seg = n) by (unfold seg; rewrite length_take, length_drop; lia).
  assert (Hlh : zlen (take (Z.to_nat h) s) = h) by (rewrite length_take; lia).
  destruct (Ring.write_at_offset_from_tail_spec rb (off + o) seg HI) as (rb' & Hw & HI' & Hf' & Ha' & Hwin'); [lia|].
  rewrite Z.min_l, Nat2Z.id, firstn_all in * by lia.
  assert (Hins : exists l', Segments.insert_segment (S fuel) l (tail_seq b + off + o) n = Ret (Some i, l') /\
    Segments.single l' i (recorded b off (Z.max h (o + n))).1 (recorded b off (Z.max h (o + n))).2).
  { rewrite Hlh in HS. unfold recorded in *. destruct (Z.eqb_spec (available b) 0); cbn [fst snd] in *.
    - destruct (Segments.insert_touching fuel l i _ _ (tail_seq b + off + o) n HS) as (l' & Hi & HS'); unfold Segments.U16_MAX; try lia.
      exists l'. split; [done|]. by replace (Z.max h (o + n)) with (Z.max (tail_seq b + off + h) (tail_seq b + off + o + n) - (tail_seq b + off)) by lia.
    - destruct (Segments.insert_touching fuel l i _ _ (tail_seq b + off + o) n HS) as (l' & Hi & HS'); unfold Segments.U16_MAX; try lia.
      exists l'. split; [done|].
      by replace (available b + off + Z.max h (o + n)) with (Z.max (head_seq b + (available b + off + h)) (tail_seq b + off + o + n) - head_seq b) by lia. }
  destruct Hins as (l' & Hins & HS'). exists (with_segments (with_data (with_state b ConnectedOutOfOrder) rb') l'). split.
  - unfold add_data, out_of_order_insert. cbn [with_segments with_data with_state state tail_seq data segment_list].
    rewrite (proj2 (Z.eqb_neq (tail_seq b) _)), (proj2 (Z.leb_gt _ (tail_seq b))) by lia.
    rewrite usub_small by (unfold uint; lia). cbn [obind]. replace (tail_seq b + off + o - tail_seq b) with (off + o) by lia.
    rewrite Hw. cbn [obind]. rewrite Hseg, (wrap_small 16) by (unfold uint; lia). cbn [with_data segment_list].
    rewrite Hins. cbn [obind]. rewrite Z.eqb_refl. unfold available at 1. simpl. by rewrite Ha', Ha.
  - exists rb', l', i. split; [done|]. split; [done|]. split; [lia|]. split; [lia|]. split.
    + rewrite Hwin', Hwin, Ha. rewrite Z.add_assoc. unfold seg, available, Ring.free in *. apply splice_stream; lia.
    + rewrite length_take. by replace (Z.of_nat (Z.to_nat (Z.max h (o + n)) `min` length s)) with (Z.max h (o + n)) by lia.
Qed.

(** Filling the gap exactly makes everything readable. *)
Lemma waiting_filled fuel b gap bytes b1 :
  gap_room b (zlen gap + zlen bytes) -> 0 < zlen gap -> waiting b (zlen gap) bytes b1 ->
  exists b2, add_data (S fuel) b1 (tail_seq b) gap =
      Ret (Inserted (Z.max (zlen gap) (zlen bytes)) (available b + zlen gap + zlen bytes), b2) /\
    CInv b2 /\ Segments.idle (segment_list b2) /\
    abs b2 = (Ring.contents (data b) ++ gap ++ bytes, tail_seq b + zlen gap + zlen bytes).
Proof.
  intros Hroom Hgap (rb & l & i & -> & HI & Hf & Ha & Hwin & HS).
  pose proof (gap_tail_seq b _ Hroom ltac:(lia)) as Ht. destruct Hroom as ((Hst & HIb & Hhs & _) & Hid & Hfree & Hwrap & H16).
  pose proof (Ring.inv_available _ HIb) as Hav. fold (available b) in Hav. unfold uint in Hhs.
  pose proof (Ring.length_window (data b)) as Hlw. destruct (Ring.inv_circle _ HIb) as [Hv _]. pose proof (Ring.inv_mask _ HIb).
  destruct (Ring.write_at_tail_window rb gap HI) as (rb2 & Hw2 & HI2 & Hm2 & Ha2 & Hwin2).
  rewrite Hf, Z.min_l, Nat2Z.id, firstn_all in * by lia. rewrite Hwin, Ha in Hwin2.
  set (b1 := with_segments (with_data (with_state b ConnectedOutOfOrder) rb) l) in *.
  assert (Hab : available b1 = available b) by exact Ha.
  destruct (fill_from_tail fuel b1 (zlen gap) (zlen bytes) gap i) with (rb2 := rb2) as (l2 & Hadd & Hid2); try done; try (simpl; lia).
  { unfold recorded in *. by rewrite Hab. }
  cbv zeta in Hadd. rewrite Z.sub_diag, Z.add_0_l in Hadd.
  destruct (Ring.inv_seek_tail rb2 (zlen bytes) HI2) as [HI3 Ha3]; [unfold Ring.free in *; lia|].
  assert (Ha4 : Ring.available (Ring.seek_tail rb2 (zlen bytes)) = available b + zlen gap + zlen bytes) by lia.
  rewrite Ha4 in Hadd. eexists. split; [exact Hadd|]. split; [|split; [done|]].
  - split; [done|]. split; [done|]. split; [done|]. unfold available at 1. simpl. rewrite Ha4. unfold wrapping_add. symmetry.
    rewrite Ht. replace (head_seq b + available b + zlen gap + zlen bytes) with (head_seq b + (available b + zlen gap + zlen bytes)) by lia.
    apply wrap_small. unfold uint. lia.
  - unfold abs. simpl. f_equal. unfold Ring.contents at 1. rewrite Ha4.
    change (Ring.window (Ring.seek_tail rb2 (zlen bytes))) with (Ring.window rb2). rewrite Hwin2.
    rewrite Ring.take_splice_splice by (unfold available, Ring.free in *; lia). by rewrite Z.sub_diag.
Qed.

(** Parts of the bytes beyond a gap, each from an offset with a length: the first starts at
    the gap, and none leaves another gap. *)
Fixpoint arrives (total : Z) (have : Z) (parts : list (Z * Z)) : bool :=
  match parts with
  | [] => have =? total
  | (o, n) :: parts => (0 <=? o) && (o <=? have) && (0 <? n) && (o + n <=? total) && arrives total (Z.max have (o + n)) parts
  end.

Definition part_of (s : list Z) (p : Z * Z) : list Z := take (Z.to_nat p.2) (drop (Z.to_nat p.1) s).

Lemma waiting_all fuel b off s parts h b1 :
  gap_room b (off + zlen s) -> 0 < off -> 0 <= h <= zlen s -> arrives (zlen s) h parts = true ->
  waiting b off (take (Z.to_nat h) s) b1 ->
  exists b2, buffer_run (S fuel) ((fun p => OpAdd (tail_seq b + off + p.1) (part_of s p)) <$> parts) b1 =
      Ret ((fun p => RInsert (Inserted p.2 (available b))) <$> parts, b2) /\ waiting b off s b2.
Proof.
  intros Hroom Hoff. revert h b1. induction parts as [|[o n] parts IH]; intros h b1 Hh Harr Hw; cbn [arrives] in Harr.
  - exists b1. split; [done|]. apply Z.eqb_eq in Harr as ->. by rewrite Nat2Z.id, firstn_all in Hw.
  - rewrite !andb_true_iff in Harr. destruct Harr as [[[[?%Z.leb_le ?%Z.leb_le] ?%Z.ltb_lt] ?%Z.leb_le] Harr].
    destruct (waiting_next fuel b off s h o n b1) as (b2 & Hadd & Hw2); try done; try lia.
    destruct (IH (Z.max h (o + n)) b2 ltac:(lia) Harr Hw2) as (b3 & Hrun & Hw3). exists b3. split; [|done].
    rewrite !fmap_cons. cbn [buffer_run buffer_step]. unfold part_of at 1. cbn [fst snd]. rewrite Hadd. cbn [obind].
    rewrite Hrun. done.
Qed.

End gap.

Lemma buffer_run_app `{Profile} fuel ops1 ops2 b rs1 b1 :
  buffer_run fuel ops1 b = Ret (rs1, b1) ->
  buffer_run fuel (ops1 ++ ops2) b = let! '(rs2, b2) := buffer_run fuel ops2 b1 in Ret (rs1 ++ rs2, b2).
Proof.
  revert b rs1. induction ops1 as [|o ops1 IH]; intros b rs1; simpl.
  - intros [= <- <-]. by destruct (buffer_run fuel ops2 b) as [[??]| | |].
  - destruct (buffer_step fuel o b) as [[r b']| | |]; try done. simpl. destruct (buffer_run fuel ops1 b') as [[rs b2]| | |] eqn:Hr; try done.
    simpl. intros [= <- <-]. rewrite (IH _ _ Hr). by destruct (buffer_run fuel ops2 b2) as [[??]| | |].
Qed.

(** The replies too: the count reported for the write that fills the gap is the larger of the
    lengths of the gap and of what was stored behind it, not the length of the write. *)
Lemma gap_filled_replies `{Profile} fuel b gap behind parts :
  gap_room b (zlen gap + zlen behind) -> gap <> [] -> behind <> [] -> arrives (zlen behind) 0 parts = true ->
  let early := (fun p => OpAdd (tail_seq b + zlen gap + p.1) (part_of behind p)) <$> parts in
  let accepted := (fun p => RInsert (Inserted p.2 (available b))) <$> parts in
  exists b1 b2,
    buffer_run (S fuel) early b = Ret (accepted, b1) /\
    state b1 = ConnectedOutOfOrder /\ Ring.contents (data b1) = Ring.contents (data b) /\
    buffer_run (S fuel) (early ++ [OpAdd (tail_seq b) gap]) b =
      Ret (accepted ++ [RInsert (Inserted (Z.max (zlen gap) (zlen behind)) (available b + zlen gap + zlen behind))], b2) /\
    CInv b2 /\ Segments.idle (segment_list b2) /\
    abs b2 = (Ring.contents (data b) ++ gap ++ behind, tail_seq b + zlen gap + zlen behind).
Proof.
  intros Hroom Hgap Hbehind Harr early accepted. assert (Hg : 0 < zlen gap) by (destruct gap; simpl; [done|lia]).
  destruct parts as [|[o n] parts]; [destruct behind; [done|discriminate]|]. cbn [arrives] in Harr.
  rewrite !andb_true_iff in Harr. destruct Harr as [[[[?%Z.leb_le ?%Z.leb_le] ?%Z.ltb_lt] ?%Z.leb_le] Harr].
  assert (o = 0) as -> by lia. set (seg := part_of behind (0, n)).
  assert (Hseg : zlen seg = n) by (unfold seg, part_of; cbn [fst snd]; rewrite length_take, length_drop; lia).
  destruct (waiting_first fuel b (zlen gap) seg) as (b0 & Hadd & Hw0); [apply (gap_room_le _ _ _ Hroom); lia|done|].
  destruct (waiting_all fuel b (zlen gap) behind parts n b0) as (b1 & Hrun & Hw1); try done; try lia.
  { by replace n with (Z.max 0 (0 + n)) by lia. }
  destruct (waiting_filled fuel b gap behind b1 Hroom Hg Hw1) as (b2 & Hfill & Hrest).
  assert (Hearly : buffer_run (S fuel) early b = Ret (accepted, b1)).
  { unfold early, accepted. rewrite !fmap_cons. cbn [buffer_run buffer_step fst snd]. rewrite Z.add_0_r. fold seg. rewrite Hadd, Hseg.
    cbn [obind]. by rewrite Hrun. }
  exists b1, b2. split; [exact Hearly|]. pose proof Hw1 as (rb & l & i & -> & HI & _ & Ha & Hwin & _). split; [done|]. split.
  - simpl. unfold Ring.contents. rewrite Ha, Hwin. fold (available b). destruct Hroom as ((_ & HIb & _) & _ & Hfree & _).
    pose proof (Ring.inv_available _ HIb) as Hav. fold (available b) in Hav. destruct (Ring.inv_circle _ HIb) as [Hv _].
    pose proof (Ring.inv_mask _ HIb). pose proof (Ring.length_window (data b)). unfold splice, Ring.free in *.
    rewrite take_app_le by (rewrite length_take; lia). rewrite take_take. f_equal. lia.
  - split; [|exact Hrest]. rewrite (buffer_run_app _ _ _ _ _ _ Hearly). cbn [buffer_run buffer_step]. rewrite Hfill. done.
Qed.

(** C22: A lost packet. Let a connected buffer with no recorded segment have room for a gap
    and for the bytes behind it, let the sequence numbers not wrap around within them, and let
    all that is then unread be at most 65535 bytes, the longest segment the list can record.
    The bytes after the gap arrive in any number of segments, in order or again, overlapping
    in any way but without a second gap; they are all accepted and stay unreadable. Once one
    write fills the gap in front of them exactly, the reader gets the old bytes, the gap and
    everything behind it in order, all of it is reported as available, the segment list is
    empty again and the buffer is back in the fast [Connected] state with its invariant. One
    loop iteration of fuel is enough. *)
Theorem reordered_gap_filled `{Profile} fuel b gap behind parts :
  gap_room b (zlen gap + zlen behind) -> gap <> [] -> behind <> [] -> arrives (zlen behind) 0 parts = true ->
  let early := (fun p => OpAdd (tail_seq b + zlen gap + p.1) (part_of behind p)) <$> parts in
  let accepted := (fun p => RInsert (Inserted p.2 (available b))) <$> parts in
  exists b1 b2 written,
    buffer_run (S fuel) early b = Ret (accepted, b1) /\
    state b1 = ConnectedOutOfOrder /\ Ring.contents (data b1) = Ring.contents (data b) /\
    buffer_run (S fuel) (early ++ [OpAdd (tail_seq b) gap]) b =
      Ret (accepted ++ [RInsert (Inserted written (available b + zlen gap + zlen behind))], b2) /\
    zlen gap <= written /\ (zlen behind <= zlen gap -> written = zlen gap) /\
    CInv b2 /\ Segments.idle (segment_list b2) /\
    abs b2 = (Ring.contents (data b) ++ gap ++ behind, tail_seq b + zlen gap + zlen behind).
Proof.
  intros Hroom Hgap Hbehind Harr early accepted.
  destruct (gap_filled_replies fuel b gap behind parts Hroom Hgap Hbehind Harr) as (b1 & b2 & He & Hs & Hc & Hrun & Hrest).
  exists b1, b2, (Z.max (zlen gap) (zlen behind)). do 4 (split; [done|]). split; [lia|]. split; [lia|done].
Qed.

(** A write that fills only the beginning of the gap, while earlier bytes are still
    unread, makes the rest of the gap readable: the segment list swallowed the gap, so the
    reader is handed whatever bytes the ring held there, and the bytes that really belong
    there can no longer be inserted. *)
Lemma reordered_partial_fill_exposes_gap `{Profile} fuel b off part seg :
  gap_room b (off + zlen seg) -> 0 < zlen part < off -> available b <> 0 ->
  exists b1 b2,
    add_data (S fuel) b (tail_seq b + off) seg = Ret (Inserted (zlen seg) (available b), b1) /\
    add_data (S fuel) b1 (tail_seq b) part =
      Ret (Inserted (Z.max (zlen part) (off - zlen part + zlen seg)) (available b + off + zlen seg), b2) /\
    state b2 = Connected /\ Ring.contents (data b2) = exposed b off part seg /\
    forall late s, s + zlen late < tail_seq b2 -> 0 <= s -> add_data (S fuel) b2 s late =
      Ret (Inserted 0 (available b2), b2).
Proof.
  intros Hroom Hpart Ha.
  destruct (gap_fill fuel b off part seg Hroom) as (b1 & b2 & ? & ? & _ & ? & ? & HC & ? & [= Hc Ht]);
    [lia|by left|].
  exists b1, b2. do 2 (split; [done|]). destruct HC as (Hst & HI & Hh & Hts).
  do 2 (split; [done|]). intros late s Hs Hs0.
  assert (Htu : uint 32 (tail_seq b2)) by (rewrite Hts; by apply wrap_range).
  unfold add_data. rewrite Hst, (proj2 (Z.eqb_neq _ _)) by lia. unfold slow_path_insert, uint in *.
  rewrite (wrap_small 32 (zlen late)) by (unfold uint; lia).
  unfold wrapping_add. rewrite wrap_small by (unfold uint; lia).
  by rewrite (proj2 (Z.ltb_ge (tail_seq b2) _)), andb_false_r, (proj2 (Z.ltb_lt _ _)) by lia.
Qed.

(** ** A retransmission that ends exactly at the tail

    The slow path takes it for data out of order. When nothing is unread this leaves the
    buffer in the out-of-order state with an empty segment list. *)

Definition lapsed (b : ReorderedBuffer) (t : Z) : Prop :=
  state b = ConnectedOutOfOrder /\ Ring.Inv (data b) /\ Ring.contents (data b) = [] /\
  Segments.idle (segment_list b) /\ head_seq b = t /\ tail_seq b = t /\ uint 32 t.

Section lapse.
Context {P : Profile}.

Lemma lapsed_available b t : lapsed b t -> Ring.available (data b) = 0.
Proof. intros (_ & HI & Hc & _). rewrite <- (Ring.length_contents _ HI), Hc. done. Qed.

Lemma retransmission_lapses fuel b t d :
  CInv b -> Segments.idle (segment_list b) -> abs b = ([], t) -> 0 < zlen d <= t ->
  exists b1, add_data (S fuel) b (t - zlen d) d = Ret (Inserted 0 0, b1) /\ lapsed b1 t /\ cap b1 = cap b.
Proof.
  intros (Hst & HI & Hh & Ht) Hid [= Hc Htl] Hd.
  assert (Hav : available b = 0) by (unfold available; rewrite <- (Ring.length_contents _ HI), Hc; done).
  rewrite Hav in Ht. unfold wrapping_add in Ht. rewrite Z.add_0_r, wrap_small in Ht by done.
  assert (Hht : head_seq b = t) by lia. rewrite Hht in Hh. unfold uint in Hh.
  exists (with_state b ConnectedOutOfOrder).
  destruct (add_head_idle fuel (with_state b ConnectedOutOfOrder) Hid) as (l & Hadd & Hl).
  { unfold available in *. simpl. unfold Segments.U16_MAX. lia. }
  change (available (with_state b ConnectedOutOfOrder)) with (available b) in Hl.
  rewrite Hav in Hl. simpl in Hl. subst l. split; [|done].
  unfold add_data. rewrite Hst, Htl, (proj2 (Z.eqb_neq _ _)) by lia. unfold slow_path_insert.
  rewrite Htl, (wrap_small 32 (zlen d)) by (unfold uint; lia). unfold wrapping_add.
  rewrite wrap_small by (unfold uint; lia).
  replace (t - zlen d + zlen d) with t by lia.
  rewrite Z.ltb_irrefl, andb_false_r, Hadd. cbn [obind]. unfold out_of_order_insert. simpl.
  rewrite Htl, (proj2 (Z.eqb_neq _ _)), (proj2 (Z.leb_le _ _)), usub_small by (unfold uint; lia). cbn [obind].
  rewrite (proj2 (Z.ltb_ge _ _)) by lia. unfold available in *. simpl. by rewrite Hav.
Qed.

(** Reading now indexes the list with its null head. *)
Lemma lapsed_read fuel b t buf : lapsed b t -> read_data fuel b buf = Panic.
Proof.
  intros (Hst & HI & _ & [Hhd _] & _). unfold read_data. rewrite Hst. unfold read_data_common, Ring.read_from_head.
  destruct (Ring.read_from_head_spec (data b) buf (zlen buf) HI) as (ring & -> & _); [lia|].
  cbn [obind]. unfold Segments.consume_head_data. simpl. by rewrite Hhd.
Qed.

(** The next data at the tail connects the buffer again. *)
Lemma lapsed_at_tail fuel b t d :
  lapsed b t -> zlen d <= cap b -> zlen d <= Segments.U16_MAX ->
  exists b', out_of_order_at_tail (S fuel) b d = Ret (Inserted (zlen d) (zlen d), b') /\
    CInv b' /\ Segments.idle (segment_list b') /\ cap b' = cap b /\ abs b' = (d, wrapping_add 32 t (zlen d)).
Proof.
  intros Hlap Hcap H16. pose proof (lapsed_available b t Hlap) as Hav. destruct Hlap as (Hst & HI & Hc & Hid & Hh & Ht & Hu).
  unfold Segments.U16_MAX, cap in *. unfold out_of_order_at_tail.
  destruct (Ring.write_at_tail_spec (data b) d HI) as (ring & -> & HI' & Hm & Hc'). unfold Ring.free in *.
  rewrite Hav, Z.sub_0_r, Z.min_l, Nat2Z.id, firstn_all, Hc, app_nil_l in * by done. cbn [obind].
  cbn [with_tail_seq with_data segment_list tail_seq data]. rewrite !Ht, !(wrap_small 16) by (unfold uint; lia).
  rewrite !(wrap_small 32 (zlen d)) by (unfold uint; lia).
  destruct (Segments.insert_first (S fuel) (segment_list b) t (zlen d) Hid) as (i & l & Hins & HS).
  rewrite Hins. cbn [obind unwrap with_segments segment_list tail_seq data]. unfold Segments.is_head.
  pose proof HS as (Hhd & _ & _ & _ & sg & Hg & Hsq & Hsn & _). rewrite Hhd, Z.eqb_refl. cbn [assert_].
  unfold Segments.get_segment. rewrite Hg. cbn [obind]. rewrite Hsq, Hsn. unfold wrapping_sub.
  rewrite Z.sub_diag. change (wrap 32 0) with 0. rewrite (proj2 (Z.ltb_ge _ 0)) by lia.
  cbn [with_tail_seq with_data with_segments segment_list data].
  destruct (Ring.inv_seek_tail ring 0 HI') as [HI2 Ha2]; [pose proof (Ring.inv_available _ HI'); unfold Ring.free; lia|].
  rewrite (Segments.one_segment_single _ _ _ _ HS). cbn [obind].
  destruct (Segments.clear_single fuel l i t (zlen d) HS) as (l' & -> & Hid'). cbn [obind].
  rewrite <- (Ring.length_contents _ HI'), Hc', Z.add_0_r in Ha2.
  unfold available. cbn [with_state with_segments with_tail_seq with_data data]. rewrite Ha2. eexists. split; [done|].
  split; [|split; [done|split; [done|]]].
  - unfold CInv, available. simpl. rewrite Ha2, Hh. done.
  - unfold abs. simpl. f_equal. rewrite <- Hc'. unfold Ring.contents. rewrite Ha2.
    by rewrite <- (Ring.length_contents _ HI'), Hc'.
Qed.

(** Any data without a gap before it: old bytes change nothing. *)
Lemma lapsed_add fuel b t s d :
  lapsed b t -> s = t \/ 0 <= s < t -> zlen d <= cap b -> zlen d <= Segments.U16_MAX ->
  let new := drop (Z.to_nat (t - s)) d in
  (s < t /\ new = [] /\ add_data (S fuel) b s d = Ret (Inserted 0 0, b)) \/
  exists b', add_data (S fuel) b s d = Ret (Inserted (zlen new) (zlen new), b') /\
    CInv b' /\ Segments.idle (segment_list b') /\ cap b' = cap b /\ abs b' = (new, wrapping_add 32 t (zlen new)).
Proof.
  intros Hlap Hs Hcap H16 new. pose proof (lapsed_available b t Hlap) as Hav. pose proof Hlap as (Hst & _ & _ & _ & _ & Ht & Hu).
  unfold add_data. rewrite Hst. unfold out_of_order_insert. rewrite Ht. unfold uint in Hu.
  destruct (Z.eqb_spec t s) as [<-|Hne].
  - right. subst new. rewrite Z.sub_diag, drop_0. by apply lapsed_at_tail.
  - rewrite (proj2 (Z.leb_le s t)), usub_small by (unfold uint; lia). cbn [obind].
    destruct (Z.ltb_spec (t - s) (zlen d)).
    + right. rewrite vslice_from by lia. cbn [obind]. fold new. apply lapsed_at_tail; [done|..]; subst new; rewrite length_drop; lia.
    + left. split; [lia|]. split; [apply drop_ge; lia|]. unfold available. by rewrite Hav.
Qed.

End lapse.

(** When everything received has been read, an exact retransmission of the last bytes
    is accepted as [Inserted] with nothing written, but leaves the buffer in the
    out-of-order state with an empty segment list, and the next read panics on the list's
    null head. *)
Lemma retransmission_then_read_panics `{Profile} fuel b t d buf :
  CInv b -> Segments.idle (segment_list b) -> abs b = ([], t) -> 0 < zlen d <= t ->
  exists b1, add_data (S fuel) b (t - zlen d) d = Ret (Inserted 0 0, b1) /\
    read_data (S fuel) b1 buf = Panic.
Proof.
  intros HC Hid Ha Hd. destruct (retransmission_lapses fuel b t d HC Hid Ha Hd) as (b1 & Hadd & Hl & _).
  exists b1. split; [done|]. by apply (lapsed_read _ _ t).
Qed.


(** When all received bytes have been read, a segment beyond a gap is stored, but a
    write that fills only the beginning of the gap never returns: whatever the fuel,
    [merge_at_idx] keeps comparing the same two segments. *)
Lemma reordered_partial_fill_hangs `{Profile} fuel b off part seg :
  gap_room b (off + zlen seg) -> 0 < zlen part < off -> available b = 0 ->
  exists b1,
    add_data (S fuel) b (tail_seq b + off) seg = Ret (Inserted (zlen seg) 0, b1) /\
    forall fuel', add_data fuel' b1 (tail_seq b) part = NoFuel.
Proof.
  intros Hroom Hpart Ha. pose proof (gap_tail_seq b _ Hroom ltac:(lia)) as Ht.
  pose proof Hroom as ((Hst & HI & Hh & _) & Hid & Hfree & Hwrap & H16). unfold uint in Hh.
  unfold Segments.U16_MAX in *.
  destruct (Ring.out_of_order_fill (data b) off part seg HI) as
    (rb1 & rb2 & Hw1 & _ & _ & Ha1 & _ & Hw2 & _); [lia|lia|].
  destruct (store_beyond_gap fuel b off seg rb1 Hroom ltac:(lia) Hw1 Ha1) as (l & i & Hadd & HS).
  unfold recorded in HS. rewrite Ha in *. cbn [Z.eqb fst snd] in HS.
  eexists. split; [exact Hadd|]. intros fuel'. unfold add_data, out_of_order_insert. simpl.
  rewrite Z.eqb_refl. unfold out_of_order_at_tail. simpl. rewrite Hw2. cbn [obind].
  rewrite (wrap_small 16) by (unfold uint; lia). simpl.
  by rewrite (Segments.insert_before_gap_spins fuel' l i _ _ (tail_seq b) (zlen part) HS) by lia.
Qed.

(** ** Creation, the first bytes and [reset] *)

Definition fresh (b : ReorderedBuffer) : Prop :=
  state b = Closed /\ Ring.Inv (data b) /\ Ring.contents (data b) = [] /\ Segments.idle (segment_list b).

Section lifecycle.
Context {P : Profile}.

Lemma new_fresh bytes :
  1 <= bytes <= 2 ^ 63 ->
  exists b, new bytes = Ret (Ok b) /\ fresh b /\ buffer_size b = 2 ^ Z.log2_up bytes /\ cap b = buffer_size b - 1.
Proof.
  intros Hb. pose proof (Z.log2_up_nonneg bytes) as Hl0.
  assert (Hl : Z.log2_up bytes <= 63) by (apply Z.log2_up_le_pow2; lia).
  destruct (Ring.new_pow2 (Z.log2_up bytes)) as (ring & Hn & HI & Hc & Hm & Ha); [lia|].
  pose proof (Segments.new_idle (bytes / 64)) as Hid. eexists. split.
  - unfold new, new_with_segments. rewrite round_to_power_of_2_eq, (proj2 (Z.leb_le _ _)), Hn by lia. done.
  - done.
Qed.

Lemma seq_fresh b s d :
  fresh b -> uint 32 s ->
  let n := Z.min (zlen d) (cap b) in
  exists b1, seq b s d = Ret (if n =? zlen d then Inserted n n else OutOfMemory n n, b1) /\
    CInv b1 /\ cap b1 = cap b /\ Segments.idle (segment_list b1) /\ abs b1 = (take (Z.to_nat n) d, wrapping_add 32 s n).
Proof.
  intros (Hst & HI & Hc & Hid) Hs n. pose proof (Ring.length_contents _ HI) as Ha. rewrite Hc in Ha.
  destruct (fast_path_insert_spec (with_tail_seq (with_head_seq (with_state b Connected) s) s) d)
    as (b1 & Hf & HC1 & Hcap1 & Hseg & Habs).
  { split; [done|]. split; [done|]. split; [done|]. unfold available. simpl. rewrite <- Ha.
    unfold wrapping_add. rewrite Z.add_0_r, wrap_small; done. }
  cbn [data with_tail_seq with_head_seq with_state segment_list tail_seq] in *. rewrite Hc in Hf, Habs.
  unfold cap in *. cbn [data with_tail_seq with_head_seq with_state] in *. rewrite Z.sub_0_r, Z.add_0_l in *.
  exists b1. unfold seq. rewrite Hst. rewrite Hf, Hseg. done.
Qed.

Lemma reset_fresh fuel b :
  Ring.Inv (data b) -> Segments.idle (segment_list b) -> exists b', reset fuel b = Ret b' /\ fresh b' /\ cap b' = cap b.
Proof.
  intros HI Hid. destruct (Segments.clear_idle fuel (segment_list b) Hid) as (l & Hcl & Hid').
  destruct (Ring.clear_spec (data b) HI) as [HI' Hc']. unfold reset. simpl. rewrite Hcl. eexists. split; [done|].
  split; [|done]. by split_and!.
Qed.

(** A buffer of any size up to [2^63] is created closed, with at least the requested
    capacity less one byte. Its first [seq] call connects it and establishes the invariant of
    the in-order stream with the first bytes accepted; a further [seq] panics; in the closed
    state reads return nothing and data panics; and [reset] closes an idle buffer again,
    empty. *)
Lemma reordered_lifecycle fuel bytes s d :
  1 <= bytes <= 2 ^ 63 -> uint 32 s ->
  exists b b1 r b2, new bytes = Ret (Ok b) /\ bytes - 1 <= cap b /\
    (forall s' d', add_data fuel b s' d' = Panic) /\ (forall buf, read_data fuel b buf = Ret (0, buf, b)) /\
    seq b s d = Ret (r, b1) /\ CInv b1 /\ Segments.idle (segment_list b1) /\
    r = (let n := Z.min (zlen d) (cap b) in if n =? zlen d then Inserted n n else OutOfMemory n n) /\
    abs b1 = (take (Z.to_nat (cap b)) d, wrapping_add 32 s (Z.min (zlen d) (cap b))) /\
    (forall s' d', seq b1 s' d' = Panic) /\
    reset fuel b1 = Ret b2 /\ state b2 = Closed /\ Ring.contents (data b2) = [] /\
    Ring.Inv (data b2) /\ Segments.idle (segment_list b2).
Proof.
  intros Hb Hs. destruct (new_fresh bytes Hb) as (b & Hnew & Hfresh & Hsize & Hcap).
  destruct (seq_fresh b s d Hfresh Hs) as (b1 & Hseq & HC1 & Hcap1 & Hid1 & Habs).
  destruct HC1 as (Hst1 & HI1 & Hh1 & Ht1). destruct (reset_fresh fuel b1 HI1 Hid1) as (b2 & Hr & (?&?&?&?) & _).
  assert (bytes <= 2 ^ Z.log2_up bytes).
  { destruct (decide (bytes = 1)) as [->|]; [done|]. apply Z.log2_up_spec. lia. }
  destruct Hfresh as (Hst & HI & _). exists b, b1. do 2 eexists.
  split; [done|]. split; [lia|]. split; [intros; unfold add_data; by rewrite Hst|].
  split; [intros; unfold read_data; by rewrite Hst|]. split; [exact Hseq|]. split; [done|]. split; [done|].
  split; [done|]. split.
  { rewrite Habs. f_equal. destruct (Z.le_ge_cases (zlen d) (cap b)).
    - rewrite Z.min_l by done. by rewrite !take_ge by lia.
    - by rewrite Z.min_r by done. }
  split; [intros; unfold seq; by rewrite Hst1|]. done.
Qed.

End lifecycle.

(** ** Witnesses *)

(** Sixty-four bytes of which four, from sequence number 100 on, are unread *)
Definition sample_buffer : ReorderedBuffer :=
  mkReorderedBuffer (Ring.mkRing 0 4 64 63 ([1; 2; 3; 4] ++ replicate 60 0)) (Segments.new 1)
    64 Connected 100 104.

(** The same after they have been read *)
Definition sample_drained : ReorderedBuffer :=
  mkReorderedBuffer (Ring.mkRing 4 4 64 63 ([1; 2; 3; 4] ++ replicate 60 0)) (Segments.new 1)
    64 Connected 104 104.

Lemma sample_buffer_room : gap_room sample_buffer 20.
Proof.
  refine (conj (conj eq_refl (conj _ (conj _ _))) (conj (Segments.new_idle 1) (conj _ (conj _ _))));
    try (vm_compute; done); try (unfold uint; simpl; lia).
  refine (conj (ex_intro _ 6 _) (conj _ (conj _ (conj _ (conj _ _))))); vm_compute; done.
Qed.

Lemma sample_drained_room : gap_room sample_drained 20.
Proof.
  refine (conj (conj eq_refl (conj _ (conj _ _))) (conj (Segments.new_idle 1) (conj _ (conj _ _))));
    try (vm_compute; done); try (unfold uint; simpl; lia).
  refine (conj (ex_intro _ 6 _) (conj _ (conj _ (conj _ (conj _ _))))); vm_compute; done.
Qed.


(** Bytes 7 to 10 arrive before 5 and 6: in two parts, the first of them twice. *)
Lemma reordered_gap_filled_witness :
  exists b1 b2 written, @buffer_run release 1 [OpAdd 106 [7; 8]; OpAdd 107 [8; 9; 10]; OpAdd 106 [7; 8]] sample_buffer =
      Ret ([RInsert (Inserted 2 4); RInsert (Inserted 3 4); RInsert (Inserted 2 4)], b1) /\
    state b1 = ConnectedOutOfOrder /\ Ring.contents (data b1) = [1; 2; 3; 4] /\
    @buffer_run release 1 [OpAdd 106 [7; 8]; OpAdd 107 [8; 9; 10]; OpAdd 106 [7; 8]; OpAdd 104 [5; 6]] sample_buffer =
      Ret ([RInsert (Inserted 2 4); RInsert (Inserted 3 4); RInsert (Inserted 2 4); RInsert (Inserted written 10)], b2) /\
    2 <= written /\ (4 <= 2 -> written = 2) /\
    CInv b2 /\ Segments.idle (segment_list b2) /\ abs b2 = ([1; 2; 3; 4; 5; 6; 7; 8; 9; 10], 110).
Proof.
  apply (@reordered_gap_filled release 0 sample_buffer [5; 6] [7; 8; 9; 10] [(0, 2); (1, 3); (0, 2)]); [|done..].
  apply (gap_room_le _ _ 20); [apply sample_buffer_room|done].
Defined.

(** An overlap that makes a segment longer than 65535 bytes is recorded with its length
    modulo 2^16: a segment of 100 bytes at 0 and one of 65500 at 50 become one of 14. *)
Lemma long_segment_truncated :
  exists l0 l, @Segments.insert_segment release 1 (Segments.new 4) 0 100 = Ret (Some 3, l0) /\
    @Segments.insert_segment release 1 l0 50 65500 = Ret (Some 3, l) /\ Segments.length_ <$> Segments.storage l !! 3%nat = Some 14.
Proof. do 2 eexists. split; [vm_compute; reflexivity|]. split; vm_compute; reflexivity. Qed.

(** Thirty-two bytes read up to sequence number 2, just behind the wrap-around *)
Definition wrapped_drained : ReorderedBuffer :=
  mkReorderedBuffer (Ring.mkRing 6 6 32 31 (replicate 32 0)) (Segments.new 1) 32 Connected 2 2.

(** Sequence numbers are compared as plain numbers: a retransmission of the last four bytes
    with two new ones, from before the wrap-around, is refused as out of memory. *)
Lemma retransmission_across_wrap_refused :
  exists b, @add_data release 1 wrapped_drained (2 ^ 32 - 2) [1; 2; 3; 4; 5; 6] = Ret (OutOfMemory 0 0, b).
Proof. eexists. vm_compute. reflexivity. Qed.

Lemma reordered_partial_fill_exposes_gap_witness :
  exists b1 b2, @add_data release 1 sample_buffer 110 [7; 8] = Ret (Inserted 2 4, b1) /\
    @add_data release 1 b1 104 [5] = Ret (Inserted 7 12, b2) /\
    state b2 = Connected /\ Ring.contents (data b2) = [1; 2; 3; 4; 5; 0; 0; 0; 0; 0; 7; 8] /\
    forall late s, s + zlen late < tail_seq b2 -> 0 <= s ->
      @add_data release 1 b2 s late = Ret (Inserted 0 (available b2), b2).
Proof.
  apply (@reordered_partial_fill_exposes_gap release 0 sample_buffer 6 [5] [7; 8]); [|simpl; lia|done].
  apply (gap_room_le _ _ 20); [apply sample_buffer_room|simpl; lia].
Defined.

Lemma reordered_partial_fill_hangs_witness :
  exists b1, @add_data release 1 sample_drained 110 [7; 8] = Ret (Inserted 2 0, b1) /\
    forall fuel', @add_data release fuel' b1 104 [5] = NoFuel.
Proof.
  apply (@reordered_partial_fill_hangs release 0 sample_drained 6 [5] [7; 8]); [|simpl; lia|done].
  apply (gap_room_le _ _ 20); [apply sample_drained_room|simpl; lia].
Defined.

Lemma retransmission_then_read_panics_witness :
  exists b1, @add_data release 1 sample_drained 102 [3; 4] = Ret (Inserted 0 0, b1) /\
    @read_data release 1 b1 [0; 0] = Panic.
Proof.
  apply (@retransmission_then_read_panics release 0 sample_drained 104 [3; 4] [0; 0]);
    [apply sample_drained_room|apply Segments.new_idle|done|simpl; lia].
Defined.

Lemma reordered_lifecycle_witness :
  exists b b1 r b2, @new debug 50 = Ret (Ok b) /\ 49 <= cap b /\
    (forall s' d', @add_data debug 0 b s' d' = Panic) /\ (forall buf, @read_data debug 0 b buf = Ret (0, buf, b)) /\
    @seq debug b 7 [1; 2; 3] = Ret (r, b1) /\ CInv b1 /\ Segments.idle (segment_list b1) /\
    r = (let n := Z.min 3 (cap b) in if n =? 3 then Inserted n n else OutOfMemory n n) /\
    abs b1 = (take (Z.to_nat (cap b)) [1; 2; 3], wrapping_add 32 7 (Z.min 3 (cap b))) /\
    (forall s' d', @seq debug b1 s' d' = Panic) /\
    reset 0 b1 = Ret b2 /\ state b2 = Closed /\ Ring.contents (data b2) = [] /\
    Ring.Inv (data b2) /\ Segments.idle (segment_list b2).
Proof. apply (@reordered_lifecycle debug 0 50 7 [1; 2; 3]); [lia|unfold uint; lia]. Defined.

End Reorder.
