(* ===== verification/Conformance.v ===== *)
(** * The test suite ([framework/tests], and the tests in [state/ring_buffer.rs])

    Each test of the framework is a program over the model's operations that panics where
    the test's assertions fail, and each is shown to return, in debug and in release builds.
    Short tests are evaluated. [creation_test] allocates up to half a gigabyte and
    [test_oom], [test_reset] and [test_read_after_write] make thousands of calls: these are
    shown from the lemmas on the reordering buffer, for any number of turns of their loops.

    An address literal is given by its octets instead of by its dotted form. *)

From Stdlib Require Import Ascii.
From stdpp Require Import strings.
From S2P Require Import Prelude Utils Flows RingBuffer ReorderedBuffer.

Local Open Scope Z_scope.

Module Conformance.

(** ** Assertions *)

Definition assert_eq {A} `{EqDecision A} {B} (x y : A) (k : outcome B) : outcome B := assert_ (bool_decide (x = y)) k.
Definition assert_ne {A} `{EqDecision A} {B} (x y : A) (k : outcome B) : outcome B := assert_ (negb (bool_decide (x = y))) k.

Lemma assert_eq_refl {A} `{EqDecision A} {B} (x : A) (k : outcome B) : assert_eq x x k = k.
Proof. unfold assert_eq. by rewrite bool_decide_eq_true_2. Qed.

(** [if let InsertionResult::Inserted { written, available } = .. { .. } else { panic!(..) }] *)
Definition inserted (r : Reorder.InsertionResult) : outcome (Z * Z) :=
  match r with Reorder.Inserted w a => Ret (w, a) | Reorder.OutOfMemory _ _ => Panic end.
Definition out_of_memory (r : Reorder.InsertionResult) : outcome (Z * Z) :=
  match r with Reorder.OutOfMemory w a => Ret (w, a) | Reorder.Inserted _ _ => Panic end.

Definition as_bytes (s : string) : list Z := Z.of_nat ∘ nat_of_ascii <$> String.list_ascii_of_string s.
Arguments as_bytes s%_string.

Section tests.
Context {P : Profile}.

Definition ring (bytes : Z) : outcome Ring.RingBuffer := let! r := Ring.new bytes in unwrap_ok r.
Definition reordered (bytes : Z) : outcome Reorder.ReorderedBuffer := let! r := Reorder.new bytes in unwrap_ok r.

(** ** The ring buffer *)

Definition test_io_simple : outcome unit :=
  let! buf := ring 32 in
  let data := [42; 43; 44] in
  let! '(_, buf) := Ring.wrapped_write buf 2 data in
  let! part := vslice (Ring.vec buf) 2 5 in
  assert_eq part [42; 43; 44] (
  let! '(_, buf) := Ring.wrapped_write buf 7 data in
  let! part := vslice (Ring.vec buf) 7 10 in
  assert_eq part [42; 43; 44] (
  let! '(_, read3) := Ring.wrapped_read buf 2 (replicate 3 0) in
  assert_eq read3 [42; 43; 44] (
  let! '(_, read2) := Ring.wrapped_read buf 7 (replicate 2 0) in
  assert_eq read2 [42; 43] (Ret tt)))).

Definition test_io_wrapped : outcome unit :=
  let! buf := ring 128 in
  let size := Ring.size buf in
  let data := [42; 43; 44; 45; 46] in
  let! at_ := usub 64 size 2 in
  let! '(_, buf) := Ring.wrapped_write buf at_ data in
  let! at_ := usub 64 size 2 in
  let! '(_, read) := Ring.wrapped_read buf at_ (replicate (length data) 0) in
  assert_eq data read (Ret tt).

Definition alloc_test : outcome unit := let! _ := ring 1 in Ret tt.

Definition write_at_offset_test : outcome unit :=
  let! rb := ring 4096 in
  let input := [1; 2; 3; 4] in
  let! '(_, rb) := Ring.write_at_offset rb 4095 input in
  let! '(_, output) := Ring.read_from_offset rb 4095 (replicate (length input) 0) in
  assert_eq input output (Ret tt).

Definition read_write_tail_test : outcome unit :=
  let! rb := ring 4096 in
  let input := (fun i => wrap 8 (Z.land i 255)) <$> seqZ 0 8192 in
  let! '(written, rb) := Ring.write_at_tail rb input in
  assert_eq written 4095 (
  let! '(read, output, rb) := Ring.read_from_head rb (replicate (Z.to_nat 8192) 0) in
  assert_eq read written (
  assert_eq (take (Z.to_nat read) input) (take (Z.to_nat read) output) (Ret tt))).

(** ** Rounding and prefixes *)

Definition round_pages_test : outcome unit :=
  let check n m k := let! r := round_to_pages n in assert_eq r m k in
  check 1 4096 (check 0 0 (check 8 4096 (check 512 4096 (check 4096 4096 (check 4097 8192 (Ret tt)))))).

Definition round_to_power_of_2_test : outcome unit :=
  let check n m k := assert_eq (round_to_power_of_2 n) m k in
  check 0 0 (check 1 1 (check 2 2 (check 3 4 (check 4 4 (check 5 8 (Ret tt)))))).

Definition addr (a b c d : Z) : Z := ((a * 256 + b) * 256 + c) * 256 + d.

Definition address_inline : outcome unit :=
  let! pfx := Ipv4Prefix_new (addr 192 168 0 0) 16 in
  assert_ (in_range pfx (addr 192 168 0 1)) (
  assert_ (in_range pfx (swap32 16820416)) (
  assert_ (in_range pfx (addr 192 168 100 1)) (
  assert_ (in_range pfx (addr 192 168 2 1)) (
  assert_ (negb (in_range pfx (addr 192 163 0 1))) (
  assert_ (in_range pfx (addr 192 168 0 0)) (
  assert_ (in_range pfx (addr 192 168 255 255)) (
  let! pfx := Ipv4Prefix_new (addr 192 168 1 2) 32 in
  assert_ (in_range pfx (addr 192 168 1 2)) (
  assert_ (negb (in_range pfx (addr 192 168 1 3))) (
  let! pfx := Ipv4Prefix_new (addr 0 0 0 0) 0 in
  assert_ (in_range pfx (addr 192 168 1 2)) (
  assert_ (in_range pfx (addr 2 2 2 2)) (
  let! pfx := Ipv4Prefix_new (addr 0 0 0 0) 0 in
  assert_ (in_range pfx (addr 192 168 1 2)) (
  assert_ (in_range pfx (addr 2 2 2 2)) (Ret tt))))))))))))).

(** ** The reordering buffer *)

Section reordering.
Variable fuel : nat.

(** [r0.seq(..)] and [r0.add_data(..)] of which the test expects [Inserted] *)
Definition start (b : Reorder.ReorderedBuffer) (s : Z) (d : list Z) : outcome (Z * Z * Reorder.ReorderedBuffer) :=
  let! '(r, b) := Reorder.seq b s d in let! wa := inserted r in Ret (wa, b).
Definition add (b : Reorder.ReorderedBuffer) (s : Z) (d : list Z) : outcome (Z * Z * Reorder.ReorderedBuffer) :=
  let! '(r, b) := Reorder.add_data fuel b s d in let! wa := inserted r in Ret (wa, b).

(** The number after [d], which starts at [s] *)
Definition after (s : Z) (d : list Z) : Z := wrapping_add 32 s (wrap 32 (zlen d)).

(** The loop of [creation_test], at most [n] turns *)
Fixpoint creation_loop (n : nat) (i : Z) : outcome unit :=
  if i <=? 1073741824 / 2 then
    match n with
    | O => NoFuel
    | S n =>
        let! ro := reordered i in
        assert_eq i (Reorder.buffer_size ro) (
        let! next := uadd 64 i 1 in
        let! ro := reordered next in
        let! double := umul 64 i 2 in
        assert_eq double (Reorder.buffer_size ro) (
        let! i := umul 64 i 2 in creation_loop n i))
    end
  else Ret tt.

Definition creation_test : outcome unit := creation_loop fuel 32.

Definition test_in_order_insertion : outcome unit :=
  let! ro := reordered 65536 in
  let data0 := as_bytes "food" in
  let base_seq := 1232 in
  let! '(written, available, ro) := start ro base_seq data0 in
  assert_eq written (zlen data0) (assert_eq available (zlen data0) (
  let data1 := as_bytes ": hamburger" in
  let! '(written, available, ro) := add ro (after base_seq data0) data1 in
  assert_eq written (zlen data1) (assert_eq available (zlen data0 + zlen data1) (
  let! '(read, read_buffer, ro) := Reorder.read_data fuel ro (replicate (length data0 + length data1 + 1) 0) in
  assert_eq read (zlen data0 + zlen data1) (
  let! read_str := vslice read_buffer 0 read in
  assert_eq read_str (data0 ++ data1) (Ret tt)))))).

Definition test_out_of_order_insertion : outcome unit :=
  let! ro := reordered 65536 in
  let data0 := as_bytes "food" in
  let base_seq := 1232 in
  let! '(written, available, ro) := start ro base_seq data0 in
  assert_eq written (zlen data0) (assert_eq available (zlen data0) (
  let data1 := as_bytes ": hamburger" in
  let data2 := as_bytes " american" in
  let! '(written, available, ro) := add ro (after (after base_seq data0) data1) data2 in
  assert_eq written (zlen data2) (assert_eq available (zlen data0) (
  let! '(written, available, ro) := add ro (after base_seq data0) data1 in
  assert_eq written (zlen data1) (assert_eq available (zlen data0 + zlen data1 + zlen data2) (
  let read_buf_len := Reorder.available ro in
  let! '(read, read_buffer, ro) := Reorder.read_data fuel ro (replicate (Z.to_nat read_buf_len) 0) in
  assert_eq read read_buf_len (assert_eq (Reorder.available ro) 0 (
  let! read := vslice read_buffer 0 read in
  assert_eq read (data0 ++ data1 ++ data2) (
  let! old := usub 32 base_seq 6 in
  let! '(written, available, ro) := add ro old [0; 1; 2] in
  assert_eq written 0 (assert_eq available 0 (Ret tt))))))))))).

Definition test_state_change : outcome unit :=
  let! ro := reordered 65536 in
  let data0 := as_bytes "food" in
  let base_seq := 1232 in
  let! '(written, available, ro) := start ro base_seq data0 in
  assert_eq written (zlen data0) (assert_eq available (zlen data0) (
  let data1 := as_bytes ": hamburger" in
  let data2 := as_bytes " american" in
  let data3 := as_bytes " (w/fries)" in
  let data2_seq := after (after base_seq data0) data1 in
  let! '(written, available, ro) := add ro data2_seq data2 in
  assert_eq written (zlen data2) (assert_eq available (zlen data0) (
  let! '(written, available, ro) := add ro (after base_seq data0) data1 in
  assert_eq written (zlen data1) (assert_eq available (zlen data0 + zlen data1 + zlen data2) (
  let! '(written, available, ro) := add ro (after (after (after base_seq data0) data1) data2) data3 in
  assert_eq written (zlen data3) (assert_eq available (zlen data0 + zlen data1 + zlen data2 + zlen data3) (
  let read_buf_len := Reorder.available ro in
  let! '(read, read_buffer, ro) := Reorder.read_data fuel ro (replicate (Z.to_nat read_buf_len) 0) in
  assert_eq read read_buf_len (assert_eq (Reorder.available ro) 0 (
  let! read := vslice read_buffer 0 read in
  assert_eq read (data0 ++ data1 ++ data2 ++ data3) (Ret tt))))))))))).

(** The turns of the loop that fills the buffer of [test_oom] and [test_reset] *)
Fixpoint fill_loop (n : nat) (r0 : Reorder.ReorderedBuffer) (s : Z) (data0 : list Z)
    : outcome (Z * Reorder.ReorderedBuffer) :=
  match n with
  | O => Ret (s, r0)
  | S n =>
      let s := after s data0 in
      let! '(written, _, r0) := add r0 s data0 in
      assert_eq written (zlen data0) (fill_loop n r0 s data0)
  end.

(** A stream is started, the buffer filled, and the write after that runs out of memory. *)
Definition fill_until_oom (iters : Z) (r0 : Reorder.ReorderedBuffer) (base_seq : Z) (data0 : list Z)
    : outcome Reorder.ReorderedBuffer :=
  let! '(written, _, r0) := start r0 base_seq data0 in
  assert_eq written (zlen data0) (
  let! '(s, r0) := fill_loop (Z.to_nat (iters - 1)) r0 base_seq data0 in
  let s := after s data0 in
  let! '(r, r0) := Reorder.add_data fuel r0 s data0 in
  let! '(written, available) := out_of_memory r in
  assert_ne written (zlen data0) (
  assert_eq available (4096 - 1) (Ret r0))).

Definition test_oom : outcome unit :=
  let! r0 := reordered 4096 in
  let data0 := as_bytes "food" in
  let! iters := usub 64 (4096 / zlen data0) 1 in
  let! _ := fill_until_oom iters r0 32 data0 in
  Ret tt.

Definition test_reset : outcome unit :=
  let! r0 := reordered 4096 in
  let data0 := as_bytes "food" in
  let! iters := usub 64 (4096 / zlen data0) 1 in
  let! r0 := fill_until_oom iters r0 155 data0 in
  let! r0 := Reorder.reset fuel r0 in
  let! _ := fill_until_oom iters r0 72 data0 in
  Ret tt.

(** The turns of the loop of [test_read_after_write] *)
Fixpoint write_read_loop (n : nat) (r0 : Reorder.ReorderedBuffer) (base_seq : Z) (data read_buf : list Z) : outcome unit :=
  match n with
  | O => Ret tt
  | S n =>
      let! '(written, _, r0) := add r0 base_seq data in
      assert_eq written (zlen data) (
      let base_seq := wrapping_add 32 base_seq (wrap 32 written) in
      let available_before_read := Reorder.available r0 in
      let! '(read, read_buf, r0) := Reorder.read_data fuel r0 read_buf in
      let! after_read := uadd 64 (Reorder.available r0) read in
      assert_eq available_before_read after_read (write_read_loop n r0 base_seq data read_buf))
  end.

Definition test_read_after_write : outcome unit :=
  let! r0 := reordered 4096 in
  let! base_seq := usub 32 (2 ^ 32 - 1) 30 in
  let data := as_bytes "testtest" in
  let! '(written, _, r0) := start r0 base_seq data in
  assert_eq written (zlen data) (
  let base_seq := wrapping_add 32 base_seq (wrap 32 written) in
  write_read_loop (Z.to_nat 5000) r0 base_seq data (replicate (length data) 0)).

Definition test_overlapping_write : outcome unit :=
  let! r0 := reordered 4096 in
  let base_seq := 289 in
  let data0 := as_bytes "hello wo" in
  let data1 := as_bytes " world" in
  let! '(written, _, r0) := start r0 base_seq data0 in
  assert_eq written (zlen data0) (
  let! at_ := uadd 32 base_seq (wrap 32 (zlen (as_bytes "hello"))) in
  let! '(written, _, r0) := add r0 at_ data1 in
  assert_eq written (zlen (as_bytes "rld")) (
  let! '(read, read_buf, r0) := Reorder.read_data fuel r0 (replicate (Z.to_nat (Reorder.available r0)) 0) in
  let! read_str := vslice read_buf 0 read in
  assert_eq read_str (as_bytes "hello world") (
  let! '(written, _, r0) := add r0 base_seq data0 in
  assert_eq written 0 (Ret tt)))).

End reordering.
End tests.

(** ** The tests that are evaluated *)

Definition passes (test : Profile -> outcome unit) : Prop := test debug = Ret tt /\ test release = Ret tt.

Ltac evaluate := split; vm_compute; reflexivity.

Lemma test_io_simple_passes : passes (@test_io_simple).
Proof. evaluate. Qed.
Lemma test_io_wrapped_passes : passes (@test_io_wrapped).
Proof. evaluate. Qed.
Lemma alloc_test_passes : passes (@alloc_test).
Proof. evaluate. Qed.
Lemma write_at_offset_test_passes : passes (@write_at_offset_test).
Proof. evaluate. Qed.
Lemma round_pages_test_passes : passes (@round_pages_test).
Proof. evaluate. Qed.
Lemma round_to_power_of_2_test_passes : passes (fun _ => round_to_power_of_2_test).
Proof. evaluate. Qed.
Lemma address_inline_passes : passes (@address_inline).
Proof. evaluate. Qed.
Lemma test_in_order_insertion_passes : passes (fun _ => test_in_order_insertion 2).
Proof. evaluate. Qed.
Lemma test_out_of_order_insertion_passes : passes (fun _ => test_out_of_order_insertion 2).
Proof. evaluate. Qed.
Lemma test_state_change_passes : passes (fun _ => test_state_change 2).
Proof. evaluate. Qed.
Lemma test_overlapping_write_passes : passes (fun _ => test_overlapping_write 2).
Proof. evaluate. Qed.

(** ** The tests that are shown from the specifications *)

Section shown.
Context {P : Profile}.

Lemma ring_ok k :
  0 <= k <= 63 ->
  exists rb, ring (2 ^ k) = Ret rb /\ Ring.Inv rb /\ Ring.contents rb = [] /\ Ring.free rb = 2 ^ k - 1.
Proof.
  intros Hk. destruct (Ring.new_pow2 k Hk) as (rb & Hn & HI & Hc & Hm & Ha). exists rb.
  unfold ring. rewrite Hn. split_and!; try done. unfold Ring.free. lia.
Qed.

Lemma read_write_tail_test_passes : read_write_tail_test = Ret tt.
Proof.
  unfold read_write_tail_test. destruct (ring_ok 12) as (rb & Hn & HI & Hc & Hfree); [lia|].
  change 4096 with (2 ^ 12). rewrite Hn. cbn [obind]. set (input := _ <$> seqZ 0 8192).
  assert (Hl : zlen input = 8192) by (unfold input; rewrite length_fmap, length_seqZ; lia).
  destruct (Ring.write_at_tail_spec rb input HI) as (rb1 & -> & HI1 & _ & Hc1). cbn [obind].
  rewrite Hfree, Hl, Hc in *. change (Z.min 8192 (2 ^ 12 - 1)) with 4095 in *. rewrite assert_eq_refl.
  pose proof (Ring.length_contents _ HI1) as Ha. rewrite Hc1, app_nil_l, length_take in Ha.
  unfold Ring.read_from_head.
  destruct (Ring.read_from_head_spec rb1 (replicate (Z.to_nat 8192) 0) (zlen (replicate (Z.to_nat 8192) 0)) HI1)
    as (rb2 & -> & _); [lia|]. cbn [obind].
  rewrite length_replicate, Hc1, app_nil_l. replace (Z.min _ _) with 4095 by lia.
  rewrite assert_eq_refl, take_app_le, take_take, Nat.min_id by (rewrite !length_take; lia).
  apply assert_eq_refl.
Qed.

Lemma reordered_ok bytes :
  1 <= bytes <= 2 ^ 63 ->
  exists b, reordered bytes = Ret b /\ Reorder.fresh b /\
    Reorder.buffer_size b = 2 ^ Z.log2_up bytes /\ Reorder.cap b = 2 ^ Z.log2_up bytes - 1.
Proof.
  intros Hb. destruct (Reorder.new_fresh bytes Hb) as (b & Hn & Hf & Hs & Hc). exists b.
  unfold reordered. rewrite Hn. split_and!; try done. lia.
Qed.

Lemma creation_loop_ok n k : 0 <= k <= 30 -> 30 - k <= Z.of_nat n -> creation_loop n (2 ^ k) = Ret tt.
Proof.
  revert k. induction n as [|n IH]; intros k Hk Hn; cbn [creation_loop]; change (1073741824 / 2) with (2 ^ 29).
  - replace k with 30 by lia. done.
  - destruct (Z.leb_spec (2 ^ k) (2 ^ 29)) as [Hle|]; [|done].
    apply Z.pow_le_mono_r_iff in Hle; [|lia..].
    assert (0 < 2 ^ k <= 2 ^ 29) by (split; [lia|apply Z.pow_le_mono_r; lia]).
    destruct (reordered_ok (2 ^ k)) as (b & -> & _ & Hs & _); [lia|]. cbn [obind].
    rewrite Hs, Z.log2_up_pow2, assert_eq_refl by lia. rewrite uadd_small by (unfold uint; lia). cbn [obind].
    destruct (reordered_ok (2 ^ k + 1)) as (b' & -> & _ & Hs' & _); [lia|]. cbn [obind].
    unfold umul. rewrite fit_small by (unfold uint; lia). cbn [obind].
    change (2 ^ k + 1) with (Z.succ (2 ^ k)) in Hs'. rewrite Z.log2_up_succ_pow2 in Hs' by lia.
    rewrite Hs'. replace (2 ^ k * 2) with (2 ^ Z.succ k) by (rewrite Z.pow_succ_r; lia).
    rewrite assert_eq_refl. apply IH; lia.
Qed.

Lemma creation_test_passes : creation_test 25 = Ret tt.
Proof. apply (creation_loop_ok 25 5); lia. Qed.

(** ** Data at the tail *)

Section data_at_tail.
Variables (fuel : nat) (d : list Z).
Hypothesis Hd : 0 < zlen d < 2 ^ 32.

Lemma add_data_at_tail b :
  Reorder.CInv b ->
  Reorder.add_data fuel b (Reorder.tail_seq b) d = Reorder.fast_path_insert b d.
Proof. intros (Hst & _). unfold Reorder.add_data. by rewrite Hst, Z.eqb_refl. Qed.

Lemma add_at_tail b :
  Reorder.CInv b -> zlen (Ring.contents (Reorder.data b)) + zlen d <= Reorder.cap b ->
  exists b', add fuel b (Reorder.tail_seq b) d = Ret (zlen d, zlen (Ring.contents (Reorder.data b)) + zlen d, b') /\
    Reorder.CInv b' /\ Reorder.cap b' = Reorder.cap b /\ Reorder.segment_list b' = Reorder.segment_list b /\
    Ring.contents (Reorder.data b') = Ring.contents (Reorder.data b) ++ d /\
    Reorder.tail_seq b' = after (Reorder.tail_seq b) d.
Proof using Hd.
  intros HC Hroom. unfold add. rewrite add_data_at_tail by done.
  destruct (Reorder.fast_path_insert_spec b d HC) as (b' & -> & HC' & Hcap & Hseg & [= Hc Ht]).
  rewrite Z.min_l in * by lia. rewrite Z.eqb_refl. cbn [obind inserted]. exists b'.
  rewrite Nat2Z.id, firstn_all in Hc. unfold after. rewrite (wrap_small 32 (zlen d)) by (unfold uint; lia).
  by split_and!.
Qed.

Lemma fill_loop_ok n b s :
  Reorder.CInv b -> Reorder.tail_seq b = after s d ->
  zlen (Ring.contents (Reorder.data b)) + Z.of_nat n * zlen d <= Reorder.cap b ->
  exists s' b', fill_loop fuel n b s d = Ret (s', b') /\
    Reorder.CInv b' /\ Reorder.cap b' = Reorder.cap b /\ Reorder.segment_list b' = Reorder.segment_list b /\
    zlen (Ring.contents (Reorder.data b')) = zlen (Ring.contents (Reorder.data b)) + Z.of_nat n * zlen d /\
    Reorder.tail_seq b' = after s' d.
Proof using Hd.
  revert b s. induction n as [|n IH]; intros b s HC Ht Hroom; cbn [fill_loop].
  - exists s, b. split_and!; try done. lia.
  - rewrite <- Ht. destruct (add_at_tail b HC) as (b1 & -> & HC1 & Hcap1 & Hseg1 & Hc1 & Ht1); [lia|].
    cbn [obind]. rewrite assert_eq_refl. rewrite <- Hcap1, <- Hseg1.
    assert (Hl1 : zlen (Ring.contents (Reorder.data b1)) = zlen (Ring.contents (Reorder.data b)) + zlen d)
      by (rewrite Hc1, length_app; lia).
    destruct (IH b1 (Reorder.tail_seq b) HC1 Ht1) as (s' & b' & -> & ? & ? & ? & Hl & ?); [lia|].
    exists s', b'. split_and!; try done. lia.
Qed.

(** A fresh buffer into which [iters] copies of [d] fit, and no more, is filled. *)
Lemma fill_until_oom_ok iters b s :
  Reorder.fresh b -> uint 32 s -> 1 <= iters -> Reorder.cap b = 4096 - 1 ->
  iters * zlen d <= 4096 - 1 < (iters + 1) * zlen d ->
  exists b', fill_until_oom fuel iters b s d = Ret b' /\ Ring.Inv (Reorder.data b') /\
    Segments.idle (Reorder.segment_list b') /\ Reorder.cap b' = 4096 - 1.
Proof using Hd.
  intros Hf Hs Hit Hcap Hroom. unfold fill_until_oom, start.
  destruct (Reorder.seq_fresh b s d Hf Hs) as (b1 & -> & HC1 & Hcap1 & Hid1 & [= Hc1 Ht1]).
  rewrite Hcap, Z.min_l in * by nia. rewrite Z.eqb_refl. cbn [obind inserted]. rewrite assert_eq_refl.
  rewrite Nat2Z.id, firstn_all in Hc1.
  destruct (fill_loop_ok (Z.to_nat (iters - 1)) b1 s HC1) as (s2 & b2 & -> & HC2 & Hcap2 & Hseg2 & Hl2 & Ht2).
  { rewrite Ht1. unfold after. by rewrite (wrap_small 32 (zlen d)) by (unfold uint; lia). }
  { rewrite Hc1. lia. }
  cbn [obind]. rewrite <- Ht2, add_data_at_tail by done.
  destruct (Reorder.fast_path_insert_spec b2 d HC2) as (b3 & -> & (_ & HI3 & _) & Hcap3 & Hseg3 & _).
  rewrite Hc1, Z2Nat.id in Hl2 by lia. rewrite Hcap2, Hcap1, Z.min_r by lia.
  destruct (Z.eqb_spec (4096 - 1 - zlen (Ring.contents (Reorder.data b2))) (zlen d)) as [|Hne]; [lia|].
  cbn [obind out_of_memory]. unfold assert_ne. rewrite bool_decide_eq_false_2 by done. simpl assert_.
  replace (_ + _) with (4096 - 1) by lia. rewrite assert_eq_refl. exists b3.
  rewrite Hcap3, Hcap2, Hcap1, Hseg3, Hseg2. done.
Qed.

Lemma write_read_loop_ok n b buf :
  Reorder.CInv b -> zlen (Ring.contents (Reorder.data b)) = zlen d -> 2 * zlen d <= Reorder.cap b -> length buf = length d ->
  write_read_loop fuel n b (Reorder.tail_seq b) d buf = Ret tt.
Proof using Hd.
  revert b buf. induction n as [|n IH]; intros b buf HC Hl Hroom Hbuf; cbn [write_read_loop]; [done|].
  destruct (add_at_tail b HC) as (b1 & -> & HC1 & Hcap1 & _ & Hc1 & Ht1); [lia|]. cbn [obind]. rewrite assert_eq_refl.
  pose proof (Reorder.read_data_in_order fuel b1 buf HC1) as (b2 & Hr & HC2 & Hcap2 & _ & [= Hc2 Ht2]).
  assert (Hl1 : zlen (Ring.contents (Reorder.data b1)) = 2 * zlen d) by (rewrite Hc1, length_app; lia).
  rewrite Hl1, Hbuf, Z.min_r in * by lia.
  cbn [Reorder.buffer_step] in Hr. destruct (Reorder.read_data fuel b1 buf) as [[[n' buf'] b2']| | |]; try discriminate.
  cbn [obind Reorder.stream_step Reorder.abs fst] in Hr. rewrite Hl1, Hbuf, Z.min_r in Hr by lia. injection Hr as -> -> ->.
  cbn [obind]. destruct HC1 as (? & HI1 & ?). pose proof HC2 as (? & HI2 & ?).
  pose proof (Ring.length_contents _ HI1) as Ha1. pose proof (Ring.length_contents _ HI2) as Ha2.
  pose proof (Ring.inv_available _ HI1).
  assert (Hl2 : zlen (Ring.contents (Reorder.data b2)) = zlen d) by (rewrite Hc2, length_drop; lia).
  unfold Reorder.available. rewrite <- Ha1, <- Ha2, Hl1, Hl2. rewrite uadd_small by (unfold uint; lia). cbn [obind].
  replace (zlen d + zlen d) with (2 * zlen d) by lia. rewrite assert_eq_refl.
  change (wrapping_add 32 (Reorder.tail_seq b) (wrap 32 (zlen d))) with (after (Reorder.tail_seq b) d). rewrite <- Ht1, <- Ht2.
  apply IH; [done|done|lia|]. rewrite length_app, length_take, length_drop. lia.
Qed.

End data_at_tail.

Lemma test_oom_passes fuel : test_oom fuel = Ret tt.
Proof.
  unfold test_oom. destruct (reordered_ok 4096) as (b & -> & Hf & _ & Hc); [lia|]. cbn [obind].
  rewrite usub_small by done. cbn [obind].
  destruct (fill_until_oom_ok fuel (as_bytes "food") ltac:(done) 1023 b 32) as (b' & Hr & _); try done.
  change (4096 / zlen (as_bytes "food") - 1) with 1023. by rewrite Hr.
Qed.

Lemma test_reset_passes fuel : test_reset fuel = Ret tt.
Proof.
  unfold test_reset. destruct (reordered_ok 4096) as (b & -> & Hf & _ & Hc); [lia|]. cbn [obind].
  rewrite usub_small by done. cbn [obind].
  destruct (fill_until_oom_ok fuel (as_bytes "food") ltac:(done) 1023 b 155) as (b1 & Hr1 & HI1 & Hid1 & Hc1); try done.
  destruct (Reorder.reset_fresh fuel b1 HI1 Hid1) as (b2 & Hr2 & Hf2 & Hc2). rewrite Hc1 in Hc2.
  destruct (fill_until_oom_ok fuel (as_bytes "food") ltac:(done) 1023 b2 72) as (b3 & Hr3 & _); try done.
  change (4096 / zlen (as_bytes "food") - 1) with 1023. rewrite Hr1. cbn [obind]. rewrite Hr2. cbn [obind]. by rewrite Hr3.
Qed.

Lemma test_read_after_write_passes fuel : test_read_after_write fuel = Ret tt.
Proof.
  unfold test_read_after_write. destruct (reordered_ok 4096) as (b & -> & Hf & _ & Hc); [lia|]. cbn [obind].
  change (2 ^ Z.log2_up 4096 - 1) with 4095 in Hc. rewrite usub_small by done. cbn [obind]. unfold start.
  set (d := as_bytes "testtest"). assert (Hd : zlen d = 8) by done. clearbody d.
  destruct (Reorder.seq_fresh b (2 ^ 32 - 1 - 30) d Hf ltac:(done)) as (b1 & -> & HC1 & Hc1 & _ & [= Hq Ht]).
  rewrite Hc, Z.min_l in * by lia. rewrite Z.eqb_refl. cbn [obind inserted]. rewrite assert_eq_refl.
  rewrite (wrap_small 32 (zlen d)) by (unfold uint; lia). rewrite <- Ht.
  rewrite Nat2Z.id, firstn_all in Hq. apply write_read_loop_ok; [lia|done|by rewrite Hq|lia|by rewrite length_replicate].
Qed.

End shown.

End Conformance.
