(* ===== verification/Packet.v ===== *)
(** * Packet buffers and packets
    ([framework/src/native/zcsi/mbuf.rs], [framework/src/interface/packet.rs])

    [MBuf] is DPDK's packet buffer: the fields the code reads or writes, the bytes at
    [buf_addr] and the metadata area behind the struct. A [Heap] maps mbuf pointers to
    mbufs; operations thread it. A [Packet] is a mbuf pointer, the address of the current
    header and its offset from the start of the data, with the header type as a parameter
    (the build without the [packet_offset] feature).

    A header pointer is resolved in the buffer of the packet's own mbuf; touching a byte
    outside of it, or copying between overlapping ranges with [copy_nonoverlapping], is
    [Undef]. *)

From S2P Require Import Prelude Headers.

Module Mbuf.

(** The remaining fields of the C struct are not accessed by the framework. *)
Record MBuf : Type := mkMBuf {
  buf_addr : Z;        (* [*mut u8] *)
  data_off : Z;        (* [u16] *)
  refcnt_ : Z;         (* [u16] *)
  pkt_len_ : Z;        (* [u32] *)
  data_len_ : Z;       (* [u16] *)
  buf_len_ : Z;        (* [u16] *)
  bytes : list Z;      (* the buffer at [buf_addr] *)
  meta : list Z        (* the metadata area behind the struct *)
}.

Definition with_lens (m : MBuf) (off dl pl : Z) : MBuf :=
  mkMBuf (buf_addr m) off (refcnt_ m) pl dl (buf_len_ m) (bytes m) (meta m).
Definition with_refcnt (m : MBuf) (r : Z) : MBuf :=
  mkMBuf (buf_addr m) (data_off m) r (pkt_len_ m) (data_len_ m) (buf_len_ m) (bytes m) (meta m).
Definition with_bytes (m : MBuf) (b : list Z) : MBuf :=
  mkMBuf (buf_addr m) (data_off m) (refcnt_ m) (pkt_len_ m) (data_len_ m) (buf_len_ m) b (meta m).
Definition with_meta (m : MBuf) (b : list Z) : MBuf :=
  mkMBuf (buf_addr m) (data_off m) (refcnt_ m) (pkt_len_ m) (data_len_ m) (buf_len_ m) (bytes m) b.

(** Raw reads and writes of a byte area: outside of it they are undefined. *)
Definition area_read (l : list Z) (o n : Z) : outcome (list Z) :=
  if (0 <=? o) && (0 <=? n) && (o + n <=? zlen l) then Ret (take (Z.to_nat n) (drop (Z.to_nat o) l)) else Undef.
Definition area_write (l : list Z) (o : Z) (d : list Z) : outcome (list Z) :=
  if (0 <=? o) && (o + zlen d <=? zlen l) then Ret (splice l o d) else Undef.

Section operations.
Context {P : Profile}.

Definition read_metadata_slot (m : MBuf) (slot : Z) : outcome Z :=
  let! b := area_read (meta m) (8 * slot) 8 in Ret (le_val b).

Definition write_metadata_slot (m : MBuf) (slot value : Z) : outcome MBuf :=
  let! b := area_write (meta m) (8 * slot) (le_bytes 8 value) in Ret (with_meta m b).

(** [metadata_as] and [mut_metadata_as] point at the bytes from a slot on; what is done
    through the pointer is a read or a write of a whole value. *)
Definition metadata_as (T : Type) `{Packed T} (m : MBuf) (slot : Z) : outcome T :=
  let! b := area_read (meta m) (8 * slot) (Z.of_nat (size_of T)) in Ret (decode b).
Definition mut_metadata_as {T : Type} `{Packed T} (m : MBuf) (slot : Z) (v : T) : outcome MBuf :=
  let! b := area_write (meta m) (8 * slot) (encode v) in Ret (with_meta m b).

Definition data_address (m : MBuf) (offset : Z) : Z := buf_addr m + (data_off m + offset).

Definition buf_len (m : MBuf) : Z := buf_len_ m.
Definition data_len (m : MBuf) : Z := data_len_ m.
Definition pkt_len (m : MBuf) : Z := pkt_len_ m.
Definition pkt_headroom (m : MBuf) : Z := data_off m.

Definition pkt_tailroom (m : MBuf) : outcome Z :=
  let! a := usub 64 (buf_len m) (data_off m) in usub 64 a (data_len m).

Definition add_data_beginning (m : MBuf) (len : Z) : outcome (Z * MBuf) :=
  if pkt_headroom m <? len then Ret (0, m)
  else
    let! off := usub 16 (data_off m) (wrap 16 len) in
    let! dl := uadd 16 (data_len_ m) (wrap 16 len) in
    let! pl := uadd 32 (pkt_len_ m) (wrap 32 len) in
    Ret (len, with_lens m off dl pl).

Definition add_data_end (m : MBuf) (len : Z) : outcome (Z * MBuf) :=
  let! room := pkt_tailroom m in
  if room <? len then Ret (0, m)
  else
    let! dl := uadd 16 (data_len_ m) (wrap 16 len) in
    let! pl := uadd 32 (pkt_len_ m) (wrap 32 len) in
    Ret (len, with_lens m (data_off m) dl pl).

Definition remove_data_beginning (m : MBuf) (len : Z) : outcome (Z * MBuf) :=
  if data_len m <? len then Ret (0, m)
  else
    let! off := uadd 16 (data_off m) (wrap 16 len) in
    let! dl := usub 16 (data_len_ m) (wrap 16 len) in
    let! pl := usub 32 (pkt_len_ m) (wrap 32 len) in
    Ret (len, with_lens m off dl pl).

Definition remove_data_end (m : MBuf) (len : Z) : outcome (Z * MBuf) :=
  if data_len m <? len then Ret (0, m)
  else
    let! dl := usub 16 (data_len_ m) (wrap 16 len) in
    let! pl := usub 32 (pkt_len_ m) (wrap 32 len) in
    Ret (len, with_lens m (data_off m) dl pl).

Definition refcnt (m : MBuf) : Z := refcnt_ m.

Definition reference (m : MBuf) : outcome MBuf :=
  let! r := uadd 16 (refcnt_ m) 1 in Ret (with_refcnt m r).

End operations.

(** ** Invariant and abstraction *)

Definition METADATA_SLOTS : Z := 16.

(** A single-segment mbuf whose data lies inside its buffer *)
Definition mbuf_wf (m : MBuf) : Prop :=
  0 < buf_addr m /\ buf_addr m + buf_len_ m < 2 ^ 64 /\
  zlen (bytes m) = buf_len_ m /\ buf_len_ m < 2 ^ 16 /\
  0 <= data_off m /\ 0 <= data_len_ m /\ data_off m + data_len_ m <= buf_len_ m /\
  pkt_len_ m = data_len_ m /\ uint 16 (refcnt_ m) /\
  bytes_ok (bytes m) /\ zlen (meta m) = 8 * METADATA_SLOTS /\ bytes_ok (meta m).

#[export] Instance mbuf_wf_dec m : Decision (mbuf_wf m).
Proof. unfold mbuf_wf. apply _. Defined.

(** The packet's bytes *)
Definition frame (m : MBuf) : list Z :=
  take (Z.to_nat (data_len_ m)) (drop (Z.to_nat (data_off m)) (bytes m)).

(** ** Growing and shrinking the data *)

Inductive resize_op : Type := AddBeginning | AddEnd | RemoveBeginning | RemoveEnd.

Definition resize `{Profile} (o : resize_op) : MBuf -> Z -> outcome (Z * MBuf) :=
  match o with
  | AddBeginning => add_data_beginning
  | AddEnd => add_data_end
  | RemoveBeginning => remove_data_beginning
  | RemoveEnd => remove_data_end
  end.

(** What an operation may take *)
Definition room (o : resize_op) (m : MBuf) : Z :=
  match o with
  | AddBeginning => data_off m
  | AddEnd => buf_len_ m - data_off m - data_len_ m
  | RemoveBeginning | RemoveEnd => data_len_ m
  end.

(** The part of the buffer that is packet data afterwards: start and length *)
Definition resized (o : resize_op) (m : MBuf) (len : Z) : Z * Z :=
  match o with
  | AddBeginning => (data_off m - len, data_len_ m + len)
  | AddEnd => (data_off m, data_len_ m + len)
  | RemoveBeginning => (data_off m + len, data_len_ m - len)
  | RemoveEnd => (data_off m, data_len_ m - len)
  end.

Lemma mbuf_wf_lens m off dl :
  mbuf_wf m -> 0 <= off -> 0 <= dl -> off + dl <= buf_len_ m -> mbuf_wf (with_lens m off dl dl).
Proof. intros (?&?&?&?&?&?&?&?&?&?&?&?) ???. by repeat (split; [done|]). Qed.

Lemma resize_spec `{Profile} o m len :
  mbuf_wf m -> 0 <= len ->
  if room o m <? len then resize o m len = Ret (0, m)
  else let '(off, dl) := resized o m len in
       resize o m len = Ret (len, with_lens m off dl dl) /\ mbuf_wf (with_lens m off dl dl).
Proof.
  intros Hwf Hlen. pose proof Hwf as (?&?&?&?&?&?&?&Hp&?).
  assert (Ht : pkt_tailroom m = Ret (room AddEnd m)).
  { unfold pkt_tailroom, buf_len, data_len. rewrite usub_small by (unfold uint; lia). cbn [obind].
    apply usub_small. unfold uint. lia. }
  destruct o; simpl; unfold add_data_end, add_data_beginning, remove_data_beginning, remove_data_end,
    data_len, pkt_headroom; rewrite ?Ht; cbn [obind]; simpl;
    (match goal with |- context [?a <? len] => destruct (Z.ltb_spec a len) end; [done|]); rewrite Hp;
    rewrite !(wrap_small _ len) by (unfold uint; lia);
    repeat (rewrite ?uadd_small, ?usub_small by (unfold uint; lia); cbn [obind]);
    (split; [done|apply mbuf_wf_lens; lia || done]).
Qed.

(** C32: The four operations that move the ends of a packet inside its buffer never panic
    and never overflow, in either build profile: without room they return 0 and change
    nothing, otherwise they return the length, keep the buffer's bytes and the invariant,
    and the packet's data is exactly the shifted range; removing what was added restores
    the mbuf. *)
Theorem mbuf_resize_spec `{Profile} o m len :
  mbuf_wf m -> 0 <= len ->
  (room o m < len -> resize o m len = Ret (0, m)) /\
  (len <= room o m ->
   exists m', resize o m len = Ret (len, m') /\ mbuf_wf m' /\ bytes m' = bytes m /\
     (data_off m', data_len_ m') = resized o m len /\
     match o with
     | AddBeginning => drop (Z.to_nat len) (frame m') = frame m /\ resize RemoveBeginning m' len = Ret (len, m)
     | AddEnd => take (Z.to_nat (data_len_ m)) (frame m') = frame m /\ resize RemoveEnd m' len = Ret (len, m)
     | RemoveBeginning => frame m' = drop (Z.to_nat len) (frame m) /\ resize AddBeginning m' len = Ret (len, m)
     | RemoveEnd => frame m' = take (Z.to_nat (data_len_ m - len)) (frame m) /\ resize AddEnd m' len = Ret (len, m)
     end).
Proof.
  intros Hwf Hlen. pose proof (resize_spec o m len Hwf Hlen) as Hr. split; intros Hroom.
  { by rewrite (proj2 (Z.ltb_lt _ _)) in Hr by done. }
  rewrite (proj2 (Z.ltb_ge _ _)) in Hr by done.
  destruct (resized o m len) as [off dl] eqn:Er. destruct Hr as [Hr Hwf'].
  exists (with_lens m off dl dl). split; [done|]. split; [done|]. split; [done|]. split; [done|].
  assert (Hback : forall o' z, with_lens m off dl dl = z -> (room o' z <? len) = false ->
    resized o' z len = (data_off m, data_len_ m) -> resize o' z len = Ret (len, m)).
  { intros o' z <- Hlt He. pose proof (resize_spec o' _ len Hwf' Hlen) as Hr'.
    rewrite Hlt, He in Hr'. destruct Hr' as [-> _]. do 2 f_equal. unfold with_lens; simpl.
    destruct m; simpl in *. f_equal. symmetry. apply Hwf. }
  destruct Hwf as (?&?&Hb&?&?&?&?&?&_). unfold frame.
  destruct o; simpl in Er, Hroom; injection Er as <- <-;
    (split; [|apply (Hback _ _ eq_refl); simpl; [apply Z.ltb_ge; lia|f_equal; lia]]); simpl.
  - rewrite skipn_firstn_comm, drop_drop. f_equal; [lia|f_equal; lia].
  - rewrite take_take. f_equal. lia.
  - rewrite skipn_firstn_comm, drop_drop. f_equal; [lia|f_equal; lia].
  - rewrite take_take. f_equal. lia.
Qed.

End Mbuf.

Import Mbuf.

Abbreviation Heap := (gmap Z MBuf).

(** Apply a mbuf operation through a pointer; a null or dangling pointer is undefined. *)
Definition on_mbuf {A} (p : Z) (f : MBuf -> outcome (A * MBuf)) : St Heap A := fun h =>
  match h !! p with
  | Some m => let! '(a, m) := f m in Ret (a, <[p := m]> h)
  | None => Undef
  end.

Definition peek {A} (p : Z) (f : MBuf -> outcome A) : St Heap A := fun h =>
  match h !! p with
  | Some m => let! a := f m in Ret (a, h)
  | None => Undef
  end.

(** The native allocator ([mbuf_alloc], [mbuf_free] and their bulk forms of DPDK) *)
Class Zcsi : Type := {
  mbuf_alloc : St Heap Z;
  mbuf_free : Z -> St Heap unit;
  mbuf_alloc_bulk : Z -> Z -> St Heap (Z * list Z);
  mbuf_free_bulk : list Z -> St Heap Z
}.

Module Pkt.

(** The unit struct [EmptyMetadata] of [common/mod.rs] *)
Inductive EmptyMetadata : Type := empty_metadata.
#[global] Instance EmptyMetadata_Packed : Packed EmptyMetadata := {|
  size_of := 0; encode _ := []; decode _ := empty_metadata; wf _ := True
|}.

Record Packet (T M : Type) : Type := mkPacket { mbuf : Z; header : Z; offset_ : Z }.
#[global] Arguments mkPacket {T M}.
#[global] Arguments mbuf {T M}.
#[global] Arguments header {T M}.
#[global] Arguments offset_ {T M}.

Definition create_packet {T M} (mbuf hdr offset : Z) : Packet T M := mkPacket mbuf hdr offset.

Definition HEADER_SLOT : Z := 0.
Definition OFFSET_SLOT : Z := HEADER_SLOT + 1.
Definition STACK_DEPTH_SLOT : Z := OFFSET_SLOT + 1.
Definition STACK_OFFSET_SLOT : Z := STACK_DEPTH_SLOT + 1.
Definition STACK_SIZE : Z := 0.
Definition END_OF_STACK_SLOT : Z := STACK_OFFSET_SLOT + STACK_SIZE.
Definition FREEFORM_METADATA_SLOT : Z := END_OF_STACK_SLOT.
Definition FREEFORM_METADATA_SIZE : Z := (METADATA_SLOTS - FREEFORM_METADATA_SLOT) * 8.

(** ** Raw memory through a packet's pointers *)

Definition read_at (p addr n : Z) : St Heap (list Z) :=
  peek p (fun m => area_read (bytes m) (addr - buf_addr m) n).

Definition write_at (p addr : Z) (d : list Z) : St Heap unit :=
  on_mbuf p (fun m => let! b := area_write (bytes m) (addr - buf_addr m) d in Ret (tt, with_bytes m b)).

(** [ptr::copy_nonoverlapping(src, dst, n)] on bytes, possibly between two mbufs *)
Definition copy_nonoverlapping (ps src pd dst n : Z) : St Heap unit :=
  if (ps =? pd) && (0 <? n) && (src <? dst + n) && (dst <? src + n) then fun _ => Undef
  else let* d := read_at ps src n in write_at pd dst d.

Section construction.
Context {P : Profile} {Z_ : Zcsi}.

Definition reference_mbuf (p : Z) : St Heap unit :=
  on_mbuf p (fun m => let! m := reference m in Ret (tt, m)).

Definition packet_from_mbuf_no_increment (T : Type) (p offset : Z) : St Heap (Packet T EmptyMetadata) :=
  let* header := peek p (fun m => Ret (data_address m offset)) in
  sret (create_packet p header offset).

Definition packet_from_mbuf (T : Type) (p offset : Z) : St Heap (Packet T EmptyMetadata) :=
  let* _ := reference_mbuf p in packet_from_mbuf_no_increment T p offset.

Definition packet_from_mbuf_no_free (T : Type) (p offset : Z) : St Heap (Packet T EmptyMetadata) :=
  packet_from_mbuf_no_increment T p offset.

Definition new_packet : St Heap (option (Packet NullHeader EmptyMetadata)) :=
  let* p := mbuf_alloc in
  if p =? 0 then sret None
  else let* pkt := packet_from_mbuf_no_increment NullHeader p 0 in sret (Some pkt).

Fixpoint packets_from_mbufs (ps : list Z) : St Heap (list (Packet NullHeader EmptyMetadata)) :=
  match ps with
  | [] => sret []
  | p :: ps =>
      let* pkt := packet_from_mbuf_no_increment NullHeader p 0 in
      let* rest := packets_from_mbufs ps in sret (pkt :: rest)
  end.

(** [mbuf_alloc_bulk] fills the array; its length is set only on success. *)
Definition new_packet_array (count : Z) : St Heap (list (Packet NullHeader EmptyMetadata)) :=
  let* '(alloc_ret, array) := mbuf_alloc_bulk 0 (as_signed 32 count) in
  packets_from_mbufs (if alloc_ret =? 0 then take (Z.to_nat count) array else []).

End construction.

Section packet.
Context {P : Profile} {T M : Type} {ET : EndOffset T} {PT : Packed T}.
Implicit Types pkt : Packet T M.

Definition header_u8 pkt : Z := header pkt.
Definition offset pkt : Z := offset_ pkt.

Definition read_stack_depth pkt : St Heap Z := peek (mbuf pkt) (fun m => read_metadata_slot m STACK_DEPTH_SLOT).

Definition write_slot pkt (slot v : Z) : St Heap unit :=
  on_mbuf (mbuf pkt) (fun m => let! m := write_metadata_slot m slot v in Ret (tt, m)).

Definition write_stack_depth pkt (new_depth : Z) : St Heap unit := write_slot pkt STACK_DEPTH_SLOT new_depth.

Definition read_stack_offset pkt (depth : Z) : St Heap Z :=
  peek (mbuf pkt) (fun m => read_metadata_slot m (STACK_OFFSET_SLOT + depth)).

Definition write_stack_offset pkt (depth offset : Z) : St Heap unit :=
  write_slot pkt (STACK_OFFSET_SLOT + depth) offset.

Definition reset_stack_offset pkt : St Heap unit := write_stack_depth pkt 0.

Definition push_offset pkt (offset : Z) : St Heap (option Z) :=
  let* depth := read_stack_depth pkt in
  if depth <? STACK_SIZE then
    let* d1 := slift (uadd 64 depth 1) in
    let* _ := write_stack_depth pkt d1 in
    let* _ := write_stack_offset pkt depth offset in
    sret (Some d1)
  else sret None.

Definition pop_offset pkt : St Heap (option Z) :=
  let* depth := read_stack_depth pkt in
  if 0 <? depth then
    let* _ := write_stack_depth pkt (depth - 1) in
    let* o := read_stack_offset pkt (depth - 1) in
    sret (Some o)
  else sret None.

Definition free_packet {Z_ : Zcsi} pkt : St Heap unit :=
  if negb (mbuf pkt =? 0) then mbuf_free (mbuf pkt) else sret tt.

Definition update_ptrs pkt (header offset : Z) : St Heap unit :=
  let* _ := write_slot pkt HEADER_SLOT header in write_slot pkt OFFSET_SLOT offset.

Definition save_header_and_offset pkt : St Heap unit := update_ptrs pkt (header_u8 pkt) (offset pkt).

Definition read_header pkt : St Heap Z := peek (mbuf pkt) (fun m => read_metadata_slot m HEADER_SLOT).
Definition read_offset pkt : St Heap Z := peek (mbuf pkt) (fun m => read_metadata_slot m OFFSET_SLOT).

(** [&*self.header()] *)
Definition get_header pkt : St Heap T :=
  let* b := read_at (mbuf pkt) (header pkt) (Z.of_nat (size_of T)) in sret (decode b).

(** A store through [get_mut_header] *)
Definition get_mut_header pkt (f : T -> T) : St Heap unit :=
  let* t := get_header pkt in write_at (mbuf pkt) (header pkt) (encode (f t)).

Definition payload_offset pkt : St Heap Z := let* t := get_header pkt in sret (Headers.offset t).

Definition payload pkt : St Heap Z := let* o := payload_offset pkt in sret (header_u8 pkt + o).

Definition data_base pkt : St Heap Z := peek (mbuf pkt) (fun m => Ret (data_address m 0)).
Definition pkt_data_len pkt : St Heap Z := peek (mbuf pkt) (fun m => Ret (data_len m)).

Definition pkt_payload_size pkt : St Heap Z :=
  let* l := pkt_data_len pkt in
  let* a := slift (usub 64 l (offset pkt)) in
  let* o := payload_offset pkt in
  slift (usub 64 a o).

Definition read_metadata {PM : Packed M} pkt : St Heap M :=
  if Z.of_nat (size_of M) <? FREEFORM_METADATA_SIZE
  then peek (mbuf pkt) (fun m => metadata_as M m FREEFORM_METADATA_SLOT)
  else fun _ => Panic.

Definition write_metadata {M2} {PM2 : Packed M2} pkt (metadata : M2) : St Heap (result unit) :=
  if FREEFORM_METADATA_SIZE <=? Z.of_nat (size_of M2) then sret (Err MetadataTooLarge)
  else on_mbuf (mbuf pkt) (fun m =>
         let! m := mut_metadata_as m FREEFORM_METADATA_SLOT metadata in Ret (Ok tt, m)).

Definition reinterpret_metadata (M2 : Type) pkt : Packet T M2 := create_packet (mbuf pkt) (header pkt) (offset pkt).

Definition push_header {T2} {E2 : EndOffset T2} {P2 : Packed T2} pkt (hdr : T2) : St Heap (option (Packet T2 M)) :=
  let* len := pkt_data_len pkt in
  let size := Headers.offset hdr in
  let* added := on_mbuf (mbuf pkt) (fun m => add_data_end m size) in
  let* po := payload_offset pkt in
  let* offset := slift (uadd 64 (offset pkt) po) in
  if size <=? added then
    let* dst := (if negb (len =? offset) then
                   let* final_dst := payload pkt in
                   let move_loc := final_dst + size in
                   let* to_move := slift (usub 64 len offset) in
                   let* _ := copy_nonoverlapping (mbuf pkt) final_dst (mbuf pkt) move_loc to_move in
                   sret final_dst
                 else payload pkt) in
    let* _ := write_at (mbuf pkt) dst (encode hdr) in
    sret (Some (create_packet (mbuf pkt) dst offset))
  else sret None.

Definition remove_from_payload_head pkt (size : Z) : St Heap (result unit) :=
  let* src := data_base pkt in
  let dst := src + size in
  let* _ := copy_nonoverlapping (mbuf pkt) src (mbuf pkt) dst size in
  let* _ := on_mbuf (mbuf pkt) (fun m => remove_data_beginning m size) in
  sret (Ok tt).

Definition add_to_payload_head pkt (size : Z) : St Heap (result unit) :=
  let* added := on_mbuf (mbuf pkt) (fun m => add_data_end m size) in
  if size <=? added then
    let* src := payload pkt in
    let dst := src + size in
    let* _ := copy_nonoverlapping (mbuf pkt) src (mbuf pkt) dst size in
    sret (Ok tt)
  else sret (Err FailedAllocation).

Definition remove_from_payload_tail pkt (size : Z) : St Heap (result unit) :=
  let* _ := on_mbuf (mbuf pkt) (fun m => remove_data_end m size) in sret (Ok tt).

Definition add_to_payload_tail pkt (size : Z) : St Heap (result unit) :=
  let* added := on_mbuf (mbuf pkt) (fun m => add_data_end m size) in
  sret (if size <=? added then Ok tt else Err FailedAllocation).

Definition write_header {T2} {P2 : Packed T2} pkt (hdr : T2) (offset : Z) : St Heap (result unit) :=
  let* ps := pkt_payload_size pkt in
  if ps <? offset then sret (Err (BadOffset offset))
  else
    let* dst := payload pkt in
    let* _ := write_at (mbuf pkt) (dst + offset) (encode hdr) in
    sret (Ok tt).

Definition parse_header (T2 : Type) {E2 : EndOffset T2} pkt : St Heap (Packet T2 M) :=
  let* ps := pkt_payload_size pkt in
  if size T2 <? ps then
    let* hdr := payload pkt in
    let* po := payload_offset pkt in
    let* offset := slift (uadd 64 (offset pkt) po) in
    sret (create_packet (mbuf pkt) hdr offset)
  else fun _ => Panic.

Definition parse_header_and_record (T2 : Type) {E2 : EndOffset T2} pkt : St Heap (Packet T2 M) :=
  let* ps := pkt_payload_size pkt in
  if size T2 <? ps then
    let* hdr := payload pkt in
    let* po := payload_offset pkt in
    let* offset := slift (uadd 64 (offset pkt) po) in
    let* o := push_offset pkt po in
    let* _ := slift (unwrap o) in
    sret (create_packet (mbuf pkt) hdr offset)
  else fun _ => Panic.

Definition restore_saved_header (T2 M2 : Type) pkt : St Heap (option (Packet T2 M2)) :=
  let* hdr := read_header pkt in
  if hdr =? 0 then sret None
  else let* offset := read_offset pkt in sret (Some (create_packet (mbuf pkt) hdr offset)).

Definition replace_header pkt (hdr : T) : St Heap unit := write_at (mbuf pkt) (header pkt) (encode hdr).

Definition deparse_header pkt (offset' : Z) : St Heap (Packet (PreviousHeader T) M) :=
  let* new_offset := slift (usub 64 (offset pkt) offset') in
  sret (create_packet (mbuf pkt) (header_u8 pkt - offset') new_offset).

Definition deparse_header_stack pkt : St Heap (option (Packet (PreviousHeader T) M)) :=
  let* o := pop_offset pkt in
  match o with
  | Some offset => let* p := deparse_header pkt offset in sret (Some p)
  | None => sret None
  end.

Definition reset pkt : St Heap (Packet NullHeader EmptyMetadata) :=
  let* header := data_base pkt in sret (create_packet (mbuf pkt) header 0).

(** The slice [from_raw_parts(self.payload(), self.payload_size())], read out *)
Definition get_payload pkt : St Heap (list Z) :=
  let* len := pkt_payload_size pkt in
  let* ptr := payload pkt in
  read_at (mbuf pkt) ptr len.

(** A store through [get_mut_payload] *)
Definition get_mut_payload pkt (f : list Z -> list Z) : St Heap unit :=
  let* len := pkt_payload_size pkt in
  let* ptr := payload pkt in
  let* d := read_at (mbuf pkt) ptr len in
  write_at (mbuf pkt) ptr (f d).

Definition increase_payload_size pkt (increase_by : Z) : St Heap Z :=
  on_mbuf (mbuf pkt) (fun m => add_data_end m increase_by).

Definition trim_payload_size pkt (trim_by : Z) : St Heap Z :=
  on_mbuf (mbuf pkt) (fun m => remove_data_end m trim_by).

Definition copy_payload pkt (other : Packet T M) : St Heap Z :=
  let* copy_len := pkt_payload_size other in
  let* dst := payload pkt in
  let* src := payload other in
  let* ps := pkt_payload_size pkt in
  let* should_copy := (if ps <? copy_len then
                         let* increment := slift (usub 64 copy_len ps) in
                         let* inc := increase_payload_size pkt increment in
                         slift (uadd 64 ps inc)
                       else sret copy_len) in
  let* _ := copy_nonoverlapping (mbuf other) src (mbuf pkt) dst should_copy in
  sret should_copy.

Definition pkt_refcnt pkt : St Heap Z := peek (mbuf pkt) (fun m => Ret (refcnt m)).

Definition get_mbuf pkt : Z := mbuf pkt.

End packet.

(** ** Memory access inside a packet *)

Lemma on_mbuf_ok {A} p (f : MBuf -> outcome (A * MBuf)) (h : Heap) m a m' :
  h !! p = Some m -> f m = Ret (a, m') -> on_mbuf p f h = Ret (a, <[p := m']> h).
Proof. intros Hp Hf. unfold on_mbuf. by rewrite Hp, Hf. Qed.

Lemma peek_ok {A} p (f : MBuf -> outcome A) (h : Heap) m a :
  h !! p = Some m -> f m = Ret a -> peek p f h = Ret (a, h).
Proof. intros Hp Hf. unfold peek. by rewrite Hp, Hf. Qed.

Lemma area_read_ok l o n :
  0 <= o -> 0 <= n -> o + n <= zlen l -> area_read l o n = Ret (take (Z.to_nat n) (drop (Z.to_nat o) l)).
Proof. intros. unfold area_read. by rewrite !(proj2 (Z.leb_le _ _)) by lia. Qed.

Lemma area_write_ok l o d : 0 <= o -> o + zlen d <= zlen l -> area_write l o d = Ret (splice l o d).
Proof. intros. unfold area_write. by rewrite !(proj2 (Z.leb_le _ _)) by lia. Qed.

Lemma length_frame m : mbuf_wf m -> zlen (frame m) = data_len_ m.
Proof. intros (?&?&?&?&?&?&?&?). unfold frame. rewrite length_take, length_drop. lia. Qed.

Lemma frame_bytes_ok m : mbuf_wf m -> bytes_ok (frame m).
Proof. intros (?&?&?&?&?&?&?&?&?&?&?). unfold frame. by apply bytes_ok_take, bytes_ok_drop. Qed.

Lemma read_at_ok p (h : Heap) m o n :
  h !! p = Some m -> mbuf_wf m -> 0 <= o -> 0 <= n -> o + n <= data_len_ m ->
  read_at p (data_address m o) n h = Ret (take (Z.to_nat n) (drop (Z.to_nat o) (frame m)), h).
Proof.
  intros Hp Hwf ???. pose proof Hwf as (?&?&?&?&?&?&?&_). eapply peek_ok; [done|].
  unfold data_address. replace (_ - _) with (data_off m + o) by lia. rewrite area_read_ok by lia.
  f_equal. unfold frame. rewrite skipn_firstn_comm, take_take, drop_drop.
  f_equal; [lia|f_equal; lia].
Qed.

Lemma frame_splice m o d :
  mbuf_wf m -> 0 <= o -> o + zlen d <= data_len_ m ->
  frame (with_bytes m (splice (bytes m) (data_off m + o) d)) = splice (frame m) o d.
Proof.
  intros Hwf ??. pose proof (length_frame m Hwf). pose proof Hwf as (?&?&?&?&?&?&?&_).
  apply list_eq. intros i. unfold frame at 1; simpl.
  destruct (decide (Z.of_nat i < data_len_ m)).
  - rewrite lookup_take_lt, lookup_drop by lia. rewrite !splice_lookup by lia.
    unfold frame. rewrite lookup_take_lt, lookup_drop by lia.
    repeat case_decide; try lia; try done. f_equal. lia.
  - rewrite lookup_take_ge by lia. symmetry. apply lookup_ge_None_2. rewrite length_splice; lia.
Qed.

Lemma mbuf_wf_bytes m b : mbuf_wf m -> length b = length (bytes m) -> bytes_ok b -> mbuf_wf (with_bytes m b).
Proof.
  intros (?&?&?&?&?&?&?&?&?&?&?&?) Hl ?. repeat (split; [try done; simpl; lia|]). done.
Qed.

(** Writing inside the data replaces that part of the frame. *)
Lemma write_at_ok p (h : Heap) m o d :
  h !! p = Some m -> mbuf_wf m -> bytes_ok d -> 0 <= o -> o + zlen d <= data_len_ m ->
  exists m', write_at p (data_address m o) d h = Ret (tt, <[p := m']> h) /\ mbuf_wf m' /\
    frame m' = splice (frame m) o d /\ data_off m' = data_off m /\ data_len_ m' = data_len_ m /\
    buf_addr m' = buf_addr m /\ buf_len_ m' = buf_len_ m /\ meta m' = meta m /\ refcnt_ m' = refcnt_ m.
Proof.
  intros Hp Hwf Hd ??. pose proof Hwf as (?&?&?&?&?&?&?&?&?&Hb&_).
  exists (with_bytes m (splice (bytes m) (data_off m + o) d)). split.
  { eapply on_mbuf_ok; [done|]. unfold data_address.
    replace (_ - _) with (data_off m + o) by lia. by rewrite area_write_ok by lia. }
  split; [|split; [by apply frame_splice|done]].
  apply mbuf_wf_bytes; [done|apply length_splice; lia|]. by apply bytes_ok_splice.
Qed.

(** ** Well-formed packets *)

Section invariant.
Context {P : Profile} {T M : Type} {ET : EndOffset T} {PT : Packed T}.
Implicit Types pkt : Packet T M.

(** The packet's header lies inside the data of its mbuf [m]. *)
Definition pkt_ok (h : Heap) pkt (m : MBuf) : Prop :=
  h !! mbuf pkt = Some m /\ mbuf_wf m /\ header pkt = data_address m (offset_ pkt) /\
  0 <= offset_ pkt /\ offset_ pkt + Z.of_nat (size_of T) <= data_len_ m.

Definition hdr_of pkt (m : MBuf) : T := decode (take (size_of T) (drop (Z.to_nat (offset_ pkt)) (frame m))).

(** Where the payload starts in the frame *)
Definition payload_pos pkt (m : MBuf) : Z := offset_ pkt + Headers.offset (hdr_of pkt m).

(** The header claims to end inside the data. *)
Definition hdr_fits pkt (m : MBuf) : Prop :=
  0 <= Headers.offset (hdr_of pkt m) /\ payload_pos pkt m <= data_len_ m.

Definition payload_of pkt (m : MBuf) : list Z := drop (Z.to_nat (payload_pos pkt m)) (frame m).

Lemma get_header_ok h pkt m : pkt_ok h pkt m -> get_header pkt h = Ret (hdr_of pkt m, h).
Proof.
  intros (Hp & Hwf & Hh & ? & ?). unfold get_header. rewrite Hh.
  erewrite sbind_Ret; [|apply read_at_ok; done || lia].
  unfold sret, hdr_of. by rewrite Nat2Z.id.
Qed.

Lemma payload_offset_ok h pkt m :
  pkt_ok h pkt m -> payload_offset pkt h = Ret (Headers.offset (hdr_of pkt m), h).
Proof. intros Hok. unfold payload_offset. by rewrite (sbind_Ret _ _ _ _ _ (get_header_ok _ _ _ Hok)). Qed.

Lemma payload_ok h pkt m :
  pkt_ok h pkt m -> payload pkt h = Ret (data_address m (payload_pos pkt m), h).
Proof.
  intros Hok. unfold payload. rewrite (sbind_Ret _ _ _ _ _ (payload_offset_ok _ _ _ Hok)).
  destruct Hok as (_ & _ & Hh & _). unfold sret, header_u8, payload_pos. rewrite Hh.
  unfold data_address. do 2 f_equal. lia.
Qed.

Lemma length_payload_of pkt m :
  mbuf_wf m -> hdr_fits pkt m -> 0 <= offset_ pkt -> zlen (payload_of pkt m) = data_len_ m - payload_pos pkt m.
Proof.
  intros Hwf [??] ?. pose proof (length_frame m Hwf). unfold payload_of, payload_pos in *.
  rewrite length_drop. lia.
Qed.

Lemma payload_size_ok h pkt m :
  pkt_ok h pkt m -> hdr_fits pkt m -> pkt_payload_size pkt h = Ret (zlen (payload_of pkt m), h).
Proof.
  intros Hok [Ho Hf]. pose proof Hok as (Hp & Hwf & Hh & ? & ?). unfold pkt_payload_size, pkt_data_len.
  pose proof Hwf as (?&?&?&?&?&?&?&_). unfold payload_pos in *.
  rewrite (sbind_Ret _ _ h (data_len m) h) by (by eapply peek_ok).
  rewrite (sbind_Ret _ _ h (data_len m - offset_ pkt) h);
    [|apply slift_Ret, usub_small; unfold uint, data_len; lia].
  rewrite (sbind_Ret _ _ _ _ _ (payload_offset_ok _ _ _ Hok)).
  apply slift_Ret. rewrite usub_small by (unfold uint, data_len; lia). f_equal.
  rewrite length_payload_of by (unfold hdr_fits, payload_pos; (done || lia)).
  unfold payload_pos, data_len. lia.
Qed.

Lemma get_payload_ok h pkt m :
  pkt_ok h pkt m -> hdr_fits pkt m -> get_payload pkt h = Ret (payload_of pkt m, h).
Proof.
  intros Hok Hf. pose proof Hok as (Hp & Hwf & Hh & ? & ?). unfold get_payload.
  rewrite (sbind_Ret _ _ _ _ _ (payload_size_ok _ _ _ Hok Hf)).
  rewrite (sbind_Ret _ _ _ _ _ (payload_ok _ _ _ Hok)). pose proof Hf as [??].
  rewrite (read_at_ok _ _ _ _ _ Hp Hwf);
    [|unfold payload_pos; lia|lia|rewrite length_payload_of by done; lia].
  f_equal. f_equal. apply take_ge. unfold payload_of. lia.
Qed.

End invariant.

(** ** Parsing and deparsing *)

(** The packet behind the header of [pkt] *)
Definition parsed {T M} `{EndOffset T} `{Packed T} (T2 : Type) (pkt : Packet T M) (m : MBuf) : Packet T2 M :=
  mkPacket (mbuf pkt) (data_address m (payload_pos pkt m)) (payload_pos pkt m).

Lemma parse_header_ok `{Profile} {T M T2 : Type} `{EndOffset T} `{Packed T} `{EndOffset T2} `{Packed T2}
    (h : Heap) (pkt : Packet T M) m :
  pkt_ok h pkt m -> hdr_fits pkt m -> Z.of_nat (size_of T2) <= size T2 -> size T2 < zlen (payload_of pkt m) ->
  parse_header T2 pkt h = Ret (parsed T2 pkt m, h) /\ pkt_ok h (parsed T2 pkt m) m.
Proof.
  intros Hok Hf Hsz Hlt. pose proof Hok as (Hp & Hwf & Hh & Ho & Hs). pose proof Hf as [Hpo Hfit].
  pose proof Hwf as (?&?&?&?&?&?&?&_). pose proof (length_payload_of _ _ Hwf Hf Ho) as Hlen. split.
  - unfold parse_header. rewrite (sbind_Ret _ _ _ _ _ (payload_size_ok _ _ _ Hok Hf)), (proj2 (Z.ltb_lt _ _)) by done.
    rewrite (sbind_Ret _ _ _ _ _ (payload_ok _ _ _ Hok)), (sbind_Ret _ _ _ _ _ (payload_offset_ok _ _ _ Hok)).
    by rewrite (sbind_Ret _ _ h (payload_pos pkt m) h)
      by (apply slift_Ret, uadd_small; unfold uint, payload_pos, offset in *; lia).
  - split; [done|]. split; [done|]. split; [done|]. simpl. unfold payload_pos in *. lia.
Qed.

(** Parsing the next header moves the packet to its payload without touching memory: the
    new header is the first bytes of the old payload, the new packet is well formed, and
    deparsing by the old header's length gives the old position back. A payload that is not
    strictly longer than the new header's size panics. *)
Lemma parse_deparse_roundtrip `{Profile} {T M T2 : Type} `{EndOffset T} `{Packed T}
    `{EndOffset T2} `{Packed T2} (h : Heap) (pkt : Packet T M) m :
  pkt_ok h pkt m -> hdr_fits pkt m -> Z.of_nat (size_of T2) <= size T2 ->
  (size T2 < zlen (payload_of pkt m) ->
   exists pkt', parse_header T2 pkt h = Ret (pkt', h) /\ pkt_ok h pkt' m /\
     drop (Z.to_nat (offset_ pkt')) (frame m) = payload_of pkt m /\
     get_header pkt' h = Ret (decode (take (size_of T2) (payload_of pkt m)), h) /\
     deparse_header pkt' (Headers.offset (hdr_of pkt m)) h =
       Ret (mkPacket (mbuf pkt) (header pkt) (offset_ pkt), h)) /\
  (zlen (payload_of pkt m) <= size T2 -> parse_header T2 pkt h = Panic).
Proof.
  intros Hok Hf Hsz. split; intros Hlt.
  2: { unfold parse_header. rewrite (sbind_Ret _ _ _ _ _ (payload_size_ok _ _ _ Hok Hf)). by rewrite (proj2 (Z.ltb_ge _ _)). }
  destruct (parse_header_ok (T2 := T2) h pkt m Hok Hf Hsz Hlt) as [Hparse Hok']. eexists. split; [exact Hparse|].
  split; [done|]. split; [done|]. split; [exact (get_header_ok _ _ _ Hok')|].
  destruct Hok as (_ & Hwf & Hh & Ho & _). destruct Hf as [Hpo Hfit]. pose proof Hwf as (?&?&?&?&?&?&?&_).
  unfold deparse_header. rewrite (sbind_Ret _ _ h (offset_ pkt) h).
  - unfold sret, create_packet, header_u8. simpl. rewrite Hh. unfold data_address, payload_pos.
    do 3 f_equal. lia.
  - apply slift_Ret. simpl. unfold payload_pos in *. rewrite usub_small by (unfold uint; lia). f_equal. lia.
Qed.

(** ** Adding headers *)

Section push.
Context {P : Profile} {T M : Type} {ET : EndOffset T} {PT : Packed T}.

Lemma frame_grow m n :
  mbuf_wf m -> 0 <= n <= room AddEnd m ->
  let m1 := with_lens m (data_off m) (data_len_ m + n) (data_len_ m + n) in
  take (Z.to_nat (data_len_ m)) (frame m1) = frame m.
Proof. intros (?&?&?&?&?&?&?&?) [??] m1. unfold frame; simpl. rewrite take_take. f_equal. lia. Qed.

(** The packet seen in a mbuf that has grown at its end *)
Lemma pkt_grow h (pkt : Packet T M) m n :
  pkt_ok h pkt m -> 0 <= n <= room AddEnd m ->
  let m1 := with_lens m (data_off m) (data_len_ m + n) (data_len_ m + n) in
  on_mbuf (mbuf pkt) (fun m => add_data_end m n) h = Ret (n, <[mbuf pkt := m1]> h) /\
  pkt_ok (<[mbuf pkt := m1]> h) pkt m1 /\ hdr_of pkt m1 = hdr_of pkt m /\
  payload_pos pkt m1 = payload_pos pkt m /\ data_len_ m1 = data_len_ m + n.
Proof.
  intros (Hp & Hwf & Hh & Ho & Hs) Hn m1. pose proof (resize_spec AddEnd m n Hwf ltac:(lia)) as Hr.
  rewrite (proj2 (Z.ltb_ge _ _)) in Hr by lia. destruct Hr as [Hr Hwf1].
  assert (Hhdr : hdr_of pkt m1 = hdr_of pkt m).
  { unfold hdr_of. rewrite <- (frame_grow m n Hwf Hn). fold m1. f_equal.
    rewrite skipn_firstn_comm, take_take. f_equal. lia. }
  split; [by eapply on_mbuf_ok|]. split.
  - split; [by rewrite lookup_insert_eq|]. split; [done|]. split; [done|]. simpl. lia.
  - split; [done|]. split; [|done]. unfold payload_pos. by rewrite Hhdr.
Qed.

(** Moving [q] down by [n] bytes at position [pos] and writing [d] in the gap *)
Lemma splice_insert (f g q : list Z) pos d :
  0 <= pos -> take (length f) g = f -> zlen g = zlen f + zlen d -> q = drop (Z.to_nat pos) f -> pos <= zlen f ->
  splice (splice g (pos + zlen d) q) pos d = take (Z.to_nat pos) f ++ d ++ q.
Proof.
  intros ? Hf Hg -> Hpos. assert (Hq : zlen (drop (Z.to_nat pos) f) = zlen f - pos) by (rewrite length_drop; lia).
  rewrite splice_adjacent by lia. unfold splice. rewrite length_app.
  rewrite (drop_ge g) by lia. rewrite app_nil_r. f_equal.
  transitivity (take (Z.to_nat pos) (take (length f) g)); [rewrite take_take; f_equal; lia|by rewrite Hf].
Qed.

Lemma copy_down h p m pos n q :
  h !! p = Some m -> mbuf_wf m -> 0 <= pos -> zlen q <= n -> pos + n + zlen q <= data_len_ m ->
  take (length q) (drop (Z.to_nat pos) (frame m)) = q ->
  exists m', copy_nonoverlapping p (data_address m pos) p (data_address m pos + n) (zlen q) h =
      Ret (tt, <[p := m']> h) /\ mbuf_wf m' /\ frame m' = splice (frame m) (pos + n) q /\
    data_off m' = data_off m /\ data_len_ m' = data_len_ m /\ buf_addr m' = buf_addr m /\
    buf_len_ m' = buf_len_ m /\ meta m' = meta m /\ refcnt_ m' = refcnt_ m.
Proof.
  intros Hp Hwf ??? Hq. unfold copy_nonoverlapping.
  rewrite (proj2 (Z.ltb_ge (_ + n) _)) by lia. rewrite andb_false_r.
  erewrite sbind_Ret; [|apply read_at_ok; (done || lia)]. rewrite Nat2Z.id, Hq.
  replace (data_address m pos + n) with (data_address m (pos + n)) by (unfold data_address; lia).
  apply write_at_ok; try done; try lia.
  rewrite <- Hq. by apply bytes_ok_take, bytes_ok_drop, frame_bytes_ok.
Qed.

(** Clearing [n] bytes for the new header, in a mbuf that has already grown by [n] *)
Lemma make_room h (pkt : Packet T M) m n len q :
  pkt_ok h pkt m -> 0 <= payload_pos pkt m -> zlen q <= n -> data_len_ m = payload_pos pkt m + zlen q + n ->
  take (length q) (drop (Z.to_nat (payload_pos pkt m)) (frame m)) = q -> len = payload_pos pkt m + zlen q ->
  exists m', (if negb (len =? payload_pos pkt m) then
      let* final_dst := payload pkt in
      let* to_move := slift (usub 64 len (payload_pos pkt m)) in
      let* _ := copy_nonoverlapping (mbuf pkt) final_dst (mbuf pkt) (final_dst + n) to_move in
      sret final_dst else payload pkt) h = Ret (data_address m (payload_pos pkt m), <[mbuf pkt := m']> h) /\
    mbuf_wf m' /\ frame m' = splice (frame m) (payload_pos pkt m + n) q /\
    data_off m' = data_off m /\ data_len_ m' = data_len_ m /\ buf_addr m' = buf_addr m /\ buf_len_ m' = buf_len_ m /\
    refcnt_ m' = refcnt_ m.
Proof.
  intros Hok Hpos Hq Hdl Hqe ->. pose proof Hok as (Hp & Hwf & _). pose proof Hwf as (?&?&?&?&?&?&?&_).
  destruct (Z.eqb_spec (payload_pos pkt m + zlen q) (payload_pos pkt m)) as [E|E]; cbn [negb].
  - destruct q; [|simpl in E; lia]. exists m. rewrite (payload_ok _ _ _ Hok), insert_id by done.
    rewrite splice_nil. done.
  - rewrite (sbind_Ret _ _ _ _ _ (payload_ok _ _ _ Hok)).
    rewrite (sbind_Ret _ _ h (zlen q) h);
      [|apply slift_Ret; rewrite usub_small by (unfold uint; lia); f_equal; lia].
    destruct (copy_down h (mbuf pkt) m (payload_pos pkt m) n q Hp Hwf) as
      (m' & Hc & ? & ? & ? & ? & ? & ? & _ & ?); try done; try lia.
    rewrite (sbind_Ret _ _ _ _ _ Hc). exists m'. done.
Qed.

(** Pushing a header of exactly its struct's size after the current one, when what
    follows is not longer than the new header, inserts its bytes between the headers and the
    payload: the frame becomes headers, new header, payload, and the new packet reads the
    header back; the mbuf keeps its reference count and loses the tail room. Without tail room the result is [None] and the memory is unchanged. *)
Lemma push_header_inserts {T2 : Type} `{EndOffset T2} {P2 : Packed T2} {PL : PackedLaws T2 P2}
    (h : Heap) (pkt : Packet T M) m (hdr : T2) :
  pkt_ok h pkt m -> hdr_fits pkt m -> wf hdr -> Headers.offset hdr = Z.of_nat (size_of T2) ->
  zlen (payload_of pkt m) <= Headers.offset hdr ->
  (Headers.offset hdr <= room AddEnd m ->
   exists pkt' m', push_header pkt hdr h = Ret (Some pkt', <[mbuf pkt := m']> h) /\
     pkt_ok (<[mbuf pkt := m']> h) pkt' m' /\
     frame m' = take (Z.to_nat (payload_pos pkt m)) (frame m) ++ encode hdr ++ payload_of pkt m /\
     mbuf pkt' = mbuf pkt /\ offset_ pkt' = payload_pos pkt m /\ hdr_of pkt' m' = hdr /\
     refcnt_ m' = refcnt_ m /\ room AddEnd m' = room AddEnd m - Headers.offset hdr) /\
  (room AddEnd m < Headers.offset hdr -> push_header pkt hdr h = Ret (None, h)).
Proof.
  intros Hok Hf Hwfh Hsz Hshort. pose proof Hok as (Hp & Hwf & Hh & Ho & Hs).
  pose proof Hf as [Hpo Hfit]. pose proof (length_encode hdr Hwfh) as Hle. set (n := Headers.offset hdr) in *.
  pose proof (length_payload_of _ _ Hwf Hf Ho) as Hlen. pose proof (length_frame m Hwf) as Hlf.
  pose proof Hwf as (?&?&?&?&?&?&?&_). assert (Hpos : 0 <= payload_pos pkt m) by (unfold payload_pos; lia).
  unfold push_header, pkt_data_len. rewrite (sbind_Ret _ _ h (data_len m) h) by (by eapply peek_ok). fold n.
  split; intros Hroom.
  2: { pose proof (resize_spec AddEnd m n Hwf ltac:(lia)) as Hr. rewrite (proj2 (Z.ltb_lt _ _)) in Hr by done.
       assert (Hsame : on_mbuf (mbuf pkt) (fun m0 => add_data_end m0 n) h = Ret (0, h)).
       { erewrite on_mbuf_ok by done. by rewrite insert_id. }
       rewrite (sbind_Ret _ _ _ _ _ Hsame), (sbind_Ret _ _ _ _ _ (payload_offset_ok _ _ _ Hok)).
       rewrite (sbind_Ret _ _ h (payload_pos pkt m) h);
         [|apply slift_Ret, uadd_small; unfold uint, payload_pos, offset in *; lia].
       rewrite (proj2 (Z.leb_gt _ _)); [done|]. simpl in Hroom. lia. }
  destruct (pkt_grow h pkt m n Hok ltac:(lia)) as (Hg & Hok1 & Hhdr1 & Hpp1 & Hdl1).
  set (m1 := with_lens m (data_off m) (data_len_ m + n) (data_len_ m + n)) in *.
  rewrite (sbind_Ret _ _ _ _ _ Hg), (sbind_Ret _ _ _ _ _ (payload_offset_ok _ _ _ Hok1)), Hhdr1.
  rewrite (sbind_Ret _ _ _ (payload_pos pkt m) (<[mbuf pkt := m1]> h));
    [|apply slift_Ret, uadd_small; unfold uint, payload_pos, offset in *; lia].
  rewrite (proj2 (Z.leb_le n n)) by lia.
  pose proof Hok1 as (Hp1 & Hwf1 & _). pose proof (length_frame m1 Hwf1) as Hlf1.
  pose proof (frame_grow m n Hwf ltac:(lia)) as Htk. fold m1 in Htk.
  destruct (make_room (<[mbuf pkt := m1]> h) pkt m1 n (data_len m) (payload_of pkt m) Hok1)
    as (m2 & Hm2 & Hwf2 & Hfr2 & Hoff2 & Hdl2 & Hba2 & Hbl2 & Hrc2); rewrite ?Hpp1; unfold data_len; try lia.
  { unfold payload_of. rewrite <- Htk at 2. rewrite skipn_firstn_comm. f_equal.
    rewrite length_drop. lia. }
  rewrite Hpp1 in *. unfold data_len in Hm2. rewrite (sbind_Ret _ _ _ _ _ Hm2), insert_insert_eq.
  destruct (write_at_ok (mbuf pkt) (<[mbuf pkt := m2]> h) m2 (payload_pos pkt m) (encode hdr))
    as (m3 & Hw3 & Hwf3 & Hfr3 & Hoff3 & Hdl3 & Hba3 & Hbl3 & _ & Hrc3);
    [by rewrite lookup_insert_eq|done|by apply encode_bytes_ok|done|lia|].
  replace (data_address m2 (payload_pos pkt m)) with (data_address m1 (payload_pos pkt m)) in Hw3
    by (unfold data_address; lia).
  rewrite (sbind_Ret _ _ _ _ _ Hw3), insert_insert_eq.
  assert (Hfr : frame m3 = take (Z.to_nat (payload_pos pkt m)) (frame m) ++ encode hdr ++ payload_of pkt m).
  { rewrite Hfr3, Hfr2. replace n with (zlen (encode hdr)) by lia. apply splice_insert; try done; try lia.
    rewrite <- Htk at 2. f_equal. lia. }
  do 2 eexists. split; [done|]. split; [|split; [done|split; [done|split; [done|split; [|split]]]]].
  - split; [by rewrite lookup_insert_eq|]. split; [done|]. simpl. split; [unfold data_address; lia|]. lia.
  - unfold hdr_of. simpl. rewrite Hfr, drop_app_length' by (rewrite length_take; lia).
    rewrite take_app_length' by done. rewrite <- (app_nil_r (encode hdr)). by apply decode_encode.
  - by rewrite Hrc3, Hrc2.
  - simpl in *. lia.
Qed.

(** Pushing a header in front of a payload that is longer than the header copies
    between overlapping ranges with [copy_nonoverlapping], which is undefined behaviour. *)
Lemma push_header_overlap_undefined {T2 : Type} `{EndOffset T2} `{Packed T2}
    (h : Heap) (pkt : Packet T M) m (hdr : T2) :
  pkt_ok h pkt m -> hdr_fits pkt m -> 0 <= Headers.offset hdr <= room AddEnd m ->
  Headers.offset hdr < zlen (payload_of pkt m) -> push_header pkt hdr h = Undef.
Proof.
  intros Hok Hf Hn Hlong. pose proof Hok as (Hp & Hwf & Hh & Ho & Hs). pose proof Hf as [Hpo Hfit].
  set (n := Headers.offset hdr) in *. pose proof (length_payload_of _ _ Hwf Hf Ho) as Hlen.
  pose proof Hwf as (?&?&?&?&?&?&?&_). assert (Hpos : 0 <= payload_pos pkt m) by (unfold payload_pos; lia).
  unfold push_header, pkt_data_len. rewrite (sbind_Ret _ _ h (data_len m) h) by (by eapply peek_ok). fold n.
  destruct (pkt_grow h pkt m n Hok ltac:(lia)) as (Hg & Hok1 & Hhdr1 & Hpp1 & Hdl1).
  set (m1 := with_lens m (data_off m) (data_len_ m + n) (data_len_ m + n)) in *.
  rewrite (sbind_Ret _ _ _ _ _ Hg), (sbind_Ret _ _ _ _ _ (payload_offset_ok _ _ _ Hok1)), Hhdr1.
  rewrite (sbind_Ret _ _ _ (payload_pos pkt m) (<[mbuf pkt := m1]> h));
    [|apply slift_Ret, uadd_small; unfold uint, payload_pos, offset in *; lia].
  rewrite (proj2 (Z.leb_le n n)) by lia. unfold data_len.
  rewrite (proj2 (Z.eqb_neq (data_len_ m) _)) by lia. cbn [negb]. unfold sbind at 1 2.
  rewrite (payload_ok _ _ _ Hok1). unfold sbind at 1, slift. rewrite usub_small by (unfold uint; lia).
  unfold sbind at 1, copy_nonoverlapping.
  by rewrite Z.eqb_refl, !(proj2 (Z.ltb_lt _ _)) by lia.
Qed.

End push.

(** ** The metadata area *)

Lemma area_splice_same l o d :
  0 <= o -> o + zlen d <= zlen l -> area_read (splice l o d) o (zlen d) = Ret d.
Proof.
  intros. pose proof (vslice_splice_same l o d ltac:(done) ltac:(done)) as Hv.
  rewrite area_read_ok by (rewrite ?length_splice; lia).
  rewrite vslice_Ret in Hv by (rewrite ?length_splice; lia). rewrite <- Hv. do 2 f_equal. lia.
Qed.

Lemma area_splice_disjoint l o d a n :
  0 <= o -> o + zlen d <= zlen l -> 0 <= n -> a + n <= o \/ o + zlen d <= a ->
  area_read (splice l o d) a n = area_read l a n.
Proof.
  intros ??? Hdis. pose proof (vslice_splice_disjoint l o d a (a + n) ltac:(done) ltac:(done) Hdis) as Hv.
  unfold area_read, vslice in *. rewrite length_splice in * by done.
  destruct (Z.leb_spec 0 a), (Z.leb_spec 0 n), (Z.leb_spec a (a + n)), (Z.leb_spec (a + n) (zlen l));
    simpl in *; try lia; try done.
  by replace (a + n - a) with n in Hv by lia.
Qed.

Lemma mbuf_wf_meta m b :
  mbuf_wf m -> length b = length (meta m) -> bytes_ok b -> mbuf_wf (with_meta m b).
Proof.
  intros (?&?&?&?&?&?&?&?&?&?&?&?) Hl ?. repeat (split; [try done; simpl; lia|]). done.
Qed.

Lemma slot_same m slot v :
  mbuf_wf m -> 0 <= slot < METADATA_SLOTS -> uint 64 v ->
  exists m', write_metadata_slot m slot v = Ret m' /\ m' = with_meta m (meta m') /\ mbuf_wf m' /\
    read_metadata_slot m' slot = Ret v /\
    forall a n, 0 <= n -> a + n <= 8 * slot \/ 8 * slot + 8 <= a -> area_read (meta m') a n = area_read (meta m) a n.
Proof.
  intros Hwf Hs Hv. pose proof Hwf as (?&?&?&?&?&?&?&?&?&?&Hml&Hmb). unfold METADATA_SLOTS in *.
  unfold write_metadata_slot. pose proof (length_le_bytes 8 v) as Hle.
  rewrite area_write_ok by lia. cbn [obind].
  eexists. split; [done|]. split; [done|]. split; [|split].
  - apply mbuf_wf_meta; [done|apply length_splice; lia|]. apply bytes_ok_splice; [done|apply le_bytes_ok].
  - unfold read_metadata_slot. simpl.
    pose proof (area_splice_same (meta m) (8 * slot) (le_bytes 8 v)) as Hr. rewrite Hle in Hr.
    change (Z.of_nat 8) with 8 in Hr. rewrite Hr by lia. cbn [obind]. by rewrite le_val_bytes, wrap_small.
  - intros a n ??. simpl. apply area_splice_disjoint; lia.
Qed.

(** The metadata of a packet is kept behind the saved position. *)
Lemma write_metadata_ok {T M M2 : Type} `{EndOffset T} `{Packed T} {PM : Packed M2} {PML : PackedLaws M2 PM}
    (h : Heap) (pkt : Packet T M) m (v : M2) :
  h !! mbuf pkt = Some m -> mbuf_wf m -> wf v -> Z.of_nat (size_of M2) < FREEFORM_METADATA_SIZE ->
  exists m', write_metadata pkt v h = Ret (Ok tt, <[mbuf pkt := m']> h) /\ m' = with_meta m (meta m') /\ mbuf_wf m' /\
    metadata_as M2 m' FREEFORM_METADATA_SLOT = Ret v /\
    forall s, 0 <= s < FREEFORM_METADATA_SLOT -> read_metadata_slot m' s = read_metadata_slot m s.
Proof.
  intros Hp Hwf Hv Hsz. pose proof Hwf as (?&?&?&?&?&?&?&?&?&?&Hml&Hmb). pose proof (length_encode v Hv) as Hle.
  change FREEFORM_METADATA_SIZE with 104 in Hsz. unfold METADATA_SLOTS in *.
  exists (with_meta m (splice (meta m) 24 (encode v))). split; [|split; [done|split; [|split]]].
  - unfold write_metadata. rewrite (proj2 (Z.leb_gt _ _)) by done. eapply on_mbuf_ok; [done|].
    unfold mut_metadata_as. change (8 * FREEFORM_METADATA_SLOT) with 24. by rewrite area_write_ok by lia.
  - apply mbuf_wf_meta; [done|apply length_splice; lia|]. apply bytes_ok_splice; [done|by apply encode_bytes_ok].
  - unfold metadata_as. simpl. change (8 * FREEFORM_METADATA_SLOT) with 24. rewrite <- Hle, area_splice_same by lia. cbn [obind].
    rewrite <- (app_nil_r (encode v)). by rewrite decode_encode.
  - intros s Hs. change FREEFORM_METADATA_SLOT with 3 in Hs. unfold read_metadata_slot. simpl.
    by rewrite area_splice_disjoint by lia.
Qed.

(** C31: User metadata smaller than the free-form area is read back as written, and neither
    it nor the saved header position disturbs the other or the packet's bytes: after saving
    the position and writing the metadata, restoring gives the saved position. Metadata of
    the area's size or more is refused with [MetadataTooLarge] and nothing is written. *)
Theorem metadata_and_saved_header {T M M2 T2 M3 : Type} `{EndOffset T} `{Packed T}
    {PM : Packed M2} {PML : PackedLaws M2 PM} (h : Heap) (pkt : Packet T M) m (v : M2) :
  pkt_ok h pkt m -> wf v ->
  (Z.of_nat (size_of M2) < FREEFORM_METADATA_SIZE ->
   exists h1 m2, save_header_and_offset pkt h = Ret (tt, h1) /\
     write_metadata pkt v h1 = Ret (Ok tt, <[mbuf pkt := m2]> h) /\
     mbuf_wf m2 /\ frame m2 = frame m /\
     read_metadata (reinterpret_metadata M2 pkt) (<[mbuf pkt := m2]> h) = Ret (v, <[mbuf pkt := m2]> h) /\
     restore_saved_header T2 M3 pkt (<[mbuf pkt := m2]> h) =
       Ret (Some (mkPacket (mbuf pkt) (header pkt) (offset_ pkt)), <[mbuf pkt := m2]> h)) /\
  (FREEFORM_METADATA_SIZE <= Z.of_nat (size_of M2) -> write_metadata pkt v h = Ret (Err MetadataTooLarge, h)).
Proof.
  intros (Hp & Hwf & Hh & Ho & Hs) Hv. pose proof Hwf as (?&?&?&?&?&?&?&_).
  split; intros Hsz; [|unfold write_metadata; by rewrite (proj2 (Z.leb_le _ _)) by done].
  assert (Hhu : uint 64 (header pkt) /\ header pkt <> 0) by (rewrite Hh; unfold uint, data_address; lia).
  destruct Hhu as [Hhu Hh0].
  destruct (slot_same m HEADER_SLOT (header pkt) Hwf) as (m0 & Hw0 & Hm0 & Hwf0 & Hr0 & Hd0);
    [unfold HEADER_SLOT, METADATA_SLOTS; lia|done|].
  destruct (slot_same m0 OFFSET_SLOT (offset_ pkt) Hwf0) as (m1 & Hw1 & Hm1 & Hwf1 & Hr1 & Hd1);
    [unfold OFFSET_SLOT, HEADER_SLOT, METADATA_SLOTS; lia|unfold uint; lia|].
  destruct (write_metadata_ok (<[mbuf pkt := m1]> h) pkt m1 v) as (m2 & Hw2 & Hm2 & Hwf2 & Hr2 & Hd2); [by rewrite lookup_insert_eq|done..|].
  rewrite insert_insert_eq in Hw2. exists (<[mbuf pkt := m1]> h), m2. split; [|split; [done|split; [done|split; [|split]]]].
  - unfold save_header_and_offset, update_ptrs, write_slot, header_u8, offset.
    erewrite sbind_Ret; [|eapply on_mbuf_ok; [done|by rewrite Hw0]].
    erewrite on_mbuf_ok; [|by rewrite lookup_insert_eq|by rewrite Hw1]. by rewrite insert_insert_eq.
  - by rewrite Hm2, Hm1, Hm0.
  - unfold read_metadata. rewrite (proj2 (Z.ltb_lt _ _)) by done. by eapply peek_ok; [rewrite lookup_insert_eq|].
  - unfold restore_saved_header, read_header, read_offset.
    erewrite sbind_Ret; [|eapply peek_ok; [by rewrite lookup_insert_eq|]].
    2: { rewrite Hd2 by done. unfold read_metadata_slot in *. rewrite Hd1 by (unfold OFFSET_SLOT, HEADER_SLOT; lia). exact Hr0. }
    rewrite (proj2 (Z.eqb_neq _ _)) by done.
    erewrite sbind_Ret; [|eapply peek_ok; [by rewrite lookup_insert_eq|]]; [done|]. rewrite Hd2 by done. exact Hr1.
Qed.

(** The offset stack has no slots, so recording an offset always fails and
    [parse_header_and_record] panics on every packet long enough to parse. *)
Lemma parse_header_and_record_panics `{Profile} {T M T2 : Type} `{EndOffset T} `{Packed T}
    `{EndOffset T2} (h : Heap) (pkt : Packet T M) m :
  pkt_ok h pkt m -> hdr_fits pkt m -> parse_header_and_record T2 pkt h = Panic.
Proof.
  intros Hok Hf. pose proof Hok as (Hp & Hwf & Hh & Ho & Hs). pose proof Hf as [Hpo Hfit].
  pose proof Hwf as (?&?&?&?&?&?&?&?&?&?&Hml&Hmb). unfold parse_header_and_record, METADATA_SLOTS in *.
  rewrite (sbind_Ret _ _ _ _ _ (payload_size_ok _ _ _ Hok Hf)). destruct (Z.ltb (size T2) _); [|done].
  rewrite (sbind_Ret _ _ _ _ _ (payload_ok _ _ _ Hok)), (sbind_Ret _ _ _ _ _ (payload_offset_ok _ _ _ Hok)).
  rewrite (sbind_Ret _ _ h (payload_pos pkt m) h);
    [|apply slift_Ret, uadd_small; unfold uint, payload_pos, offset in *; lia].
  assert (Hd : exists d, read_metadata_slot m STACK_DEPTH_SLOT = Ret d /\ 0 <= d).
  { unfold read_metadata_slot. rewrite area_read_ok by (change (8 * STACK_DEPTH_SLOT) with 16; lia).
    cbn [obind]. eexists. split; [done|]. apply le_val_uint. by apply bytes_ok_take, bytes_ok_drop. }
  destruct Hd as (d & Hd & Hd0).
  rewrite (sbind_Ret _ _ h None h); [done|]. unfold push_offset, read_stack_depth.
  erewrite sbind_Ret; [|by eapply peek_ok]. unfold STACK_SIZE. by rewrite (proj2 (Z.ltb_ge _ _)) by lia.
Qed.

(** ** Copying and cutting payloads *)

Lemma copy_across (h : Heap) pa pb m mo pos src n :
  h !! pa = Some m -> mbuf_wf m -> h !! pb = Some mo -> mbuf_wf mo -> pb <> pa ->
  0 <= pos -> 0 <= src -> 0 <= n -> src + n <= data_len_ mo -> pos + n <= data_len_ m ->
  exists m', copy_nonoverlapping pb (data_address mo src) pa (data_address m pos) n h = Ret (tt, <[pa := m']> h) /\
    mbuf_wf m' /\ frame m' = splice (frame m) pos (take (Z.to_nat n) (drop (Z.to_nat src) (frame mo))).
Proof.
  intros Ha Hwf Hb Hwfb Hne ?????. unfold copy_nonoverlapping.
  rewrite (proj2 (Z.eqb_neq _ _)) by done. cbn [andb].
  erewrite sbind_Ret; [|apply read_at_ok; (done || lia)]. pose proof (length_frame mo Hwfb).
  destruct (write_at_ok pa h m pos (take (Z.to_nat n) (drop (Z.to_nat src) (frame mo))) Ha Hwf)
    as (m' & ? & ? & ? & _); [by apply bytes_ok_take, bytes_ok_drop, frame_bytes_ok|done| |eauto].
  rewrite length_take, length_drop. lia.
Qed.

Lemma copy_payload_finish {T M : Type} `{EndOffset T} `{Packed T} (h : Heap) (pkt other : Packet T M) m mo m1 n :
  mbuf_wf m1 -> mbuf_wf mo -> h !! mbuf other = Some mo -> mbuf other <> mbuf pkt -> hdr_fits other mo ->
  <[mbuf pkt := m1]> h !! mbuf pkt = Some m1 -> 0 <= payload_pos pkt m -> 0 <= payload_pos other mo ->
  payload_pos pkt m + n <= data_len_ m1 -> data_address m1 (payload_pos pkt m) = data_address m (payload_pos pkt m) ->
  take (Z.to_nat (payload_pos pkt m)) (frame m1) = take (Z.to_nat (payload_pos pkt m)) (frame m) ->
  drop (Z.to_nat (payload_pos pkt m + n)) (frame m1) = drop (Z.to_nat n) (payload_of pkt m) ->
  0 <= n <= zlen (payload_of other mo) ->
  exists m', (let* _ := copy_nonoverlapping (mbuf other) (data_address mo (payload_pos other mo)) (mbuf pkt)
      (data_address m (payload_pos pkt m)) n in sret n) (<[mbuf pkt := m1]> h) =
      Ret (n, <[mbuf pkt := m']> h) /\ mbuf_wf m' /\
    frame m' = take (Z.to_nat (payload_pos pkt m)) (frame m) ++
             take (Z.to_nat n) (payload_of other mo) ++ drop (Z.to_nat n) (payload_of pkt m).
Proof.
  intros Hwf1 Hwfo Hpo Hne Hfo Hm1 Hpos Hposo Hn1 Haddr Htk Hdr Hn. rewrite <- Haddr.
  assert (Hcl : zlen (payload_of other mo) = data_len_ mo - payload_pos other mo).
  { pose proof (length_frame mo Hwfo). destruct Hfo. unfold payload_of. rewrite length_drop. lia. }
  destruct (copy_across (<[mbuf pkt := m1]> h) (mbuf pkt) (mbuf other) m1 mo (payload_pos pkt m)
    (payload_pos other mo) n Hm1 Hwf1) as (m' & Hc & Hwf' & Hfr'); try done; try lia.
  { by rewrite lookup_insert_ne. }
  rewrite (sbind_Ret _ _ _ _ _ Hc), insert_insert_eq. exists m'. split; [done|]. split; [done|].
  rewrite Hfr'. unfold splice. rewrite Htk. fold (payload_of other mo). do 2 f_equal. rewrite <- Hdr. f_equal.
  rewrite length_take. lia.
Qed.

(** [copy_payload] between packets in different mbufs overwrites the beginning of the
    payload with the other packet's payload, growing the packet when that is longer and the
    tail has room; without room only what fits the present payload is copied. The count
    returned is the number of bytes copied and the headers stay. *)
Lemma copy_payload_spec `{Profile} {T M : Type} `{EndOffset T} `{Packed T}
    (h : Heap) (pkt other : Packet T M) m mo :
  pkt_ok h pkt m -> hdr_fits pkt m -> pkt_ok h other mo -> hdr_fits other mo -> mbuf other <> mbuf pkt ->
  let ps := zlen (payload_of pkt m) in
  let cl := zlen (payload_of other mo) in
  let n := if ps <? cl then (if cl - ps <=? room AddEnd m then cl else ps) else cl in
  exists m', copy_payload pkt other h = Ret (n, <[mbuf pkt := m']> h) /\ mbuf_wf m' /\
    frame m' = take (Z.to_nat (payload_pos pkt m)) (frame m) ++
               take (Z.to_nat n) (payload_of other mo) ++ drop (Z.to_nat n) (payload_of pkt m).
Proof.
  intros Hok Hf Hoko Hfo Hne ps cl n. pose proof Hok as (Hp & Hwf & Hh & Ho & Hs).
  pose proof Hoko as (Hpo & Hwfo & Hho & Hoo & Hso).
  pose proof (length_payload_of _ _ Hwf Hf Ho) as Hps. pose proof (length_payload_of _ _ Hwfo Hfo Hoo) as Hcl.
  fold ps in Hps. fold cl in Hcl. pose proof Hf as [? _]. pose proof Hfo as [? _].
  assert (0 <= payload_pos pkt m /\ 0 <= payload_pos other mo) as [Hpos Hposo] by (unfold payload_pos; lia).
  pose proof (length_frame m Hwf) as Hlf. pose proof (length_frame mo Hwfo) as Hlfo.
  pose proof Hwf as (?&?&?&?&?&?&?&_). pose proof Hwfo as (?&?&?&?&?&?&?&_).
  unfold copy_payload. rewrite (sbind_Ret _ _ _ _ _ (payload_size_ok _ _ _ Hoko Hfo)). fold cl.
  rewrite (sbind_Ret _ _ _ _ _ (payload_ok _ _ _ Hok)), (sbind_Ret _ _ _ _ _ (payload_ok _ _ _ Hoko)).
  rewrite (sbind_Ret _ _ _ _ _ (payload_size_ok _ _ _ Hok Hf)). fold ps. unfold n. clear n.
  pose proof (copy_payload_finish h pkt other m mo) as Hfin. fold cl in Hfin.
  destruct (Z.ltb_spec ps cl) as [Hlt|Hge].
  - rewrite (sbind_assoc _ _ _ h), (sbind_Ret _ _ h (cl - ps) h) by (apply slift_Ret, usub_small; unfold uint; lia).
    unfold increase_payload_size. rewrite sbind_assoc. destruct (Z.leb_spec (cl - ps) (room AddEnd m)) as [Hr|Hr].
    + destruct (pkt_grow h pkt m (cl - ps) Hok ltac:(lia)) as (Hg & (Hp1 & Hwf1 & _) & _ & _ & Hdl1).
      set (m1 := with_lens m (data_off m) (data_len_ m + (cl - ps)) (data_len_ m + (cl - ps))) in *.
      rewrite (sbind_Ret _ _ _ _ _ Hg).
      rewrite (sbind_Ret _ _ _ cl (<[mbuf pkt := m1]> h));
        [|apply slift_Ret; rewrite uadd_small by (unfold uint; lia); f_equal; lia].
      pose proof (frame_grow m (cl - ps) Hwf ltac:(lia)) as Htk. cbv zeta in Htk. fold m1 in Htk.
      apply Hfin; try done; try lia.
      * rewrite <- Htk, take_take. f_equal. lia.
      * rewrite !drop_ge; [done|unfold ps in *; lia|]. pose proof (length_frame _ Hwf1). lia.
    + pose proof (resize_spec AddEnd m (cl - ps) Hwf ltac:(lia)) as Hrs.
      rewrite (proj2 (Z.ltb_lt _ _)) in Hrs by done.
      rewrite (sbind_Ret _ _ h 0 h) by (erewrite on_mbuf_ok by done; by rewrite insert_id).
      rewrite (sbind_Ret _ _ h ps h) 
        by (apply slift_Ret; rewrite uadd_small by (unfold uint; lia); f_equal; lia).
      specialize (Hfin m ps). rewrite (insert_id h (mbuf pkt) m Hp) in Hfin. apply Hfin; try done; try lia.
      unfold payload_of. rewrite drop_drop. f_equal. unfold ps in *. lia.
  - rewrite (sbind_Ret _ _ h cl h) by done.
    specialize (Hfin m cl). rewrite (insert_id h (mbuf pkt) m Hp) in Hfin. apply Hfin; try done; try lia.
    unfold payload_of. rewrite drop_drop. f_equal. lia.
Qed.

(** [remove_from_payload_head] does not remove the first bytes of the payload: it drops
    bytes [size] to [2 * size] of the frame, wherever the payload starts, and the packet's
    header pointer is left [size] bytes before the position its offset says. *)
Lemma remove_from_payload_head_cuts `{Profile} {T M : Type} `{EndOffset T} `{Packed T}
    (h : Heap) (pkt : Packet T M) m sz :
  pkt_ok h pkt m -> 0 <= sz -> 2 * sz <= data_len_ m ->
  exists m', remove_from_payload_head pkt sz h = Ret (Ok tt, <[mbuf pkt := m']> h) /\ mbuf_wf m' /\
    frame m' = take (Z.to_nat sz) (frame m) ++ drop (Z.to_nat (2 * sz)) (frame m) /\
    header pkt = data_address m' (offset_ pkt - sz).
Proof.
  intros (Hp & Hwf & Hh & Ho & Hs) Hsz Hlen. pose proof (length_frame m Hwf) as Hlf.
  unfold remove_from_payload_head, data_base.
  rewrite (sbind_Ret _ _ h (data_address m 0) h) by (by eapply peek_ok).
  pose proof (copy_down h (mbuf pkt) m 0 sz (take (Z.to_nat sz) (frame m)) Hp Hwf) as Hcd.
  assert (Htk : zlen (take (Z.to_nat sz) (frame m)) = sz) by (rewrite length_take; lia).
  rewrite Htk in Hcd.
  destruct Hcd as (m1 & Hc & Hwf1 & Hfr1 & Hoff1 & Hdl1 & Hba1 & _); try lia.
  { change (Z.to_nat 0) with 0%nat. rewrite drop_0. f_equal. lia. }
  rewrite (sbind_Ret _ _ _ _ _ Hc).
  pose proof (resize_spec RemoveBeginning m1 sz Hwf1 Hsz) as Hr. simpl in Hr.
  rewrite (proj2 (Z.ltb_ge _ _)) in Hr by lia. destruct Hr as [Hr Hwf2].
  erewrite sbind_Ret; [|eapply on_mbuf_ok; [by rewrite lookup_insert_eq|exact Hr]].
  rewrite insert_insert_eq. eexists. split; [done|]. split; [done|]. split.
  - pose proof Hwf1 as (?&?&?&?&?&?&?&_). transitivity (drop (Z.to_nat sz) (frame m1)).
    + unfold frame; simpl. rewrite skipn_firstn_comm, drop_drop. f_equal; [lia|f_equal; lia].
    + rewrite Hfr1. unfold splice. rewrite drop_app_length' by (rewrite length_take; lia).
      f_equal. f_equal. rewrite length_take. lia.
  - rewrite Hh. unfold data_address; simpl. lia.
Qed.



(** ** Witnesses *)

(** A 64-byte buffer whose packet starts at byte 8 *)
Definition sample_mbuf (addr len : Z) : MBuf :=
  mkMBuf addr 8 1 len len 64 (Z.of_nat <$> seq 0 64) (replicate 128 0).
Definition sample_heap (len : Z) : Heap := <[1 := sample_mbuf 4096 len]> (<[2 := sample_mbuf 8192 20]> ∅).
Definition sample_null : Packet NullHeader EmptyMetadata := mkPacket 1 4104 0.

Ltac sample_packet :=
  split; [refine (conj _ (conj _ (conj _ (conj _ _))));
          [reflexivity|apply (bool_decide_unpack _); vm_compute; exact I|reflexivity|vm_compute; discriminate..]
         |split; vm_compute; discriminate].

Lemma sample_null_ok : pkt_ok (sample_heap 20) sample_null (sample_mbuf 4096 20) /\
  hdr_fits sample_null (sample_mbuf 4096 20).
Proof. sample_packet. Qed.

Lemma sample_empty_ok : pkt_ok (sample_heap 0) sample_null (sample_mbuf 4096 0) /\
  hdr_fits sample_null (sample_mbuf 4096 0).
Proof. sample_packet. Qed.

Lemma sample_other_ok : pkt_ok (sample_heap 10) (mkPacket 2 8200 0 : Packet NullHeader EmptyMetadata) (sample_mbuf 8192 20) /\
  hdr_fits (mkPacket 2 8200 0 : Packet NullHeader EmptyMetadata) (sample_mbuf 8192 20).
Proof. sample_packet. Qed.

Lemma sample_short_ok : pkt_ok (sample_heap 10) sample_null (sample_mbuf 4096 10) /\
  hdr_fits sample_null (sample_mbuf 4096 10).
Proof. sample_packet. Qed.

Lemma mbuf_resize_spec_witness :
  @resize release AddEnd (sample_mbuf 4096 20) 37 = Ret (0, sample_mbuf 4096 20) /\
  exists m', @resize release RemoveBeginning (sample_mbuf 4096 20) 5 = Ret (5, m') /\
    frame m' = drop 5 (frame (sample_mbuf 4096 20)).
Proof.
  assert (Hwf : mbuf_wf (sample_mbuf 4096 20)) by (apply (bool_decide_unpack _); vm_compute; exact I).
  split.
  - apply (@mbuf_resize_spec release AddEnd _ 37 Hwf ltac:(lia)). simpl. lia.
  - destruct (@mbuf_resize_spec release RemoveBeginning _ 5 Hwf ltac:(lia)) as [_ Hr].
    destruct (Hr ltac:(simpl; lia)) as (m' & ? & _ & _ & _ & ? & _). eauto.
Defined.

Lemma parse_deparse_roundtrip_witness :
  exists pkt', @parse_header release _ _ _ _ Mac.MacHeader (@Mac.MacHeader_EndOffset release) sample_null (sample_heap 20) = Ret (pkt', sample_heap 20) /\
    offset_ pkt' = 0.
Proof.
  destruct sample_null_ok as [Hok Hf].
  destruct (@parse_deparse_roundtrip release _ _ Mac.MacHeader _ _ (@Mac.MacHeader_EndOffset release) Mac.MacHeader_Packed _ _ _ Hok Hf ltac:(vm_compute; discriminate))
    as [Hp _].
  destruct (Hp ltac:(vm_compute; done)) as (pkt' & Hparse & _).
  exists pkt'. split; [exact Hparse|]. vm_compute in Hparse. by injection Hparse as <-.
Defined.

Definition sample_mac : Mac.MacHeader :=
  Mac.mkMacHeader (Mac.MacAddress_new 1 2 3 4 5 6) (Mac.MacAddress_new 7 8 9 10 11 12) 8.

Lemma sample_mac_wf : wf sample_mac.
Proof. simpl. unfold Mac.mac_ok. apply (bool_decide_unpack _). vm_compute. exact I. Qed.

Lemma push_header_inserts_witness :
  exists pkt' m', @push_header release _ _ _ _ _ (@Mac.MacHeader_EndOffset release) _ sample_null sample_mac (sample_heap 0) =
      Ret (Some pkt', <[1 := m']> (sample_heap 0)) /\
    frame m' = [1; 2; 3; 4; 5; 6; 7; 8; 9; 10; 11; 12; 8; 0] /\ hdr_of pkt' m' = sample_mac.
Proof.
  destruct sample_empty_ok as [Hok Hf].
  destruct (@push_header_inserts release _ _ _ _ _ (@Mac.MacHeader_EndOffset release) _ _ _ _ _ sample_mac Hok Hf sample_mac_wf
    eq_refl ltac:(vm_compute; done)) as [Hp _].
  destruct (Hp ltac:(vm_compute; done)) as (pkt' & m' & Hpush & _ & Hfr & _ & _ & Hh & _).
  exists pkt', m'. split; [exact Hpush|]. split; [by rewrite Hfr|done].
Defined.

Lemma push_header_overlap_undefined_witness :
  @push_header release _ _ _ _ _ (@Mac.MacHeader_EndOffset release) _ sample_null sample_mac (sample_heap 20) = Undef.
Proof.
  destruct sample_null_ok as [Hok Hf].
  apply (@push_header_overlap_undefined release _ _ _ _ _ (@Mac.MacHeader_EndOffset release) _ _ _ _ sample_mac Hok Hf);
    [split|]; vm_compute; done.
Defined.

Lemma metadata_and_saved_header_witness :
  exists h1 m2, save_header_and_offset sample_null (sample_heap 20) = Ret (tt, h1) /\
    write_metadata sample_null sample_mac h1 = Ret (Ok tt, <[1 := m2]> (sample_heap 20)) /\
    frame m2 = frame (sample_mbuf 4096 20).
Proof.
  destruct sample_null_ok as [Hok _].
  destruct (@metadata_and_saved_header _ _ Mac.MacHeader NullHeader EmptyMetadata _ _ _ _ _ _ _ sample_mac Hok sample_mac_wf)
    as [Hm _].
  destruct (Hm ltac:(vm_compute; done)) as (h1 & m2 & ? & ? & _ & ? & _). eauto.
Defined.

Lemma parse_header_and_record_panics_witness :
  @parse_header_and_record release _ _ _ _ Mac.MacHeader (@Mac.MacHeader_EndOffset release) sample_null (sample_heap 20) = Panic.
Proof.
  destruct sample_null_ok as [Hok Hf].
  apply (@parse_header_and_record_panics release _ _ Mac.MacHeader _ _ (@Mac.MacHeader_EndOffset release) _ _ _ Hok Hf).
Defined.

Lemma copy_payload_spec_witness :
  exists m', @copy_payload release _ _ _ _ sample_null (mkPacket 2 8200 0) (sample_heap 10) =
      Ret (20, <[1 := m']> (sample_heap 10)) /\ frame m' = frame (sample_mbuf 8192 20).
Proof.
  destruct sample_short_ok as [Hok Hf]. destruct sample_other_ok as [Hoko Hfo].
  destruct (@copy_payload_spec release _ _ _ _ _ _ _ _ _ Hok Hf Hoko Hfo ltac:(done)) as (m' & Hc & _ & Hfr).
  exists m'. split; [exact Hc|]. by rewrite Hfr.
Defined.

Lemma remove_from_payload_head_cuts_witness :
  exists m', @remove_from_payload_head release _ _ sample_null 6 (sample_heap 20) =
      Ret (Ok tt, <[1 := m']> (sample_heap 20)) /\
    frame m' = [8; 9; 10; 11; 12; 13; 20; 21; 22; 23; 24; 25; 26; 27].
Proof.
  destruct sample_null_ok as [Hok _].
  destruct (@remove_from_payload_head_cuts release _ _ _ _ _ _ _ 6 Hok ltac:(lia) ltac:(vm_compute; done))
    as (m' & Hr & _ & Hfr & _).
  exists m'. split; [exact Hr|]. by rewrite Hfr.
Defined.

End Pkt.
