(* ===== verification/Mpsc.v ===== *)
(** * The multi-producer single-consumer queue of packet buffers
    ([framework/src/queues/mpsc_mbuf_queue.rs])

    [Mpsc] is the queue with its operations run to completion one at a time; [Interleave]
    is the same code as a transition system whose steps are the single atomic accesses of
    any number of producers and of the consumer. A mbuf pointer is a [Z], [0] is null. *)

From S2P Require Import Prelude Utils RingBuffer Packet.

Module Mpsc.

Record QueueMetadata : Type := mkQueueMetadata { head : Z; tail : Z }.

Record MpscQueue : Type := mkMpscQueue {
  slots : Z; mask : Z;
  producer : QueueMetadata; consumer : QueueMetadata;
  queue : list Z;
  n_producers : Z
}.

Definition with_producer (q : MpscQueue) (m : QueueMetadata) : MpscQueue :=
  mkMpscQueue (slots q) (mask q) m (consumer q) (queue q) (n_producers q).
Definition with_consumer (q : MpscQueue) (m : QueueMetadata) : MpscQueue :=
  mkMpscQueue (slots q) (mask q) (producer q) m (queue q) (n_producers q).
Definition with_queue (q : MpscQueue) (l : list Z) : MpscQueue :=
  mkMpscQueue (slots q) (mask q) (producer q) (consumer q) l (n_producers q).
Definition set_producer_head (q : MpscQueue) (v : Z) : MpscQueue :=
  with_producer q (mkQueueMetadata v (tail (producer q))).
Definition set_producer_tail (q : MpscQueue) (v : Z) : MpscQueue :=
  with_producer q (mkQueueMetadata (head (producer q)) v).
Definition set_consumer_head (q : MpscQueue) (v : Z) : MpscQueue :=
  with_consumer q (mkQueueMetadata v (tail (consumer q))).
Definition set_consumer_tail (q : MpscQueue) (v : Z) : MpscQueue :=
  with_consumer q (mkQueueMetadata (head (consumer q)) v).

Section operations.
Context {P : Profile}.

Definition new (size : Z) : outcome MpscQueue :=
  let! s1 := usub 64 size 1 in
  let slots := if negb (Z.land size s1 =? 0) then round_to_power_of_2 size else size in
  let! mask := usub 64 slots 1 in
  Ret {| slots := slots; mask := mask; queue := replicate (Z.to_nat slots) 0;
         producer := mkQueueMetadata 0 0; consumer := mkQueueMetadata 0 0; n_producers := 0 |}.

Definition reference_producers (q : MpscQueue) : MpscQueue :=
  mkMpscQueue (slots q) (mask q) (producer q) (consumer q) (queue q) (wrapping_add 64 (n_producers q) 1).

(** [n] turns of a loop that stores [mbufs[mbuf_idx]] to [queue[queue_idx]] and
    increments both indices *)
Fixpoint store_n (n : nat) (ql mbufs : list Z) (mbuf_idx queue_idx : Z) : outcome (list Z) :=
  match n with
  | O => Ret ql
  | S n =>
      let! m := vindex mbufs mbuf_idx in
      let! ql := vset ql queue_idx m in
      store_n n ql mbufs (mbuf_idx + 1) (queue_idx + 1)
  end.

(** The first loop runs while [queue_idx < len], the second while [mbuf_idx < enqueue]. *)
Definition enqueue_mbufs (q : MpscQueue) (start enqueue : Z) (mbufs : list Z) : outcome MpscQueue :=
  let len := slots q in
  let queue_idx := Z.land start (mask q) in
  let! fin := uadd 64 queue_idx enqueue in
  if len <=? fin then
    let n1 := len - queue_idx in
    let! ql := store_n (Z.to_nat n1) (queue q) mbufs 0 queue_idx in
    let! ql := store_n (Z.to_nat (enqueue - n1)) ql mbufs n1 0 in
    Ret (with_queue q ql)
  else
    let! ql := store_n (Z.to_nat enqueue) (queue q) mbufs 0 queue_idx in
    Ret (with_queue q ql).

Definition free_slots (q : MpscQueue) (consumer_tail producer_head : Z) : Z :=
  wrapping_sub 64 (wrapping_add 64 (mask q) consumer_tail) producer_head.

Definition enqueue_sp (q : MpscQueue) (mbufs : list Z) : outcome (Z * MpscQueue) :=
  let producer_head := head (producer q) in
  let consumer_tail := tail (consumer q) in
  let insert := Z.min (free_slots q consumer_tail producer_head) (zlen mbufs) in
  if 0 <? insert then
    let producer_next := wrapping_add 64 producer_head insert in
    let q := set_producer_head q producer_next in
    let! ms := vslice mbufs 0 insert in
    let! q := enqueue_mbufs q producer_head insert ms in
    Ret (insert, set_producer_tail q producer_next)
  else Ret (0, q).

(** The reservation loop: [compare_exchange] on the producer head until it succeeds.
    Returns [insert], [producer_head] and the queue. *)
Fixpoint reserve_mp (fuel : nat) (q : MpscQueue) (len : Z) : outcome (Z * Z * MpscQueue) :=
  let producer_head := head (producer q) in
  let consumer_tail := tail (consumer q) in
  let insert := Z.min (free_slots q consumer_tail producer_head) len in
  if insert =? 0 then Ret (insert, producer_head, q)
  else
    let producer_next := wrapping_add 64 producer_head insert in
    if head (producer q) =? producer_head
    then Ret (insert, producer_head, set_producer_head q producer_next)
    else match fuel with
         | O => NoFuel
         | S fuel => reserve_mp fuel q len
         end.

(** The spin until all preceding reservations are committed *)
Fixpoint wait_turn (fuel : nat) (q : MpscQueue) (producer_head : Z) : outcome unit :=
  if tail (producer q) =? producer_head then Ret tt
  else match fuel with
       | O => NoFuel
       | S fuel => wait_turn fuel q producer_head
       end.

Definition enqueue_mp (fuel : nat) (q : MpscQueue) (mbufs : list Z) : outcome (Z * MpscQueue) :=
  let! '(insert, producer_head, q) := reserve_mp fuel q (zlen mbufs) in
  if 0 <? insert then
    let end_ := wrapping_add 64 producer_head insert in
    let! ms := vslice mbufs 0 insert in
    let! q := enqueue_mbufs q producer_head insert ms in
    let! _ := wait_turn fuel q producer_head in
    Ret (insert, set_producer_tail q end_)
  else Ret (0, q).

Definition enqueue (fuel : nat) (q : MpscQueue) (mbufs : list Z) : outcome (Z * MpscQueue) :=
  let producers := n_producers q in
  assert_ (1 <=? producers) (
  if producers =? 1 then enqueue_sp q mbufs else enqueue_mp fuel q mbufs).

Definition enqueue_one (fuel : nat) (q : MpscQueue) (mbuf : Z) : outcome (bool * MpscQueue) :=
  let! '(n, q) := enqueue fuel q [mbuf] in Ret (n =? 1, q).

(** [n] turns of a loop that loads [queue[queue_idx]] into [mbufs[mbuf_idx]] *)
Fixpoint load_n (n : nat) (ql mbufs : list Z) (mbuf_idx queue_idx : Z) : outcome (list Z) :=
  match n with
  | O => Ret mbufs
  | S n =>
      let! m := vindex ql queue_idx in
      let! mbufs := vset mbufs mbuf_idx m in
      load_n n ql mbufs (mbuf_idx + 1) (queue_idx + 1)
  end.

Definition dequeue_mbufs (q : MpscQueue) (start dequeue : Z) (mbufs : list Z) : outcome (list Z) :=
  let len := slots q in
  let queue_idx := Z.land start (mask q) in
  let! fin := uadd 64 queue_idx dequeue in
  if len <=? fin then
    let n1 := len - queue_idx in
    let! mbufs := load_n (Z.to_nat n1) (queue q) mbufs 0 queue_idx in
    load_n (Z.to_nat (dequeue - n1)) (queue q) mbufs n1 0
  else load_n (Z.to_nat dequeue) (queue q) mbufs 0 queue_idx.

Definition dequeue (q : MpscQueue) (mbufs : list Z) : outcome (Z * list Z * MpscQueue) :=
  let consumer_head := head (consumer q) in
  let producer_tail := tail (producer q) in
  let available_entries := wrapping_sub 64 producer_tail consumer_head in
  let dequeue := Z.min (zlen mbufs) available_entries in
  if 0 <? dequeue then
    let consumer_next := wrapping_add 64 consumer_head dequeue in
    let q := set_consumer_head q consumer_next in
    let! mbufs := dequeue_mbufs q consumer_head dequeue mbufs in
    Ret (dequeue, mbufs, set_consumer_tail q consumer_next)
  else Ret (dequeue, mbufs, q).

(** ** The producer and consumer handles; both share the queue behind an [Arc]. *)

Definition MpscProducer_clone (q : MpscQueue) : MpscQueue := reference_producers q.

(** [packets] is drained whatever the count of accepted mbufs is. *)
Definition MpscProducer_enqueue {T M} (fuel : nat) (q : MpscQueue) (packets : list (Pkt.Packet T M))
    : outcome (Z * list (Pkt.Packet T M) * MpscQueue) :=
  let mbufs := Pkt.get_mbuf <$> packets in
  let! '(n, q) := enqueue fuel q mbufs in Ret (n, [], q).

Definition MpscProducer_enqueue_one {T M} (fuel : nat) (q : MpscQueue) (packet : Pkt.Packet T M)
    : outcome (bool * MpscQueue) := enqueue_one fuel q (Pkt.get_mbuf packet).

Definition MpscConsumer_recv (q : MpscQueue) (mbufs : list Z) : outcome (result Z * list Z * MpscQueue) :=
  let! '(n, mbufs, q) := dequeue q mbufs in Ret (Ok (wrap 32 n), mbufs, q).

Definition new_mpsc_queue_pair_with_size (size : Z) : outcome MpscQueue :=
  let! q := new size in Ret (reference_producers q).

Definition DEFAULT_QUEUE_SIZE : Z := 1024.
Definition new_mpsc_queue_pair : outcome MpscQueue := new_mpsc_queue_pair_with_size DEFAULT_QUEUE_SIZE.

End operations.

(** ** The queue as a ring

    When no operation is in progress the heads equal the tails and the queue is a ring
    with the consumer's counter as read position and the producers' as write position. *)

Definition ring (q : MpscQueue) : Ring.RingBuffer :=
  Ring.mkRing (head (consumer q)) (head (producer q)) (slots q) (mask q) (queue q).

Definition Inv (q : MpscQueue) : Prop :=
  Ring.Inv (ring q) /\ head (consumer q) = tail (consumer q) /\ head (producer q) = tail (producer q).

Definition contents (q : MpscQueue) : list Z := Ring.contents (ring q).

Section spec.
Context {P : Profile}.

Lemma store_n_spec n ql mbufs mi qi :
  0 <= mi -> 0 <= qi -> qi + Z.of_nat n <= zlen ql -> mi + Z.of_nat n <= zlen mbufs ->
  store_n n ql mbufs mi qi = Ret (splice ql qi (take n (drop (Z.to_nat mi) mbufs))).
Proof.
  revert ql mi qi. induction n as [|n IH]; intros ql mi qi ????; cbn [store_n].
  { by rewrite take_0, splice_nil. }
  destruct (vindex_lt mbufs mi) as [m Hm]; [lia|]. rewrite Hm. cbn [obind].
  rewrite vset_Ret by lia. cbn [obind]. rewrite IH by (rewrite ?length_insert; lia). f_equal.
  apply vindex_Ret in Hm as [_ Hm]. apply list_eq. intros i.
  rewrite !splice_lookup by (rewrite ?length_insert, ?length_take, ?length_drop; lia).
  rewrite !length_take, !length_drop. repeat case_decide; try lia.
  - rewrite !lookup_take_lt, !lookup_drop by lia. f_equal. lia.
  - replace i with (Z.to_nat qi) by lia. rewrite list_lookup_insert_eq by lia.
    rewrite lookup_take_lt, lookup_drop by lia. rewrite <- Hm. f_equal. lia.
  - by rewrite list_lookup_insert_ne by lia.
Qed.

Lemma load_n_spec n ql mbufs mi qi :
  0 <= mi -> 0 <= qi -> qi + Z.of_nat n <= zlen ql -> mi + Z.of_nat n <= zlen mbufs ->
  load_n n ql mbufs mi qi = Ret (splice mbufs mi (take n (drop (Z.to_nat qi) ql))).
Proof.
  revert mbufs mi qi. induction n as [|n IH]; intros mbufs mi qi ????; cbn [load_n].
  { by rewrite take_0, splice_nil. }
  destruct (vindex_lt ql qi) as [m Hm]; [lia|]. rewrite Hm. cbn [obind].
  rewrite vset_Ret by lia. cbn [obind]. rewrite IH by (rewrite ?length_insert; lia). f_equal.
  apply vindex_Ret in Hm as [_ Hm]. apply list_eq. intros i.
  rewrite !splice_lookup by (rewrite ?length_insert, ?length_take, ?length_drop; lia).
  rewrite !length_take, !length_drop. repeat case_decide; try lia.
  - rewrite !lookup_take_lt, !lookup_drop by lia. f_equal. lia.
  - replace i with (Z.to_nat mi) by lia. rewrite list_lookup_insert_eq by lia.
    rewrite lookup_take_lt, lookup_drop by lia. rewrite <- Hm. f_equal. lia.
  - by rewrite list_lookup_insert_ne by lia.
Qed.

(** A batched store is the ring's wrapped write. *)
Lemma enqueue_mbufs_wrapped q start mbufs rb' :
  Ring.Inv (ring q) -> zlen mbufs <= mask q ->
  Ring.wrapped_write (ring q) (start mod slots q) mbufs = Ret (zlen mbufs, rb') ->
  enqueue_mbufs q start (zlen mbufs) mbufs = Ret (with_queue q (Ring.vec rb')).
Proof.
  intros HI Hm Hw. pose proof (Ring.inv_size _ HI) as Hsz. pose proof (Ring.inv_mask _ HI) as Hmk.
  destruct (Ring.inv_circle _ HI) as [Hv _]. simpl in *.
  pose proof (Z.mod_pos_bound start (slots q) ltac:(lia)) as Hoff.
  destruct (Ring.wrapped_write_spec (ring q) (start mod slots q) mbufs (Ring.inv_circle _ HI)) as
    (v' & Hw' & Hl & Hlook); [done|simpl; lia|].
  rewrite Hw in Hw'. injection Hw' as ->. simpl in *.
  unfold enqueue_mbufs. change (mask q) with (Ring.mask (ring q)). rewrite (Ring.inv_land _ HI). simpl.
  set (off := start mod slots q) in *. rewrite uadd_small by (unfold uint; lia). cbn [obind].
  assert (Hsame : forall ql, length ql = length v' ->
    (forall j, 0 <= j < slots q -> ql !! Z.to_nat j = if (j - off) mod slots q <? zlen mbufs
       then mbufs !! Z.to_nat ((j - off) mod slots q) else queue q !! Z.to_nat j) -> ql = v').
  { intros ql Hql Hj. apply list_eq. intros i. destruct (decide (i < length v')%nat).
    - rewrite <- (Nat2Z.id i). rewrite Hj, Hlook by lia. done.
    - by rewrite !lookup_ge_None_2 by lia. }
  destruct (Z.leb_spec (slots q) (off + zlen mbufs)).
  - rewrite store_n_spec by lia. cbn [obind].
    assert (Hl1 : length (splice (queue q) off (take (Z.to_nat (slots q - off)) (drop (Z.to_nat 0) mbufs))) = length (queue q))
      by (apply length_splice; rewrite ?length_take, ?length_drop; lia).
    rewrite store_n_spec by lia. cbn [obind]. do 2 f_equal. apply Hsame.
    { rewrite length_splice; rewrite ?length_take, ?length_drop; lia. }
    intros j Hj. rewrite Ring.zmod_diff by lia. pose proof (Z.leb_spec off j) as Hcase.
    rewrite (splice_lookup _ 0) by (rewrite ?length_take, ?length_drop; lia).
    rewrite splice_lookup by (rewrite ?length_take, ?length_drop; lia). rewrite !length_take, !length_drop.
    destruct Hcase; repeat case_decide; cmp_cases; rewrite ?lookup_take_lt, ?lookup_drop by lia; f_equal; lia.
  - rewrite store_n_spec by lia. cbn [obind]. do 2 f_equal. apply Hsame.
    { rewrite length_splice; rewrite ?length_take, ?length_drop; lia. }
    intros j Hj. rewrite Ring.zmod_diff by lia. pose proof (Z.leb_spec off j) as Hcase.
    rewrite splice_lookup by (rewrite ?length_take, ?length_drop; lia). rewrite length_take, length_drop.
    destruct Hcase; repeat case_decide; cmp_cases; rewrite ?lookup_take_lt, ?lookup_drop by lia; f_equal; lia.
Qed.

(** A batched load reads the ring from the given position on. *)
Lemma dequeue_mbufs_rotl q start n mbufs :
  Ring.Inv (ring q) -> 0 <= n <= mask q -> n <= zlen mbufs ->
  dequeue_mbufs q start n mbufs =
    Ret (take (Z.to_nat n) (Ring.rotl (start mod slots q) (queue q)) ++ drop (Z.to_nat n) mbufs).
Proof.
  intros HI Hn Hlen. pose proof (Ring.inv_size _ HI) as Hsz. pose proof (Ring.inv_mask _ HI) as Hmk.
  destruct (Ring.inv_circle _ HI) as [Hv _]. simpl in *.
  pose proof (Z.mod_pos_bound start (slots q) ltac:(lia)) as Hoff. unfold dequeue_mbufs, Ring.rotl.
  change (mask q) with (Ring.mask (ring q)). rewrite (Ring.inv_land _ HI). simpl.
  set (off := start mod slots q) in *. rewrite uadd_small by (unfold uint; lia). cbn [obind].
  assert (Hhd : zlen (drop (Z.to_nat off) (queue q)) = slots q - off) by (rewrite length_drop; lia).
  destruct (Z.leb_spec (slots q) (off + n)).
  - rewrite load_n_spec by lia. cbn [obind].
    rewrite (take_ge (drop (Z.to_nat off) _)) by lia.
    assert (Hl1 : length (splice mbufs 0 (drop (Z.to_nat off) (queue q))) = length mbufs)
      by (apply length_splice; lia).
    rewrite load_n_spec by lia. f_equal. unfold splice at 1.
    unfold splice. rewrite take_0, app_nil_l, Nat.add_0_l.
    rewrite take_app_length' by lia. rewrite (take_app_ge (drop (Z.to_nat off) (queue q))) by lia.
    rewrite <- app_assoc. f_equal. rewrite take_take, drop_0, length_take. f_equal; [f_equal; lia|].
    rewrite drop_app_ge by lia. rewrite drop_drop. f_equal. lia.
  - rewrite load_n_spec by lia. f_equal. unfold splice. rewrite take_0, app_nil_l, Nat.add_0_l, length_take.
    rewrite take_app_le by lia. f_equal. f_equal. lia.
Qed.

(** ** Operations on the queue of mbufs *)

Lemma inv_free q :
  Inv q -> free_slots q (tail (consumer q)) (head (producer q)) = mask q - zlen (contents q).
Proof.
  intros (HI & Hc & Hp). pose proof (Ring.inv_space _ HI 0) as Hs. pose proof (Ring.inv_available _ HI).
  unfold contents. rewrite (Ring.length_contents _ HI). unfold free_slots, Ring.free in *.
  simpl in *. rewrite <- Hc. rewrite <- (Z.sub_0_r (mask q - _)), <- Hs by lia.
  f_equal. unfold wrapping_add. rewrite Z.add_0_r. symmetry. apply wrap_small, HI.
Qed.

Definition accepted (q : MpscQueue) (mbufs : list Z) : Z := Z.min (zlen mbufs) (mask q - zlen (contents q)).

Lemma reserve_and_store q mbufs :
  Inv q -> let n := accepted q mbufs in 0 < n ->
  let next := wrapping_add 64 (head (producer q)) n in
  exists v, enqueue_mbufs (set_producer_head q next) (head (producer q)) n (take (Z.to_nat n) mbufs) =
      Ret (with_queue (set_producer_head q next) v) /\
    let q' := set_producer_tail (with_queue (set_producer_head q next) v) next in
    Inv q' /\ contents q' = contents q ++ take (Z.to_nat n) mbufs.
Proof.
  intros HQ n Hn next. pose proof HQ as (HI & Hc & Hp). pose proof (inv_free q HQ) as Hfree.
  destruct (Ring.write_at_tail_spec (ring q) mbufs HI) as (rb' & Hw & HI' & Hm & Hcont).
  unfold Ring.free in *. rewrite <- (Ring.length_contents _ HI) in *. fold (contents q) in *.
  change (Ring.mask (ring q)) with (mask q) in *.
  replace (Z.min (zlen mbufs) (mask q - zlen (contents q))) with n in * by done.
  assert (Hfr : wrapping_sub 64 (wrapping_add 64 (Ring.mask (ring q)) (Ring.head (ring q))) (Ring.tail (ring q)) =
    mask q - zlen (contents q)) by (simpl; rewrite Hc; exact Hfree).
  unfold Ring.write_at_tail in Hw. rewrite Hfr in Hw.
  replace (Z.min (zlen mbufs) (mask q - zlen (contents q))) with n in Hw by done.
  rewrite vslice_to in Hw by (unfold n, accepted in *; lia). cbn [obind] in Hw.
  assert (Hlen : zlen (take (Z.to_nat n) mbufs) = n) by (rewrite length_take; unfold n, accepted in *; lia).
  rewrite (Ring.inv_land _ HI) in Hw.
  destruct (Ring.inv_seek_tail (ring q) n HI) as [HIs _].
  { unfold Ring.free. rewrite <- (Ring.length_contents _ HI). simpl. fold (contents q).
    unfold n, accepted in *. lia. }
  set (q0 := set_producer_head q next) in *.
  change (Ring.seek_tail (ring q) n) with (ring q0) in Hw, HIs.
  change (Ring.tail (ring q) mod Ring.size (ring q)) with (head (producer q) mod slots q) in Hw.
  assert (Hw2 : Ring.wrapped_write (ring q0) (head (producer q) mod slots q) (take (Z.to_nat n) mbufs) =
    Ret (zlen (take (Z.to_nat n) mbufs), rb')) by (by rewrite Hlen).
  exists (Ring.vec rb'). split.
  - rewrite <- Hlen at 1. apply enqueue_mbufs_wrapped; [done| |exact Hw2].
    rewrite Hlen. unfold n, accepted, q0. simpl. lia.
  - destruct (Ring.wrapped_write_spec (ring q0) (head (producer q) mod slots q) (take (Z.to_nat n) mbufs))
      as (v' & Hw' & _ & _).
    { by apply Ring.inv_circle. }
    { simpl. apply Z.mod_pos_bound. pose proof (Ring.inv_size _ HI). simpl in *. lia. }
    { pose proof (Ring.inv_mask _ HI). simpl in *. rewrite Hlen. unfold n, accepted. lia. }
    rewrite Hw' in Hw2. injection Hw2 as <-. cbv zeta. unfold Inv, contents, ring in *. simpl in *.
    split; [split; [exact HI'|done]|exact Hcont].
Qed.

Lemma enqueue_sp_spec q mbufs :
  Inv q -> let n := accepted q mbufs in
  exists q', enqueue_sp q mbufs = Ret (n, q') /\ Inv q' /\ mask q' = mask q /\ n_producers q' = n_producers q /\
    contents q' = contents q ++ take (Z.to_nat n) mbufs.
Proof.
  intros HQ n. pose proof HQ as (HI & Hc & Hp). pose proof (Ring.inv_available _ HI) as Hav.
  rewrite <- (Ring.length_contents _ HI) in Hav. fold (contents q) in Hav. simpl in Hav.
  unfold enqueue_sp. rewrite (inv_free q HQ), Z.min_comm. fold (accepted q mbufs). fold n.
  destruct (Z.ltb_spec 0 n) as [Hn|Hn].
  - destruct (reserve_and_store q mbufs HQ Hn) as (v & He & HI' & Hcont). fold n in He.
    rewrite vslice_to by (unfold n, accepted in *; lia). cbn [obind]. rewrite He. cbn [obind]. eauto 10.
  - exists q. replace n with 0 by (unfold n, accepted in *; lia). rewrite take_0, app_nil_r. done.
Qed.

(** Without interference the compare-and-swap succeeds at once and no one is waited for. *)
Lemma enqueue_mp_sp fuel q mbufs : Inv q -> enqueue_mp fuel q mbufs = enqueue_sp q mbufs.
Proof.
  intros HQ. pose proof HQ as (HI & Hc & Hp). unfold enqueue_mp, enqueue_sp.
  assert (Hr : reserve_mp fuel q (zlen mbufs) =
    let insert := Z.min (free_slots q (tail (consumer q)) (head (producer q))) (zlen mbufs) in
    Ret (insert, head (producer q), if insert =? 0 then q
         else set_producer_head q (wrapping_add 64 (head (producer q)) insert))).
  { destruct fuel; simpl; rewrite Z.eqb_refl; by destruct (_ =? 0). }
  rewrite Hr. cbn [obind]. cbv zeta.
  set (insert := Z.min (free_slots q (tail (consumer q)) (head (producer q))) (zlen mbufs)).
  destruct (Z.ltb_spec 0 insert) as [Hlt|Hge].
  - rewrite (proj2 (Z.eqb_neq _ _)) by lia.
    assert (Hn : insert = accepted q mbufs)
      by (unfold insert; rewrite (inv_free q HQ), Z.min_comm; done).
    rewrite Hn in *. destruct (reserve_and_store q mbufs HQ Hlt) as (v & He & _).
    pose proof (Ring.inv_available _ HI) as Hav. rewrite <- (Ring.length_contents _ HI) in Hav.
    fold (contents q) in Hav. simpl in Hav.
    rewrite vslice_to by (unfold accepted in *; lia). cbn [obind]. rewrite He. cbn [obind].
    destruct fuel; simpl; by rewrite Hp, Z.eqb_refl.
  - rewrite (proj2 (Z.eqb_eq _ _)); [done|]. unfold insert in *. rewrite (inv_free q HQ) in *.
    pose proof (Ring.inv_available _ HI) as Hav. rewrite <- (Ring.length_contents _ HI) in Hav.
    fold (contents q) in Hav. simpl in Hav. lia.
Qed.

Lemma enqueue_spec fuel q mbufs :
  Inv q -> 1 <= n_producers q -> let n := accepted q mbufs in
  exists q', enqueue fuel q mbufs = Ret (n, q') /\ Inv q' /\ mask q' = mask q /\ n_producers q' = n_producers q /\
    contents q' = contents q ++ take (Z.to_nat n) mbufs.
Proof.
  intros HQ Hn. unfold enqueue. rewrite assert_true by (apply Z.leb_le; lia).
  destruct (n_producers q =? 1); [|rewrite enqueue_mp_sp by done]; by apply enqueue_sp_spec.
Qed.

Lemma dequeue_spec q mbufs :
  Inv q -> let n := Z.min (zlen mbufs) (zlen (contents q)) in
  exists q', dequeue q mbufs = Ret (n, take (Z.to_nat n) (contents q) ++ drop (Z.to_nat n) mbufs, q') /\
    Inv q' /\ mask q' = mask q /\ n_producers q' = n_producers q /\ contents q' = drop (Z.to_nat n) (contents q).
Proof.
  intros HQ n. pose proof HQ as (HI & Hc & Hp). pose proof (Ring.inv_available _ HI) as Hav.
  pose proof (Ring.length_contents _ HI) as Hlc. fold (contents q) in Hlc.
  assert (Ha : wrapping_sub 64 (tail (producer q)) (head (consumer q)) = zlen (contents q))
    by (rewrite Hlc, <- Hp; done).
  unfold dequeue. rewrite Ha. fold n. destruct (Z.ltb_spec 0 n) as [Hn|Hn].
  - destruct (Ring.inv_advance_head (ring q) n HI) as (HI' & _ & Hcont); [rewrite <- Hlc; lia|].
    rewrite dequeue_mbufs_rotl; [|exact HI'|simpl in *; lia|lia].
    cbn [obind].
    exists (set_consumer_tail (set_consumer_head q (wrapping_add 64 (head (consumer q)) n))
              (wrapping_add 64 (head (consumer q)) n)).
    split; [|split; [split; [exact HI'|done]|split; [done|split; [done|exact Hcont]]]].
    do 4 f_equal. unfold contents, Ring.contents, Ring.window. simpl. rewrite take_take. f_equal.
    rewrite <- Hlc. lia.
  - exists q. replace n with 0 by lia. rewrite take_0, !drop_0. done.
Qed.

End spec.

(** ** Histories *)

Inductive op : Type := OpEnqueue (mbufs : list Z) | OpDequeue (buf : list Z) | OpClone.
Definition reply : Type := Z * list Z.

Definition fifo_step (cap : Z) (o : op) (c : list Z) : reply * list Z :=
  match o with
  | OpEnqueue mbufs =>
      let n := Z.min (zlen mbufs) (cap - zlen c) in ((n, mbufs), c ++ take (Z.to_nat n) mbufs)
  | OpDequeue buf =>
      let n := Z.min (zlen buf) (zlen c) in
      ((n, take (Z.to_nat n) c ++ drop (Z.to_nat n) buf), drop (Z.to_nat n) c)
  | OpClone => ((0, []), c)
  end.

Definition step `{Profile} (fuel : nat) (o : op) (q : MpscQueue) : outcome (reply * MpscQueue) :=
  match o with
  | OpEnqueue mbufs => let! '(n, q) := enqueue fuel q mbufs in Ret ((n, mbufs), q)
  | OpDequeue buf => let! '(n, buf, q) := dequeue q buf in Ret ((n, buf), q)
  | OpClone => Ret ((0, []), MpscProducer_clone q)
  end.

Fixpoint fifo_run (cap : Z) (ops : list op) (c : list Z) : list reply * list Z :=
  match ops with
  | [] => ([], c)
  | o :: ops => let '(r, c) := fifo_step cap o c in let '(rs, c) := fifo_run cap ops c in (r :: rs, c)
  end.

Fixpoint run `{Profile} (fuel : nat) (ops : list op) (q : MpscQueue) : outcome (list reply * MpscQueue) :=
  match ops with
  | [] => Ret ([], q)
  | o :: ops =>
      let! '(r, q) := step fuel o q in
      let! '(rs, q) := run fuel ops q in Ret (r :: rs, q)
  end.

(** C20: With at least one producer (and fewer than [2^64] handles), a history of batched
    enqueues through any handle, batched dequeues and handle clones returns exactly what a
    bounded FIFO of [slots - 1] mbufs returns, with the single-producer path and with the
    compare-and-swap path, and never panics or spins. *)
Theorem mpsc_refines_fifo `{Profile} fuel ops q :
  Inv q -> 1 <= n_producers q -> n_producers q + zlen ops < 2 ^ 64 ->
  exists q', run fuel ops q = Ret ((fifo_run (mask q) ops (contents q)).1, q') /\ Inv q' /\
    contents q' = (fifo_run (mask q) ops (contents q)).2.
Proof.
  revert q. induction ops as [|o ops IH]; intros q HQ Hn Hb; [by exists q|].
  cbn [length] in Hb.
  assert (exists q1, step fuel o q = Ret ((fifo_step (mask q) o (contents q)).1, q1) /\ Inv q1 /\
    mask q1 = mask q /\ n_producers q <= n_producers q1 <= n_producers q + 1 /\
    contents q1 = (fifo_step (mask q) o (contents q)).2)
    as (q1 & Hs & HQ1 & Hm1 & Hn1 & Hc1).
  { destruct o as [mbufs|buf|]; simpl.
    - destruct (enqueue_spec fuel q mbufs HQ Hn) as (q1 & -> & ? & ? & ? & ?). exists q1. split_and!; try done; lia.
    - destruct (dequeue_spec q buf HQ) as (q1 & -> & ? & ? & ? & ?). exists q1. split_and!; try done; lia.
    - exists (reference_producers q). split_and!; try done; try apply HQ; simpl;
        unfold wrapping_add; rewrite wrap_small by (unfold uint; lia); lia. }
  destruct (IH q1 HQ1) as (q2 & Hr & HQ2 & Hc2); [lia|lia|]. rewrite Hm1, Hc1 in Hr, Hc2.
  exists q2. cbn [run fifo_run]. rewrite Hs. cbn [obind].
  destruct (fifo_step (mask q) o (contents q)) as [r c]. simpl in *. rewrite Hr. cbn [obind].
  by destruct (fifo_run (mask q) ops c).
Qed.

(** Four slots, one mbuf queued, the counters about to wrap *)
Definition sample_queue : MpscQueue :=
  mkMpscQueue 4 3 (mkQueueMetadata (2 ^ 64 - 1) (2 ^ 64 - 1)) (mkQueueMetadata (2 ^ 64 - 2) (2 ^ 64 - 2)) [0; 0; 12; 0] 1.

Lemma mpsc_refines_fifo_witness :
  exists q', @run release 0 [OpEnqueue [1; 2; 3]; OpClone; OpDequeue [0; 0]; OpEnqueue [4]] sample_queue =
      Ret ([(2, [1; 2; 3]); (0, []); (2, [12; 1]); (1, [4])], q') /\ Inv q' /\ contents q' = [2; 4].
Proof.
  apply (@mpsc_refines_fifo release 0 [OpEnqueue [1; 2; 3]; OpClone; OpDequeue [0; 0]; OpEnqueue [4]] sample_queue);
    [|simpl; lia|simpl; lia].
  split; [|done]. refine (conj (ex_intro _ 2 _) (conj _ (conj _ (conj _ (conj _ _))))); vm_compute; done.
Defined.

End Mpsc.

(** ** Concurrent producers

    [enqueue_mp] by any number of producers and [dequeue] by the consumer, interleaved at
    every access of the shared memory, in a sequentially consistent order. A producer's
    state is the point it has reached and its local variables. [log] and [received] record
    the history: the mbufs in the order of the successful reservations, and the mbufs the
    consumer has returned. *)
Module Interleave.

Inductive pstate : Type :=
| PIdle                                  (* not in a call *)
| PStart (ms : list Z)                   (* about to load [producer.head] *)
| PHead (ms : list Z) (h : Z)            (* about to load [consumer.tail] *)
| PReserve (ms : list Z) (h ins : Z)     (* about to compare-and-swap [producer.head] *)
| PActive (ms : list Z) (h ins k : Z).   (* [k] mbufs stored; at [k = ins] waiting to commit *)

Inductive cstate : Type :=
| CIdle
| CHead (len h : Z)                      (* about to load [producer.tail] *)
| CReserve (h n : Z)                     (* about to store [consumer.head] *)
| CLoad (h n k : Z) (buf : list Z).      (* [k] mbufs loaded; at [k = n] about to commit *)

Record state : Type := mkState {
  ph : Z; pt : Z; ch : Z; ct : Z;        (* producer and consumer counters *)
  queue : list Z;
  prods : list pstate; cons_ : cstate;
  log : list Z; received : list Z
}.

Section system.
Variable slots : Z.
Let mask := slots - 1.

(** The slot of the [k]-th mbuf of a batch that starts at counter [h] *)
Definition slot (h k : Z) : Z :=
  let i := Z.land h mask + k in if i <? slots then i else i - slots.

Definition with_prod (s : state) (j : nat) (p : pstate) : state :=
  mkState (ph s) (pt s) (ch s) (ct s) (queue s) (<[j := p]> (prods s)) (cons_ s) (log s) (received s).
Definition with_cons (s : state) (c : cstate) : state :=
  mkState (ph s) (pt s) (ch s) (ct s) (queue s) (prods s) c (log s) (received s).

Inductive step (s : state) : state -> Prop :=
| s_call j ms : prods s !! j = Some PIdle -> step s (with_prod s j (PStart ms))
| s_head j ms : prods s !! j = Some (PStart ms) -> step s (with_prod s j (PHead ms (ph s)))
| s_free j ms h ins :
    prods s !! j = Some (PHead ms h) ->
    ins = Z.min (wrapping_sub 64 (wrapping_add 64 mask (ct s)) h) (zlen ms) ->
    step s (with_prod s j (if ins =? 0 then PIdle else PReserve ms h ins))
| s_cas_ok j ms h ins :
    prods s !! j = Some (PReserve ms h ins) -> ph s = h ->
    step s (mkState (wrapping_add 64 h ins) (pt s) (ch s) (ct s) (queue s)
              (<[j := PActive ms h ins 0]> (prods s)) (cons_ s) (log s ++ take (Z.to_nat ins) ms) (received s))
| s_cas_fail j ms h ins :
    prods s !! j = Some (PReserve ms h ins) -> ph s <> h -> step s (with_prod s j (PStart ms))
| s_store j ms h ins k m :
    prods s !! j = Some (PActive ms h ins k) -> k < ins -> ms !! Z.to_nat k = Some m ->
    step s (mkState (ph s) (pt s) (ch s) (ct s) (<[Z.to_nat (slot h k) := m]> (queue s))
              (<[j := PActive ms h ins (k + 1)]> (prods s)) (cons_ s) (log s) (received s))
| s_commit j ms h ins :
    prods s !! j = Some (PActive ms h ins ins) -> pt s = h ->
    step s (mkState (ph s) (wrapping_add 64 h ins) (ch s) (ct s) (queue s)
              (<[j := PIdle]> (prods s)) (cons_ s) (log s) (received s))
| c_call len : cons_ s = CIdle -> 0 <= len -> step s (with_cons s (CHead len (ch s)))
| c_avail len h n :
    cons_ s = CHead len h -> n = Z.min len (wrapping_sub 64 (pt s) h) ->
    step s (with_cons s (if n =? 0 then CIdle else CReserve h n))
| c_reserve h n :
    cons_ s = CReserve h n ->
    step s (mkState (ph s) (pt s) (wrapping_add 64 h n) (ct s) (queue s) (prods s) (CLoad h n 0 [])
              (log s) (received s))
| c_load h n k buf m :
    cons_ s = CLoad h n k buf -> k < n -> queue s !! Z.to_nat (slot h k) = Some m ->
    step s (with_cons s (CLoad h n (k + 1) (buf ++ [m])))
| c_commit h n buf :
    cons_ s = CLoad h n n buf ->
    step s (mkState (ph s) (pt s) (ch s) (wrapping_add 64 h n) (queue s) (prods s) CIdle
              (log s) (received s ++ buf)).

Definition init (n : nat) (q : list Z) : state :=
  mkState 0 0 0 0 q (replicate n PIdle) CIdle [] [].

(** Runs in which the producers' counter does not wrap at [2^64]: it never decreases. *)
Inductive reach (n : nat) (q : list Z) : state -> Prop :=
| reach_init : reach n q (init n q)
| reach_step s s' : reach n q s -> step s s' -> ph s <= ph s' -> reach n q s'.

(** ** The invariant *)

Definition pinv (s : state) (p : pstate) : Prop :=
  match p with
  | PIdle | PStart _ => True
  | PHead ms h => 0 <= h <= ph s
  | PReserve ms h ins => 0 <= h <= ph s /\ 0 < ins <= zlen ms /\ h + ins <= ct s + mask
  | PActive ms h ins k =>
      pt s <= h /\ h + ins <= ph s /\ 0 < ins <= zlen ms /\ 0 <= k <= ins /\
      (forall j, 0 <= j < ins -> ms !! Z.to_nat j = log s !! Z.to_nat (h + j)) /\
      (forall j, 0 <= j < k -> queue s !! Z.to_nat ((h + j) mod slots) = log s !! Z.to_nat (h + j))
  end.

Definition cinv (s : state) (c : cstate) : Prop :=
  match c with
  | CIdle => ch s = ct s
  | CHead len h => 0 <= len /\ h = ch s /\ ch s = ct s
  | CReserve h n => h = ch s /\ ch s = ct s /\ 0 < n /\ h + n <= pt s
  | CLoad h n k buf =>
      h = ct s /\ ch s = h + n /\ h + n <= pt s /\ 0 <= k <= n /\ zlen buf = k /\
      (forall j, 0 <= j < k -> buf !! Z.to_nat j = log s !! Z.to_nat (h + j))
  end.

Definition apart (p p' : pstate) : Prop :=
  match p, p' with
  | PActive _ h ins _, PActive _ h' ins' _ => h + ins <= h' \/ h' + ins' <= h
  | _, _ => True
  end.

Record Inv (s : state) : Prop := {
  i_log : zlen (log s) = ph s;
  i_order : 0 <= ct s <= ch s /\ ch s <= pt s /\ pt s <= ph s <= ct s + mask /\ ph s < 2 ^ 64;
  i_queue : zlen (queue s) = slots;
  i_committed : forall i, ct s <= i < pt s -> queue s !! Z.to_nat (i mod slots) = log s !! Z.to_nat i;
  i_prods : forall j p, prods s !! j = Some p -> pinv s p;
  i_apart : forall j j' p p', prods s !! j = Some p -> prods s !! j' = Some p' -> j <> j' -> apart p p';
  i_cover : forall i, pt s <= i < ph s ->
    exists j ms h ins k, prods s !! j = Some (PActive ms h ins k) /\ h <= i < h + ins;
  i_cons : cinv s (cons_ s);
  i_received : received s = take (Z.to_nat (ct s)) (log s)
}.

Hypothesis Hslots : exists k, 0 <= k <= 63 /\ slots = 2 ^ k.

Lemma slots_range : 0 < slots <= 2 ^ 63.
Proof using Hslots. destruct Hslots as (k & ? & ->). split; [lia|]. apply Z.pow_le_mono_r; lia. Qed.

Lemma slot_mod h k : 0 <= k < slots -> slot h k = (h + k) mod slots.
Proof using Hslots.
  intros Hk. pose proof slots_range. unfold slot, mask. rewrite Ring.land_mask_mod by exact Hslots.
  rewrite <- Zplus_mod_idemp_l. symmetry. apply Ring.circle_pos; [apply Z.mod_pos_bound; lia|done].
Qed.

Lemma live_distinct c a b :
  c <= a < c + slots -> c <= b < c + slots -> a <> b -> Z.to_nat (a mod slots) <> Z.to_nat (b mod slots).
Proof using Hslots.
  intros Ha Hb Hne He. pose proof slots_range. apply Hne.
  pose proof (Z.mod_pos_bound a slots ltac:(lia)). pose proof (Z.mod_pos_bound b slots ltac:(lia)).
  assert (Hm : a mod slots = b mod slots) by lia.
  pose proof (Z.div_mod a slots ltac:(lia)) as Ea. pose proof (Z.div_mod b slots ltac:(lia)) as Eb.
  rewrite Hm in Ea. cut (a / slots = b / slots); [intros Hq; rewrite Hq in Ea; lia|].
  clear He Hne. set (qa := a / slots) in *. set (qb := b / slots) in *.
  destruct (Z.lt_trichotomy qa qb) as [Hlt|[?|Hlt]]; [|done|]; exfalso.
  - assert (slots * (qa + 1) <= slots * qb) by (apply Z.mul_le_mono_nonneg_l; lia). lia.
  - assert (slots * (qb + 1) <= slots * qa) by (apply Z.mul_le_mono_nonneg_l; lia). lia.
Qed.

Definition not_active (p : pstate) : Prop := match p with PActive _ _ _ _ => False | _ => True end.

Lemma apart_not_active p p' : not_active p -> apart p p' /\ apart p' p.
Proof using. destruct p, p'; simpl; tauto. Qed.

(** A local step of a producer outside its critical part *)
Lemma inv_with_prod s j p0 p :
  Inv s -> prods s !! j = Some p0 -> not_active p0 -> not_active p -> pinv s p -> Inv (with_prod s j p).
Proof using.
  intros HI Hj Hp0 Hp Hpi. destruct HI as [? ? ? ? Hps Hap Hcov Hcons ?]. constructor; simpl; try done.
  - intros j' p' [(-> & -> & _)|(_ & Hj')]%list_lookup_insert_Some; [done|by apply (Hps j')].
  - intros j1 j2 p1 p2 [(<- & <- & _)|(? & H1)]%list_lookup_insert_Some
      [(<- & <- & _)|(? & H2)]%list_lookup_insert_Some ?; try done;
      [by apply (apart_not_active p p2)|by apply (apart_not_active p p1)|by apply (Hap j1 j2)].
  - intros i Hi. destruct (Hcov i Hi) as (j' & ms & h & ins & k & Hj' & ?).
    exists j', ms, h, ins, k. split; [|done]. rewrite list_lookup_insert_ne; [done|].
    intros <-. rewrite Hj in Hj'. by injection Hj' as ->.
Qed.

Lemma inv_with_cons s c : Inv s -> cinv s c -> Inv (with_cons s c).
Proof using. intros [] ?. by constructor. Qed.

Lemma pinv_cas s s' p :
  ph s <= ph s' -> pt s' = pt s -> ct s' = ct s -> queue s' = queue s -> zlen (log s) = ph s ->
  (exists l, log s' = log s ++ l) -> 0 <= pt s -> pinv s p -> pinv s' p.
Proof using.
  intros Hph Hpt Hct Hq Hl (l & Hlog) H0. destruct p as [|ms|ms h|ms h ins|ms h ins k]; simpl; try done.
  - lia.
  - rewrite Hct. lia.
  - rewrite Hpt, Hq, Hlog. intros (?&?&?&?&H1&H2). split_and!; try lia.
    + intros j Hj. rewrite H1 by done. symmetry. apply lookup_app_l. lia.
    + intros j Hj. rewrite H2 by done. symmetry. apply lookup_app_l. lia.
Qed.

Lemma inv_cas s j ms ins :
  Inv s -> prods s !! j = Some (PReserve ms (ph s) ins) -> ph s <= wrapping_add 64 (ph s) ins ->
  Inv (mkState (wrapping_add 64 (ph s) ins) (pt s) (ch s) (ct s) (queue s)
         (<[j := PActive ms (ph s) ins 0]> (prods s)) (cons_ s) (log s ++ take (Z.to_nat ins) ms) (received s)).
Proof using Hslots.
  intros HI Hj Hmono. pose proof slots_range. pose proof HI as [Hlog Hord Hq Hcom Hps Hap Hcov Hcons Hrec].
  destruct (Hps j _ Hj) as (_ & Hins & Hfit). unfold mask in *.
  assert (Hb : ph s + ins < 2 ^ 64).
  { destruct (Z.lt_ge_cases (ph s + ins) (2 ^ 64)); [done|]. unfold wrapping_add, wrap in Hmono.
    rewrite <- (Z_mod_plus_full (ph s + ins) (-1) (2 ^ 64)), Z.mod_small in Hmono; lia. }
  replace (wrapping_add 64 (ph s) ins) with (ph s + ins) by (symmetry; apply wrap_small; unfold uint; lia).
  assert (Hlen : zlen (take (Z.to_nat ins) ms) = ins) by (rewrite length_take; lia).
  assert (Hlow : forall i, 0 <= i < ph s -> (log s ++ take (Z.to_nat ins) ms) !! Z.to_nat i = log s !! Z.to_nat i)
    by (intros; apply lookup_app_l; lia).
  constructor; simpl; try done.
  - rewrite length_app. lia.
  - unfold mask. lia.
  - intros i Hi. rewrite Hcom by done. symmetry. apply Hlow. lia.
  - intros j' p' [(-> & <- & _)|(_ & Hj')]%list_lookup_insert_Some.
    + simpl. split_and!; try lia. intros i Hi. rewrite lookup_app_r by lia.
      rewrite lookup_take_lt by lia. f_equal. lia.
    + apply (pinv_cas s); simpl; try done; try lia; [by eexists|]. by apply (Hps j').
  - assert (Hnew : forall j' p', prods s !! j' = Some p' -> apart (PActive ms (ph s) ins 0) p' /\ apart p' (PActive ms (ph s) ins 0)).
    { intros j' p' Hj'. pose proof (Hps j' p' Hj') as Hp'. destruct p'; simpl in *; try done. lia. }
    intros j1 j2 p1 p2 [(<- & <- & _)|(? & H1)]%list_lookup_insert_Some
      [(<- & <- & _)|(? & H2)]%list_lookup_insert_Some ?; try done; [by eapply Hnew..|].
    by apply (Hap j1 j2).
  - intros i Hi. destruct (decide (i < ph s)).
    + destruct (Hcov i) as (j' & ms' & h & ins' & k & Hj' & ?); [lia|]. exists j', ms', h, ins', k.
      split; [|done]. rewrite list_lookup_insert_ne; [done|]. intros <-. by rewrite Hj in Hj'.
    + exists j, ms, (ph s), ins, 0. split; [|lia]. apply list_lookup_insert_eq. by eapply lookup_lt_Some.
  - destruct (cons_ s) as [|len h|h n|h n k buf]; simpl in *; try done.
    destruct Hcons as (?&?&?&?&?&Hbuf). split_and!; try done; try lia. intros i Hi. rewrite Hbuf by done.
    symmetry. apply Hlow. lia.
  - rewrite take_app_le by lia. done.
Qed.

Lemma inv_store s j ms h ins k m :
  Inv s -> prods s !! j = Some (PActive ms h ins k) -> k < ins -> ms !! Z.to_nat k = Some m ->
  Inv (mkState (ph s) (pt s) (ch s) (ct s) (<[Z.to_nat (slot h k) := m]> (queue s))
         (<[j := PActive ms h ins (k + 1)]> (prods s)) (cons_ s) (log s) (received s)).
Proof using Hslots.
  intros HI Hj Hk Hm. pose proof slots_range. pose proof HI as [Hlog Hord Hq Hcom Hps Hap Hcov Hcons Hrec].
  destruct (Hps j _ Hj) as (Hh & He & Hins & Hk0 & Hms & Hst). unfold mask in *.
  rewrite slot_mod by lia.
  pose proof (Z.mod_pos_bound (h + k) slots ltac:(lia)) as Hmb.
  assert (Hne : forall i, ct s <= i < ph s -> i <> h + k ->
    <[Z.to_nat ((h + k) mod slots) := m]> (queue s) !! Z.to_nat (i mod slots) = queue s !! Z.to_nat (i mod slots)).
  { intros i Hi Hd. apply list_lookup_insert_ne. apply (live_distinct (ct s)); lia. }
  constructor; simpl; try done.
  - by rewrite length_insert.
  - intros i Hi. rewrite Hne by lia. by apply Hcom.
  - intros j' p' [(-> & <- & _)|(Hjj & Hj')]%list_lookup_insert_Some.
    + simpl. split_and!; try lia; [done|]. intros i Hi. destruct (decide (i = k)) as [->|].
      * rewrite list_lookup_insert_eq by lia. rewrite <- Hms by lia. done.
      * rewrite Hne by lia. apply Hst. lia.
    + pose proof (Hps j' p' Hj') as Hp'. pose proof (Hap j j' _ _ Hj Hj' Hjj) as Ha.
      destruct p' as [|ms'|ms' h'|ms' h' ins'|ms' h' ins' k']; simpl in *; try done.
      destruct Hp' as (?&?&?&?&?&Hst'). split_and!; try done; try lia. intros i Hi.
      rewrite Hne by lia. by apply Hst'.
  - intros j1 j2 p1 p2 [(<- & <- & _)|(Hd1 & H1)]%list_lookup_insert_Some
      [(<- & <- & _)|(Hd2 & H2)]%list_lookup_insert_Some Hd; try done.
    + pose proof (Hap _ _ _ _ Hj H2 Hd2) as Ha. by destruct p2.
    + pose proof (Hap _ _ _ _ H1 Hj Hd) as Ha. by destruct p1.
    + by apply (Hap j1 j2).
  - intros i Hi. destruct (Hcov i Hi) as (j' & ms' & h' & ins' & k' & Hj' & Hr).
    destruct (decide (j' = j)) as [->|Hd].
    + rewrite Hj in Hj'. injection Hj' as <- <- <- <-. exists j, ms, h, ins, (k + 1). split; [|done].
      apply list_lookup_insert_eq. by eapply lookup_lt_Some.
    + exists j', ms', h', ins', k'. split; [|done]. by rewrite list_lookup_insert_ne by done.
Qed.

Lemma inv_commit s j ms ins :
  Inv s -> prods s !! j = Some (PActive ms (pt s) ins ins) ->
  Inv (mkState (ph s) (wrapping_add 64 (pt s) ins) (ch s) (ct s) (queue s)
         (<[j := PIdle]> (prods s)) (cons_ s) (log s) (received s)).
Proof using Hslots.
  intros HI Hj. pose proof slots_range. pose proof HI as [Hlog Hord Hq Hcom Hps Hap Hcov Hcons Hrec].
  destruct (Hps j _ Hj) as (_ & He & Hins & _ & _ & Hst). unfold mask in *.
  assert (Hnw : wrapping_add 64 (pt s) ins = pt s + ins) by (apply wrap_small; unfold uint; lia).
  rewrite Hnw. constructor; simpl; try done.
  - unfold mask. lia.
  - intros i Hi. destruct (decide (i < pt s)); [apply Hcom; lia|].
    replace i with (pt s + (i - pt s)) by lia. apply Hst. lia.
  - intros j' p' [(-> & <- & _)|(Hjj & Hj')]%list_lookup_insert_Some; [done|].
    pose proof (Hps j' p' Hj') as Hp'. pose proof (Hap j j' _ _ Hj Hj' Hjj) as Ha.
    destruct p' as [|ms'|ms' h'|ms' h' ins'|ms' h' ins' k']; simpl in *; try done.
    destruct Hp' as (?&?&?&?&?&?). split_and!; try done; lia.
  - intros j1 j2 p1 p2 [(<- & <- & _)|(Hd1 & H1)]%list_lookup_insert_Some
      [(<- & <- & _)|(Hd2 & H2)]%list_lookup_insert_Some Hd; try done;
      [by apply (apart_not_active PIdle p1)|by apply (Hap j1 j2)].
  - intros i Hi. destruct (Hcov i) as (j' & ms' & h' & ins' & k' & Hj' & Hr); [lia|].
    exists j', ms', h', ins', k'. split; [|done]. rewrite list_lookup_insert_ne; [done|].
    intros <-. rewrite Hj in Hj'. injection Hj' as <- <- <- <-. lia.
  - destruct (cons_ s) as [|len h|h n|h n k buf]; simpl in *; try done.
    + destruct Hcons as (?&?&?&?). split_and!; try done; lia.
    + destruct Hcons as (?&?&?&?&?&?). split_and!; try done; lia.
Qed.

Lemma inv_consumer_commit s h n buf :
  Inv s -> cons_ s = CLoad h n n buf ->
  Inv (mkState (ph s) (pt s) (ch s) (wrapping_add 64 h n) (queue s) (prods s) CIdle (log s) (received s ++ buf)).
Proof using Hslots.
  intros HI Hc. pose proof slots_range. pose proof HI as [Hlog Hord Hq Hcom Hps Hap Hcov Hcons Hrec].
  rewrite Hc in Hcons. destruct Hcons as (-> & Hch & Hn & Hk & Hlen & Hbuf). unfold mask in *.
  assert (Hnw : wrapping_add 64 (ct s) n = ct s + n) by (apply wrap_small; unfold uint; lia).
  rewrite Hnw. constructor; simpl; try done.
  - unfold mask. lia.
  - intros i Hi. apply Hcom. lia.
  - intros j p Hj. pose proof (Hps j p Hj) as Hp. destruct p; simpl in *; try done. unfold mask in *. lia.
  - rewrite Hrec. apply list_eq. intros i. destruct (decide (Z.of_nat i < ct s)).
    + rewrite lookup_app_l by (rewrite length_take; lia). by rewrite !lookup_take_lt by lia.
    + rewrite lookup_app_r by (rewrite length_take; lia). rewrite length_take.
      destruct (decide (Z.of_nat i < ct s + n)).
      * rewrite lookup_take_lt by lia. specialize (Hbuf (Z.of_nat i - ct s) ltac:(lia)).
        replace (i - Z.to_nat (ct s) `min` length (log s))%nat with (Z.to_nat (Z.of_nat i - ct s)) by lia.
        rewrite Hbuf. f_equal. lia.
      * rewrite lookup_take_ge by lia. apply lookup_ge_None_2. lia.
Qed.

Lemma inv_step s s' : Inv s -> step s s' -> ph s <= ph s' -> Inv s'.
Proof using Hslots.
  intros HI Hstep Hmono. pose proof slots_range. pose proof HI as [Hlog Hord Hq Hcom Hps Hap Hcov Hcons Hrec].
  unfold mask in *.
  destruct Hstep as [j ms Hj|j ms Hj|j ms h ins Hj ->|j ms h ins Hj <-|j ms h ins Hj Hne|j ms h ins k m Hj Hk Hm
    |j ms h ins Hj <-|len Hc Hl|len h n Hc ->|h n Hc|h n k buf m Hc Hk Hm|h n buf Hc].
  - by eapply inv_with_prod.
  - eapply inv_with_prod; [done..|]. simpl. lia.
  - destruct (Hps j _ Hj) as [Hh0 Hh1].
    assert (Hw : 0 <= wrapping_sub 64 (wrapping_add 64 mask (ct s)) h <= slots - 1 + ct s - h).
    { unfold wrapping_sub, wrapping_add. rewrite wrap_wrap_sub_l. split; [by apply wrap_range|].
      apply Z.mod_le; unfold mask; lia. }
    set (ins := Z.min (wrapping_sub 64 (wrapping_add 64 mask (ct s)) h) (zlen ms)) in *.
    assert (Hp : not_active (if ins =? 0 then PIdle else PReserve ms h ins) /\
                 pinv s (if ins =? 0 then PIdle else PReserve ms h ins)).
    { destruct (Z.eqb_spec ins 0); simpl; [done|]. unfold mask in *. lia. }
    eapply inv_with_prod; [done|exact Hj|done|apply Hp|apply Hp].
  - by apply inv_cas.
  - by eapply inv_with_prod.
  - by eapply inv_store.
  - by eapply inv_commit.
  - apply inv_with_cons; [done|]. rewrite Hc in Hcons. simpl in *. lia.
  - rewrite Hc in Hcons. destruct Hcons as (Hl & -> & Hcc). apply inv_with_cons; [done|].
    unfold wrapping_sub. rewrite wrap_small by (unfold uint; lia).
    destruct (Z.eqb_spec (Z.min len (pt s - ch s)) 0); simpl; [done|]. lia.
  - rewrite Hc in Hcons. destruct Hcons as (-> & Hcc & Hn & Hle).
    assert (Hnw : wrapping_add 64 (ch s) n = ch s + n) by (apply wrap_small; unfold uint; lia).
    rewrite Hnw. constructor; simpl; try done.
    + unfold mask. lia.
    + split_and!; try done; try lia.
  - rewrite Hc in Hcons. destruct Hcons as (-> & Hch & Hn & Hk0 & Hlen & Hbuf).
    rewrite slot_mod in Hm by lia. rewrite Hcom in Hm by lia.
    apply inv_with_cons; [done|]. split_and!; try done; try lia.
    + rewrite length_app. simpl. lia.
    + intros i Hi. destruct (decide (i = k)) as [->|].
      * rewrite lookup_app_r by lia. replace (Z.to_nat k - length buf)%nat with 0%nat by lia. done.
      * rewrite lookup_app_l by lia. apply Hbuf. lia.
  - by apply (inv_consumer_commit s h n buf).
Qed.

Lemma inv_init n q : zlen q = slots -> Inv (init n q).
Proof using Hslots.
  intros Hq. pose proof slots_range. constructor; simpl; try done; try (unfold mask; lia).
  - intros j p [-> _]%lookup_replicate. done.
  - intros j j' p p' [-> _]%lookup_replicate [-> _]%lookup_replicate ?. done.
Qed.

Lemma reach_inv n q s : zlen q = slots -> reach n q s -> Inv s.
Proof using Hslots.
  intros Hq. induction 1 as [|s s' Hr IH Hst Hm]; [by apply inv_init|by eapply inv_step].
Qed.

(** C2: For any number of producers running [enqueue_mp] concurrently with the consumer,
    interleaved at every shared access, what the consumer has received is exactly a prefix
    of the mbufs in the order of the successful reservations: nothing is lost, duplicated,
    reordered or overwritten. At most [slots - 1] mbufs are reserved and not yet received,
    and every committed one is in its slot. *)
Theorem mpsc_concurrent_fifo n q s :
  zlen q = slots -> reach n q s ->
  received s `prefix_of` log s /\ zlen (log s) - zlen (received s) <= slots - 1 /\
  forall i, zlen (received s) <= i < pt s -> queue s !! Z.to_nat (i mod slots) = log s !! Z.to_nat i.
Proof using Hslots.
  intros Hq Hr. destruct (reach_inv n q s Hq Hr) as [Hlog Hord Hql Hcom _ _ _ _ Hrec]. unfold mask in *.
  assert (Hl : zlen (received s) = ct s) by (rewrite Hrec, length_take; lia).
  split; [exists (drop (Z.to_nat (ct s)) (log s)); by rewrite Hrec, take_drop|].
  rewrite Hl. split; [lia|done].
Qed.

(** C33: A producer that spins on the commit of earlier reservations is never waiting for
    nothing: the oldest uncommitted reservation belongs to another producer, which can take
    its next step (store its next mbuf, or commit). *)
Theorem mpsc_spin_progress n q s j ms h ins :
  zlen q = slots -> reach n q s ->
  prods s !! j = Some (PActive ms h ins ins) -> pt s <> h ->
  exists j' ms' ins' k' s', j' <> j /\ prods s !! j' = Some (PActive ms' (pt s) ins' k') /\
    step s s' /\ (prods s' !! j' = Some (PActive ms' (pt s) ins' (k' + 1)) \/ prods s' !! j' = Some PIdle).
Proof using Hslots.
  intros Hq Hr Hj Hne. destruct (reach_inv n q s Hq Hr) as [_ _ _ _ Hps _ Hcov _ _].
  destruct (Hps j _ Hj) as (Hh & He & Hins & _).
  destruct (Hcov (pt s)) as (j' & ms' & h' & ins' & k' & Hj' & Hh'); [lia|].
  destruct (Hps j' _ Hj') as (Hph & _ & Hins' & Hk' & _). assert (h' = pt s) as -> by lia.
  exists j', ms', ins', k'. pose proof (lookup_lt_Some _ _ _ Hj') as Hlt.
  assert (Hd : j' <> j) by (intros ->; congruence).
  destruct (decide (k' < ins')) as [Hk|Hk].
  - destruct (lookup_lt_is_Some_2 ms' (Z.to_nat k')) as [m Hm]; [lia|].
    eexists. split; [done|]. split; [done|]. split; [by eapply s_store|]. left. by apply list_lookup_insert_eq.
  - replace k' with ins' in * by lia. eexists. split; [done|]. split; [done|].
    split; [by eapply s_commit|]. right. by apply list_lookup_insert_eq.
Qed.

End system.
(** ** Witnesses: four slots and two producers; the second producer reserved last, has
    stored its mbuf and spins on the first, which has reserved but not stored. *)

Lemma slots_4 : exists k, 0 <= k <= 63 /\ 4 = 2 ^ k.
Proof. by exists 2. Qed.

Tactic Notation "run_step" hyp(r) uconstr(c) :=
  let r' := fresh "r" in
  eassert (r' : reach 4 2 [0; 0; 0; 0] _);
  [eapply reach_step; [exact r|eapply c; (reflexivity || (simpl; lia))|vm_compute; discriminate]|];
  vm_compute in r'; clear r; rename r' into r.

Definition spinning : state :=
  mkState 2 0 0 0 [0; 8; 0; 0] [PActive [7] 0 1 0; PActive [8] 1 1 1] CIdle [7; 8] [].

Lemma spinning_reach : reach 4 2 [0; 0; 0; 0] spinning.
Proof.
  pose proof (reach_init 4 2 [0; 0; 0; 0]) as r. vm_compute in r.
  run_step r (s_call 4 _ 0%nat [7]). run_step r (s_head 4 _ 0%nat).
  run_step r (s_free 4 _ 0%nat).
  run_step r (s_cas_ok 4 _ 0%nat).
  run_step r (s_call 4 _ 1%nat [8]). run_step r (s_head 4 _ 1%nat).
  run_step r (s_free 4 _ 1%nat).
  run_step r (s_cas_ok 4 _ 1%nat).
  run_step r (s_store 4 _ 1%nat). exact r.
Qed.

Definition drained : state :=
  mkState 2 2 2 2 [7; 8; 0; 0] [PIdle; PIdle] CIdle [7; 8] [7; 8].

Lemma drained_reach : reach 4 2 [0; 0; 0; 0] drained.
Proof.
  pose proof spinning_reach as r. unfold spinning in r.
  run_step r (s_store 4 _ 0%nat).
  run_step r (s_commit 4 _ 0%nat).
  run_step r (s_commit 4 _ 1%nat).
  run_step r (c_call 4 _ 3). run_step r (c_avail 4 _ _).
  run_step r (c_reserve 4 _ _).
  run_step r (c_load 4 _ _).
  run_step r (c_load 4 _ _).
  run_step r (c_commit 4 _ _). exact r.
Qed.

Lemma mpsc_concurrent_fifo_witness : [7; 8] `prefix_of` [7; 8].
Proof. exact (proj1 (mpsc_concurrent_fifo 4 slots_4 2 [0; 0; 0; 0] drained eq_refl drained_reach)). Defined.

Lemma mpsc_spin_progress_witness :
  exists j' ms' ins' k' s', j' <> 1%nat /\ prods spinning !! j' = Some (PActive ms' 0 ins' k') /\
    step 4 spinning s' /\ (prods s' !! j' = Some (PActive ms' 0 ins' (k' + 1)) \/ prods s' !! j' = Some PIdle).
Proof.
  apply (mpsc_spin_progress 4 slots_4 2 [0; 0; 0; 0] spinning 1 [8] 1 1 eq_refl spinning_reach eq_refl).
  discriminate.
Defined.

End Interleave.
