(* ===== verification/Batch.v ===== *)
(** * Packet batches and the traits of batch operators
    ([framework/src/operators/packet_batch.rs], [act.rs], [iterator.rs],
    [framework/src/interface/mod.rs])

    The world a batch runs in is the heap of mbufs and the state [Net] of whatever the
    ports are connected to. A port is anything with a [recv] or a [send]. A method of a
    batch of type [B] threads [B * World]. A [&mut PacketBatch] that [get_packet_batch]
    returns is modelled by running the borrower's code on it. *)

From stdpp Require Import sorting.
From S2P Require Import Prelude Headers Packet.
Import Mbuf Pkt.

Record World (Net : Type) : Type := mkWorld { heap : Heap; net : Net }.
#[global] Arguments mkWorld {Net}.
#[global] Arguments heap {Net}.
#[global] Arguments net {Net}.

(** The [&mut [*mut MBuf]] argument is passed in and handed back. *)
Class PacketRx (Net R : Type) : Type :=
  recv : R -> list Z -> St (World Net) (result Z * list Z).
Class PacketTx (Net R : Type) : Type :=
  send : R -> list Z -> St (World Net) (result Z * list Z).

(** A [&PacketTx] trait object: its [send] *)
Definition DynTx (Net : Type) : Type := list Z -> St (World Net) (result Z * list Z).

(** A [Box<FnMut(A) -> R>]: its captured state and what a call does to it and to the heap *)
Class FnMut (C A R : Type) : Type := call_mut : A -> St (C * Heap) R.

(** Run packet code inside the method of a batch. *)
Definition on_heap {Net B A} (m : St Heap A) : St (B * World Net) A :=
  zoom (fun s => heap s.2) (fun h s => (s.1, mkWorld h (net s.2))) m.

Module PacketBatch.

(** [array] is a [Vec]: its elements, and in [spare] the memory between its length and
    its capacity, which [set_len] exposes. *)
Record PacketBatch : Type := mkBatch {
  array : list Z;
  spare : list Z;
  scratch : list Z;
  parent_tasks : list Z
}.

Definition vec_capacity (b : PacketBatch) : Z := zlen (array b) + zlen (spare b).

Definition with_array (b : PacketBatch) (a : list Z) : PacketBatch :=
  mkBatch a (spare b) (scratch b) (parent_tasks b).
Definition with_scratch (b : PacketBatch) (l : list Z) : PacketBatch :=
  mkBatch (array b) (spare b) l (parent_tasks b).
Definition resized (b : PacketBatch) (n : Z) : PacketBatch :=
  mkBatch (take (Z.to_nat n) (array b ++ spare b)) (drop (Z.to_nat n) (array b ++ spare b))
    (scratch b) (parent_tasks b).

(** [Vec::set_len]: the new length must not exceed the capacity. *)
Definition set_len (b : PacketBatch) (n : Z) : outcome PacketBatch :=
  if (0 <=? n) && (n <=? vec_capacity b) then Ret (resized b n) else Undef.

Section operations.
Context {P : Profile} {Z_ : Zcsi} {Net : Type}.

Abbreviation M A := (St (PacketBatch * World Net) A).

Definition self : M PacketBatch := sgets fst.
Definition put (b : PacketBatch) : M unit := smodify (fun s => (b, s.2)).
Definition on_world {A} (m : St (World Net) A) : M A := zoom snd (fun w s => (s.1, w)) m.

(** A freshly allocated [Vec] holds nothing meaningful; its slots are null here. *)
Definition new (cnt : Z) : outcome PacketBatch :=
  if cnt <? 0 then Panic
  else Ret {| array := []; spare := replicate (Z.to_nat cnt) 0; scratch := []; parent_tasks := [] |}.

Definition add_parent_task (task : Z) : M unit :=
  let* b := self in put (mkBatch (array b) (spare b) (scratch b) (parent_tasks b ++ [task])).

Definition get_parent_task (b : PacketBatch) : list Z := parent_tasks b.

Definition available (b : PacketBatch) : Z := zlen (array b).

Definition packet_ptr (b : PacketBatch) : list Z := array b.

(** [mbuf_alloc_bulk] writes from the start of the vector's memory, whatever its length. *)
Definition alloc_packet_batch (len cnt : Z) : M (result unit) :=
  let* b := self in
  if vec_capacity b <? wrap 64 cnt then sret (Err FailedAllocation)
  else
    let* '(ret, ptrs) := on_heap (mbuf_alloc_bulk len cnt) in
    if vec_capacity b <? zlen ptrs then fun _ => Undef
    else
      let mem := splice (array b ++ spare b) 0 ptrs in
      let b := mkBatch (take (length (array b)) mem) (drop (length (array b)) mem) (scratch b) (parent_tasks b) in
      if ret =? 0 then
        let* b := slift (set_len b cnt) in
        let* _ := put b in sret (Ok tt)
      else let* _ := put b in sret (Err FailedAllocation).

Definition free_packet_batch : M bool :=
  let* b := self in
  if available b =? 0 then sret true
  else
    let len := as_signed 32 (zlen (array b)) in
    let* ret := on_heap (mbuf_free_bulk (take (Z.to_nat len) (packet_ptr b))) in
    let* b := slift (set_len b 0) in
    let* _ := put b in
    sret (ret =? 0).

Definition allocate_batch_with_size (len : Z) : M (result unit) :=
  let* b := self in alloc_packet_batch len (as_signed 32 (vec_capacity b)).

Definition allocate_partial_batch_with_size (len cnt : Z) : M (result unit) :=
  let* r := alloc_packet_batch len cnt in
  match r with Ok _ => sret (Ok tt) | Err _ => sret (Err FailedAllocation) end.

Definition deallocate_batch : M (result unit) :=
  let* ok := free_packet_batch in
  sret (if ok then Ok tt else Err FailedDeallocation).

Definition add_to_batch (added : Z) : M unit :=
  let* b := self in let* b := slift (set_len b added) in put b.

Definition consume_batch : M unit :=
  let* b := self in let* b := slift (set_len b 0) in put b.

(** [array[new_idx] = array[idx]] for [idx] from [consumed] on *)
Fixpoint shift_down (n : nat) (l : list Z) (new_idx idx : Z) : outcome (list Z) :=
  match n with
  | O => Ret l
  | S n =>
      let! x := vindex l idx in
      let! l := vset l new_idx x in
      shift_down n l (new_idx + 1) (idx + 1)
  end.

Definition consume_batch_partial (consumed : Z) : M unit :=
  let* b := self in
  let len := zlen (array b) in
  let* l := slift (shift_down (Z.to_nat (len - consumed)) (array b) 0 consumed) in
  let* rest := slift (usub 64 len consumed) in
  let* b := slift (set_len (with_array b l) rest) in
  put b.

Definition recv_internal {R} {Rx : PacketRx Net R} (port : R) : M (result Z) :=
  let* b := self in
  let* _ := add_to_batch (vec_capacity b) in
  let* b := self in
  let* '(r, pkts) := on_world (recv port (packet_ptr b)) in
  let* _ := put (with_array b pkts) in
  match r with
  | Err e => sret (Err e)
  | Ok n => let* _ := add_to_batch n in sret (Ok n)
  end.

(** [PacketBatch::recv] *)
Definition recv_batch {R} {Rx : PacketRx Net R} (port : R) : M (result Z) :=
  let* r := deallocate_batch in
  match r with
  | Err e => sret (Err e)
  | Ok _ => recv_internal port
  end.

(** The first loop of [drop_packets_stable]: returns the array, the scratch vector,
    [idx_orig], [idx_new] and [remove_idx]. *)
Fixpoint drop_loop (fuel : nat) (idxes arr scr : list Z) (idx_orig idx_new remove_idx end_ : Z)
    : outcome (list Z * list Z * Z * Z * Z) :=
  if (idx_orig <? end_) && (remove_idx <? zlen idxes) then
    match fuel with
    | O => NoFuel
    | S fuel =>
        let! test_idx := vindex idxes remove_idx in
        assert_ (idx_orig <=? test_idx) (
        if idx_orig =? test_idx then
          let! x := vindex arr idx_orig in
          drop_loop fuel idxes arr (scr ++ [x]) (idx_orig + 1) idx_new (remove_idx + 1) end_
        else
          let! x := vindex arr idx_orig in
          let! arr := vset arr idx_new x in
          drop_loop fuel idxes arr scr (idx_orig + 1) (idx_new + 1) remove_idx end_)
    end
  else Ret (arr, scr, idx_orig, idx_new, remove_idx).

(** The second loop: returns the array and [idx_new]. *)
Fixpoint copy_loop (fuel : nat) (arr : list Z) (idx_orig idx_new end_ : Z) : outcome (list Z * Z) :=
  if idx_orig <? end_ then
    match fuel with
    | O => NoFuel
    | S fuel =>
        let! x := vindex arr idx_orig in
        let! arr := vset arr idx_new x in
        copy_loop fuel arr (idx_orig + 1) (idx_new + 1) end_
    end
  else Ret (arr, idx_new).

Definition drop_packets_stable (idxes : list Z) : M (option Z) :=
  if zlen idxes =? 0 then sret (Some 0)
  else
    let* b := self in
    let end_ := zlen (array b) in
    let fuel := length (array b) in
    let* '(arr, scr, idx_orig, idx_new, remove_idx) :=
      slift (drop_loop fuel idxes (array b) (scratch b) 0 0 0 end_) in
    let* '(arr, idx_new) := slift (copy_loop fuel arr idx_orig idx_new end_) in
    let b := with_scratch (with_array b arr) scr in
    if remove_idx <? zlen idxes then let* _ := put b in sret None
    else
      let* b := slift (set_len b idx_new) in
      if zlen (scratch b) =? 0 then let* _ := put b in sret (Some 0)
      else
        let len := zlen (scratch b) in
        let* ret := on_heap (mbuf_free_bulk (take (Z.to_nat (as_signed 32 len)) (scratch b))) in
        let* _ := put (with_scratch b []) in
        sret (if ret =? 0 then Some len else None).

(** [BatchIterator for PacketBatch] *)
Definition next_payload (idx : Z) : M (option (Packet NullHeader EmptyMetadata)) :=
  let* b := self in
  if idx <? zlen (array b) then
    let* p := slift (vindex (array b) idx) in
    let* pkt := on_heap (packet_from_mbuf_no_free NullHeader p 0) in
    sret (Some pkt)
  else sret None.

Definition start : M Z := sret 0.

(** [Act for PacketBatch]; the [while] of [send_q] ends in [break] *)
Definition act : M unit := sret tt.
Definition done : M unit := sret tt.

Definition send_q (port : DynTx Net) : M (result Z) :=
  let* b := self in
  if 0 <? available b then
    let* '(r, pkts) := on_world (port (packet_ptr b)) in
    let* _ := put (with_array b pkts) in
    match r with
    | Err e => sret (Err e)
    | Ok sent =>
        let* _ := consume_batch_partial sent in
        let* total := slift (uadd 32 0 sent) in
        sret (Ok total)
    end
  else sret (Ok 0).

Definition capacity (b : PacketBatch) : Z := as_signed 32 (vec_capacity b).
Definition drop_packets (idxes : list Z) : M (option Z) := drop_packets_stable idxes.
Definition clear_packets : M unit := consume_batch.
Definition get_task_dependencies (b : PacketBatch) : list Z := get_parent_task b.

(** [Drop for PacketBatch] ignores a failed free. *)
Definition batch_drop : M unit := let* _ := free_packet_batch in sret tt.

End operations.

(** ** Dropping packets by index *)

(** The entries of [l], the first of which has index [i], whose index is ([b = true]) or is
    not ([b = false]) listed *)
Fixpoint sieve (b : bool) (idxes : list Z) (i : Z) (l : list Z) : list Z :=
  match l with
  | [] => []
  | x :: l =>
      if eqb b (bool_decide (i ∈ idxes)) then x :: sieve b idxes (i + 1) l else sieve b idxes (i + 1) l
  end.

(** Ascending indices, the first of them at least [i] *)
Definition ascending (i : Z) (idxes : list Z) : Prop := StronglySorted Z.lt idxes /\ Forall (Z.le i) idxes.

#[export] Instance ascending_dec i idxes : Decision (ascending i idxes).
Proof. unfold ascending. apply _. Defined.

Lemma ascending_cons_inv i t idxes :
  ascending i (t :: idxes) -> i <= t /\ ascending (t + 1) idxes.
Proof.
  intros [[Hs Ht]%StronglySorted_inv Hi]. apply Forall_cons in Hi as [? Hi].
  repeat split; try done. eapply Forall_impl; [exact Ht|]. simpl. lia.
Qed.

Lemma ascending_mono i j idxes : ascending j idxes -> i <= j -> ascending i idxes.
Proof. intros [? Hi] ?. split; [done|]. eapply Forall_impl; [exact Hi|]. simpl. lia. Qed.

Lemma ascending_later i j idxes : ascending i idxes -> j < i -> j ∉ idxes.
Proof. intros [_ Hi] ? Hj. eapply Forall_forall in Hi; [|exact Hj]. simpl in Hi. lia. Qed.

Lemma sieve_later b idxes i l t : t < i -> sieve b (t :: idxes) i l = sieve b idxes i l.
Proof.
  revert i. induction l as [|x l IH]; intros i Hi; [done|]. cbn [sieve]. rewrite IH by lia.
  replace (bool_decide (i ∈ t :: idxes)) with (bool_decide (i ∈ idxes)); [done|].
  apply bool_decide_ext. rewrite elem_of_cons. split; [tauto|intros [->|]; [lia|done]].
Qed.

Lemma sieve_nil b i l : sieve b [] i l = if b then [] else l.
Proof.
  revert i. induction l as [|x l IH]; intros i; [by destruct b|]. cbn [sieve].
  rewrite IH, bool_decide_false by (apply not_elem_of_nil). by destruct b.
Qed.

Lemma sieve_permutation idxes i l : sieve false idxes i l ++ sieve true idxes i l ≡ₚ l.
Proof.
  revert i. induction l as [|x l IH]; intros i; [done|]. cbn [sieve].
  case_bool_decide; simpl; [|by rewrite IH]. rewrite <-Permutation_middle. by rewrite IH.
Qed.

Lemma sieve_here b t idxes x l :
  sieve b (t :: idxes) t (x :: l) = (if b then [x] else []) ++ sieve b idxes (t + 1) l.
Proof.
  cbn [sieve]. rewrite bool_decide_true by (apply list_elem_of_here).
  rewrite sieve_later by lia. by destruct b.
Qed.

Lemma sieve_skip b idxes i x l :
  i ∉ idxes -> sieve b idxes i (x :: l) = (if b then [] else [x]) ++ sieve b idxes (i + 1) l.
Proof. intros. cbn [sieve]. rewrite bool_decide_false by done. by destruct b. Qed.

Lemma ascending_skip i t idxes : ascending i (t :: idxes) -> t <> i -> ascending (i + 1) (t :: idxes).
Proof.
  intros [Hs Hi] ?. split; [done|]. apply StronglySorted_inv in Hs as [_ Hs].
  apply Forall_cons in Hi as [? Hi]. constructor; [lia|]. eapply Forall_impl; [exact Hs|]. simpl. lia.
Qed.

Lemma length_sieve_true idxes i l :
  ascending i idxes -> Forall (fun t => t < i + zlen l) idxes -> length (sieve true idxes i l) = length idxes.
Proof.
  revert i idxes. induction l as [|x l IH]; intros i idxes Ha Hr.
  - destruct idxes as [|t idxes]; [done|]. apply ascending_cons_inv in Ha as [? _].
    apply Forall_cons in Hr as [? _]. simpl in *. lia.
  - destruct idxes as [|t idxes]; [by rewrite sieve_nil|]. simpl length in Hr.
    destruct (decide (t = i)) as [->|].
    + apply ascending_cons_inv in Ha as [_ Ha]. apply Forall_cons in Hr as [_ Hr].
      rewrite sieve_here. simpl. f_equal. apply IH; [done|]. eapply Forall_impl; [exact Hr|]. simpl. lia.
    + apply ascending_skip in Ha; [|done]. rewrite sieve_skip by (eapply ascending_later; [done|lia]).
      apply IH; [done|]. eapply Forall_impl; [exact Hr|]. simpl. lia.
Qed.

Lemma filter_all {A} (Q : A -> Prop) `{!forall x, Decision (Q x)} l : Forall Q l -> filter Q l = l.
Proof. induction 1 as [|x l Hx _ IH]; [done|]. by rewrite filter_cons_True, IH. Qed.

Lemma filter_none {A} (Q : A -> Prop) `{!forall x, Decision (Q x)} l :
  Forall (fun x => ~ Q x) l -> filter Q l = [].
Proof. induction 1 as [|x l Hx _ IH]; [done|]. by rewrite filter_cons_False, IH. Qed.

Lemma vindex_middle (l k : list Z) x i : i = zlen l -> vindex (l ++ x :: k) i = Ret x.
Proof. intros ->. apply vindex_Ret. split; [lia|]. rewrite Nat2Z.id. by apply list_lookup_middle. Qed.

(** One step of moving an element down over the hole left by the dropped ones *)
Lemma move_down (pre mid rest : list Z) x :
  exists mid', length mid' = length mid /\
    vset (pre ++ mid ++ x :: rest) (zlen pre) x = Ret ((pre ++ [x]) ++ mid' ++ rest).
Proof.
  rewrite vset_Ret by (rewrite !length_app; simpl; lia). rewrite Nat2Z.id.
  destruct mid as [|m mid].
  - exists []. split; [done|]. simpl. rewrite insert_app_r_alt, Nat.sub_diag by lia. by rewrite <-app_assoc.
  - exists (mid ++ [x]). split; [rewrite length_app; simpl; lia|].
    rewrite insert_app_r_alt, Nat.sub_diag by lia. simpl. by rewrite <-!app_assoc.
Qed.

Lemma copy_loop_spec fuel (pre mid rest : list Z) end_ :
  end_ = zlen (pre ++ mid ++ rest) -> (length rest <= fuel)%nat ->
  exists mid', length mid' = length mid /\
    copy_loop fuel (pre ++ mid ++ rest) (zlen pre + zlen mid) (zlen pre) end_ =
    Ret ((pre ++ rest) ++ mid', zlen (pre ++ rest)).
Proof.
  revert fuel pre mid. induction rest as [|x rest IH]; intros fuel pre mid -> Hf.
  - exists mid. split; [done|].
    destruct fuel; cbn [copy_loop]; rewrite (proj2 (Z.ltb_ge _ _)) by (rewrite !length_app; simpl; lia).
    all: by rewrite !app_nil_r.
  - destruct fuel as [|fuel]; [simpl in Hf; lia|].
    destruct (move_down pre mid rest x) as (mid' & Hl & Hm).
    destruct (IH fuel (pre ++ [x]) mid') as (mid'' & Hl' & IH');
      [rewrite !length_app; simpl; lia|simpl in Hf; lia|].
    exists mid''. split; [lia|]. cbn [copy_loop].
    rewrite (proj2 (Z.ltb_lt _ _)) by (rewrite !length_app; simpl; lia).
    rewrite app_assoc, vindex_middle by (rewrite length_app; lia). cbn [obind].
    rewrite <-app_assoc, Hm. cbn [obind].
    replace (zlen pre + 1) with (zlen (pre ++ [x])) by (rewrite length_app; simpl; lia).
    replace (zlen pre + zlen mid + 1) with (zlen (pre ++ [x]) + zlen mid') by (rewrite length_app; simpl; lia).
    rewrite IH'. by rewrite <-!app_assoc.
Qed.

(** The first loop, entered with indices [done_] consumed: it stops at the end of the array
    or of the indices, having compacted what it passed. *)
Lemma drop_loop_spec fuel (done_ idxes pre mid rest scr : list Z) :
  ascending (zlen pre + zlen mid) idxes -> (length rest <= fuel)%nat ->
  exists todo passed rest' mid' scr' : list Z,
    drop_loop fuel (done_ ++ idxes) (pre ++ mid ++ rest) scr (zlen pre + zlen mid) (zlen pre) (zlen done_)
      (zlen (pre ++ mid ++ rest)) =
    Ret ((pre ++ passed) ++ mid' ++ rest', scr ++ scr', zlen (pre ++ passed) + zlen mid', zlen (pre ++ passed),
         zlen (done_ ++ idxes) - zlen todo) /\
    (todo = [] \/ rest' = []) /\
    sieve false idxes (zlen pre + zlen mid) rest = passed ++ rest' /\
    sieve true idxes (zlen pre + zlen mid) rest = scr' /\
    zlen todo = zlen (filter (fun t => zlen (pre ++ mid ++ rest) <= t) idxes) /\
    zlen (pre ++ mid ++ rest) = zlen ((pre ++ passed) ++ mid' ++ rest').
Proof.
  revert fuel done_ idxes pre mid scr.
  induction rest as [|x rest IH]; intros fuel done_ idxes pre mid scr Ha Hf.
  - exists idxes, [], [], mid, []. split_and!; try done; [|by right| |by rewrite !app_nil_r].
    + destruct fuel; cbn [drop_loop]; rewrite (proj2 (Z.ltb_ge _ _)) by (rewrite !length_app; simpl; lia).
      all: simpl; rewrite !app_nil_r; repeat f_equal; rewrite length_app; lia.
    + f_equal. f_equal. symmetry. apply filter_all. destruct Ha as [_ Ha].
      eapply Forall_impl; [exact Ha|]. simpl. rewrite app_nil_r, length_app. lia.
  - destruct fuel as [|fuel]; [simpl in Hf; lia|]. destruct idxes as [|t idxes].
    { exists [], [], (x :: rest), mid, []. rewrite !sieve_nil, !app_nil_r.
      split_and!; try done; [|by left]. cbn [drop_loop].
      rewrite (proj2 (Z.ltb_ge (zlen done_) (zlen done_))), andb_false_r by lia. repeat f_equal. simpl. lia. }
    assert (Hlt : (zlen pre + zlen mid <? zlen (pre ++ mid ++ x :: rest)) &&
                  (zlen done_ <? zlen (done_ ++ t :: idxes)) = true).
    { apply andb_true_iff. split; apply Z.ltb_lt; rewrite !length_app; simpl; lia. }
    cbn [drop_loop]. rewrite Hlt, vindex_middle by done. cbn [obind].
    pose proof (ascending_cons_inv _ _ _ Ha) as [Hle Ha'].
    rewrite assert_true by lia. rewrite app_assoc, vindex_middle by (rewrite length_app; lia). cbn [obind].
    rewrite <-app_assoc.
    destruct (Z.eqb_spec (zlen pre + zlen mid) t) as [<-|Hne].
    + destruct (IH fuel (done_ ++ [zlen pre + zlen mid]) idxes pre (mid ++ [x]) (scr ++ [x]))
        as (todo & passed & rest' & mid' & scr' & He & Hor & Hk & Hd & Ht & Hl);
        [by rewrite length_app, Nat2Z.inj_add, Z.add_assoc|simpl in Hf; lia|].
      exists todo, passed, rest', mid', (x :: scr'). rewrite !sieve_here.
      rewrite length_app, Nat2Z.inj_add, Z.add_assoc in Hk, Hd, He. rewrite <-!app_assoc in *. simpl in *.
      change (Z.of_nat 1) with 1 in *.
      replace (zlen done_ + 1) with (zlen (done_ ++ [zlen pre + zlen mid])) by (rewrite length_app; simpl; lia).
      rewrite He. split_and!; try done; [congruence|].
      rewrite Ht, filter_cons_False; [done|]. rewrite !length_app. simpl. lia.
    + destruct (move_down pre mid rest x) as (mid1 & Hl1 & ->). cbn [obind].
      destruct (IH fuel done_ (t :: idxes) (pre ++ [x]) mid1 scr)
        as (todo & passed & rest' & mid' & scr' & He & Hor & Hk & Hd & Ht & Hl);
        [|simpl in Hf; lia|].
      { rewrite length_app, Hl1. simpl. replace (Z.of_nat _ + _) with (zlen pre + zlen mid + 1) by lia.
        by apply ascending_skip. }
      exists todo, (x :: passed), rest', mid', scr'.
      rewrite !sieve_skip by (apply ascending_skip in Ha; [|done]; eapply ascending_later; [done|lia]).
      replace (zlen (pre ++ [x]) + zlen mid1) with (zlen pre + zlen mid + 1) in * by (rewrite length_app; simpl; lia).
      replace (zlen (pre ++ [x])) with (zlen pre + 1) in * by (rewrite length_app; simpl; lia).
      rewrite <-!app_assoc in *. simpl in *.
      replace (zlen (pre ++ x :: mid1 ++ rest)) with (zlen (pre ++ mid ++ x :: rest)) in *
        by (rewrite !length_app; simpl; rewrite length_app; lia).
      rewrite He. split_and!; try done. congruence.
Qed.

Lemma drop_both_loops idxes arr scr :
  ascending 0 idxes ->
  exists gap idx_orig idx_new arr1,
    drop_loop (length arr) idxes arr scr 0 0 0 (zlen arr) =
    Ret (arr1, scr ++ sieve true idxes 0 arr, idx_orig, idx_new,
         zlen idxes - zlen (filter (fun t => zlen arr <= t) idxes)) /\
    copy_loop (length arr) arr1 idx_orig idx_new (zlen arr) =
    Ret (sieve false idxes 0 arr ++ gap, zlen (sieve false idxes 0 arr)) /\
    length gap = length (sieve true idxes 0 arr).
Proof.
  intros Ha. destruct (drop_loop_spec (length arr) [] idxes [] [] arr scr)
    as (todo & passed & rest' & mid' & scr' & He & Hor & Hk & Hd & Ht & Hl); [done..|].
  simpl in *. change (Z.of_nat 0 + Z.of_nat 0) with 0 in *. change (Z.of_nat 0) with 0 in *.
  pose proof (Permutation_length (sieve_permutation idxes 0 arr)) as Hp.
  rewrite Hk, Hd, !length_app in Hp. rewrite !length_app in Hl.
  destruct (copy_loop_spec (length arr) passed mid' rest' (zlen arr)) as (gap & Hg & Hc);
    [rewrite !length_app; lia|lia|].
  exists gap, (zlen passed + zlen mid'), (zlen passed), (passed ++ mid' ++ rest').
  rewrite Hk, Hd, He, Ht, Hc. split_and!; try done. lia.
Qed.

Section spec.
Context {P : Profile} {Z_ : Zcsi} {Net : Type}.

(** The capacity is an [i32] count. *)
Definition batch_ok (b : PacketBatch) : Prop := scratch b = [] /\ vec_capacity b < 2 ^ 31.

#[export] Instance batch_ok_dec b : Decision (batch_ok b).
Proof. unfold batch_ok. apply _. Defined.

Lemma as_i32_small z : 0 <= z < 2 ^ 31 -> as_signed 32 z = z.
Proof. intros. apply as_signed_small; [done|]. unfold sint. simpl in *. lia. Qed.

Lemma set_len_ok b n : 0 <= n <= vec_capacity b -> set_len b n = Ret (resized b n).
Proof. intros. unfold set_len. by rewrite !(proj2 (Z.leb_le _ _)) by lia. Qed.

Lemma resized_app b l k n : array b = l ++ k -> n = zlen l ->
  resized b n = mkBatch l (k ++ spare b) (scratch b) (parent_tasks b).
Proof.
  intros Hb ->. unfold resized. rewrite Hb, Nat2Z.id, <-app_assoc.
  by rewrite take_app_length, drop_app_length.
Qed.

(** Ascending indices within the batch: the listed mbufs go to the allocator. *)
Lemma drop_packets_ok (b : PacketBatch) (w : World Net) idxes ret h :
  batch_ok b -> idxes <> [] -> ascending 0 idxes -> Forall (fun t => t < zlen (array b)) idxes ->
  mbuf_free_bulk (sieve true idxes 0 (array b)) (heap w) = Ret (ret, h) ->
  exists gap,
    length gap = length idxes /\
    drop_packets_stable idxes (b, w) =
    Ret (if ret =? 0 then Some (zlen idxes) else None,
         (mkBatch (sieve false idxes 0 (array b)) (gap ++ spare b) [] (parent_tasks b), mkWorld h (net w))).
Proof.
  intros [Hs Hc] Hne Ha Hr Hf. unfold vec_capacity in Hc.
  destruct (drop_both_loops idxes (array b) [] Ha) as (gap & io & iw & arr1 & He & Hcp & Hg).
  assert (Hn : length (sieve true idxes 0 (array b)) = length idxes) by (by apply length_sieve_true).
  pose proof (Permutation_length (sieve_permutation idxes 0 (array b))) as Hp. rewrite length_app in Hp.
  exists gap. split; [lia|]. unfold drop_packets_stable.
  destruct (Z.eqb_spec (zlen idxes) 0); [by destruct idxes|].
  rewrite (filter_none _ idxes), Z.sub_0_r in He by (eapply Forall_impl; [exact Hr|]; simpl; lia).
  erewrite sbind_Ret by done. simpl. rewrite Hs.
  erewrite sbind_Ret by (by apply slift_Ret). cbn beta iota.
  erewrite sbind_Ret by (by apply slift_Ret). cbn beta iota zeta. rewrite Z.ltb_irrefl.
  unfold sbind at 1, slift at 1. rewrite set_len_ok.
  2: { unfold vec_capacity. simpl. rewrite length_app. lia. }
  erewrite resized_app by done. simpl. destruct (Z.eqb_spec (zlen (sieve true idxes 0 (array b))) 0); [lia|].
  rewrite as_i32_small, Nat2Z.id, take_ge by lia.
  unfold sbind, on_heap, zoom. simpl. rewrite Hf. simpl. unfold with_scratch. simpl. by rewrite Hn.
Qed.

(** An index past the end of the batch *)
Lemma drop_packets_unknown (b : PacketBatch) (w : World Net) idxes :
  batch_ok b -> ascending 0 idxes -> Exists (fun t => zlen (array b) <= t) idxes ->
  exists gap,
    length gap = length (sieve true idxes 0 (array b)) /\
    drop_packets_stable idxes (b, w) =
    Ret (None, (mkBatch (sieve false idxes 0 (array b) ++ gap) (spare b) (sieve true idxes 0 (array b))
                  (parent_tasks b), w)).
Proof.
  intros [Hs Hc] Ha Hx.
  destruct (drop_both_loops idxes (array b) [] Ha) as (gap & io & iw & arr1 & He & Hcp & Hg).
  exists gap. split; [done|]. unfold drop_packets_stable.
  assert (Hpos : 0 < zlen (filter (fun t => zlen (array b) <= t) idxes)).
  { apply Exists_exists in Hx as (t & Ht & Hle). assert (Hin : t ∈ filter (fun t => zlen (array b) <= t) idxes)
      by (by apply list_elem_of_filter). destruct (filter _ idxes); [by apply not_elem_of_nil in Hin|]. simpl. lia. }
  destruct (Z.eqb_spec (zlen idxes) 0); [by destruct idxes; [apply Exists_nil in Hx|]|].
  erewrite sbind_Ret by done. simpl. rewrite Hs.
  erewrite sbind_Ret by (by apply slift_Ret). cbn beta iota.
  erewrite sbind_Ret by (by apply slift_Ret). cbn beta iota zeta.
  by rewrite (proj2 (Z.ltb_lt _ _)) by lia.
Qed.

(** ** Freeing, receiving and sending *)

(** The allocator takes back the mbufs [l]; it is not called when there are none. *)
Definition freed (l : list Z) (h h' : Heap) : Prop :=
  match l with [] => h' = h | _ => mbuf_free_bulk l h = Ret (0, h') end.

Lemma free_packet_batch_ok (b : PacketBatch) (w : World Net) h :
  batch_ok b -> freed (array b) (heap w) h ->
  free_packet_batch (b, w) = Ret (true, (resized b 0, mkWorld h (net w))).
Proof.
  intros [Hs Hc] Hf. unfold vec_capacity in Hc. unfold free_packet_batch, available.
  erewrite sbind_Ret by done. cbn [fst snd]. destruct (Z.eqb_spec (zlen (array b)) 0) as [Hz|Hz].
  - destruct b as [[|x l] sp sc pt], w; [|discriminate Hz]. simpl in *. by subst.
  - unfold packet_ptr. rewrite as_i32_small, Nat2Z.id, take_ge by lia.
    assert (Hf' : mbuf_free_bulk (array b) (heap w) = Ret (0, h)) by (by destruct (array b)).
    unfold sbind, on_heap, zoom. simpl. rewrite Hf'. simpl. rewrite set_len_ok; [done|].
    unfold vec_capacity. lia.
Qed.

Lemma deallocate_batch_ok (b : PacketBatch) (w : World Net) h :
  batch_ok b -> freed (array b) (heap w) h ->
  deallocate_batch (b, w) = Ret (Ok tt, (resized b 0, mkWorld h (net w))).
Proof. intros. unfold deallocate_batch. by erewrite sbind_Ret by (by apply free_packet_batch_ok). Qed.

Lemma shift_down_spec (pre mid rest : list Z) :
  exists mid', length mid' = length mid /\
    shift_down (length rest) (pre ++ mid ++ rest) (zlen pre) (zlen pre + zlen mid) = Ret ((pre ++ rest) ++ mid').
Proof.
  revert pre mid. induction rest as [|x rest IH]; intros pre mid.
  - exists mid. simpl. by rewrite !app_nil_r.
  - destruct (move_down pre mid rest x) as (mid' & Hl & Hm).
    destruct (IH (pre ++ [x]) mid') as (mid'' & Hl' & IH'). exists mid''. split; [lia|].
    simpl. rewrite app_assoc, vindex_middle by (rewrite length_app; lia). cbn [obind].
    rewrite <-app_assoc, Hm. cbn [obind].
    replace (zlen pre + 1) with (zlen (pre ++ [x])) by (rewrite length_app; simpl; lia).
    replace (zlen pre + zlen mid + 1) with (zlen (pre ++ [x]) + zlen mid') by (rewrite length_app; simpl; lia).
    rewrite IH'. by rewrite <-!app_assoc.
Qed.

Lemma consume_batch_partial_ok (b : PacketBatch) (w : World Net) n :
  0 <= n <= zlen (array b) -> zlen (array b) < 2 ^ 31 ->
  exists gap, zlen gap = n /\
    consume_batch_partial n (b, w) =
    Ret (tt, (mkBatch (drop (Z.to_nat n) (array b)) (gap ++ spare b) (scratch b) (parent_tasks b), w)).
Proof.
  intros Hn Hc. set (k := Z.to_nat n).
  destruct (shift_down_spec [] (take k (array b)) (drop k (array b))) as (gap & Hg & Hs).
  simpl in Hs. rewrite take_drop in Hs. rewrite length_take in *. exists gap. split; [lia|].
  unfold consume_batch_partial. erewrite sbind_Ret by done. cbn [fst snd].
  replace (Z.to_nat (zlen (array b) - n)) with (length (drop k (array b))) by (rewrite length_drop; lia).
  replace (Z.of_nat (k `min` length (array b))) with n in Hs by lia.
  erewrite sbind_Ret by (by apply slift_Ret).
  unfold usub, fit. rewrite (proj2 (Z.leb_le _ _)), (proj2 (Z.ltb_lt _ _)) by (simpl in *; lia).
  erewrite sbind_Ret by done. rewrite set_len_ok.
  2: { unfold vec_capacity. simpl. rewrite length_app, length_drop. lia. }
  erewrite resized_app by (done || (rewrite length_drop; lia)). done.
Qed.

Lemma send_q_ok (port : DynTx Net) (b : PacketBatch) (w w' : World Net) n :
  batch_ok b -> array b <> [] -> 0 <= n <= zlen (array b) ->
  port (array b) w = Ret ((Ok n, array b), w') ->
  exists gap, zlen gap = n /\
    send_q port (b, w) =
    Ret (Ok n, (mkBatch (drop (Z.to_nat n) (array b)) (gap ++ spare b) (scratch b) (parent_tasks b), w')).
Proof.
  intros [Hs Hc] Hne Hn Hp. unfold vec_capacity in Hc.
  destruct (consume_batch_partial_ok b w' n) as (gap & Hg & Hk); [done|lia|].
  exists gap. split; [done|]. unfold send_q, available, packet_ptr. erewrite sbind_Ret by done. cbn [fst snd].
  assert (Hpos : 0 < zlen (array b)) by (destruct (array b); [done|simpl; lia]).
  rewrite (proj2 (Z.ltb_lt _ _)) by done.
  erewrite sbind_Ret by (unfold on_world; apply zoom_Ret; exact Hp). cbn beta iota.
  erewrite sbind_Ret by done. simpl. replace (with_array b (array b)) with b by (by destruct b).
  erewrite sbind_Ret by exact Hk. unfold uadd, fit.
  by rewrite (proj2 (Z.leb_le _ _)), (proj2 (Z.ltb_lt _ _)) by (simpl in *; lia).
Qed.

Lemma send_q_empty (port : DynTx Net) (b : PacketBatch) (w : World Net) :
  array b = [] -> send_q port (b, w) = Ret (Ok 0, (b, w)).
Proof. intros Hb. unfold send_q, available. erewrite sbind_Ret by done. cbn [fst]. by rewrite Hb. Qed.

(** What a batch is left with when the port filled its memory with [pkts] *)
Definition received_batch (b : PacketBatch) (r : result Z) (pkts : list Z) : PacketBatch :=
  let n := match r with Ok n => n | Err _ => zlen pkts end in
  mkBatch (take (Z.to_nat n) pkts) (drop (Z.to_nat n) pkts) (scratch b) (parent_tasks b).

Lemma recv_batch_ok {R} {Rx : PacketRx Net R} (port : R) (b : PacketBatch) (w w' : World Net) h r pkts :
  batch_ok b -> freed (array b) (heap w) h ->
  recv port (array b ++ spare b) (mkWorld h (net w)) = Ret ((r, pkts), w') ->
  length pkts = length (array b ++ spare b) ->
  match r with Ok n => 0 <= n <= zlen pkts | Err _ => True end ->
  recv_batch port (b, w) = Ret (r, (received_batch b r pkts, w')).
Proof.
  intros Hb Hf Hr Hl Hn. unfold recv_batch. erewrite sbind_Ret by (by apply deallocate_batch_ok).
  cbn beta iota. unfold recv_internal. erewrite sbind_Ret by done. cbn [fst].
  set (b0 := resized b 0). assert (Hv : vec_capacity b0 = zlen pkts).
  { unfold vec_capacity, b0, resized. simpl. rewrite drop_0. lia. }
  set (b1 := mkBatch (array b ++ spare b) [] (scratch b) (parent_tasks b)).
  assert (Hall : resized b0 (vec_capacity b0) = b1).
  { rewrite Hv. unfold resized, b0, b1. simpl. rewrite drop_0, take_ge, drop_ge by lia. done. }
  erewrite sbind_Ret.
  2: { unfold add_to_batch. erewrite sbind_Ret by done. cbn [fst].
       rewrite set_len_ok, Hall by lia. done. }
  cbn [snd]. erewrite sbind_Ret by done. cbn [fst].
  erewrite sbind_Ret by (unfold on_world; apply zoom_Ret; exact Hr). cbn beta iota.
  erewrite sbind_Ret by done. cbn [snd fst]. destruct r as [n|e].
  - erewrite sbind_Ret; [done|]. unfold add_to_batch. erewrite sbind_Ret by done. cbn [fst].
    rewrite set_len_ok by (unfold vec_capacity; simpl; lia). simpl. unfold resized. simpl. by rewrite app_nil_r.
  - unfold received_batch. by rewrite take_ge, drop_ge by lia.
Qed.

(** C25: Dropping packets by a strictly ascending list of indices is stable and frees exactly
    the listed mbufs: with every index inside the batch the unlisted packets remain in order
    and the listed ones are handed to the allocator in one call; the result is their number,
    or [None] when the allocator refuses. When the last index lies outside of the batch the
    result is [None], nothing is freed and the batch keeps its old length: its tail then
    holds stale copies, and the mbufs found so far stay in the scratch vector. *)
Theorem drop_packets_stable_spec (b : PacketBatch) (w : World Net) idxes ret h :
  batch_ok b -> idxes <> [] -> ascending 0 idxes ->
  mbuf_free_bulk (sieve true idxes 0 (array b)) (heap w) = Ret (ret, h) ->
  exists gap b' w',
    drop_packets_stable idxes (b, w) = Ret (if bool_decide (Forall (fun t => t < zlen (array b)) idxes) && (ret =? 0)
                                            then Some (zlen idxes) else None, (b', w')) /\
    sieve false idxes 0 (array b) ++ sieve true idxes 0 (array b) ≡ₚ array b /\
    vec_capacity b' = vec_capacity b /\
    if bool_decide (Forall (fun t => t < zlen (array b)) idxes) then
      array b' = sieve false idxes 0 (array b) /\ scratch b' = [] /\ w' = mkWorld h (net w)
    else
      array b' = sieve false idxes 0 (array b) ++ gap /\ length (array b') = length (array b) /\
      scratch b' = sieve true idxes 0 (array b) /\ w' = w.
Proof.
  intros Hok Hne Ha Hf. pose proof (Permutation_length (sieve_permutation idxes 0 (array b))) as Hp.
  rewrite length_app in Hp. case_bool_decide as Hr.
  - destruct (drop_packets_ok b w idxes ret h) as (gap & Hg & Hd); try done.
    exists gap. eexists _, _. split; [exact Hd|]. split; [apply sieve_permutation|].
    split; [|done]. unfold vec_capacity. simpl. rewrite length_app.
    rewrite length_sieve_true in Hp by (done || by rewrite Z.add_0_l). lia.
  - destruct (drop_packets_unknown b w idxes) as (gap & Hg & Hd); try done.
    { apply not_Forall_Exists in Hr; [|apply _]. eapply Exists_impl; [exact Hr|]. simpl. lia. }
    exists gap. eexists _, _. split; [exact Hd|]. split; [apply sieve_permutation|]. simpl.
    unfold vec_capacity. simpl. rewrite length_app. split_and!; try done; lia.
Qed.

(** Receiving first frees what the batch still holds and then offers the port its whole
    memory. After [Ok n] the batch is the first [n] entries the port wrote; after an error
    it is the whole memory, whatever the port left there, so a later operation frees or
    sends pointers that are not packets of this batch. *)
Lemma recv_batch_spec {R} {Rx : PacketRx Net R} (port : R) (b : PacketBatch) (w w' : World Net) h r pkts :
  batch_ok b -> freed (array b) (heap w) h ->
  recv port (array b ++ spare b) (mkWorld h (net w)) = Ret ((r, pkts), w') ->
  length pkts = length (array b ++ spare b) ->
  match r with Ok n => 0 <= n <= zlen pkts | Err _ => True end ->
  exists b', recv_batch port (b, w) = Ret (r, (b', w')) /\
    array b' ++ spare b' = pkts /\ batch_ok b' /\
    match r with Ok n => array b' = take (Z.to_nat n) pkts | Err _ => array b' = pkts end.
Proof.
  intros Hok Hf Hr Hl Hn. eexists. split; [by eapply recv_batch_ok|]. unfold received_batch. simpl.
  split; [apply take_drop|]. split.
  - destruct Hok as [? Hc]. split; [done|]. unfold vec_capacity in *. simpl.
    rewrite length_app in Hl. destruct r; rewrite length_take, length_drop; lia.
  - destruct r; [done|]. apply take_ge. lia.
Qed.

End spec.

End PacketBatch.

(** ** A concrete allocator and ports, for the witnesses *)

Module Sample.

(** Freeing deletes from the heap; there is nothing to allocate. *)
Definition zcsi : Zcsi := {|
  mbuf_alloc := sret 0;
  mbuf_free p := smodify (delete p);
  mbuf_alloc_bulk _ _ := sret (1, []);
  mbuf_free_bulk l := let* _ := smodify (fun h => foldr delete h l) in sret 0
|}.

(** A wire: the mbufs that arrived and those that were sent *)
Record wire : Type := mkWire { arrived : list Z; gone : list Z }.

Definition rx : PacketRx wire unit := fun _ slots w =>
  let n := Nat.min (length slots) (length (arrived (net w))) in
  Ret ((Ok (Z.of_nat n), take n (arrived (net w)) ++ drop n slots),
       mkWorld (heap w) (mkWire (drop n (arrived (net w))) (gone (net w)))).

(** The driver takes one mbuf at a time. *)
Definition tx : PacketTx wire unit := fun _ slots w =>
  Ret ((Ok (Z.of_nat (Nat.min 1 (length slots))), slots),
       mkWorld (heap w) (mkWire (arrived (net w)) (gone (net w) ++ take 1 slots))).

Definition rx_failing : PacketRx wire unit := fun _ slots w => Ret ((Err BadQueue, slots), w).

Definition heap3 : Heap :=
  <[1 := sample_mbuf 4096 20]> (<[2 := sample_mbuf 8192 20]> (<[3 := sample_mbuf 12288 20]> ∅)).

Definition batch3 : PacketBatch.PacketBatch := PacketBatch.mkBatch [1; 2; 3] [0] [] [].

Lemma drop_packets_stable_spec_witness :
  exists gap b' w',
    PacketBatch.drop_packets_stable (Z_ := zcsi) [0; 2] (batch3, mkWorld heap3 (mkWire [] [])) =
      Ret (Some 2, (b', w')) /\
    PacketBatch.sieve false [0; 2] 0 [1; 2; 3] ++ PacketBatch.sieve true [0; 2] 0 [1; 2; 3] ≡ₚ [1; 2; 3] /\
    PacketBatch.vec_capacity b' = 4 /\
    (PacketBatch.array b' = [2] /\ PacketBatch.scratch b' = [] /\
     w' = mkWorld (foldr delete heap3 [1; 3]) (mkWire gap gap)).
Proof.
  destruct (@PacketBatch.drop_packets_stable_spec zcsi wire batch3 (mkWorld heap3 (mkWire [] [])) [0; 2] 0
    (foldr delete heap3 [1; 3])) as (gap & b' & w' & H1 & H2 & H3 & H4).
  - by split; vm_compute.
  - done.
  - apply (bool_decide_unpack _). by vm_compute.
  - done.
  - rewrite bool_decide_true in H1, H4 by (repeat constructor). by exists [], b', w'.
Defined.

Lemma recv_batch_spec_witness :
  exists b', PacketBatch.recv_batch (Z_ := zcsi) (Rx := rx_failing) tt (batch3, mkWorld heap3 (mkWire [] [])) =
      Ret (Err BadQueue, (b', mkWorld (foldr delete heap3 [1; 2; 3]) (mkWire [] []))) /\
    PacketBatch.array b' ++ PacketBatch.spare b' = [1; 2; 3; 0] /\ PacketBatch.batch_ok b' /\
    PacketBatch.array b' = [1; 2; 3; 0].
Proof.
  apply (@PacketBatch.recv_batch_spec zcsi wire unit rx_failing tt batch3 _ _ (foldr delete heap3 [1; 2; 3])
    (Err BadQueue) [1; 2; 3; 0]); try done.
Defined.

End Sample.
