(* ===== verification/Operators.v ===== *)
(** * Batch operators ([framework/src/operators])

    [BatchIterator] and [Act] are the traits every batch implements; [Batch] code is
    written against them. Each operator wraps the batch it was built from, in a [Module]
    of its own, and is an instance of both classes. The loops over the packets of a batch
    run with the fuel of [Fuel]; more fuel than the batch has packets is enough. *)

From stdpp Require Import sorting.
From S2P Require Import Prelude Headers Packet Batch.
Import Mbuf Pkt.

Class BatchIterator (Net B T M : Type) : Type := {
  start : St (B * World Net) Z;
  next_payload : Z -> St (B * World Net) (option (Packet T M))
}.

(** [get_packet_batch] returns a [&mut PacketBatch]: it runs what the caller does with it. *)
Class Act (Net B : Type) : Type := {
  act : St (B * World Net) unit;
  done : St (B * World Net) unit;
  send_q : DynTx Net -> St (B * World Net) (result Z);
  capacity : B -> Z;
  drop_packets : list Z -> St (B * World Net) (option Z);
  clear_packets : St (B * World Net) unit;
  get_packet_batch : forall A, St (PacketBatch.PacketBatch * World Net) A -> St (B * World Net) A;
  get_task_dependencies : B -> list Z
}.
#[global] Arguments get_packet_batch {Net B _ A}.

(** [scheduler::Executable] *)
Class Executable (Net B : Type) : Type := {
  execute : St (B * World Net) unit;
  dependencies : B -> list Z
}.

(** A [Box<FnMut(&A) -> R>] reads the heap through the reference and may change its captures. *)
Class FnRef (C A R : Type) : Type := call_ref : A -> Heap -> C -> outcome (R * C).

Class Fuel : Type := loop_fuel : nat.

(** Run a method of a field of the batch. *)
Definition on_field {Net B V A} (get : B -> V) (set : V -> B -> B) (m : St (V * World Net) A)
    : St (B * World Net) A :=
  zoom (fun s => (get s.1, s.2)) (fun v s => (set v.1 s.1, v.2)) m.

(** Call a boxed closure kept in a field of the batch. *)
Definition on_closure {Net B C A} (get : B -> C) (set : C -> B -> B) (m : St (C * Heap) A)
    : St (B * World Net) A :=
  zoom (fun s => (get s.1, heap s.2)) (fun v s => (set v.1 s.1, mkWorld v.2 (net s.2))) m.

Definition on_closure_ref {Net B C A} (get : B -> C) (set : C -> B -> B) (m : Heap -> C -> outcome (A * C))
    : St (B * World Net) A := fun s =>
  let! '(a, c) := m (heap s.2) (get s.1) in Ret (a, (set c s.1, s.2)).

(** ** The enumerator over the packets of a batch ([iterator.rs]) *)

Record ParsedDescriptor (T M : Type) : Type := mkParsed { index : Z; packet : Packet T M }.
#[global] Arguments mkParsed {T M}.
#[global] Arguments index {T M}.
#[global] Arguments packet {T M}.

Record PayloadEnumerator : Type := mkEnumerator { idx : Z }.

Section enumerator.
Context {P : Profile} {Net B T M : Type} {I : BatchIterator Net B T M}.

Definition PayloadEnumerator_new : St (B * World Net) PayloadEnumerator :=
  let* s := start in sret (mkEnumerator s).

Definition PayloadEnumerator_next (it : PayloadEnumerator)
    : St (B * World Net) (option (ParsedDescriptor T M) * PayloadEnumerator) :=
  let original_idx := idx it in
  let* item := next_payload original_idx in
  match item with
  | Some packet =>
      let* next := slift (uadd 64 original_idx 1) in
      sret (Some (mkParsed original_idx packet), mkEnumerator next)
  | None => sret (None, it)
  end.

End enumerator.

(** [while let Some(d) = iter.next(..) { body }], where the batch iterated is the field of
    the state [S] that [on] runs methods of. *)
Fixpoint while_let {P : Profile} {Net B T M S} {I : BatchIterator Net B T M}
    (on : forall A, St (B * World Net) A -> St S A) (body : ParsedDescriptor T M -> St S unit)
    (fuel : nat) (it : PayloadEnumerator) : St S unit :=
  let* '(d, it) := on _ (PayloadEnumerator_next it) in
  match d with
  | None => sret tt
  | Some d =>
      match fuel with
      | O => fun _ => NoFuel
      | Datatypes.S fuel => let* _ := body d in while_let on body fuel it
      end
  end.

Definition for_each {P : Profile} {F : Fuel} {Net B T M S} {I : BatchIterator Net B T M}
    (on : forall A, St (B * World Net) A -> St S A) (body : ParsedDescriptor T M -> St S unit) : St S unit :=
  let* it := on _ PayloadEnumerator_new in while_let on body loop_fuel it.

(** ** The packet batch as the innermost batch *)

Section packet_batch.
Context {P : Profile} {Z_ : Zcsi} {Net : Type}.

#[global] Instance PacketBatch_BatchIterator :
    BatchIterator Net PacketBatch.PacketBatch NullHeader EmptyMetadata := {|
  start := PacketBatch.start;
  next_payload := PacketBatch.next_payload
|}.

#[global] Instance PacketBatch_Act : Act Net PacketBatch.PacketBatch := {|
  act := PacketBatch.act;
  done := PacketBatch.done;
  send_q := PacketBatch.send_q;
  capacity := PacketBatch.capacity;
  drop_packets := PacketBatch.drop_packets;
  clear_packets := PacketBatch.clear_packets;
  get_packet_batch A m := m;
  get_task_dependencies := PacketBatch.get_task_dependencies
|}.

End packet_batch.

(** The [act!{}] macro: every method is the parent's. *)
Definition delegate {Net V B : Type} {A_ : Act Net V} (parent : B -> V) (set_parent : V -> B -> B) : Act Net B := {|
  act := on_field parent set_parent act;
  done := on_field parent set_parent done;
  send_q port := on_field parent set_parent (send_q port);
  capacity b := capacity (parent b);
  drop_packets idxes := on_field parent set_parent (drop_packets idxes);
  clear_packets := on_field parent set_parent clear_packets;
  get_packet_batch A m := on_field parent set_parent (get_packet_batch m);
  get_task_dependencies b := get_task_dependencies (parent b)
|}.

(** ** [receive_batch.rs] *)
Module Receive.

Record ReceiveBatch (R : Type) : Type := mkReceive {
  parent : PacketBatch.PacketBatch;
  queue : R;
  received : Z
}.
#[global] Arguments mkReceive {R}.
#[global] Arguments parent {R}.
#[global] Arguments queue {R}.
#[global] Arguments received {R}.

Definition set_parent {R} (p : PacketBatch.PacketBatch) (b : ReceiveBatch R) : ReceiveBatch R :=
  mkReceive p (queue b) (received b).
Definition set_received {R} (n : Z) (b : ReceiveBatch R) : ReceiveBatch R := mkReceive (parent b) (queue b) n.

Section operations.
Context {P : Profile} {Z_ : Zcsi} {Net R : Type} {Rx : PacketRx Net R}.

Definition new_with_parent (p : PacketBatch.PacketBatch) (q : R) : ReceiveBatch R := mkReceive p q 0.

Definition new (q : R) : outcome (ReceiveBatch R) :=
  let! p := PacketBatch.new 32 in Ret (mkReceive p q 0).

Definition act_ : St (ReceiveBatch R * World Net) unit :=
  let* _ := on_field parent set_parent PacketBatch.act in
  let* q := sgets (fun s => queue s.1) in
  let* r := on_field parent set_parent (PacketBatch.recv_batch q) in
  match r with
  | Ok x =>
      let* n := sgets (fun s => received s.1) in
      let* n := slift (uadd 64 n x) in
      smodify (fun s => (set_received n s.1, s.2))
  | Err _ => spanic
  end.

Definition done_ : St (ReceiveBatch R * World Net) unit :=
  let* r := on_field parent set_parent PacketBatch.deallocate_batch in slift (unwrap_ok r).

#[global] Instance ReceiveBatch_BatchIterator : BatchIterator Net (ReceiveBatch R) NullHeader EmptyMetadata := {|
  start := on_field parent set_parent PacketBatch.start;
  next_payload idx := on_field parent set_parent (PacketBatch.next_payload idx)
|}.

#[global] Instance ReceiveBatch_Act : Act Net (ReceiveBatch R) := {|
  act := act_;
  done := done_;
  send_q port := on_field parent set_parent (PacketBatch.send_q port);
  capacity b := PacketBatch.capacity (parent b);
  drop_packets idxes := on_field parent set_parent (PacketBatch.drop_packets idxes);
  clear_packets := on_field parent set_parent PacketBatch.clear_packets;
  get_packet_batch A m := on_field parent set_parent m;
  get_task_dependencies b := PacketBatch.get_task_dependencies (parent b)
|}.

End operations.

End Receive.

(** ** [send_batch.rs] *)
Module Send.

Record SendBatch (R V : Type) : Type := mkSend { port : R; parent : V; sent : Z }.
#[global] Arguments mkSend {R V}.
#[global] Arguments port {R V}.
#[global] Arguments parent {R V}.
#[global] Arguments sent {R V}.

Definition set_parent {R V} (p : V) (b : SendBatch R V) : SendBatch R V := mkSend (port b) p (sent b).
Definition set_sent {R V} (n : Z) (b : SendBatch R V) : SendBatch R V := mkSend (port b) (parent b) n.

Section operations.
Context {P : Profile} {Z_ : Zcsi} {Net R V : Type} {Tx : PacketTx Net R} {AV : Act Net V}.

Definition new (p : V) (port : R) : SendBatch R V := mkSend port p 0.

Definition act_ : St (SendBatch R V * World Net) unit :=
  let* _ := on_field parent set_parent act in
  let* p := sgets (fun s => port s.1) in
  let* r := on_field parent set_parent (get_packet_batch (PacketBatch.send_q (send p))) in
  match r with
  | Ok x =>
      let* n := sgets (fun s => sent s.1) in
      let* n := slift (uadd 64 n x) in
      let* _ := smodify (fun s => (set_sent n s.1, s.2)) in
      on_field parent set_parent done
  | Err _ => spanic
  end.

#[global] Instance SendBatch_BatchIterator : BatchIterator Net (SendBatch R V) NullHeader EmptyMetadata := {|
  start := spanic;
  next_payload _ := spanic
|}.

#[global] Instance SendBatch_Act : Act Net (SendBatch R V) := {|
  act := act_;
  done := sret tt;
  send_q _ := spanic;
  capacity b := capacity (parent b);
  drop_packets _ := spanic;
  clear_packets := spanic;
  get_packet_batch A m := on_field parent set_parent (get_packet_batch m);
  get_task_dependencies b := get_task_dependencies (parent b)
|}.

#[global] Instance SendBatch_Executable : Executable Net (SendBatch R V) := {|
  execute := act_;
  dependencies b := get_task_dependencies b
|}.

End operations.

End Send.

(** ** [transform_batch.rs] and [map_batch.rs]: run a closure on every packet, once per
    [act]/[done] cycle *)
Module Transform.

Record TransformBatch (V C : Type) : Type := mkTransform { parent : V; transformer : C; applied : bool }.
#[global] Arguments mkTransform {V C}.
#[global] Arguments parent {V C}.
#[global] Arguments transformer {V C}.
#[global] Arguments applied {V C}.

Definition set_parent {V C} (p : V) (b : TransformBatch V C) : TransformBatch V C :=
  mkTransform p (transformer b) (applied b).
Definition set_transformer {V C} (c : C) (b : TransformBatch V C) : TransformBatch V C :=
  mkTransform (parent b) c (applied b).
Definition set_applied {V C} (a : bool) (b : TransformBatch V C) : TransformBatch V C :=
  mkTransform (parent b) (transformer b) a.

Section operations.
Context {P : Profile} {F : Fuel} {Net V C T M : Type} {AV : Act Net V} {IV : BatchIterator Net V T M}.
Context {Fn : FnMut C (Packet T M) (Packet T M)}.

Definition new (p : V) (t : C) : TransformBatch V C := mkTransform p t false.

Definition act_ : St (TransformBatch V C * World Net) unit :=
  let* a := sgets (fun s => applied s.1) in
  if negb a then
    let* _ := on_field parent set_parent act in
    let* _ := for_each (fun A => on_field parent set_parent) (fun d =>
      let* _ := on_closure transformer set_transformer (call_mut (packet d)) in sret tt) in
    smodify (fun s => (set_applied true s.1, s.2))
  else sret tt.

Definition done_ : St (TransformBatch V C * World Net) unit :=
  let* _ := smodify (fun s => (set_applied false s.1, s.2)) in
  on_field parent set_parent done.

#[global] Instance TransformBatch_BatchIterator : BatchIterator Net (TransformBatch V C) T M := {|
  start := on_field parent set_parent start;
  next_payload idx := on_field parent set_parent (next_payload idx)
|}.

#[global] Instance TransformBatch_Act : Act Net (TransformBatch V C) := {|
  act := act_;
  done := done_;
  send_q port := on_field parent set_parent (send_q port);
  capacity b := capacity (parent b);
  drop_packets idxes := on_field parent set_parent (drop_packets idxes);
  clear_packets := on_field parent set_parent clear_packets;
  get_packet_batch A m := on_field parent set_parent (get_packet_batch m);
  get_task_dependencies b := get_task_dependencies (parent b)
|}.

End operations.

End Transform.

Module Map.

Record MapBatch (V C : Type) : Type := mkMap { parent : V; transformer : C; applied : bool }.
#[global] Arguments mkMap {V C}.
#[global] Arguments parent {V C}.
#[global] Arguments transformer {V C}.
#[global] Arguments applied {V C}.

Definition set_parent {V C} (p : V) (b : MapBatch V C) : MapBatch V C := mkMap p (transformer b) (applied b).
Definition set_transformer {V C} (c : C) (b : MapBatch V C) : MapBatch V C := mkMap (parent b) c (applied b).
Definition set_applied {V C} (a : bool) (b : MapBatch V C) : MapBatch V C := mkMap (parent b) (transformer b) a.

Section operations.
Context {P : Profile} {F : Fuel} {Net V C T M : Type} {AV : Act Net V} {IV : BatchIterator Net V T M}.
Context {Fn : FnRef C (Packet T M) unit}.

Definition new (p : V) (t : C) : MapBatch V C := mkMap p t false.

Definition act_ : St (MapBatch V C * World Net) unit :=
  let* a := sgets (fun s => applied s.1) in
  if negb a then
    let* _ := on_field parent set_parent act in
    let* _ := for_each (fun A => on_field parent set_parent) (fun d =>
      on_closure_ref transformer set_transformer (call_ref (packet d))) in
    smodify (fun s => (set_applied true s.1, s.2))
  else sret tt.

Definition done_ : St (MapBatch V C * World Net) unit :=
  let* _ := smodify (fun s => (set_applied false s.1, s.2)) in
  on_field parent set_parent done.

#[global] Instance MapBatch_BatchIterator : BatchIterator Net (MapBatch V C) T M := {|
  start := on_field parent set_parent start;
  next_payload idx := on_field parent set_parent (next_payload idx)
|}.

#[global] Instance MapBatch_Act : Act Net (MapBatch V C) := {|
  act := act_;
  done := done_;
  send_q port := on_field parent set_parent (send_q port);
  capacity b := capacity (parent b);
  drop_packets idxes := on_field parent set_parent (drop_packets idxes);
  clear_packets := on_field parent set_parent clear_packets;
  get_packet_batch A m := on_field parent set_parent (get_packet_batch m);
  get_task_dependencies b := get_task_dependencies (parent b)
|}.

End operations.

End Map.

(** ** [add_metadata.rs] and [add_metadata_mut.rs]: store what a closure computes from a
    packet in its metadata area *)
Module AddMetadata.

Record AddMetadataBatch (V C : Type) : Type := mkAddMetadata { parent : V; generator : C; applied : bool }.
#[global] Arguments mkAddMetadata {V C}.
#[global] Arguments parent {V C}.
#[global] Arguments generator {V C}.
#[global] Arguments applied {V C}.

Definition set_parent {V C} (p : V) (b : AddMetadataBatch V C) : AddMetadataBatch V C :=
  mkAddMetadata p (generator b) (applied b).
Definition set_generator {V C} (c : C) (b : AddMetadataBatch V C) : AddMetadataBatch V C :=
  mkAddMetadata (parent b) c (applied b).
Definition set_applied {V C} (a : bool) (b : AddMetadataBatch V C) : AddMetadataBatch V C :=
  mkAddMetadata (parent b) (generator b) a.

Section operations.
Context {P : Profile} {F : Fuel} {Net V C T M M2 : Type} {AV : Act Net V} {IV : BatchIterator Net V T M}.
Context {PM : Packed M2} {Fn : FnRef C (Packet T M) M2}.

Definition new (p : V) (g : C) : AddMetadataBatch V C := mkAddMetadata p g false.

Definition act_ : St (AddMetadataBatch V C * World Net) unit :=
  let* a := sgets (fun s => applied s.1) in
  if negb a then
    let* _ := on_field parent set_parent act in
    let* _ := for_each (fun A => on_field parent set_parent) (fun d =>
      let* metadata := on_closure_ref generator set_generator (call_ref (packet d)) in
      let* r := on_heap (write_metadata (packet d) (metadata : M2)) in
      slift (unwrap_ok r)) in
    smodify (fun s => (set_applied true s.1, s.2))
  else sret tt.

Definition done_ : St (AddMetadataBatch V C * World Net) unit :=
  let* _ := smodify (fun s => (set_applied false s.1, s.2)) in
  on_field parent set_parent done.

#[global] Instance AddMetadataBatch_BatchIterator : BatchIterator Net (AddMetadataBatch V C) T M2 := {|
  start := on_field parent set_parent start;
  next_payload idx :=
    let* p := on_field parent set_parent (next_payload idx) in
    sret (reinterpret_metadata M2 <$> p)
|}.

#[global] Instance AddMetadataBatch_Act : Act Net (AddMetadataBatch V C) := {|
  act := act_;
  done := done_;
  send_q port := on_field parent set_parent (send_q port);
  capacity b := capacity (parent b);
  drop_packets idxes := on_field parent set_parent (drop_packets idxes);
  clear_packets := on_field parent set_parent clear_packets;
  get_packet_batch A m := on_field parent set_parent (get_packet_batch m);
  get_task_dependencies b := get_task_dependencies (parent b)
|}.

End operations.

End AddMetadata.


Module AddMetadataMut.

Record MutableAddMetadataBatch (V C : Type) : Type := mkAddMetadataMut { parent : V; generator : C; applied : bool }.
#[global] Arguments mkAddMetadataMut {V C}.
#[global] Arguments parent {V C}.
#[global] Arguments generator {V C}.
#[global] Arguments applied {V C}.

Definition set_parent {V C} (p : V) (b : MutableAddMetadataBatch V C) : MutableAddMetadataBatch V C :=
  mkAddMetadataMut p (generator b) (applied b).
Definition set_generator {V C} (c : C) (b : MutableAddMetadataBatch V C) : MutableAddMetadataBatch V C :=
  mkAddMetadataMut (parent b) c (applied b).
Definition set_applied {V C} (a : bool) (b : MutableAddMetadataBatch V C) : MutableAddMetadataBatch V C :=
  mkAddMetadataMut (parent b) (generator b) a.

Section operations.
Context {P : Profile} {F : Fuel} {Net V C T M M2 : Type} {AV : Act Net V} {IV : BatchIterator Net V T M}.
Context {PM : Packed M2} {Fn : FnMut C (Packet T M) (M2 * Packet T M)}.

Definition new (p : V) (g : C) : MutableAddMetadataBatch V C := mkAddMetadataMut p g false.

Definition act_ : St (MutableAddMetadataBatch V C * World Net) unit :=
  let* a := sgets (fun s => applied s.1) in
  if negb a then
    let* _ := on_field parent set_parent act in
    let* _ := for_each (fun A => on_field parent set_parent) (fun d =>
      let* '(metadata, pkt) := on_closure generator set_generator (call_mut (packet d)) in
      let* r := on_heap (write_metadata pkt (metadata : M2)) in
      slift (unwrap_ok r)) in
    smodify (fun s => (set_applied true s.1, s.2))
  else sret tt.

Definition done_ : St (MutableAddMetadataBatch V C * World Net) unit :=
  let* _ := smodify (fun s => (set_applied false s.1, s.2)) in
  on_field parent set_parent done.

#[global] Instance MutableAddMetadataBatch_BatchIterator : BatchIterator Net (MutableAddMetadataBatch V C) T M2 := {|
  start := on_field parent set_parent start;
  next_payload idx :=
    let* p := on_field parent set_parent (next_payload idx) in
    sret (reinterpret_metadata M2 <$> p)
|}.

#[global] Instance MutableAddMetadataBatch_Act : Act Net (MutableAddMetadataBatch V C) := {|
  act := act_;
  done := done_;
  send_q port := on_field parent set_parent (send_q port);
  capacity b := capacity (parent b);
  drop_packets idxes := on_field parent set_parent (drop_packets idxes);
  clear_packets := on_field parent set_parent clear_packets;
  get_packet_batch A m := on_field parent set_parent (get_packet_batch m);
  get_task_dependencies b := get_task_dependencies (parent b)
|}.

End operations.

End AddMetadataMut.

(** ** [filter_batch.rs] *)
Module Filter.

(** [cap] is the field [capacity]. *)
Record FilterBatch (V C : Type) : Type := mkFilter { parent : V; filter_ : C; cap : Z; remove : list Z }.
#[global] Arguments mkFilter {V C}.
#[global] Arguments parent {V C}.
#[global] Arguments filter_ {V C}.
#[global] Arguments cap {V C}.
#[global] Arguments remove {V C}.

Definition set_parent {V C} (p : V) (b : FilterBatch V C) : FilterBatch V C :=
  mkFilter p (filter_ b) (cap b) (remove b).
Definition set_filter {V C} (c : C) (b : FilterBatch V C) : FilterBatch V C :=
  mkFilter (parent b) c (cap b) (remove b).
Definition set_remove {V C} (l : list Z) (b : FilterBatch V C) : FilterBatch V C :=
  mkFilter (parent b) (filter_ b) (cap b) l.

Section operations.
Context {P : Profile} {F : Fuel} {Net V C T M : Type} {AV : Act Net V} {IV : BatchIterator Net V T M}.
Context {Fn : FnRef C (Packet T M) bool}.

(** [capacity() as usize] of a negative [i32] overflows [Vec::with_capacity]. *)
Definition new (p : V) (f : C) : outcome (FilterBatch V C) :=
  if capacity p <? 0 then Panic else Ret (mkFilter p f (capacity p) []).

(** The body of the loop: remember the index of a packet the closure rejects. *)
Definition check_packet (d : ParsedDescriptor T M) : St (FilterBatch V C * World Net) unit :=
  let* keep := on_closure_ref filter_ set_filter (call_ref (packet d)) in
  if negb keep then smodify (fun s => (set_remove (remove s.1 ++ [index d]) s.1, s.2)) else sret tt.

Definition act_ : St (FilterBatch V C * World Net) unit :=
  let* _ := on_field parent set_parent act in
  let* _ := for_each (fun A => on_field parent set_parent) check_packet in
  let* rm := sgets (fun s => remove s.1) in
  let* _ :=
    if negb (zlen rm =? 0) then
      let* r := on_field parent set_parent (drop_packets rm) in
      let* _ := slift (unwrap r) in sret tt
    else sret tt in
  smodify (fun s => (set_remove [] s.1, s.2)).

#[global] Instance FilterBatch_Act : Act Net (FilterBatch V C) := {|
  act := act_;
  done := on_field parent set_parent done;
  send_q port := on_field parent set_parent (send_q port);
  capacity b := as_signed 32 (cap b);
  drop_packets idxes := on_field parent set_parent (drop_packets idxes);
  clear_packets := on_field parent set_parent clear_packets;
  get_packet_batch A m := on_field parent set_parent (get_packet_batch m);
  get_task_dependencies b := get_task_dependencies (parent b)
|}.

#[global] Instance FilterBatch_BatchIterator : BatchIterator Net (FilterBatch V C) T M := {|
  start := on_field parent set_parent start;
  next_payload idx := on_field parent set_parent (next_payload idx)
|}.

End operations.

End Filter.

(** ** Operators that only change how a packet is viewed *)

(** [parsed_batch.rs]; [T] is the header of the parent, [T2] the parsed one. *)
Module Parsed.

Record ParsedBatch (T2 V : Type) : Type := mkParsedBatch { parent : V }.
#[global] Arguments mkParsedBatch {T2 V}.
#[global] Arguments parent {T2 V}.

Definition set_parent {T2 V} (p : V) (_ : ParsedBatch T2 V) : ParsedBatch T2 V := mkParsedBatch p.

Section operations.
Context {P : Profile} {Net V T M T2 : Type} {AV : Act Net V} {IV : BatchIterator Net V T M}.
Context {ET : EndOffset T} {PT : Packed T} {E2 : EndOffset T2}.

Definition new (p : V) : ParsedBatch T2 V := mkParsedBatch p.

#[global] Instance ParsedBatch_Act : Act Net (ParsedBatch T2 V) := delegate parent set_parent.

#[global] Instance ParsedBatch_BatchIterator : BatchIterator Net (ParsedBatch T2 V) T2 M := {|
  start := on_field parent set_parent start;
  next_payload idx :=
    let* o := on_field parent set_parent (next_payload idx) in
    match o with
    | Some p => let* p := on_heap (parse_header T2 p) in sret (Some p)
    | None => sret None
    end
|}.

End operations.

End Parsed.

(** [deparsed_batch.rs] *)
Module Deparsed.

Record DeparsedBatch (V : Type) : Type := mkDeparsed { parent : V }.
#[global] Arguments mkDeparsed {V}.
#[global] Arguments parent {V}.

Definition set_parent {V} (p : V) (_ : DeparsedBatch V) : DeparsedBatch V := mkDeparsed p.

Section operations.
Context {P : Profile} {Net V T M : Type} {AV : Act Net V} {IV : BatchIterator Net V T M}.
Context {ET : EndOffset T}.

Definition new (p : V) : DeparsedBatch V := mkDeparsed p.

#[global] Instance DeparsedBatch_Act : Act Net (DeparsedBatch V) := delegate parent set_parent.

#[global] Instance DeparsedBatch_BatchIterator : BatchIterator Net (DeparsedBatch V) (PreviousHeader T) M := {|
  start := on_field parent set_parent start;
  next_payload idx :=
    let* o := on_field parent set_parent (next_payload idx) in
    match o with
    | Some p =>
        let* p := on_heap (deparse_header_stack p) in
        let* p := slift (unwrap p) in sret (Some p)
    | None => sret None
    end
|}.

End operations.

End Deparsed.

(** [reset_parse.rs] *)
Module ResetParsing.

Record ResetParsingBatch (V : Type) : Type := mkReset { parent : V }.
#[global] Arguments mkReset {V}.
#[global] Arguments parent {V}.

Definition set_parent {V} (p : V) (_ : ResetParsingBatch V) : ResetParsingBatch V := mkReset p.

Section operations.
Context {P : Profile} {Net V T M : Type} {AV : Act Net V} {IV : BatchIterator Net V T M}.

Definition new (p : V) : ResetParsingBatch V := mkReset p.

#[global] Instance ResetParsingBatch_Act : Act Net (ResetParsingBatch V) := delegate parent set_parent.

#[global] Instance ResetParsingBatch_BatchIterator : BatchIterator Net (ResetParsingBatch V) NullHeader EmptyMetadata := {|
  start := on_field parent set_parent start;
  next_payload idx :=
    let* o := on_field parent set_parent (next_payload idx) in
    match o with
    | Some p => let* p := on_heap (reset p) in sret (Some p)
    | None => sret None
    end
|}.

End operations.

End ResetParsing.

(** [restore_header.rs] *)
Module Restore.

Record RestoreHeader (T2 M2 V : Type) : Type := mkRestore { parent : V }.
#[global] Arguments mkRestore {T2 M2 V}.
#[global] Arguments parent {T2 M2 V}.

Definition set_parent {T2 M2 V} (p : V) (_ : RestoreHeader T2 M2 V) : RestoreHeader T2 M2 V := mkRestore p.

Section operations.
Context {P : Profile} {Net V T M T2 M2 : Type} {AV : Act Net V} {IV : BatchIterator Net V T M}.

Definition new (p : V) : RestoreHeader T2 M2 V := mkRestore p.

#[global] Instance RestoreHeader_Act : Act Net (RestoreHeader T2 M2 V) := delegate parent set_parent.

#[global] Instance RestoreHeader_BatchIterator : BatchIterator Net (RestoreHeader T2 M2 V) T2 M2 := {|
  start := on_field parent set_parent start;
  next_payload idx :=
    let* o := on_field parent set_parent (next_payload idx) in
    match o with
    | Some p =>
        let* p := on_heap (restore_saved_header T2 M2 p) in
        let* p := slift (unwrap p) in sret (Some p)
    | None => sret None
    end
|}.

End operations.

End Restore.

(** [composition_batch.rs]: a boxed [ResetParsingBatch]; the boxed type is a parameter. *)
Module Composition.

Record CompositionBatch (V : Type) : Type := mkComposition { parent : ResetParsing.ResetParsingBatch V }.
#[global] Arguments mkComposition {V}.
#[global] Arguments parent {V}.

Definition set_parent {V} (p : ResetParsing.ResetParsingBatch V) (_ : CompositionBatch V) : CompositionBatch V :=
  mkComposition p.

Section operations.
Context {P : Profile} {Net V T M : Type} {AV : Act Net V} {IV : BatchIterator Net V T M}.

Definition new (p : V) : CompositionBatch V := mkComposition (ResetParsing.new p).

#[global] Instance CompositionBatch_BatchIterator :
    BatchIterator Net (CompositionBatch V) NullHeader EmptyMetadata := {|
  start := on_field parent set_parent start;
  next_payload idx := on_field parent set_parent (next_payload idx)
|}.

#[global] Instance CompositionBatch_Act : Act Net (CompositionBatch V) := delegate parent set_parent.

#[global] Instance CompositionBatch_Executable : Executable Net (CompositionBatch V) := {|
  execute := let* _ := act in done;
  dependencies b := get_task_dependencies b
|}.

End operations.

End Composition.

(** ** [merge_batch.rs]: one of several batches at a time, in turn *)
Module Merge.

Record MergeBatch (V : Type) : Type := mkMerge { parents : list V; which : Z }.
#[global] Arguments mkMerge {V}.
#[global] Arguments parents {V}.
#[global] Arguments which {V}.

(** [sort] and [dedup] on task numbers *)
Fixpoint dedup (l : list Z) : list Z :=
  match l with
  | x :: (y :: _) as tl => if x =? y then dedup tl else x :: dedup tl
  | l => l
  end.

Section operations.
Context {P : Profile} {Net V T M : Type} {AV : Act Net V} {IV : BatchIterator Net V T M}.

Definition new (ps : list V) : MergeBatch V := mkMerge ps 0.

(** A method of [parents[which]] *)
Definition on_which {A} (m : St (V * World Net) A) : St (MergeBatch V * World Net) A := fun s =>
  let! p := vindex (parents s.1) (which s.1) in
  let! '(a, (p, w)) := m (p, s.2) in
  Ret (a, (mkMerge (<[Z.to_nat (which s.1) := p]> (parents s.1)) (which s.1), w)).

#[global] Instance MergeBatch_BatchIterator : BatchIterator Net (MergeBatch V) T M := {|
  start := on_which start;
  next_payload idx := on_which (next_payload idx)
|}.

Definition done_ : St (MergeBatch V * World Net) unit :=
  let* _ := on_which done in
  let* b := sgets fst in
  let* next := slift (uadd 64 (which b) 1) in
  if next =? zlen (parents b) then smodify (fun s => (mkMerge (parents s.1) 0, s.2))
  else smodify (fun s => (mkMerge (parents s.1) next, s.2)).

Definition capacity_ (b : MergeBatch V) : Z := foldl (fun acc x => Z.max acc (capacity x)) 0 (parents b).

Definition task_dependencies (b : MergeBatch V) : list Z :=
  dedup (merge_sort Z.le (parents b ≫= get_task_dependencies)).

#[global] Instance MergeBatch_Act : Act Net (MergeBatch V) := {|
  act := on_which act;
  done := done_;
  send_q port := on_which (send_q port);
  capacity := capacity_;
  drop_packets idxes := on_which (drop_packets idxes);
  clear_packets := on_which clear_packets;
  get_packet_batch A m := on_which (get_packet_batch m);
  get_task_dependencies := task_dependencies
|}.

#[global] Instance MergeBatch_Executable : Executable Net (MergeBatch V) := {|
  execute := let* _ := act in done;
  dependencies b := get_task_dependencies b
|}.

End operations.

End Merge.

(** ** The [Batch] trait: building pipelines ([operators/mod.rs]); [group_by] is with the
    groups, for it needs a scheduler *)
Module Build.

Section build.
Context {P : Profile} {Net V : Type} {AV : Act Net V}.

Definition merge (batches : list V) : Merge.MergeBatch V := Merge.new batches.
Definition parse (T2 : Type) (b : V) : Parsed.ParsedBatch T2 V := Parsed.new b.
Definition metadata {C : Type} (b : V) (generator : C) : AddMetadata.AddMetadataBatch V C :=
  AddMetadata.new b generator.
Definition metadata_mut {C : Type} (b : V) (generator : C) : AddMetadataMut.MutableAddMetadataBatch V C :=
  AddMetadataMut.new b generator.
Definition send {R : Type} (b : V) (port : R) : Send.SendBatch R V := Send.new b port.
Definition compose (b : V) : Composition.CompositionBatch V := Composition.new b.
Definition transform {C : Type} (b : V) (transformer : C) : Transform.TransformBatch V C :=
  Transform.new b transformer.
Definition map {C : Type} (b : V) (transformer : C) : Map.MapBatch V C := Map.new b transformer.
Definition filter {C : Type} (b : V) (filter_f : C) : outcome (Filter.FilterBatch V C) := Filter.new b filter_f.
Definition reset (b : V) : ResetParsing.ResetParsingBatch V := ResetParsing.new b.
Definition deparse (b : V) : Deparsed.DeparsedBatch V := Deparsed.new b.

End build.

End Build.
