(* ===== verification/Pipelines.v ===== *)
(** * What batches promise each other, and what pipelines built from them do

    [BatchLaws] states what an operator may rely on of the batch it wraps: which
    [PacketBatch] it is a view of, that its methods act on that batch, and that
    enumerating its packets changes nothing and visits the mbufs of the batch in order.
    The operators that keep the packets of their parent are shown to keep the promise;
    the theorems on filtering, sending and whole pipelines are proved against it. *)

From stdpp Require Import sorting.
From S2P Require Import Prelude Headers Packet Batch Operators.
Import Mbuf Pkt.

(** ** Computations that only read *)

Definition reads {S A} (m : St S A) : Prop := forall s a s', m s = Ret (a, s') -> s' = s.

Create HintDb nb_reads.

Lemma reads_sret {S A} (a : A) : reads (sret a : St S A).
Proof. by intros s a' s' [= _ <-]. Qed.

Lemma reads_slift {S A} (m : outcome A) : reads (slift m : St S A).
Proof. intros s a s'. unfold slift. destruct m; try done. by intros [= _ <-]. Qed.

Lemma reads_spanic {S A} : reads (fun _ => Panic : outcome (A * S)).
Proof. by intros s a s' [=]. Qed.

Lemma reads_sbind {S A B} (m : St S A) (k : A -> St S B) :
  reads m -> (forall a, reads (k a)) -> reads (sbind m k).
Proof. intros Hm Hk s b s'' (a & s' & H1 & H2)%sbind_Ret_inv. rewrite (Hm _ _ _ H1) in H2. by eapply Hk. Qed.

Lemma reads_peek {A} p (f : MBuf -> outcome A) : reads (peek p f).
Proof.
  intros h a h'. unfold peek. destruct (h !! p) as [m|]; [|done].
  intros (a' & _ & [= _ <-])%obind_Ret_inv. done.
Qed.

Lemma reads_if {S A} (b : bool) (m k : St S A) : reads m -> reads k -> reads (if b then m else k).
Proof. by destruct b. Qed.

#[export] Hint Resolve reads_sret reads_slift reads_spanic reads_sbind reads_peek reads_if : nb_reads.

(** [m] reads only, and a value it returns satisfies [Q]. *)
Definition yields {S A} (m : St S A) (Q : A -> Prop) : Prop :=
  forall s a s', m s = Ret (a, s') -> s' = s /\ Q a.

Lemma yields_ret {S A} (a : A) (Q : A -> Prop) : Q a -> yields (sret a : St S A) Q.
Proof. by intros ? s a' s' [= <- <-]. Qed.

Lemma yields_panic {S A} (Q : A -> Prop) : yields (fun _ => Panic : outcome (A * S)) Q.
Proof. by intros s a' s' [=]. Qed.

Lemma yields_bind {S A B} (m : St S A) (k : A -> St S B) Q :
  reads m -> (forall a, yields (k a) Q) -> yields (sbind m k) Q.
Proof. intros Hm Hk s b s'' (a & s' & H1 & H2)%sbind_Ret_inv. rewrite (Hm _ _ _ H1) in H2. by eapply Hk. Qed.

#[export] Hint Resolve yields_ret yields_panic yields_bind : nb_reads.

Section views.
Context {P : Profile} {T M : Type} {ET : EndOffset T} {PT : Packed T}.
Implicit Types pkt : Packet T M.

Lemma parse_header_view (T2 : Type) {E2 : EndOffset T2} pkt :
  yields (parse_header T2 pkt) (fun p => mbuf p = mbuf pkt).
Proof.
  unfold parse_header, pkt_payload_size, payload, payload_offset, get_header, pkt_data_len, data_base, read_at.
  apply yields_bind; [eauto 20 with nb_reads|]. intros ps. destruct (_ <? _); eauto 20 with nb_reads.
Qed.

Lemma reset_view pkt : yields (reset pkt) (fun p => mbuf p = mbuf pkt).
Proof. unfold reset, data_base. eauto with nb_reads. Qed.

Lemma restore_view (T2 M2 : Type) pkt :
  yields (restore_saved_header T2 M2 pkt) (fun o => forall p, o = Some p -> mbuf p = mbuf pkt).
Proof.
  unfold restore_saved_header, read_header, read_offset. apply yields_bind; [eauto with nb_reads|].
  intros hdr. destruct (_ =? _); [by apply yields_ret|].
  apply yields_bind; [eauto with nb_reads|]. intros o. apply yields_ret. by intros p [= <-].
Qed.

End views.

(** ** Lenses: the field an operator keeps its parent in *)

Class Lens {B V : Type} (get : B -> V) (set : V -> B -> B) : Prop := {
  get_set v b : get (set v b) = v;
  set_get b : set (get b) b = b;
  set_set v v' b : set v (set v' b) = set v b
}.

Lemma lens_compose {B V U : Type} (g1 : B -> V) s1 (g2 : V -> U) s2 `{!Lens g1 s1} `{!Lens g2 s2} :
  Lens (fun b => g2 (g1 b)) (fun u b => s1 (s2 u (g1 b)) b).
Proof.
  split; intros.
  - by rewrite !get_set.
  - by rewrite !set_get.
  - by rewrite get_set, !set_set.
Qed.

Lemma on_field_compose {Net B V U A : Type} (g1 : B -> V) s1 (g2 : V -> U) s2 (m : St (U * World Net) A) s :
  on_field g1 s1 (on_field g2 s2 m) s = on_field (fun b => g2 (g1 b)) (fun u b => s1 (s2 u (g1 b)) b) m s.
Proof. unfold on_field, zoom. simpl. by destruct (m _) as [[a [u w]]| | |]. Qed.

Lemma on_field_ext {Net B V A : Type} (g : B -> V) set (m k : St (V * World Net) A) s :
  (forall t, m t = k t) -> on_field g set m s = on_field g set k s.
Proof. intros H. unfold on_field, zoom. by rewrite H. Qed.

Lemma on_field_Ret {Net B V A : Type} (g : B -> V) set (m : St (V * World Net) A) b w a v w' :
  m (g b, w) = Ret (a, (v, w')) -> on_field g set m (b, w) = Ret (a, (set v b, w')).
Proof. unfold on_field, zoom. simpl. by intros ->. Qed.

Lemma on_field_id {Net B V A : Type} (g : B -> V) set `{!Lens g set} (m : St (V * World Net) A) b w a w' :
  m (g b, w) = Ret (a, (g b, w')) -> on_field g set m (b, w) = Ret (a, (b, w')).
Proof. intros H. erewrite on_field_Ret by done. by rewrite set_get. Qed.

(** ** The interface *)

Class BatchLaws (Net B T M : Type) {Z_ : Zcsi} {P : Profile} {I : BatchIterator Net B T M} {A_ : Act Net B} : Type := {
  view : B -> PacketBatch.PacketBatch;
  update : PacketBatch.PacketBatch -> B -> B;
  view_lens :: Lens view update;
  borrows A (m : St _ A) s : get_packet_batch m s = on_field view update m s;
  drops idxes s : drop_packets idxes s = on_field view update (PacketBatch.drop_packets idxes) s;
  sends port s : send_q port s = on_field view update (PacketBatch.send_q port) s;
  clears s : clear_packets s = on_field view update PacketBatch.clear_packets s;
  start_zero s : start s = Ret (0, s);
  next_past idx b w : zlen (PacketBatch.array (view b)) <= idx -> next_payload idx (b, w) = Ret (None, (b, w));
  next_within idx b w o s :
    0 <= idx < zlen (PacketBatch.array (view b)) -> next_payload idx (b, w) = Ret (o, s) ->
    s = (b, w) /\ exists p, o = Some p /\ PacketBatch.array (view b) !! Z.to_nat idx = Some (mbuf p)
}.

Section packet_batch.
Context {P : Profile} {Z_ : Zcsi} {Net : Type}.

Lemma PacketBatch_next_within idx (b : PacketBatch.PacketBatch) (w : World Net) o s :
  0 <= idx < zlen (PacketBatch.array b) -> PacketBatch.next_payload idx (b, w) = Ret (o, s) ->
  s = (b, w) /\ exists p, o = Some p /\ PacketBatch.array b !! Z.to_nat idx = Some (mbuf p).
Proof.
  intros [H0 Hi] H. unfold PacketBatch.next_payload in H. erewrite sbind_Ret in H by done. cbn [fst] in H.
  rewrite (proj2 (Z.ltb_lt _ _) Hi) in H.
  apply sbind_Ret_inv in H as (p & s1 & Hp & H). pose proof (reads_slift _ _ _ _ Hp) as ->.
  apply sbind_Ret_inv in H as (pkt & s2 & Hk & H). unfold on_heap in Hk.
  apply zoom_Ret_inv in Hk as (h & Hk & ->). simpl in *.
  apply sbind_Ret_inv in Hk as (hd & h2 & Hk & Hp2). pose proof (reads_peek _ _ _ _ _ Hk) as ->.
  injection Hp2 as <- <-. injection H as <- <-. split; [by destruct w|].
  eexists. split; [done|]. simpl. unfold slift in Hp. destruct (vindex _ _) as [x| | |] eqn:Hx; try done.
  injection Hp as ->. by apply vindex_Ret in Hx as [_ ->].
Qed.

#[export] Instance id_lens : Lens (B := PacketBatch.PacketBatch) (fun b => b) (fun v _ => v).
Proof. by split. Qed.

Lemma on_field_self {A} (m : St (PacketBatch.PacketBatch * World Net) A) s :
  m s = on_field (fun b => b) (fun v _ => v) m s.
Proof. unfold on_field, zoom. destruct s as [b w]. simpl. by destruct (m _) as [[a [u w']]| | |]. Qed.

#[global] Instance PacketBatch_BatchLaws : BatchLaws Net PacketBatch.PacketBatch NullHeader EmptyMetadata.
Proof.
  refine {| view := fun b => b; update := fun v _ => v |}; try (intros; apply on_field_self).
  - done.
  - intros idx b w Hi. simpl. unfold PacketBatch.next_payload. erewrite sbind_Ret by done. cbn [fst].
    by rewrite (proj2 (Z.ltb_ge _ _) Hi).
  - intros. by apply PacketBatch_next_within.
Defined.

End packet_batch.

(** An operator that keeps its parent in a field, passes the batch methods on and converts
    the packets of its parent without changing anything *)
Section operator.
Context {P : Profile} {Z_ : Zcsi} {Net B V T M T2 M2 : Type}.
Context {IV : BatchIterator Net V T M} {AV : Act Net V} {LV : BatchLaws Net V T M}.
Context {IB : BatchIterator Net B T2 M2} {AB : Act Net B}.
Context (parent : B -> V) (set_parent : V -> B -> B) `{!Lens parent set_parent}.
Context (convert : Packet T M -> St (B * World Net) (Packet T2 M2)).

Definition op_view (b : B) : PacketBatch.PacketBatch := view (parent b).
Definition op_update (p : PacketBatch.PacketBatch) (b : B) : B := set_parent (update p (parent b)) b.

Lemma op_method {A} (m' : St (V * World Net) A) m s :
  (forall t, m' t = on_field view update m t) -> on_field parent set_parent m' s = on_field op_view op_update m s.
Proof. intros. etransitivity; [by apply on_field_ext|]. apply (on_field_compose parent set_parent view update). Qed.

Hypothesis Hget : forall A (m : St _ A) s, get_packet_batch m s = on_field parent set_parent (get_packet_batch m) s.
Hypothesis Hdrop : forall idxes s, drop_packets idxes s = on_field parent set_parent (drop_packets idxes) s.
Hypothesis Hsend : forall port s, send_q port s = on_field parent set_parent (send_q port) s.
Hypothesis Hclear : forall s, clear_packets s = on_field parent set_parent clear_packets s.
Hypothesis Hstart : forall s, start s = on_field parent set_parent start s.
Hypothesis Hnext : forall idx s, next_payload idx s =
  sbind (on_field parent set_parent (next_payload idx)) (fun o =>
    match o with Some p => let* p := convert p in sret (Some p) | None => sret None end) s.
Hypothesis Hconvert : forall p, yields (convert p) (fun q => mbuf q = mbuf p).

Lemma operator_next_within idx b (w : World Net) o s :
  0 <= idx < zlen (PacketBatch.array (op_view b)) -> next_payload idx (b, w) = Ret (o, s) ->
  s = (b, w) /\ exists p, o = Some p /\ PacketBatch.array (op_view b) !! Z.to_nat idx = Some (mbuf p).
Proof using All.
  intros Hi H. rewrite Hnext in H. apply sbind_Ret_inv in H as (o1 & s1 & H1 & H).
  unfold on_field in H1. apply zoom_Ret_inv in H1 as (s2 & H1 & ->). simpl in H1.
  destruct (next_within _ _ _ _ _ Hi H1) as (-> & p & -> & Hp). simpl in H. rewrite set_get in H.
  apply sbind_Ret_inv in H as (q & s3 & Hq & H). apply Hconvert in Hq as [-> Hq].
  injection H as <- <-. split; [done|]. exists q. split; [done|]. by rewrite Hq.
Qed.

Definition operator_laws : BatchLaws Net B T2 M2.
Proof using All.
  refine {| view := op_view; update := op_update; view_lens := lens_compose parent set_parent view update |}; intros.
  - rewrite Hget. apply op_method. intros. apply borrows.
  - rewrite Hdrop. apply op_method. intros. apply drops.
  - rewrite Hsend. apply op_method. intros. apply sends.
  - rewrite Hclear. apply op_method. intros. apply clears.
  - rewrite Hstart. destruct s as [b w]. apply on_field_id; [apply _|]. apply start_zero.
  - rewrite Hnext. erewrite sbind_Ret; [|apply on_field_id; [apply _|by apply next_past]]. done.
  - by apply operator_next_within.
Defined.

End operator.

(** ** The operators keep the promise *)

Lemma yields_on_heap {Net B A : Type} (m : St Heap A) Q :
  yields m Q -> yields (on_heap m : St (B * World Net) A) Q.
Proof.
  intros Hm [b w] a s' H. unfold on_heap in H. apply zoom_Ret_inv in H as (h & H & ->).
  apply Hm in H as [-> HQ]. by destruct w.
Qed.

Lemma convert_sret {S A B} (m : St S (option A)) (f : A -> B) s :
  sbind m (fun o => match o with Some p => let* p := sret (f p) in sret (Some p) | None => sret None end) s =
  sbind m (fun o => sret (f <$> o)) s.
Proof. unfold sbind. by destruct (m s) as [[[p|] s']| | |]. Qed.

Lemma convert_id {S A} (m : St S (option A)) s :
  m s = sbind m (fun o => match o with Some p => let* p := sret p in sret (Some p) | None => sret None end) s.
Proof. unfold sbind. by destruct (m s) as [[[p|] s']| | |]. Qed.

Ltac lens := by split; [| intros [] |].
Tactic Notation "op_laws" uconstr(parent) uconstr(set_parent) uconstr(conv) :=
  refine (operator_laws parent set_parent conv _ _ _ _ _ _ _); try done.

#[global] Instance Receive_lens R : Lens (B := Receive.ReceiveBatch R) Receive.parent Receive.set_parent.
Proof. lens. Qed.

#[global] Instance Receive_laws {P : Profile} {Z_ : Zcsi} {Net : Type} R {Rx : PacketRx Net R} :
  BatchLaws Net (Receive.ReceiveBatch R) NullHeader EmptyMetadata.
Proof.
  op_laws (@Receive.parent R) (@Receive.set_parent R) sret.
  - intros. apply convert_id.
  - intros p. by apply yields_ret.
Defined.

Section instances.
Context {P : Profile} {Z_ : Zcsi} {F : Fuel} {Net V C T M : Type}.
Context {IV : BatchIterator Net V T M} {AV : Act Net V} {LV : BatchLaws Net V T M}.

#[global] Instance Send_lens R : Lens (B := Send.SendBatch R V) Send.parent Send.set_parent.
Proof. lens. Qed.
#[global] Instance Transform_lens : Lens (B := Transform.TransformBatch V C) Transform.parent Transform.set_parent.
Proof. lens. Qed.
#[global] Instance Map_lens : Lens (B := Map.MapBatch V C) Map.parent Map.set_parent.
Proof. lens. Qed.
#[global] Instance Filter_lens : Lens (B := Filter.FilterBatch V C) Filter.parent Filter.set_parent.
Proof. lens. Qed.
#[global] Instance AddMetadata_lens :
  Lens (B := AddMetadata.AddMetadataBatch V C) AddMetadata.parent AddMetadata.set_parent.
Proof. lens. Qed.
#[global] Instance AddMetadataMut_lens :
  Lens (B := AddMetadataMut.MutableAddMetadataBatch V C) AddMetadataMut.parent AddMetadataMut.set_parent.
Proof. lens. Qed.
#[global] Instance Parsed_lens T2 : Lens (B := Parsed.ParsedBatch T2 V) Parsed.parent Parsed.set_parent.
Proof. lens. Qed.
#[global] Instance Reset_lens : Lens (B := ResetParsing.ResetParsingBatch V) ResetParsing.parent ResetParsing.set_parent.
Proof. lens. Qed.
#[global] Instance Restore_lens T2 M2 : Lens (B := Restore.RestoreHeader T2 M2 V) Restore.parent Restore.set_parent.
Proof. lens. Qed.
#[global] Instance Composition_lens :
  Lens (B := Composition.CompositionBatch V) Composition.parent Composition.set_parent.
Proof. lens. Qed.

#[global] Instance Transform_laws {Fn : FnMut C (Packet T M) (Packet T M)} :
  BatchLaws Net (Transform.TransformBatch V C) T M.
Proof using Type*.
  op_laws (@Transform.parent V C) (@Transform.set_parent V C) sret.
  - intros. apply convert_id.
  - intros p. by apply yields_ret.
Defined.

#[global] Instance Map_laws {Fn : FnRef C (Packet T M) unit} : BatchLaws Net (Map.MapBatch V C) T M.
Proof using Type*.
  op_laws (@Map.parent V C) (@Map.set_parent V C) sret.
  - intros. apply convert_id.
  - intros p. by apply yields_ret.
Defined.

#[global] Instance Filter_laws {Fn : FnRef C (Packet T M) bool} : BatchLaws Net (Filter.FilterBatch V C) T M.
Proof using Type*.
  op_laws (@Filter.parent V C) (@Filter.set_parent V C) sret.
  - intros. apply convert_id.
  - intros p. by apply yields_ret.
Defined.

#[global] Instance AddMetadata_laws {M2} {PM : Packed M2} {Fn : FnRef C (Packet T M) M2} :
  BatchLaws Net (AddMetadata.AddMetadataBatch V C) T M2.
Proof using Type*.
  op_laws (@AddMetadata.parent V C) (@AddMetadata.set_parent V C)
    (fun p => sret (reinterpret_metadata M2 p)).
  - intros. symmetry. apply (convert_sret _ (reinterpret_metadata M2)).
  - intros p. by apply yields_ret.
Defined.

#[global] Instance AddMetadataMut_laws {M2} {PM : Packed M2} {Fn : FnMut C (Packet T M) (M2 * Packet T M)} :
  BatchLaws Net (AddMetadataMut.MutableAddMetadataBatch V C) T M2.
Proof using Type*.
  op_laws (@AddMetadataMut.parent V C) (@AddMetadataMut.set_parent V C)
    (fun p => sret (reinterpret_metadata M2 p)).
  - intros. symmetry. apply (convert_sret _ (reinterpret_metadata M2)).
  - intros p. by apply yields_ret.
Defined.

#[global] Instance Parsed_laws {T2} {ET : EndOffset T} {PT : Packed T} {E2 : EndOffset T2} :
  BatchLaws Net (Parsed.ParsedBatch T2 V) T2 M.
Proof using Type*.
  op_laws (@Parsed.parent T2 V) (@Parsed.set_parent T2 V)
    (fun p => on_heap (parse_header T2 p)).
  intros p. apply yields_on_heap, parse_header_view.
Defined.

#[global] Instance Reset_laws : BatchLaws Net (ResetParsing.ResetParsingBatch V) NullHeader EmptyMetadata.
Proof using Type*.
  op_laws (@ResetParsing.parent V) (@ResetParsing.set_parent V)
    (fun p => on_heap (reset p)).
  intros p. apply yields_on_heap, reset_view.
Defined.

#[global] Instance Restore_laws {T2 M2} : BatchLaws Net (Restore.RestoreHeader T2 M2 V) T2 M2.
Proof using Type*.
  op_laws (@Restore.parent T2 M2 V) (@Restore.set_parent T2 M2 V)
    (fun p => let* o := on_heap (restore_saved_header T2 M2 p) in slift (unwrap o)).
  - intros idx s. simpl. unfold sbind. by destruct (on_field _ _ _ s) as [[[p|] s']| | |];
      [destruct (on_heap _ s') as [[? ?]| | |]|..].
  - intros p s q s' (o & s1 & H1 & H2)%sbind_Ret_inv. apply yields_on_heap with (1 := restore_view _ _ p) in H1 as [-> Ho].
    pose proof (reads_slift _ _ _ _ H2) as ->. split; [done|].
    destruct o as [p'|]; [|done]. injection H2 as <-. by apply Ho.
Defined.

End instances.

#[global] Instance Composition_laws {P : Profile} {Z_ : Zcsi} {Net V T M : Type} {IV : BatchIterator Net V T M}
    {AV : Act Net V} {LV : BatchLaws Net V T M} :
  BatchLaws Net (Composition.CompositionBatch V) NullHeader EmptyMetadata.
Proof.
  op_laws (@Composition.parent V) (@Composition.set_parent V) sret.
  - intros. apply convert_id.
  - intros p. by apply yields_ret.
Defined.

Lemma uadd_ok `{Profile} w a b : 0 <= a + b < 2 ^ w -> uadd w a b = Ret (a + b).
Proof. intros. unfold uadd, fit. by rewrite (proj2 (Z.leb_le _ _)), (proj2 (Z.ltb_lt _ _)) by lia. Qed.

(** ** Filtering *)

(** The elements with verdict [true], those with verdict [false], and the indices of the
    latter when the first element has index [i] *)
Fixpoint keep {A} (bs : list bool) (l : list A) : list A :=
  match bs, l with
  | b :: bs, x :: l => if b then x :: keep bs l else keep bs l
  | _, _ => []
  end.
Definition reject {A} (bs : list bool) (l : list A) : list A := keep (negb <$> bs) l.
Fixpoint rejected (i : Z) (bs : list bool) : list Z :=
  match bs with
  | [] => []
  | b :: bs => if b then rejected (i + 1) bs else i :: rejected (i + 1) bs
  end.

Lemma rejected_ascending i bs : PacketBatch.ascending i (rejected i bs).
Proof.
  revert i. induction bs as [|b bs IH]; intros i; [split; constructor|]. simpl. destruct b.
  - eapply PacketBatch.ascending_mono; [apply IH|lia].
  - destruct (IH (i + 1)) as [Hs Hi]. split; constructor; try done;
      (eapply Forall_impl; [exact Hi|]; simpl; lia).
Qed.

Lemma rejected_range i bs : Forall (fun t => t < i + zlen bs) (rejected i bs).
Proof.
  revert i. induction bs as [|b bs IH]; intros i; [constructor|]. simpl.
  assert (Forall (fun t => t < i + Z.of_nat (S (length bs))) (rejected (i + 1) bs)).
  { eapply Forall_impl; [apply IH|]. simpl. lia. }
  destruct b; [done|]. constructor; [lia|done].
Qed.

Lemma sieve_rejected b i bs l :
  length bs = length l ->
  PacketBatch.sieve b (rejected i bs) i l = if b then reject bs l else keep bs l.
Proof.
  revert i l. induction bs as [|v bs IH]; intros i [|x l] Hl; try done; [by destruct b|]. simpl in Hl.
  simpl rejected. destruct v.
  - rewrite PacketBatch.sieve_skip, IH by (lia || (eapply PacketBatch.ascending_later; [apply rejected_ascending|lia])).
    by destruct b.
  - rewrite PacketBatch.sieve_here, IH by lia. by destruct b.
Qed.

Lemma keep_reject_permutation {A} bs (l : list A) : length bs = length l -> keep bs l ++ reject bs l ≡ₚ l.
Proof.
  revert l. induction bs as [|b bs IH]; intros [|x l] Hl; try done. injection Hl as Hl.
  unfold reject in *. destruct b; simpl; [by rewrite IH|]. rewrite <-Permutation_middle. by rewrite IH.
Qed.

Lemma length_reject bs (l : list Z) : length bs = length l -> length (reject bs l) = length (rejected 0 bs).
Proof.
  intros Hl. rewrite <-(sieve_rejected true 0) by done. apply PacketBatch.length_sieve_true.
  - apply rejected_ascending.
  - rewrite <-Hl. apply (rejected_range 0).
Qed.

Section filter.
Context {P : Profile} {Z_ : Zcsi} {F : Fuel} {Net V C T M : Type}.
Context {IV : BatchIterator Net V T M} {AV : Act Net V} {LV : BatchLaws Net V T M}.
Context {Fn : FnRef C (Packet T M) bool}.

(** The packets that enumerating a batch yields *)
Definition packets_of (v : V) (w : World Net) (ps : list (Packet T M)) : Prop :=
  length ps = length (PacketBatch.array (view v)) /\
  forall i p, ps !! i = Some p -> next_payload (Z.of_nat i) (v, w) = Ret (Some p, (v, w)).

(** The closure called on the packets in turn *)
Fixpoint verdicts (ps : list (Packet T M)) (h : Heap) (c : C) : outcome (list bool * C) :=
  match ps with
  | [] => Ret ([], c)
  | p :: ps =>
      let! '(b, c) := call_ref p h c in
      let! '(bs, c) := verdicts ps h c in
      Ret (b :: bs, c)
  end.

Lemma verdicts_length ps h c bs c' : verdicts ps h c = Ret (bs, c') -> length bs = length ps.
Proof.
  revert c bs. induction ps as [|p ps IH]; intros c bs; simpl; [by intros [= <- _]|].
  intros ([b c1] & _ & ([bs1 c2] & H1 & [= <- ->])%obind_Ret_inv)%obind_Ret_inv. simpl. f_equal. by eapply IH.
Qed.

Lemma check_packets v (w : World Net) ps k fuel c cap rm bs c' :
  packets_of v w ps -> (k <= length ps)%nat -> zlen ps < 2 ^ 31 -> (length ps - k <= fuel)%nat ->
  verdicts (drop k ps) (heap w) c = Ret (bs, c') ->
  while_let (fun A => on_field Filter.parent Filter.set_parent) Filter.check_packet fuel (mkEnumerator (Z.of_nat k))
    (Filter.mkFilter v c cap rm, w) =
  Ret (tt, (Filter.mkFilter v c' cap (rm ++ rejected (Z.of_nat k) bs), w)).
Proof.
  intros [Hl Hp] Hk Hsm. revert k c rm bs Hk. induction fuel as [|fuel IH]; intros k c rm bs Hk Hf Hv.
  all: cbn [while_let].
  - assert (k = length ps) as -> by lia. rewrite drop_ge in Hv by lia. injection Hv as <- <-.
    erewrite sbind_Ret; [|apply on_field_id; [apply _|]].
    2: { unfold PayloadEnumerator_next. simpl. erewrite sbind_Ret by (apply next_past; lia). done. }
    simpl. by rewrite app_nil_r.
  - destruct (decide (k = length ps)) as [->|].
    { rewrite drop_ge in Hv by lia. injection Hv as <- <-.
      erewrite sbind_Ret; [|apply on_field_id; [apply _|]].
      2: { unfold PayloadEnumerator_next. simpl. erewrite sbind_Ret by (apply next_past; lia). done. }
      simpl. by rewrite app_nil_r. }
    destruct (lookup_lt_is_Some_2 ps k ltac:(lia)) as [p Hpk].
    erewrite sbind_Ret; [|apply on_field_id; [apply _|]].
    2: { unfold PayloadEnumerator_next. cbn [idx Filter.parent]. erewrite sbind_Ret by (by apply Hp).
         unfold uadd, fit. rewrite (proj2 (Z.leb_le _ _)), (proj2 (Z.ltb_lt _ _)) by (simpl in *; lia).
         erewrite sbind_Ret by done. done. }
    cbn beta iota. rewrite (drop_S _ _ _ Hpk) in Hv. simpl in Hv.
    apply obind_Ret_inv in Hv as ([b c1] & Hc & ([bs1 c2] & Hv & [= <- <-])%obind_Ret_inv).
    replace (Z.of_nat k + 1) with (Z.of_nat (S k)) by lia.
    rewrite (sbind_Ret _ _ _ tt (Filter.mkFilter v c1 cap (rm ++ if b then [] else [Z.of_nat k]), w)).
    2: { unfold Filter.check_packet, on_closure_ref, sbind. simpl. rewrite Hc. destruct b; [|done].
         by rewrite app_nil_r. }
    rewrite (IH (S k) c1 _ bs1) by (done || lia). rewrite <-app_assoc.
    replace (Z.of_nat (S k)) with (Z.of_nat k + 1) by lia. by destruct b.
Qed.

Lemma filter_act_ok (fb : Filter.FilterBatch V C) (v : V) (w w1 : World Net) ps bs c' h :
  Filter.remove fb = [] ->
  act (Filter.parent fb, w) = Ret (tt, (v, w1)) ->
  PacketBatch.batch_ok (view v) -> packets_of v w1 ps -> (length ps <= loop_fuel)%nat ->
  verdicts ps (heap w1) (Filter.filter_ fb) = Ret (bs, c') ->
  PacketBatch.freed (reject bs (PacketBatch.array (view v))) (heap w1) h ->
  exists gap,
    length gap = length (reject bs (PacketBatch.array (view v))) /\
    act (fb, w) =
    Ret (tt, (Filter.mkFilter
                (update (PacketBatch.mkBatch (keep bs (PacketBatch.array (view v)))
                           (gap ++ PacketBatch.spare (view v)) [] (PacketBatch.parent_tasks (view v))) v)
                c' (Filter.cap fb) [], mkWorld h (net w1))).
Proof.
  intros Hrm Hact Hok Hps Hfu Hv Hfr. pose proof Hok as [Hs Hc]. unfold PacketBatch.vec_capacity in Hc.
  pose proof (verdicts_length _ _ _ _ _ Hv) as Hlb. pose proof Hps as [Hlp _].
  assert (Heta : PacketBatch.mkBatch (PacketBatch.array (view v)) (PacketBatch.spare (view v)) []
                   (PacketBatch.parent_tasks (view v)) = view v).
  { clear -Hs. destruct (view v). simpl in *. by subst. }
  set (arr := PacketBatch.array (view v)) in *.
  destruct fb as [p c cap rm]. simpl in Hrm, Hact, Hv. subst rm.
  simpl. unfold Filter.act_.
  erewrite sbind_Ret by (by apply on_field_Ret). cbn [Filter.set_parent Filter.filter_ Filter.cap Filter.remove].
  erewrite sbind_Ret.
  2: { unfold for_each. erewrite sbind_Ret; [|apply on_field_id; [apply _|]].
       2: { unfold PayloadEnumerator_new. erewrite sbind_Ret by apply start_zero. done. }
       apply (check_packets v w1 ps 0 _ c cap [] bs c'); try done; lia. }
  change (Z.of_nat 0) with 0. simpl app. erewrite sbind_Ret by done. cbn [fst Filter.remove].
  destruct (rejected 0 bs) as [|t ts] eqn:Hr.
  - assert (Hnil : reject bs arr = []).
    { apply length_zero_iff_nil. rewrite length_reject by lia. by rewrite Hr. }
    assert (Hkeep : keep bs arr = arr).
    { rewrite <-(sieve_rejected false 0), Hr by lia. apply PacketBatch.sieve_nil. }
    exists []. rewrite Hnil, Hkeep in *. simpl in Hfr. subst h. split; [done|]. simpl.
    rewrite Heta, set_get. unfold sbind. simpl. by destruct w1.
  - subst arr. destruct (PacketBatch.drop_packets_ok (view v) w1 (rejected 0 bs) 0 h) as (gap & Hg & Hd); try done.
    { by rewrite Hr. }
    { apply rejected_ascending. }
    { replace (zlen (PacketBatch.array (view v))) with (0 + zlen bs) by lia. apply rejected_range. }
    { rewrite sieve_rejected by lia. destruct (reject bs _) eqn:Hre; [|done].
      apply (f_equal length) in Hre. rewrite length_reject, Hr in Hre by lia. done. }
    exists gap. split; [rewrite length_reject by lia; done|].
    rewrite sieve_rejected in Hd by lia. rewrite <-Hr.
    rewrite (proj2 (Z.eqb_neq (zlen (rejected 0 bs)) 0)) by (rewrite Hr; simpl; lia). cbn [negb].
    rewrite (sbind_Ret _ _ _ tt (Filter.mkFilter (update (PacketBatch.mkBatch (keep bs (PacketBatch.array (view v)))
      (gap ++ PacketBatch.spare (view v)) [] (PacketBatch.parent_tasks (view v))) v) c' cap (rejected 0 bs),
      mkWorld h (net w1))); [done|].
    erewrite sbind_Ret.
    2: { etransitivity; [apply on_field_ext; intros; apply drops|].
         apply on_field_Ret. apply on_field_Ret. exact Hd. }
    done.
Qed.

End filter.

(** A filter keeps exactly the packets its closure accepts, in order, over any batch that
    keeps the interface's promise: after the parent acted and the closure, called on the
    packets in turn, gave the verdicts [bs], the batch holds the mbufs with verdict [true],
    those with verdict [false] were freed in one call, and the list of indices is empty again. *)
Lemma filter_keeps_accepted {P : Profile} {Z_ : Zcsi} {F : Fuel} {Net V C T M : Type}
    {IV : BatchIterator Net V T M} {AV : Act Net V} {LV : BatchLaws Net V T M} {Fn : FnRef C (Packet T M) bool}
    (fb : Filter.FilterBatch V C) (v : V) (w w1 : World Net) ps bs c' h :
  Filter.remove fb = [] ->
  act (Filter.parent fb, w) = Ret (tt, (v, w1)) ->
  PacketBatch.batch_ok (view v) -> packets_of v w1 ps -> (length ps <= loop_fuel)%nat ->
  verdicts ps (heap w1) (Filter.filter_ fb) = Ret (bs, c') ->
  PacketBatch.freed (reject bs (PacketBatch.array (view v))) (heap w1) h ->
  exists fb', act (fb, w) = Ret (tt, (fb', mkWorld h (net w1))) /\
    PacketBatch.array (view fb') = keep bs (PacketBatch.array (view v)) /\
    PacketBatch.vec_capacity (view fb') = PacketBatch.vec_capacity (view v) /\
    keep bs (PacketBatch.array (view v)) ++ reject bs (PacketBatch.array (view v)) ≡ₚ PacketBatch.array (view v) /\
    PacketBatch.batch_ok (view fb') /\ Filter.remove fb' = [] /\ Filter.filter_ fb' = c'.
Proof.
  intros Hrm Hact Hok Hps Hfu Hv Hfr.
  assert (Hl : length bs = length (PacketBatch.array (view v))).
  { rewrite (verdicts_length _ _ _ _ _ Hv). by destruct Hps. }
  pose proof (Permutation_length (keep_reject_permutation bs _ Hl)) as Hp. rewrite length_app in Hp.
  destruct (filter_act_ok fb v w w1 ps bs c' h) as (gap & Hg & H); try done.
  eexists. split; [exact H|]. simpl. unfold op_view. simpl. rewrite (get_set (get := view) (set := update)). simpl.
  assert (Hv' : PacketBatch.vec_capacity (PacketBatch.mkBatch (keep bs (PacketBatch.array (view v)))
    (gap ++ PacketBatch.spare (view v)) [] (PacketBatch.parent_tasks (view v))) = PacketBatch.vec_capacity (view v)).
  { unfold PacketBatch.vec_capacity. simpl. rewrite length_app. lia. }
  split_and!; try done; [by apply keep_reject_permutation|]. split; [done|]. rewrite Hv'. by destruct Hok.
Qed.

(** ** Loops over a batch

    An invariant indexed by the number of packets done carries a loop over a batch to its
    end: every turn finds its packet and takes the invariant one further. *)

Section loops.
Context {P : Profile} {Z_ : Zcsi} {F : Fuel} {Net V T M B : Type}.
Context {IV : BatchIterator Net V T M} {AV : Act Net V} {LV : BatchLaws Net V T M}.
Context (get : B -> V) (set : V -> B -> B) {L : Lens get set} (body : ParsedDescriptor T M -> St (B * World Net) unit).
Context (n : nat) (inv : nat -> B -> World Net -> Prop).
Context (size : forall k b w, inv k b w -> length (PacketBatch.array (view (get b))) = n).
Context (turn : forall k b w, (k < n)%nat -> inv k b w ->
  exists p b' w', next_payload (Z.of_nat k) (get b, w) = Ret (Some p, (get b, w)) /\
    body (mkParsed (Z.of_nat k) p) (b, w) = Ret (tt, (b', w')) /\ inv (S k) b' w').

Lemma while_let_inv fuel k b w :
  (k <= n)%nat -> (n - k <= fuel)%nat -> Z.of_nat n < 2 ^ 31 -> inv k b w ->
  exists b' w', while_let (fun A => on_field get set) body fuel (mkEnumerator (Z.of_nat k)) (b, w) = Ret (tt, (b', w')) /\
    inv n b' w'.
Proof using L LV size turn.
  revert k b w. induction fuel as [|fuel IH]; intros k b w Hk Hf Hn Hi; destruct (decide (k = n)) as [->|Hne]; try lia.
  1, 2: exists b, w; split; [|done]; cbn [while_let]; pose proof (size _ _ _ Hi);
    erewrite sbind_Ret; [|apply on_field_id; [apply _|unfold PayloadEnumerator_next; cbn [idx];
      erewrite sbind_Ret by (apply next_past; lia); done]]; done.
  destruct (turn k b w ltac:(lia) Hi) as (p & b1 & w1 & Hp & Hb & Hi1).
  destruct (IH (S k) b1 w1) as (b' & w' & Hw & Hi'); [lia..|done|]. exists b', w'. split; [|done]. cbn [while_let].
  erewrite sbind_Ret; [|apply on_field_id; [apply _|unfold PayloadEnumerator_next; cbn [idx];
    erewrite sbind_Ret by exact Hp; rewrite uadd_ok by (simpl in *; lia); by erewrite sbind_Ret by done]].
  cbn beta iota. erewrite sbind_Ret by exact Hb. by replace (Z.of_nat k + 1) with (Z.of_nat (S k)) by lia.
Qed.

Lemma for_each_inv b w :
  (n <= loop_fuel)%nat -> Z.of_nat n < 2 ^ 31 -> inv 0 b w ->
  exists b' w', for_each (fun A => on_field get set) body (b, w) = Ret (tt, (b', w')) /\ inv n b' w'.
Proof using L LV size turn.
  intros Hf Hn Hi. unfold for_each. erewrite sbind_Ret; [|apply on_field_id; [apply _|]].
  2: { unfold PayloadEnumerator_new. by erewrite sbind_Ret by apply start_zero. }
  apply (while_let_inv loop_fuel 0); (done || lia).
Qed.

End loops.

(** ** Transforming *)

Section transform.
Context {P : Profile} {Z_ : Zcsi} {F : Fuel} {Net V C T M : Type}.
Context {IV : BatchIterator Net V T M} {AV : Act Net V} {LV : BatchLaws Net V T M}.
Context {Fn : FnMut C (Packet T M) (Packet T M)}.

Abbreviation TB := (Transform.TransformBatch V C).

(** The closure on packet [i], then on packet [i + 1] and so on, [n] packets in all *)
Fixpoint visit (n : nat) (i : Z) : St (TB * World Net) unit :=
  match n with
  | O => sret tt
  | S n =>
      let* o := on_field Transform.parent Transform.set_parent (next_payload i) in
      let* p := slift (unwrap o) in
      let* _ := on_closure Transform.transformer Transform.set_transformer (call_mut p) in
      visit n (i + 1)
  end.

Lemma enumerate_visits n i fuel (tb : TB) (w : World Net) :
  0 <= i -> i + Z.of_nat n = zlen (PacketBatch.array (view (Transform.parent tb))) -> i + Z.of_nat n < 2 ^ 31 ->
  (n <= fuel)%nat ->
  while_let (fun A => on_field Transform.parent Transform.set_parent) (fun d =>
      let* _ := on_closure Transform.transformer Transform.set_transformer (call_mut (packet d)) in sret tt)
    fuel (mkEnumerator i) (tb, w) = visit n i (tb, w).
Proof.
  revert n i tb w. induction fuel as [|fuel IH]; intros n i tb w H0 Hi Hs Hf.
  all: destruct n as [|n]; [cbn [while_let visit];
    erewrite sbind_Ret; [|apply on_field_id; [apply _|unfold PayloadEnumerator_next; cbn [idx];
      erewrite sbind_Ret by (apply next_past; lia); done]]; done|].
  - lia.
  - cbn [while_let visit].
    assert (Hin : 0 <= i < zlen (PacketBatch.array (view (Transform.parent tb)))) by lia.
    destruct (next_payload i (Transform.parent tb, w)) as [[o s1]| | |] eqn:He.
    2-4: unfold PayloadEnumerator_next, sbind, on_field, zoom, sbind; cbn [fst snd idx]; by rewrite He.
    destruct (next_within _ _ _ _ _ Hin He) as (-> & p & -> & _).
    erewrite sbind_Ret; [|apply on_field_id; [apply _|unfold PayloadEnumerator_next; cbn [idx];
      erewrite sbind_Ret by exact He; rewrite uadd_ok by (simpl in *; lia); by erewrite sbind_Ret by done]].
    cbn beta iota. cbn [packet].
    erewrite (sbind_Ret (on_field _ _ (next_payload i))) by (apply on_field_id; [apply _|exact He]).
    erewrite (sbind_Ret (slift _)) by done. rewrite sbind_assoc.
    destruct (on_closure Transform.transformer Transform.set_transformer (call_mut p) (tb, w)) as [[q s']| | |] eqn:Hc.
    2-4: unfold sbind; by rewrite Hc.
    erewrite (sbind_Ret _ _ (tb, w)) by exact Hc.
    erewrite (sbind_Ret (on_closure _ _ _)) by exact Hc. unfold on_closure in Hc. apply zoom_Ret_inv in Hc as (s2 & _ & ->).
    erewrite sbind_Ret by done. apply IH; simpl; lia.
Qed.

(** C34: Between two [done]s a transform runs its closure on every packet of the batch exactly
    once, in order: the first [act] after [done], when the [act] of the parent returns and
    leaves a well-formed batch no longer than the bound on loops, equals a counted loop over
    the packets of the parent, a panic of the closure included; further calls of [act] do
    nothing until [done] re-arms it. *)
Theorem transform_once_per_cycle (tb : TB) (v : V) (w w1 : World Net) :
  Transform.applied tb = false ->
  act (Transform.parent tb, w) = Ret (tt, (v, w1)) ->
  PacketBatch.batch_ok (view v) -> (length (PacketBatch.array (view v)) <= loop_fuel)%nat ->
  act (tb, w) =
    sbind (visit (length (PacketBatch.array (view v))) 0)
      (fun _ => smodify (fun s => (Transform.set_applied true s.1, s.2))) (Transform.set_parent v tb, w1) /\
  (forall tb2 w2, act (tb, w) = Ret (tt, (tb2, w2)) -> act (tb2, w2) = Ret (tt, (tb2, w2))) /\
  (forall tb2 w2 tb3 w3, done (tb2, w2) = Ret (tt, (tb3, w3)) -> Transform.applied (tb3 : TB) = false).
Proof.
  intros Ha Hact [_ Hc] Hf. unfold PacketBatch.vec_capacity in Hc.
  assert (Hrun : act (tb, w) = sbind (visit (length (PacketBatch.array (view v))) 0)
      (fun _ => smodify (fun s => (Transform.set_applied true s.1, s.2))) (Transform.set_parent v tb, w1)).
  { simpl. unfold Transform.act_. erewrite sbind_Ret by done. cbn [fst]. rewrite Ha. cbn [negb].
    erewrite sbind_Ret by (by apply on_field_Ret). unfold for_each. rewrite sbind_assoc.
    erewrite sbind_Ret; [|apply on_field_id; [apply _|]].
    2: { unfold PayloadEnumerator_new. by erewrite sbind_Ret by apply start_zero. }
    unfold sbind at 1. rewrite (enumerate_visits (length (PacketBatch.array (view v)))) by (simpl; lia). done. }
  split; [exact Hrun|]. split.
  - intros tb2 w2 H. rewrite Hrun in H. apply sbind_Ret_inv in H as ([] & s' & _ & [= <- <-]).
    simpl. unfold Transform.act_. by erewrite sbind_Ret by done.
  - intros tb2 w2 tb3 w3 H. simpl in H. unfold Transform.done_ in H. erewrite sbind_Ret in H by done.
    unfold on_field in H. apply zoom_Ret_inv in H as ([v' w'] & _ & [= -> _]). done.
Qed.

End transform.

(** ** Receiving and sending *)

Section ends.
Context {P : Profile} {Z_ : Zcsi} {Net R : Type}.

Lemma receive_act_ok {Rx : PacketRx Net R} pb q cnt (w w' : World Net) h n pkts :
  PacketBatch.batch_ok pb -> PacketBatch.freed (PacketBatch.array pb) (heap w) h ->
  recv q (PacketBatch.array pb ++ PacketBatch.spare pb) (mkWorld h (net w)) = Ret ((Ok n, pkts), w') ->
  length pkts = length (PacketBatch.array pb ++ PacketBatch.spare pb) -> 0 <= n <= zlen pkts ->
  uint 64 cnt -> cnt + n < 2 ^ 64 ->
  act (Receive.mkReceive pb q cnt, w) =
  Ret (tt, (Receive.mkReceive (PacketBatch.received_batch pb (Ok n) pkts) q (cnt + n), w')).
Proof.
  intros Hb Hf Hr Hl Hn [Hc0 Hc1] Hc. simpl. unfold Receive.act_.
  erewrite sbind_Ret by (by apply on_field_Ret). erewrite sbind_Ret by done.
  erewrite sbind_Ret by (apply on_field_Ret; by eapply PacketBatch.recv_batch_ok).
  cbn beta iota. erewrite sbind_Ret by done. cbn [fst Receive.received Receive.set_parent].
  rewrite uadd_ok by lia. by erewrite sbind_Ret by done.
Qed.

Lemma receive_done_ok pb (q : R) cnt (w : World Net) h {Rx : PacketRx Net R} :
  PacketBatch.batch_ok pb -> PacketBatch.freed (PacketBatch.array pb) (heap w) h ->
  done (Receive.mkReceive pb q cnt, w) =
  Ret (tt, (Receive.mkReceive (PacketBatch.resized pb 0) q cnt, mkWorld h (net w))).
Proof.
  intros Hb Hf. simpl. unfold Receive.done_.
  by erewrite sbind_Ret by (apply on_field_Ret; by apply PacketBatch.deallocate_batch_ok).
Qed.

(** The port takes the first [n] mbufs; it is not called when there are none. *)
Definition sent_by {Tx : PacketTx Net R} (port : R) (l : list Z) (w : World Net) (n : Z) (w' : World Net) : Prop :=
  match l with
  | [] => n = 0 /\ w' = w
  | _ => send port l w = Ret ((Ok n, l), w') /\ 0 <= n <= zlen l
  end.

Lemma send_q_sent {Tx : PacketTx Net R} (port : R) b (w w' : World Net) n :
  PacketBatch.batch_ok b -> sent_by port (PacketBatch.array b) w n w' ->
  exists gap, zlen gap = n /\
    PacketBatch.send_q (send port) (b, w) =
    Ret (Ok n, (PacketBatch.mkBatch (drop (Z.to_nat n) (PacketBatch.array b)) (gap ++ PacketBatch.spare b)
                  (PacketBatch.scratch b) (PacketBatch.parent_tasks b), w')).
Proof.
  intros Hb Hs. destruct (PacketBatch.array b) as [|x l] eqn:Ha.
  - destruct Hs as [-> ->]. exists []. split; [done|]. rewrite PacketBatch.send_q_empty by done.
    destruct b. simpl in *. by subst.
  - destruct Hs as [Hs Hn]. rewrite <-Ha in *. apply PacketBatch.send_q_ok; try done. by rewrite Ha.
Qed.

Context {V T M : Type} {IV : BatchIterator Net V T M} {AV : Act Net V} {LV : BatchLaws Net V T M}.

Lemma send_act_ok {Tx : PacketTx Net R} (sb : Send.SendBatch R V) v v' (w w1 w2 w3 : World Net) n :
  act (Send.parent sb, w) = Ret (tt, (v, w1)) ->
  PacketBatch.batch_ok (view v) ->
  sent_by (Send.port sb) (PacketBatch.array (view v)) w1 n w2 ->
  uint 64 (Send.sent sb) -> uint 64 n -> Send.sent sb + n < 2 ^ 64 ->
  (forall gap, zlen gap = n ->
     done (update (PacketBatch.mkBatch (drop (Z.to_nat n) (PacketBatch.array (view v)))
             (gap ++ PacketBatch.spare (view v)) (PacketBatch.scratch (view v))
             (PacketBatch.parent_tasks (view v))) v, w2) = Ret (tt, (v' gap, w3))) ->
  exists gap, zlen gap = n /\
    act (sb, w) = Ret (tt, (Send.mkSend (Send.port sb) (v' gap) (Send.sent sb + n), w3)).
Proof.
  intros Hact Hok Hs [? ?] [? ?] Hc Hd. destruct (send_q_sent _ _ _ _ _ Hok Hs) as (gap & Hg & Hq).
  exists gap. split; [done|]. simpl. unfold Send.act_.
  erewrite sbind_Ret by (by apply on_field_Ret). erewrite sbind_Ret by done. cbn [fst].
  erewrite sbind_Ret.
  2: { etransitivity; [apply on_field_ext; intros; apply borrows|]. apply on_field_Ret, on_field_Ret. exact Hq. }
  cbn beta iota. erewrite sbind_Ret by done. cbn [fst Send.sent Send.set_parent]. rewrite uadd_ok by lia.
  erewrite sbind_Ret by done. erewrite sbind_Ret by done.
  etransitivity; [apply on_field_Ret; by apply Hd|done].
Qed.

End ends.

(** ** A whole pipeline: receive, parse a header, filter, send *)

Section pipeline.
Context {P : Profile} {Z_ : Zcsi} {F : Fuel} {Net Rx Tx C T2 : Type}.
Context {RxI : PacketRx Net Rx} {TxI : PacketTx Net Tx} {E2 : EndOffset T2}.
Context {Fn : FnRef C (Packet T2 EmptyMetadata) bool}.

Definition pipeline : Type :=
  Send.SendBatch Tx (Filter.FilterBatch (Parsed.ParsedBatch T2 (Receive.ReceiveBatch Rx)) C).

Definition make (pb : PacketBatch.PacketBatch) (rx : Rx) (received : Z) (c : C) (cap : Z) (tx : Tx) (sent : Z) : pipeline :=
  Send.mkSend tx (Filter.mkFilter (Parsed.mkParsedBatch (Receive.mkReceive pb rx received)) c cap []) sent.

(** What the filter leaves in the batch *)
Definition filtered (pb : PacketBatch.PacketBatch) (n : Z) (pkts : list Z) (bs : list bool) (gap : list Z) :
    PacketBatch.PacketBatch :=
  PacketBatch.mkBatch (keep bs (take (Z.to_nat n) pkts)) (gap ++ drop (Z.to_nat n) pkts) []
    (PacketBatch.parent_tasks pb).

Lemma sent_by_range (tx : Tx) l (w w' : World Net) n : sent_by tx l w n w' -> 0 <= n <= zlen l.
Proof. destruct l; simpl; [intros [-> _]; simpl; lia|tauto]. Qed.

Lemma split_permutation bs (l : list Z) k :
  length bs = length l -> take k (keep bs l) ++ reject bs l ++ drop k (keep bs l) ≡ₚ l.
Proof.
  intros Hl. rewrite (Permutation_app_comm (reject bs l)), app_assoc, take_drop. by apply keep_reject_permutation.
Qed.

Lemma filtered_ok pb n pkts bs gap :
  PacketBatch.batch_ok pb -> PacketBatch.array pb = [] -> length pkts = length (PacketBatch.spare pb) ->
  0 <= n <= zlen pkts -> length bs = length (take (Z.to_nat n) pkts) ->
  length gap = length (reject bs (take (Z.to_nat n) pkts)) ->
  PacketBatch.batch_ok (filtered pb n pkts bs gap) /\
  PacketBatch.vec_capacity (filtered pb n pkts bs gap) = PacketBatch.vec_capacity pb.
Proof.
  intros [Hs Hc] Hnil Hl Hn Hb Hg. pose proof (Permutation_length (keep_reject_permutation bs _ Hb)) as Hp.
  assert (Hv : PacketBatch.vec_capacity (filtered pb n pkts bs gap) = PacketBatch.vec_capacity pb).
  { unfold PacketBatch.vec_capacity, filtered. rewrite Hnil. simpl.
    rewrite !length_app, length_take, length_drop in *. lia. }
  split; [|done]. split; [done|]. by rewrite Hv.
Qed.

(** The batch after [k] of the packets the filter left were sent *)
Lemma sent_ok pb n pkts bs gap1 gap k :
  PacketBatch.batch_ok pb -> PacketBatch.array pb = [] -> length pkts = length (PacketBatch.spare pb) ->
  0 <= n <= zlen pkts -> length bs = length (take (Z.to_nat n) pkts) ->
  length gap1 = length (reject bs (take (Z.to_nat n) pkts)) ->
  0 <= k <= zlen (keep bs (take (Z.to_nat n) pkts)) -> zlen gap = k ->
  let b := PacketBatch.mkBatch (drop (Z.to_nat k) (keep bs (take (Z.to_nat n) pkts)))
             (gap ++ gap1 ++ drop (Z.to_nat n) pkts) [] (PacketBatch.parent_tasks pb) in
  PacketBatch.batch_ok b /\ PacketBatch.vec_capacity b = PacketBatch.vec_capacity pb.
Proof.
  intros Hok Hnil Hl Hn Hb Hg1 Hk Hg b. destruct (filtered_ok pb n pkts bs gap1) as [[_ Hc] Hv]; try done.
  assert (Hvb : PacketBatch.vec_capacity b = PacketBatch.vec_capacity pb).
  { rewrite <-Hv. unfold PacketBatch.vec_capacity, filtered, b. simpl. rewrite !length_app, !length_drop in *. lia. }
  split; [|done]. split; [done|]. destruct Hok. by rewrite Hvb.
Qed.

Lemma run_filter pb rx rcv c cap (w w1 : World Net) n pkts ps bs c' h2 :
  PacketBatch.batch_ok pb -> PacketBatch.array pb = [] -> (length pkts <= loop_fuel)%nat ->
  recv rx (PacketBatch.spare pb) w = Ret ((Ok n, pkts), w1) ->
  length pkts = length (PacketBatch.spare pb) -> 0 <= n <= zlen pkts ->
  uint 64 rcv -> rcv + n < 2 ^ 64 ->
  packets_of (Parsed.mkParsedBatch (Receive.mkReceive (PacketBatch.received_batch pb (Ok n) pkts) rx (rcv + n))) w1 ps ->
  verdicts ps (heap w1) c = Ret (bs, c') ->
  PacketBatch.freed (reject bs (take (Z.to_nat n) pkts)) (heap w1) h2 ->
  exists gap, length gap = length (reject bs (take (Z.to_nat n) pkts)) /\
    act (Filter.mkFilter (Parsed.mkParsedBatch (Receive.mkReceive pb rx rcv)) c cap [], w) =
    Ret (tt, (Filter.mkFilter (Parsed.mkParsedBatch (Receive.mkReceive (filtered pb n pkts bs gap) rx (rcv + n)))
                c' cap [], mkWorld h2 (net w1))).
Proof.
  intros Hok Hnil Hfu Hrecv Hl Hn Hr0 Hr1 Hps Hv Hf2. pose proof Hps as [Hlp _]. simpl in Hlp.
  assert (Hact : act (Parsed.mkParsedBatch (T2 := T2) (Receive.mkReceive pb rx rcv), w) =
    Ret (tt, (Parsed.mkParsedBatch (Receive.mkReceive (PacketBatch.received_batch pb (Ok n) pkts) rx (rcv + n)), w1))).
  { etransitivity; [apply on_field_Ret, (receive_act_ok _ _ _ _ w1 (heap w) n pkts)|]; rewrite ?Hnil; try done.
    by destruct w. }
  destruct (filter_act_ok (Filter.mkFilter _ c cap []) _ w w1 ps bs c' h2 eq_refl Hact) as (gap & Hg & H); try done.
  - destruct Hok as [Hs Hc]. split; [done|]. unfold PacketBatch.vec_capacity in *. simpl.
    rewrite Hnil in Hc. rewrite length_take, length_drop. simpl in Hc. lia.
  - rewrite Hlp, length_take. lia.
  - exists gap. split; [done|]. exact H.
Qed.

(** One execution, given what the ports, the closure and the allocator answer *)
Lemma pipeline_execute pb rx rcv c cap tx snt (w w1 w3 : World Net) n pkts ps bs c' h2 k h4 :
  let mbufs := take (Z.to_nat n) pkts in
  PacketBatch.batch_ok pb -> PacketBatch.array pb = [] -> (length pkts <= loop_fuel)%nat ->
  recv rx (PacketBatch.spare pb) w = Ret ((Ok n, pkts), w1) ->
  length pkts = length (PacketBatch.spare pb) -> 0 <= n <= zlen pkts ->
  uint 64 rcv -> rcv + n < 2 ^ 64 -> uint 64 snt -> snt + n < 2 ^ 64 ->
  packets_of (Parsed.mkParsedBatch (Receive.mkReceive (PacketBatch.received_batch pb (Ok n) pkts) rx (rcv + n))) w1 ps ->
  verdicts ps (heap w1) c = Ret (bs, c') ->
  PacketBatch.freed (reject bs mbufs) (heap w1) h2 ->
  sent_by tx (keep bs mbufs) (mkWorld h2 (net w1)) k w3 ->
  PacketBatch.freed (drop (Z.to_nat k) (keep bs mbufs)) (heap w3) h4 ->
  exists pb',
    execute (make pb rx rcv c cap tx snt, w) =
    Ret (tt, (make pb' rx (rcv + n) c' cap tx (snt + k), mkWorld h4 (net w3))) /\
    PacketBatch.array pb' = [] /\ PacketBatch.batch_ok pb' /\
    length (PacketBatch.spare pb') = length (PacketBatch.spare pb).
Proof.
  intros mbufs Hok Hnil Hfu Hrecv Hl Hn Hr0 Hr1 Hs0 Hs1 Hps Hv Hf2 Hk Hf4.
  assert (Hlen : length bs = length mbufs).
  { rewrite (verdicts_length _ _ _ _ _ Hv). by destruct Hps as [-> _]. }
  destruct (run_filter pb rx rcv c cap w w1 n pkts ps bs c' h2) as (gap1 & Hg1 & Hfil); try done.
  pose proof (Permutation_length (keep_reject_permutation bs mbufs Hlen)) as Hpl. rewrite length_app in Hpl.
  pose proof (sent_by_range _ _ _ _ _ Hk) as Hkr. assert (Hkn : 0 <= k <= n).
  { unfold mbufs in *. rewrite length_take in Hpl. lia. }
  destruct (send_act_ok (make pb rx rcv c cap tx snt) _
    (fun gap => Filter.mkFilter (Parsed.mkParsedBatch (Receive.mkReceive (PacketBatch.mkBatch []
       (drop (Z.to_nat k) (keep bs mbufs) ++ gap ++ gap1 ++ drop (Z.to_nat n) pkts) []
       (PacketBatch.parent_tasks pb)) rx (rcv + n))) c' cap [])
    w (mkWorld h2 (net w1)) w3 (mkWorld h4 (net w3)) k Hfil) as (gap2 & Hg2 & Hsend); try done.
  - by apply (filtered_ok pb n pkts bs gap1).
  - destruct Hs0, Hr0. split; lia.
  - simpl. lia.
  - intros gap Hg. etransitivity; [apply on_field_Ret, on_field_Ret, receive_done_ok|]; [|exact Hf4|].
    + exact (proj1 (sent_ok pb n pkts bs gap1 gap k Hok Hnil Hl Hn Hlen Hg1 Hkr Hg)).
    + simpl. unfold PacketBatch.resized. simpl. by rewrite drop_0.
  - eexists. split; [exact Hsend|]. split; [done|].
    destruct (sent_ok pb n pkts bs gap1 gap2 k) as [[_ Hcap] Hv']; try done.
    assert (Hsp : length (drop (Z.to_nat k) (keep bs mbufs) ++ gap2 ++ gap1 ++ drop (Z.to_nat n) pkts) =
                  length (PacketBatch.spare pb)).
    { unfold PacketBatch.vec_capacity in Hv'. rewrite Hnil in Hv'. simpl in Hv'. fold mbufs in Hv'.
      rewrite !length_app in *. lia. }
    split; [|exact Hsp]. split; [done|]. destruct Hok as [_ Hc]. unfold PacketBatch.vec_capacity in *.
    cbn [PacketBatch.array PacketBatch.spare]. rewrite Hsp, Hnil in *. exact Hc.
Qed.

(** C3: One execution of a pipeline that receives, parses a header, filters and sends accounts
    for every mbuf: the mbufs the port delivered are, each exactly once, sent by the other
    port, freed by the filter, or freed when the batch is done because the port did not take
    them; both counters advance by what was received and sent, and the batch is left empty
    and ready for the next execution. *)
Theorem pipeline_conserves_mbufs pb rx rcv c cap tx snt (w w1 w3 : World Net) n pkts ps bs c' h2 k h4 :
  let mbufs := take (Z.to_nat n) pkts in
  let parsed := Parsed.mkParsedBatch (Receive.mkReceive (PacketBatch.received_batch pb (Ok n) pkts) rx (rcv + n)) in
  PacketBatch.batch_ok pb -> PacketBatch.array pb = [] -> (length pkts <= loop_fuel)%nat ->
  recv rx (PacketBatch.spare pb) w = Ret ((Ok n, pkts), w1) ->
  length pkts = length (PacketBatch.spare pb) -> 0 <= n <= zlen pkts ->
  uint 64 rcv -> rcv + n < 2 ^ 64 -> uint 64 snt -> snt + n < 2 ^ 64 ->
  packets_of parsed w1 ps ->
  verdicts ps (heap w1) c = Ret (bs, c') ->
  PacketBatch.freed (reject bs mbufs) (heap w1) h2 ->
  sent_by tx (keep bs mbufs) (mkWorld h2 (net w1)) k w3 ->
  PacketBatch.freed (drop (Z.to_nat k) (keep bs mbufs)) (heap w3) h4 ->
  (exists pb',
    execute (make pb rx rcv c cap tx snt, w) =
    Ret (tt, (make pb' rx (rcv + n) c' cap tx (snt + k), mkWorld h4 (net w3))) /\
    PacketBatch.array pb' = [] /\ PacketBatch.batch_ok pb' /\
    length (PacketBatch.spare pb') = length (PacketBatch.spare pb)) /\
  take (Z.to_nat k) (keep bs mbufs) ++ reject bs mbufs ++ drop (Z.to_nat k) (keep bs mbufs) ≡ₚ mbufs.
Proof.
  intros mbufs parsed. intros. split; [by eapply pipeline_execute|]. apply split_permutation.
  erewrite verdicts_length by done. by match goal with H : packets_of _ _ _ |- _ => destruct H as [-> _] end.
Qed.

End pipeline.

(** A task executed [j] times *)
Fixpoint executions {Net B : Type} {E : Executable Net B} (j : nat) : St (B * World Net) unit :=
  match j with
  | O => sret tt
  | S j => let* _ := execute in executions j
  end.

(** ** Merging *)

Section merge.
Context {P : Profile} {Z_ : Zcsi} {Net V T M : Type}.
Context {IV : BatchIterator Net V T M} {AV : Act Net V}.

(** Serve parent [i], then the next one, wrapping around: [j] turns *)
Fixpoint round_robin (j : nat) (i : Z) (ps : list V) (w : World Net) : outcome (list V * World Net) :=
  match j with
  | O => Ret (ps, w)
  | S j =>
      let! p := vindex ps i in
      let! '(_, (p, w)) := sbind act (fun _ => done) (p, w) in
      round_robin j ((i + 1) mod zlen ps) (<[Z.to_nat i := p]> ps) w
  end.

Lemma merge_turn ps i (w : World Net) :
  0 <= i < zlen ps -> zlen ps < 2 ^ 64 ->
  execute (Merge.mkMerge ps i, w) =
  let! p := vindex ps i in
  let! '(_, (p, w)) := sbind act (fun _ => done) (p, w) in
  Ret (tt, (Merge.mkMerge (<[Z.to_nat i := p]> ps) ((i + 1) mod zlen ps), w)).
Proof.
  intros Hi Hl. simpl. destruct (vindex_lt ps i Hi) as [p Hp]. rewrite Hp. cbn [obind].
  pose proof Hp as [_ Hlk]%vindex_Ret. unfold sbind at 1 2. unfold Merge.on_which at 1. cbn [fst snd Merge.parents Merge.which].
  rewrite Hp. cbn [obind]. destruct (act (p, w)) as [[[] [p1 w1]]| | |]; try done. cbn [obind].
  assert (Hp1 : vindex (<[Z.to_nat i := p1]> ps) i = Ret p1).
  { apply vindex_Ret. split; [lia|]. by apply list_lookup_insert_eq, lookup_lt_Some with p. }
  unfold Merge.done_, sbind at 1, Merge.on_which. cbn [fst snd Merge.parents Merge.which]. rewrite Hp1. cbn [obind].
  destruct (done (p1, w1)) as [[[] [p2 w2]]| | |]; try done. cbn [obind].
  erewrite sbind_Ret by done. cbn [fst Merge.which Merge.parents].
  rewrite uadd_ok, list_insert_insert_eq, length_insert by lia. erewrite sbind_Ret by done.
  destruct (Z.eqb_spec (i + 1) (zlen ps)) as [He|].
  - by rewrite He, Z.mod_same by lia.
  - by rewrite Z.mod_small by lia.
Qed.

(** C26: A merge serves its parents round robin: [j] executions run [act] and [done] of the
    parents [i], [i+1], ... in turn, wrapping at the number of parents, each on the state the
    previous one left, and leave every other parent alone; the next to serve is [i + j]. The
    result is that of the turns, whether they return or panic; the only condition is that
    [which] is the index of a parent, as it is from [new] on for a non-empty list. *)
Theorem merge_round_robin j ps i (w : World Net) :
  0 <= i < zlen ps -> zlen ps < 2 ^ 64 ->
  executions j (Merge.mkMerge ps i, w) =
  let! '(ps', w') := round_robin j i ps w in
  Ret (tt, (Merge.mkMerge ps' ((i + Z.of_nat j) mod zlen ps), w')).
Proof.
  revert ps i w. induction j as [|j IH]; intros ps i w Hi Hl; cbn [executions round_robin].
  { cbn [obind]. by rewrite Z.add_0_r, Z.mod_small. }
  unfold sbind at 1. rewrite merge_turn by done. destruct (vindex ps i) as [p| | |]; try done. cbn [obind].
  destruct (sbind act _ (p, w)) as [[[] [p2 w2]]| | |]; try done. cbn [obind].
  rewrite IH by (rewrite length_insert; first [lia | apply Z.mod_pos_bound; lia]).
  rewrite length_insert, Zplus_mod_idemp_l. by replace (i + 1 + Z.of_nat j) with (i + Z.of_nat (S j)) by lia.
Qed.

Lemma dedup_ascending l : Sorted Z.le l -> StronglySorted Z.lt (Merge.dedup l) /\ forall x, x ∈ Merge.dedup l <-> x ∈ l.
Proof.
  intros Hs. apply Sorted_StronglySorted in Hs; [|intros ?; lia].
  induction Hs as [|x l Hs IH Hx]; [split; [constructor|done]|].
  destruct l as [|y l]; [split; [repeat constructor|done]|]. destruct IH as [IH1 IH2].
  change (Merge.dedup (x :: y :: l)) with (if x =? y then Merge.dedup (y :: l) else x :: Merge.dedup (y :: l)).
  destruct (Z.eqb_spec x y) as [->|Hne].
  - split; [done|]. intros z. rewrite IH2, !elem_of_cons. tauto.
  - split; [|intros z; rewrite elem_of_cons, IH2, !elem_of_cons; tauto]. constructor; [done|].
    apply Forall_forall. intros z Hz. apply IH2 in Hz. apply Forall_cons in Hx as [Hxy Hx].
    apply elem_of_cons in Hz as [->|Hz]; [lia|]. apply StronglySorted_inv in Hs as [_ Hs].
    eapply Forall_forall in Hs; [|exact Hz]. simpl in Hs. lia.
Qed.

Lemma merge_dependencies (mb : Merge.MergeBatch V) :
  StronglySorted Z.lt (get_task_dependencies mb) /\
  forall t, t ∈ get_task_dependencies mb <-> exists p, p ∈ Merge.parents mb /\ t ∈ get_task_dependencies p.
Proof.
  simpl. unfold Merge.task_dependencies.
  destruct (dedup_ascending (merge_sort Z.le (Merge.parents mb ≫= get_task_dependencies))) as [H1 H2].
  { apply Sorted_merge_sort. intros ??. lia. }
  split; [done|]. intros t. rewrite H2, merge_sort_Permutation, list_elem_of_bind.
  split; intros (p & ? & ?); by exists p.
Qed.

End merge.

(** ** Witnesses *)

Module PipelineSample.
Import Sample.

#[local] Existing Instance release.
#[local] Existing Instance zcsi.
#[local] Existing Instance rx.
#[local] Existing Instance tx.
#[local] Instance fuel : Fuel := 8%nat.

Definition world3 : World wire := mkWorld heap3 (mkWire [] []).

(** A closure that rejects the packet in mbuf 2 and counts its calls *)
#[local] Instance not2 {T} : FnRef Z (Packet T EmptyMetadata) bool := fun p _ c => Ret (negb (mbuf p =? 2), c + 1).

Definition null_packets : list (Packet NullHeader EmptyMetadata) :=
  [mkPacket 1 4104 0; mkPacket 2 8200 0; mkPacket 3 12296 0].

Lemma filter_keeps_accepted_witness :
  exists fb', act (Act := Filter.FilterBatch_Act (Fn := not2 (T := NullHeader))) (Filter.mkFilter batch3 0 4 [], world3) =
      Ret (tt, (fb', mkWorld (delete 2 heap3) (mkWire [] []))) /\
    PacketBatch.array (Filter.parent fb') = [1; 3] /\
    PacketBatch.vec_capacity (Filter.parent fb') = 4 /\
    [1; 3] ++ [2] ≡ₚ [1; 2; 3] /\
    PacketBatch.batch_ok (Filter.parent fb') /\ Filter.remove fb' = [] /\ Filter.filter_ fb' = 3.
Proof.
  destruct (@filter_keeps_accepted release _ _ wire PacketBatch.PacketBatch Z NullHeader EmptyMetadata _ _ _ not2
    (Filter.mkFilter batch3 0 4 []) batch3 world3 world3 null_packets [true; false; true] 3 (delete 2 heap3))
    as (fb' & H); try done.
  - split; [done|]. intros [|[|[|i]]] p [= <-]; by vm_compute.
  - simpl. unfold fuel, loop_fuel. lia.
  - exists fb'. exact H.
Defined.

(** A closure that counts its calls *)
#[local] Instance counting : FnMut Z (Packet NullHeader EmptyMetadata) (Packet NullHeader EmptyMetadata) :=
  fun p s => Ret (p, (s.1 + 1, s.2)).

Lemma transform_once_per_cycle_witness :
  act (Transform.mkTransform batch3 0 false, world3) =
    Ret (tt, (Transform.mkTransform batch3 3 true, world3)) /\
  act (Transform.mkTransform batch3 3 true, world3) = Ret (tt, (Transform.mkTransform batch3 3 true, world3)).
Proof.
  destruct (@transform_once_per_cycle release _ _ wire PacketBatch.PacketBatch Z NullHeader EmptyMetadata _ _ _ counting
    (Transform.mkTransform batch3 0 false) batch3 world3 world3) as (H1 & H2 & _);
    [done|done|done|simpl; unfold fuel, loop_fuel; lia|].
  split; [exact H1|]. apply H2. exact H1.
Defined.

(** Two merged transforms, served in turn: the first runs its closure on its three packets
    twice, the second once. *)
Lemma merge_round_robin_witness :
  executions (E := Merge.MergeBatch_Executable (P := release) (Net := wire)) 3
    (Merge.mkMerge [Transform.mkTransform batch3 0 false; Transform.mkTransform batch3 0 false] 0, world3) =
  Ret (tt, (Merge.mkMerge [Transform.mkTransform batch3 6 false; Transform.mkTransform batch3 3 false] 1, world3)).
Proof.
  exact (@merge_round_robin release wire (Transform.TransformBatch PacketBatch.PacketBatch Z) _ 3
    [Transform.mkTransform batch3 0 false; Transform.mkTransform batch3 0 false] 0 world3
    ltac:(by vm_compute) ltac:(by vm_compute)).
Defined.

Definition idle : PacketBatch.PacketBatch := PacketBatch.mkBatch [] [0; 0; 0; 0] [] [].
Definition before : World wire := mkWorld heap3 (mkWire [1; 2; 3] []).
Definition after : World wire := mkWorld (delete 3 (delete 2 heap3)) (mkWire [] [1]).

Definition mac_packets : list (Packet Mac.MacHeader EmptyMetadata) :=
  [mkPacket 1 4104 0; mkPacket 2 8200 0; mkPacket 3 12296 0].

(** Three mbufs arrive; 2 is rejected, 1 is sent and 3 not taken by the driver. *)
Lemma pipeline_conserves_mbufs_witness :
  (exists pb', execute (make (T2 := Mac.MacHeader) idle tt 0 0 4 tt 0, before) =
      Ret (tt, (make pb' tt 3 3 4 tt 1, after)) /\
    PacketBatch.array pb' = [] /\ PacketBatch.batch_ok pb' /\ length (PacketBatch.spare pb') = 4%nat) /\
  [1] ++ [2] ++ [3] ≡ₚ [1; 2; 3].
Proof.
  apply (@pipeline_conserves_mbufs release _ _ wire unit unit Z Mac.MacHeader _ _ _ not2 idle tt 0 0 4 tt 0 before
    (mkWorld heap3 (mkWire [] [])) (mkWorld (delete 2 heap3) (mkWire [] [1])) 3 [1; 2; 3; 0] mac_packets
    [true; false; true] 3 (delete 2 heap3) 1 (delete 3 (delete 2 heap3))); try done.
  - simpl. unfold fuel, loop_fuel. lia.
  - split; [done|]. intros [|[|[|i]]] p [= <-]; by vm_compute.
Defined.

End PipelineSample.
