(* ===== verification/Scheduler.v ===== *)
(** * Schedulers ([framework/src/scheduler])

    The standalone scheduler runs its tasks round robin on one thread and polls its command
    channel once per round; the embedded scheduler runs one task on request, after the
    tasks it depends on. Tasks, the closures of [Run] commands and the time-stamp counter
    are parameters; a task acts on a world [W].

    The command channel is the sequence of what successive receive operations find: a
    command, or nothing at that moment ([None], which a blocking receive skips); at the end
    of the sequence all senders are gone. *)

From S2P Require Import Prelude.

Module Standalone.

Record Runnable (Task : Type) : Type := mkRunnable { task : Task; cycles : Z; last_run : Z }.
#[global] Arguments mkRunnable {Task}.
#[global] Arguments task {Task}.
#[global] Arguments cycles {Task}.
#[global] Arguments last_run {Task}.

(** A [Run] carries a closure, a [Handshake] the channel to answer on. *)
Inductive SchedulerCommand (Task Closure : Type) : Type :=
| Add (ex : Task)
| Run (f : Closure)
| Execute
| Shutdown
| Handshake (chan : Z).
#[global] Arguments Add {Task Closure}.
#[global] Arguments Run {Task Closure}.
#[global] Arguments Execute {Task Closure}.
#[global] Arguments Shutdown {Task Closure}.
#[global] Arguments Handshake {Task Closure}.

(** [executing] is the field [execute_loop]. *)
Record StandaloneScheduler (Task Closure : Type) : Type := mkScheduler {
  run_q : list (Runnable Task);
  next_task : Z;
  sched_channel : list (option (SchedulerCommand Task Closure));
  executing : bool;
  shutdown : bool
}.
#[global] Arguments mkScheduler {Task Closure}.
#[global] Arguments run_q {Task Closure}.
#[global] Arguments next_task {Task Closure}.
#[global] Arguments sched_channel {Task Closure}.
#[global] Arguments executing {Task Closure}.
#[global] Arguments shutdown {Task Closure}.

(** What surrounds the scheduler's thread: the world the tasks act on and the channels it
    answered handshakes on. [thread::park] returns when the barrier is released. *)
Record Env (W : Type) : Type := mkEnv { world : W; answered : list Z }.
#[global] Arguments mkEnv {W}.
#[global] Arguments world {W}.
#[global] Arguments answered {W}.

Section setters.
Context {Task Closure : Type}.
Abbreviation Sched := (StandaloneScheduler Task Closure).

Definition set_run_q q (s : Sched) : Sched := mkScheduler q (next_task s) (sched_channel s) (executing s) (shutdown s).
Definition set_next n (s : Sched) : Sched := mkScheduler (run_q s) n (sched_channel s) (executing s) (shutdown s).
Definition set_channel c (s : Sched) : Sched := mkScheduler (run_q s) (next_task s) c (executing s) (shutdown s).
Definition set_executing b (s : Sched) : Sched := mkScheduler (run_q s) (next_task s) (sched_channel s) b (shutdown s).
Definition set_shutdown b (s : Sched) : Sched := mkScheduler (run_q s) (next_task s) (sched_channel s) (executing s) b.
End setters.

(** The time-stamp counter *)
Class Clock (W : Type) : Type := rdtsc_unsafe : St W Z.

(** What the scheduler is given *)
Class Runtime (Task Closure W : Type) : Type := {
  task_execute : Task -> St W Task;
  call_run : Closure -> StandaloneScheduler Task Closure -> St W (StandaloneScheduler Task Closure)
}.

Section operations.
Context {P : Profile} {Task Closure W : Type} {CW : Clock W} {R : Runtime Task Closure W}.

Abbreviation Sched := (StandaloneScheduler Task Closure).
Abbreviation Cmd := (SchedulerCommand Task Closure).
Abbreviation Sch A := (St (Sched * Env W) A).

Definition self : Sch Sched := sgets fst.
Definition modify (f : Sched -> Sched) : Sch unit := smodify (fun s => (f s.1, s.2)).
Definition in_world {A} (m : St W A) : Sch A :=
  zoom (fun s => world s.2) (fun w s => (s.1, mkEnv w (answered s.2))) m.

Definition from_boxed_task (t : Task) : Sch (Runnable Task) :=
  let* now := in_world rdtsc_unsafe in sret (mkRunnable t 0 now).
Definition from_task (t : Task) : Sch (Runnable Task) := from_boxed_task t.

Definition DEFAULT_Q_SIZE : Z := 256.

(** The capacity only reserves memory. *)
Definition new_with_channel_and_capacity (channel : list (option Cmd)) (capacity : Z) : Sched :=
  mkScheduler [] 0 channel false true.
Definition new_with_channel (channel : list (option Cmd)) : Sched :=
  new_with_channel_and_capacity channel DEFAULT_Q_SIZE.
(** The sender of the channel is dropped at once. *)
Definition new : Sched := new_with_channel [].

Definition add_task (t : Task) : Sch (result Z) :=
  let* r := from_task t in
  let* _ := modify (fun s => set_run_q (run_q s ++ [r]) s) in
  let* s := self in
  sret (Ok (zlen (run_q s))).

(** [Receiver::try_recv] and [Receiver::recv] *)
Definition try_recv : Sch (option Cmd) :=
  let* s := self in
  match sched_channel s with
  | [] => sret None
  | o :: rest => let* _ := modify (set_channel rest) in sret o
  end.

Fixpoint next_command (l : list (option Cmd)) : option Cmd * list (option Cmd) :=
  match l with
  | [] => (None, [])
  | Some c :: rest => (Some c, rest)
  | None :: rest => next_command rest
  end.

Definition recv : Sch (option Cmd) :=
  let* s := self in
  let '(c, rest) := next_command (sched_channel s) in
  let* _ := modify (set_channel rest) in sret c.

(** The handler of a command, given the scheduling loop it enters on [Execute] *)
Definition handle_request_with (execute_loop : Sch unit) (request : Cmd) : Sch unit :=
  match request with
  | Add ex => let* r := from_boxed_task ex in modify (fun s => set_run_q (run_q s ++ [r]) s)
  | Run f => let* s := self in let* s := in_world (call_run f s) in modify (fun _ => s)
  | Execute => execute_loop
  | Shutdown => modify (fun s => set_shutdown true (set_executing false s))
  | Handshake chan => smodify (fun s => (s.1, mkEnv (world s.2) (answered s.2 ++ [chan])))
  end.

Definition execute_internal_with (handle : Cmd -> Sch unit) (begin : Z) : Sch Z :=
  let* s := self in
  let* r := slift (vindex (run_q s) (next_task s)) in
  let* t := in_world (task_execute (task r)) in
  let* end_ := in_world rdtsc_unsafe in
  let* d := slift (usub 64 end_ begin) in
  let* c := slift (uadd 64 (cycles r) d) in
  let* _ := modify (fun s => set_run_q (<[Z.to_nat (next_task s) := mkRunnable t c end_]> (run_q s)) s) in
  let* s := self in
  let len := zlen (run_q s) in
  let* next := slift (uadd 64 (next_task s) 1) in
  let* _ :=
    if next =? len then
      let* _ := modify (set_next 0) in
      let* cmd := try_recv in
      match cmd with Some c => handle c | None => sret tt end
    else modify (set_next next) in
  sret end_.

(** The loop [while self.execute_loop]; a command found between rounds may enter it again. *)
Fixpoint while_executing (fuel : nat) (begin_time : Z) : Sch unit :=
  let* s := self in
  if executing s then
    match fuel with
    | O => fun _ => NoFuel
    | S fuel =>
        let nested :=
          let* _ := modify (set_executing true) in
          let* b := in_world rdtsc_unsafe in
          let* s := self in
          if negb (zlen (run_q s) =? 0) then while_executing fuel b else sret tt in
        let* t := execute_internal_with (handle_request_with nested) begin_time in
        while_executing fuel t
    end
  else sret tt.

Definition execute_loop (fuel : nat) : Sch unit :=
  let* _ := modify (set_executing true) in
  let* begin_time := in_world rdtsc_unsafe in
  let* s := self in
  if negb (zlen (run_q s) =? 0) then while_executing fuel begin_time else sret tt.

Definition handle_request (fuel : nat) : Cmd -> Sch unit := handle_request_with (execute_loop fuel).
Definition execute_internal (fuel : nat) : Z -> Sch Z := execute_internal_with (handle_request fuel).

Definition execute_one (fuel : nat) : Sch unit :=
  let* s := self in
  if negb (zlen (run_q s) =? 0) then
    let* b := in_world rdtsc_unsafe in
    let* _ := execute_internal fuel b in sret tt
  else sret tt.

(** The loop of [handle_requests]: one command per turn until a shutdown or until every
    sender is gone. *)
Fixpoint while_requests (fuel : nat) : Sch unit :=
  let* s := self in
  if shutdown s then sret tt
  else
    let* cmd := recv in
    match cmd with
    | None => sret tt
    | Some c =>
        match fuel with
        | O => fun _ => NoFuel
        | S fuel => let* _ := handle_request fuel c in while_requests fuel
        end
    end.

Definition handle_requests (fuel : nat) : Sch unit :=
  let* _ := modify (set_shutdown false) in while_requests fuel.

End operations.

(** ** Rounds *)

Section rounds.
Context {P : Profile} {Task Closure W : Type} {CW : Clock W} {R : Runtime Task Closure W}.
Abbreviation Sched := (StandaloneScheduler Task Closure).
Abbreviation Sch A := (St (Sched * Env W) A).

(** The tasks of [q] one after the other, the first of them charged from [begin] on *)
Fixpoint run_tasks (begin : Z) (q : list (Runnable Task)) (w : W) : outcome (Z * list (Runnable Task) * W) :=
  match q with
  | [] => Ret (begin, [], w)
  | r :: q =>
      let! '(t, w) := task_execute (task r) w in
      let! '(now, w) := rdtsc_unsafe w in
      let! d := usub 64 now begin in
      let! c := uadd 64 (cycles r) d in
      let! '(last, q, w) := run_tasks now q w in
      Ret (last, mkRunnable t c now :: q, w)
  end.

Fixpoint run_rounds (k : nat) (begin : Z) (q : list (Runnable Task)) (w : W) : outcome (Z * list (Runnable Task) * W) :=
  match k with
  | O => Ret (begin, q, w)
  | S k => let! '(last, q, w) := run_tasks begin q w in run_rounds k last q w
  end.

(** Polling the channel between two rounds *)
Definition poll (fuel : nat) : Sch unit :=
  let* cmd := try_recv in
  match cmd with Some c => handle_request fuel c | None => sret tt end.

Lemma run_tasks_length begin q w last q' w' :
  run_tasks begin q w = Ret (last, q', w') -> length q' = length q.
Proof.
  revert begin w q'. induction q as [|r q IH]; intros begin w q'; simpl; [by intros [= _ <- _]|].
  intros H. outcome_inv. simpl. f_equal. eauto.
Qed.

Lemma step_task handle done_ r rest ch b sd begin (e : Env W) t w1 now w2 d c :
  task_execute (task r) (world e) = Ret (t, w1) -> rdtsc_unsafe w1 = Ret (now, w2) ->
  usub 64 now begin = Ret d -> uadd 64 (cycles r) d = Ret c ->
  zlen (done_ ++ r :: rest) < 2 ^ 64 ->
  execute_internal_with handle begin (mkScheduler (done_ ++ r :: rest) (zlen done_) ch b sd, e) =
  sbind (if decide (rest = []) then let* cmd := try_recv in match cmd with Some c => handle c | None => sret tt end
         else sret tt) (fun _ => sret now)
    (mkScheduler (done_ ++ mkRunnable t c now :: rest) (if decide (rest = []) then 0 else zlen done_ + 1) ch b sd,
     mkEnv w2 (answered e)).
Proof.
  intros Ht Hn Hd Hc Hl. unfold execute_internal_with. erewrite sbind_Ret by done. cbn [fst run_q next_task].
  assert (Hv : vindex (done_ ++ r :: rest) (zlen done_) = Ret r).
  { apply vindex_Ret. split; [lia|]. rewrite Nat2Z.id. by apply list_lookup_middle. }
  rewrite Hv. erewrite sbind_Ret by done.
  erewrite sbind_Ret by (unfold in_world; apply zoom_Ret; exact Ht).
  erewrite sbind_Ret by (unfold in_world; apply zoom_Ret; exact Hn).
  rewrite Hd. erewrite sbind_Ret by done. rewrite Hc. do 3 erewrite sbind_Ret by done. cbn [fst snd run_q next_task set_run_q].
  assert (Hi : <[Z.to_nat (zlen done_) := mkRunnable t c now]> (done_ ++ r :: rest) = done_ ++ mkRunnable t c now :: rest).
  { rewrite Nat2Z.id, insert_app_r_alt, Nat.sub_diag by lia. done. }
  rewrite Hi. rewrite !length_app in *. simpl length in *.
  unfold uadd, fit. rewrite (proj2 (Z.leb_le _ _)), (proj2 (Z.ltb_lt _ _)) by lia.
  erewrite sbind_Ret by done. destruct rest as [|r' rest].
  - rewrite (proj2 (Z.eqb_eq _ _)) by (simpl; lia). simpl. rewrite sbind_assoc. by erewrite sbind_Ret by done.
  - rewrite (proj2 (Z.eqb_neq _ _)) by (simpl; lia). simpl. done.
Qed.

Lemma sbind_via {S A B C} (m : St S A) (k : A -> St S B) (u : St S C) a s s' :
  m s = sbind u (fun _ => sret a) s' -> sbind m k s = sbind u (fun _ => k a) s'.
Proof. unfold sbind. intros ->. by destruct (u s') as [[? ?]| | |]. Qed.

(** The loop does a round and polls, and goes on with the fuel that is left. *)
Lemma loop_round fuel done_ rest ch sd begin (e : Env W) last rest' w' :
  rest <> [] -> zlen (done_ ++ rest) < 2 ^ 64 ->
  run_tasks begin rest (world e) = Ret (last, rest', w') ->
  while_executing (length rest + fuel) begin (mkScheduler (done_ ++ rest) (zlen done_) ch true sd, e) =
  sbind (poll fuel) (fun _ => while_executing fuel last)
    (mkScheduler (done_ ++ rest') 0 ch true sd, mkEnv w' (answered e)).
Proof.
  revert done_ begin e rest'. induction rest as [|r rest IH]; intros done_ begin e rest' Hne Hl Hr; [done|].
  simpl in Hr. apply obind_Ret_inv in Hr as ([t w1] & Ht & Hr). apply obind_Ret_inv in Hr as ([now w2] & Hn & Hr).
  apply obind_Ret_inv in Hr as (d & Hd & Hr). apply obind_Ret_inv in Hr as (c & Hc & Hr).
  apply obind_Ret_inv in Hr as ([[l1 q1] w3] & Hr & Hq). injection Hq as <- <- <-.
  cbn [length Nat.add while_executing]. erewrite sbind_Ret by done. cbn [fst executing].
  erewrite sbind_via by (by apply (step_task _ done_ r rest ch true sd begin e t w1 now w2 d c)).
  destruct rest as [|r' rest].
  - by injection Hr as <- <- <-.
  - rewrite !decide_False by done. erewrite sbind_Ret by done.
    specialize (IH (done_ ++ [mkRunnable t c now]) now (mkEnv w2 (answered e)) q1).
    assert (Hz : zlen (done_ ++ [mkRunnable t c now]) = zlen done_ + 1) by (rewrite length_app; simpl; lia).
    rewrite Hz, <-!app_assoc in IH. cbn [app answered] in IH.
    rewrite <-IH; try done. rewrite !length_app in *. simpl in *. lia.
Qed.

Lemma poll_idle fuel q n ch b sd (e : Env W) :
  poll fuel (mkScheduler q n (None :: ch) b sd, e) = Ret (tt, (mkScheduler q n ch b sd, e)).
Proof. done. Qed.

Lemma poll_shutdown fuel q n ch b sd (e : Env W) :
  poll fuel (mkScheduler q n (Some Shutdown :: ch) b sd, e) = Ret (tt, (mkScheduler q n ch false true, e)).
Proof. done. Qed.

(** The channel stays empty for [k] polls and then holds a shutdown. *)
Lemma loop_until_shutdown k fuel q ch sd begin (e : Env W) last q' w' :
  q <> [] -> zlen q < 2 ^ 64 ->
  run_rounds (S k) begin q (world e) = Ret (last, q', w') ->
  while_executing (S k * length q + fuel) begin (mkScheduler q 0 (replicate k None ++ Some Shutdown :: ch) true sd, e) =
  Ret (tt, (mkScheduler q' 0 ch false true, mkEnv w' (answered e))).
Proof.
  revert begin q e. induction k as [|k IH]; intros begin q e Hne Hl Hr.
  all: cbn [run_rounds] in Hr; apply obind_Ret_inv in Hr as ([[l1 q1] w1] & Hr & Hk).
  all: pose proof (run_tasks_length _ _ _ _ _ _ Hr) as Hq.
  - injection Hk as <- <- <-. cbn [Nat.mul]. rewrite Nat.add_0_r.
    rewrite (loop_round fuel [] q _ _ _ _ _ _ _ Hne Hl Hr). cbn [app replicate].
    erewrite sbind_Ret by apply poll_shutdown. destruct fuel; by cbn.
  - replace (S (S k) * length q + fuel)%nat with (length q + (S k * length q1 + fuel))%nat by lia.
    rewrite (loop_round _ [] q _ _ _ _ _ _ _ Hne Hl Hr). cbn [app replicate].
    erewrite sbind_Ret by apply poll_idle. rewrite (IH l1 q1 (mkEnv w1 (answered e))); [done| |lia|exact Hk].
    intros ->. by destruct q.
Qed.

(** C10: The standalone scheduler is fair and stops when told to. Told to execute with the
    channel empty for [k] polls and then holding a shutdown, it runs its tasks in order,
    [k + 1] full rounds, each task once per round and charged the cycles up to the end of its
    run, polls the channel once per round, and then leaves the loop and [handle_requests]
    returns, whatever is still queued behind the shutdown. *)
Theorem scheduler_runs_until_shutdown k fuel q ch b sd (e : Env W) begin w0 last q' w' :
  q <> [] -> zlen q < 2 ^ 64 ->
  rdtsc_unsafe (world e) = Ret (begin, w0) ->
  run_rounds (S k) begin q w0 = Ret (last, q', w') ->
  (S k * length q <= fuel)%nat ->
  handle_requests (S fuel) (mkScheduler q 0 (Some Execute :: replicate k None ++ Some Shutdown :: ch) b sd, e) =
  Ret (tt, (mkScheduler q' 0 ch false true, mkEnv w' (answered e))).
Proof.
  intros Hne Hl Ht Hr Hf. unfold handle_requests. erewrite sbind_Ret by done. cbn [while_requests].
  erewrite sbind_Ret by done. cbn [fst shutdown set_shutdown]. erewrite sbind_Ret by done. cbn beta iota.
  erewrite sbind_Ret.
  2: { unfold handle_request, handle_request_with, execute_loop. erewrite sbind_Ret by done.
       erewrite sbind_Ret by (unfold in_world; apply zoom_Ret; exact Ht).
       erewrite sbind_Ret by done. cbn [fst run_q set_executing set_channel set_shutdown].
       rewrite (proj2 (Z.eqb_neq (zlen q) 0)) by (destruct q; [done|simpl; lia]). cbn [negb].
       replace fuel with (S k * length q + (fuel - S k * length q))%nat by lia.
       by apply (loop_until_shutdown k _ q ch false begin (mkEnv w0 (answered e)) last q' w'). }
  destruct fuel; by cbn.
Qed.

End rounds.

End Standalone.

Module Embedded.

Record Runnable (Task : Type) : Type := mkRunnable { task : Task; dependencies : list Z }.
#[global] Arguments mkRunnable {Task}.
#[global] Arguments task {Task}.
#[global] Arguments dependencies {Task}.

Record EmbeddedScheduler (Task : Type) : Type := mkScheduler { tasks : list (Runnable Task) }.
#[global] Arguments mkScheduler {Task}.
#[global] Arguments tasks {Task}.

(** [Executable] of the tasks *)
Class Tasks (Task W : Type) : Type := {
  task_execute : Task -> St W Task;
  task_dependencies : Task -> list Z
}.

Section operations.
Context {P : Profile} {Task W : Type} {X : Tasks Task W}.
Abbreviation Sch A := (St (EmbeddedScheduler Task * W) A).

Definition from_task (t : Task) : Runnable Task := mkRunnable t (task_dependencies t).

Definition new : EmbeddedScheduler Task := mkScheduler [].

Definition add_task (t : Task) : Sch (result Z) :=
  let* _ := smodify (fun s => (mkScheduler (tasks s.1 ++ [from_task t]), s.2)) in
  let* n := sgets (fun s => zlen (tasks s.1)) in
  sret (Ok n).

(** [self.tasks[task_id - 1]] *)
Definition task_at (task_id : Z) : Sch (Runnable Task) :=
  let* i := slift (usub 64 task_id 1) in
  let* ts := sgets (fun s => tasks s.1) in
  slift (vindex ts i).

Definition execute_task (task_id : Z) : Sch unit :=
  let* r := task_at task_id in
  let* t := zoom snd (fun w s => (s.1, w)) (task_execute (task r)) in
  smodify (fun s => (mkScheduler (<[Z.to_nat (task_id - 1) := mkRunnable t (dependencies r)]> (tasks s.1)), s.2)).

(** The loop over the dependencies from number [dep] on, [n] of them *)
Fixpoint exec_dependencies (exec : Z -> Sch unit) (task_id : Z) (n : nat) (dep : Z) : Sch unit :=
  match n with
  | O => sret tt
  | S n =>
      let* r := task_at task_id in
      let* dep_task := slift (vindex (dependencies r) dep) in
      let* _ := exec dep_task in
      exec_dependencies exec task_id n (dep + 1)
  end.

Fixpoint exec_task (fuel : nat) (task_id : Z) : Sch unit :=
  match fuel with
  | O => fun _ => NoFuel
  | S fuel =>
      let* r := task_at task_id in
      let len := length (dependencies r) in
      let* _ := exec_dependencies (exec_task fuel) task_id len 0 in
      execute_task task_id
  end.

(** The printed tree: depth and task number of each line *)
Fixpoint display_dependencies_internal (fuel : nat) (ts : list (Runnable Task)) (task_id depth : Z)
    : outcome (list (Z * Z)) :=
  match fuel with
  | O => NoFuel
  | S fuel =>
      let! i := usub 64 task_id 1 in
      let! r := vindex ts i in
      let! lines := foldr (fun d acc =>
          let! l := display_dependencies_internal fuel ts d (depth + 1) in
          let! rest := acc in Ret (l ++ rest)) (Ret []) (dependencies r) in
      Ret (lines ++ [(depth, task_id)])
  end.

Definition display_dependencies (fuel : nat) (s : EmbeddedScheduler Task) (task_id : Z) : outcome (list (Z * Z)) :=
  display_dependencies_internal fuel (tasks s) task_id 0.

End operations.

(** ** Dependencies first *)

Section spec.
Context {P : Profile} {Task W : Type} {X : Tasks Task W}.
Abbreviation Sch A := (St (EmbeddedScheduler Task * W) A).

(** The tasks that running [id] runs, in order: what each dependency runs, then [id] *)
Fixpoint order (n : nat) (deps : list (list Z)) (id : Z) : list Z :=
  match n with
  | O => []
  | S n =>
      match deps !! Z.to_nat (id - 1) with
      | Some l => (l ≫= order n deps) ++ [id]
      | None => []
      end
  end.

Fixpoint execute_all (ids : list Z) : Sch unit :=
  match ids with
  | [] => sret tt
  | id :: ids => let* _ := execute_task id in execute_all ids
  end.

Definition deps_of (s : EmbeddedScheduler Task) : list (list Z) := dependencies <$> tasks s.

(** A task depends only on tasks added before it. *)
Definition acyclic (deps : list (list Z)) : Prop :=
  forall i l, deps !! i = Some l -> Forall (fun d => 1 <= d <= Z.of_nat i) l.

Lemma execute_all_app l k s : execute_all (l ++ k) s = sbind (execute_all l) (fun _ => execute_all k) s.
Proof.
  revert s. induction l as [|x l IH]; intros s; [done|]. simpl. rewrite sbind_assoc.
  destruct (execute_task x s) as [[[] s']| | |] eqn:Hx; [|unfold sbind; by rewrite Hx..].
  erewrite !sbind_Ret by exact Hx. apply IH.
Qed.

Lemma task_at_ok id (s : EmbeddedScheduler Task) (w : W) r :
  1 <= id < 2 ^ 64 -> tasks s !! Z.to_nat (id - 1) = Some r -> task_at id (s, w) = Ret (r, (s, w)).
Proof.
  intros Hid Hr. unfold task_at, usub, fit. rewrite (proj2 (Z.leb_le _ _)), (proj2 (Z.ltb_lt _ _)) by lia.
  erewrite sbind_Ret by done. erewrite sbind_Ret by done. apply slift_Ret, vindex_Ret. by split; [lia|].
Qed.

Lemma execute_task_deps id (s : EmbeddedScheduler Task) (w : W) s' w' :
  1 <= id < 2 ^ 64 -> execute_task id (s, w) = Ret (tt, (s', w')) -> deps_of s' = deps_of s.
Proof.
  intros Hid H. unfold execute_task in H. apply sbind_Ret_inv in H as (r & s1 & Hr & H).
  destruct (tasks s !! Z.to_nat (id - 1)) as [r0|] eqn:He.
  - rewrite (task_at_ok _ _ _ _ Hid He) in Hr. injection Hr as -> <-.
    apply sbind_Ret_inv in H as (t & s2 & Ht & H). apply zoom_Ret_inv in Ht as (w2 & _ & ->). injection H as <- _.
    unfold deps_of. simpl. rewrite list_fmap_insert. apply list_insert_id. by rewrite list_lookup_fmap, He.
  - exfalso. unfold task_at, usub, fit in Hr.
    rewrite (proj2 (Z.leb_le _ _)), (proj2 (Z.ltb_lt _ _)) in Hr by lia.
    erewrite sbind_Ret in Hr by done. erewrite sbind_Ret in Hr by done. simpl in Hr.
    rewrite vindex_oob in Hr; [done|]. apply lookup_ge_None in He. lia.
Qed.

Lemma order_range n deps id :
  acyclic deps -> 1 <= id -> Forall (fun x => 1 <= x <= id) (order n deps id).
Proof.
  intros Ha. revert id. induction n as [|n IH]; intros id Hid; [constructor|]. simpl.
  destruct (deps !! _) as [l|] eqn:Hl; [|constructor]. apply Forall_app_2; [|repeat constructor; lia].
  apply Forall_forall. intros x (d & Hx & Hd)%list_elem_of_bind.
  pose proof (Ha _ _ Hl) as Hf. eapply Forall_forall in Hf; [|exact Hd]. simpl in Hf.
  specialize (IH d ltac:(lia)). eapply Forall_forall in IH; [|exact Hx]. simpl in IH. lia.
Qed.

Lemma execute_all_deps ids (s : EmbeddedScheduler Task) (w : W) s' w' :
  Forall (fun x => 1 <= x < 2 ^ 64) ids -> execute_all ids (s, w) = Ret (tt, (s', w')) -> deps_of s' = deps_of s.
Proof.
  revert s w. induction ids as [|x ids IH]; intros s w Hf H; [by injection H as <- _|].
  apply Forall_cons in Hf as [Hx Hf]. simpl in H. apply sbind_Ret_inv in H as ([] & [s1 w1] & H1 & H2).
  rewrite (IH _ _ Hf H2). by eapply execute_task_deps.
Qed.

Lemma exec_dependencies_spec exec n deps id done_ rest (s : EmbeddedScheduler Task) (w : W) :
  acyclic deps -> 1 <= id < 2 ^ 64 ->
  (forall d s w, d ∈ rest -> deps_of s = deps -> exec d (s, w) = execute_all (order n deps d) (s, w)) ->
  deps !! Z.to_nat (id - 1) = Some (done_ ++ rest) -> deps_of s = deps ->
  exec_dependencies exec id (length rest) (zlen done_) (s, w) = execute_all (rest ≫= order n deps) (s, w).
Proof.
  intros Ha Hid. revert done_ s w. induction rest as [|d rest IH]; intros done_ s w He Hl Hs; [done|].
  cbn [length exec_dependencies]. rewrite bind_cons, execute_all_app.
  pose proof Hl as Hl'. rewrite <-Hs in Hl'. unfold deps_of in Hl'. rewrite list_lookup_fmap in Hl'.
  destruct (tasks s !! Z.to_nat (id - 1)) as [r|] eqn:Hr; [|done]. simpl in Hl'. injection Hl' as Hrd.
  erewrite sbind_Ret by (by apply task_at_ok). rewrite Hrd.
  erewrite sbind_Ret.
  2: { apply slift_Ret, vindex_Ret. split; [lia|]. rewrite Nat2Z.id. by apply list_lookup_middle. }
  assert (Hd : 1 <= d <= id).
  { apply Ha in Hl. apply Forall_app in Hl as [_ Hl]. apply Forall_cons in Hl as [Hl _]. lia. }
  destruct (execute_all (order n deps d) (s, w)) as [[[] [s1 w1]]| | |] eqn:Hx.
  2-4: unfold sbind; rewrite He, Hx by (done || apply list_elem_of_here); done.
  erewrite !sbind_Ret by (rewrite ?He by (done || apply list_elem_of_here); exact Hx).
  replace (zlen done_ + 1) with (zlen (done_ ++ [d])) by (rewrite length_app; simpl; lia).
  apply IH.
  - intros d' s' w' Hin. apply He. by apply list_elem_of_further.
  - by rewrite <-app_assoc.
  - rewrite <-Hs. eapply execute_all_deps; [|exact Hx].
    eapply Forall_impl; [apply (order_range n deps d); [done|lia]|]. simpl. lia.
Qed.

Lemma exec_task_order fuel deps id (s : EmbeddedScheduler Task) (w : W) :
  acyclic deps -> zlen deps < 2 ^ 64 -> 1 <= id <= zlen deps -> (Z.to_nat id <= fuel)%nat -> deps_of s = deps ->
  exec_task fuel id (s, w) = execute_all (order fuel deps id) (s, w).
Proof.
  intros Ha Hl. revert id s w. induction fuel as [|fuel IH]; intros id s w Hid Hf Hs; [lia|].
  destruct (lookup_lt_is_Some_2 deps (Z.to_nat (id - 1)) ltac:(lia)) as [l Hd].
  pose proof Hd as Hd'. rewrite <-Hs in Hd'. unfold deps_of in Hd'. rewrite list_lookup_fmap in Hd'.
  destruct (tasks s !! Z.to_nat (id - 1)) as [r|] eqn:Hr; [|done]. simpl in Hd'. injection Hd' as Hrd.
  cbn [exec_task order]. rewrite Hd, execute_all_app. erewrite sbind_Ret by (apply task_at_ok; [lia|done]).
  cbn zeta. rewrite Hrd.
  assert (Hdeps : forall d s w, d ∈ l -> deps_of s = deps -> exec_task fuel d (s, w) = execute_all (order fuel deps d) (s, w)).
  { intros d s' w' Hin Hs'. apply Ha in Hd. eapply Forall_forall in Hd; [|exact Hin]. simpl in Hd. apply IH; done || lia. }
  pose proof (exec_dependencies_spec _ fuel deps id [] l s w Ha ltac:(lia) Hdeps Hd Hs) as He.
  change (zlen []) with 0 in He. unfold sbind at 1 2. rewrite He.
  destruct (execute_all (l ≫= order fuel deps) (s, w)) as [[? s']| | |]; try done.
  simpl. unfold sbind. by destruct (execute_task id s') as [[[] ?]| | |].
Qed.

(** C27: Running a task of the embedded scheduler runs its dependencies first. When every task
    depends only on tasks added before it, [exec_task] terminates with recursion no deeper
    than the task's number and executes exactly the sequence that lists, for each
    dependency in turn, what running it executes, and last the task itself; every direct
    dependency occurs in that sequence before the task. *)
Theorem embedded_runs_dependencies_first fuel id (s : EmbeddedScheduler Task) (w : W) l :
  acyclic (deps_of s) -> zlen (tasks s) < 2 ^ 64 -> 1 <= id <= zlen (tasks s) -> (Z.to_nat id <= fuel)%nat ->
  deps_of s !! Z.to_nat (id - 1) = Some l ->
  exec_task fuel id (s, w) = execute_all ((l ≫= order (pred fuel) (deps_of s)) ++ [id]) (s, w) /\
  Forall (fun d => d ∈ (l ≫= order (pred fuel) (deps_of s))) l /\
  Forall (fun x => 1 <= x < id) (l ≫= order (pred fuel) (deps_of s)).
Proof.
  intros Ha Hl Hid Hf Hd. assert (Hlen : zlen (deps_of s) = zlen (tasks s)) by (unfold deps_of; by rewrite length_fmap).
  split; [|split].
  - rewrite (exec_task_order fuel (deps_of s)) by (done || lia). destruct fuel; [lia|]. cbn [order pred]. by rewrite Hd.
  - pose proof (Ha _ _ Hd) as Hr. apply Forall_forall. intros d Hin. apply list_elem_of_bind. exists d. split; [|done].
    eapply Forall_forall in Hr; [|exact Hin]. simpl in Hr. destruct fuel as [|[|fuel]]; try lia. simpl.
    destruct (lookup_lt_is_Some_2 (deps_of s) (Z.to_nat (d - 1)) ltac:(lia)) as [k ->].
    apply elem_of_app. right. apply list_elem_of_here.
  - pose proof (Ha _ _ Hd) as Hr. apply Forall_forall. intros x (d & Hx & Hin)%list_elem_of_bind.
    eapply Forall_forall in Hr; [|exact Hin]. simpl in Hr.
    pose proof (order_range (pred fuel) _ d Ha ltac:(lia)) as Ho. eapply Forall_forall in Ho; [|exact Hx]. simpl in Ho. lia.
Qed.

End spec.

End Embedded.

(** ** Witnesses *)

Module SchedulerSample.

(** Tasks that count their runs; each run takes five ticks of the clock. *)
Definition ticks : Standalone.Clock Z := sgets id.
Definition clockwork : Standalone.Runtime Z unit Z := {|
  Standalone.task_execute t := fun w => Ret (t + 1, w + 5);
  Standalone.call_run _ s := sret s
|}.

Lemma scheduler_runs_until_shutdown_witness :
  Standalone.handle_requests (P := release) (CW := ticks) (R := clockwork) 9
    (Standalone.mkScheduler [Standalone.mkRunnable 0 0 0; Standalone.mkRunnable 10 0 0] 0
       [Some Standalone.Execute; None; Some Standalone.Shutdown; Some Standalone.Execute] false true,
     Standalone.mkEnv 100 []) =
  Ret (tt, (Standalone.mkScheduler [Standalone.mkRunnable 2 10 115; Standalone.mkRunnable 12 10 120] 0
              [Some Standalone.Execute] false true, Standalone.mkEnv 120 [])).
Proof.
  apply (@Standalone.scheduler_runs_until_shutdown release Z unit Z ticks clockwork 1 8
    [Standalone.mkRunnable 0 0 0; Standalone.mkRunnable 10 0 0] [Some Standalone.Execute] false true
    (Standalone.mkEnv 100 []) 100 100 120); try done. simpl. lia.
Defined.

(** Task 3 depends on 1 and 2, and 2 on 1; each run appends the task's number to a log. *)
Definition logging : Embedded.Tasks (Z * list Z) (list Z) := {|
  Embedded.task_execute t := fun w => Ret (t, w ++ [t.1]);
  Embedded.task_dependencies := snd
|}.

Definition diamond : Embedded.EmbeddedScheduler (Z * list Z) :=
  Embedded.mkScheduler (Embedded.from_task (X := logging) <$> [(1, []); (2, [1]); (3, [1; 2])]).

Lemma embedded_runs_dependencies_first_witness :
  Embedded.exec_task (P := release) (X := logging) 3 3 (diamond, []) = Ret (tt, (diamond, [1; 1; 2; 3])) /\
  Forall (fun d => d ∈ [1; 1; 2]) [1; 2] /\ Forall (fun x => 1 <= x < 3) [1; 1; 2].
Proof.
  apply (@Embedded.embedded_runs_dependencies_first release (Z * list Z) (list Z) logging 3 3 diamond [] [1; 2]); try done.
  intros [|[|[|i]]] l [= <-]; repeat constructor; done || lia.
Defined.

End SchedulerSample.
