(* ===== verification/Programs.v ===== *)
(** * Programs for the embedded scheduler ([test/embedded-scheduler-dependency-test])

    A task without dependencies and a chain of tasks of which each depends on the one before;
    running the last one runs all of them. The number of tasks, ten in the program, is an
    argument. *)

From stdpp Require Import pretty.
From S2P Require Import Prelude Utils Scheduler.
Import Embedded.

Module DependencyTest.

(** A closure that calls [test_func], and a [DepTask]; the scheduler boxes both. *)
Inductive BoxedTask : Type :=
| TestFunc (id : string)
| DepTask (id : string) (deps : list Z).

(** What is printed: the kind of the line and the name *)
Inductive line : Type := BaseTask (id : string) | Task (id : string).

#[local] Instance BoxedTask_Executable : Tasks BoxedTask (list line) := {|
  task_execute t := fun out =>
    match t with
    | TestFunc id => Ret (t, out ++ [BaseTask id])
    | DepTask id _ => Ret (t, out ++ [Task id])
    end;
  task_dependencies t := match t with TestFunc _ => [] | DepTask _ deps => deps end
|}.

Section program.
Context {P : Profile}.

Abbreviation Sch A := (St (EmbeddedScheduler BoxedTask * list line) A).

Definition DepTask_new (parent : Z) (id : string) : BoxedTask := DepTask id [parent].

(** The loop over [i], for [n] more tasks; the handles in order *)
Fixpoint add_chain (n : nat) (i : N) (prev_handle : Z) : Sch (list Z) :=
  match n with
  | O => sret []
  | S n =>
      let* r := add_task (DepTask_new prev_handle ("id-" +:+ pretty i)) in
      let* h := slift (unwrap_ok r) in
      let* hs := add_chain n (i + 1) h in
      sret (h :: hs)
  end.

Definition main (fuel n : nat) : Sch unit :=
  let* r := add_task (TestFunc "task-0") in
  let* handle0 := slift (unwrap_ok r) in
  let* other_handles := add_chain n 0 handle0 in
  let* i := slift (usub 64 (zlen other_handles) 1) in
  let* last := slift (vindex other_handles i) in
  exec_task fuel last.

(** ** The chain runs in order *)

Definition name (i : nat) : string := "id-" +:+ pretty (N.of_nat i).

(** The tasks of the scheduler when [n] links were added *)
Definition links (i n : nat) : list (Runnable BoxedTask) :=
  (fun k => mkRunnable (DepTask (name k) [Z.of_nat k + 1]) [Z.of_nat k + 1]) <$> seq i n.
Definition installed (n : nat) : list (Runnable BoxedTask) := mkRunnable (TestFunc "task-0") [] :: links 0 n.

Lemma add_chain_ok n i ts out :
  length ts = S i -> add_chain n (N.of_nat i) (Z.of_nat i + 1) (mkScheduler ts, out) =
    Ret ((fun k => Z.of_nat k + 2) <$> seq i n, (mkScheduler (ts ++ links i n), out)).
Proof.
  revert i ts. induction n as [|n IH]; intros i ts Hl; [by rewrite app_nil_r|]. cbn [add_chain].
  set (r := mkRunnable (DepTask (name i) [Z.of_nat i + 1]) [Z.of_nat i + 1]).
  erewrite sbind_Ret; [|unfold add_task; erewrite sbind_Ret by done; by erewrite sbind_Ret by done]. fold r.
  erewrite sbind_Ret by done. cbn [fst tasks]. change (ts ++ [from_task _]) with (ts ++ [r]).
  assert (Hz : zlen (ts ++ [r]) = Z.of_nat (S i) + 1) by (rewrite length_app, Hl; cbn [length]; lia). rewrite Hz.
  replace (N.of_nat i + 1)%N with (N.of_nat (S i)) by lia. erewrite sbind_Ret by (apply IH; rewrite length_app, Hl; cbn [length]; lia).
  change (links i (S n)) with (r :: links (S i) n). change (seq i (S n)) with (i :: seq (S i) n). rewrite fmap_cons, <-app_assoc.
  by replace (Z.of_nat (S i) + 1) with (Z.of_nat i + 2) by lia.
Qed.

Lemma deps_installed n : deps_of (mkScheduler (installed n)) = [] :: ((fun k => [Z.of_nat k + 1]) <$> seq 0 n).
Proof. unfold deps_of, installed, links. simpl. by rewrite <-list_fmap_compose. Qed.

Lemma deps_lookup n i : (i < n)%nat -> ([] :: ((fun k => [Z.of_nat k + 1]) <$> seq 0 n) : list (list Z)) !! S i = Some [Z.of_nat i + 1].
Proof. intros Hi. simpl. rewrite list_lookup_fmap, lookup_seq_lt by done. done. Qed.

Lemma chain_acyclic n : acyclic ([] :: ((fun k => [Z.of_nat k + 1]) <$> seq 0 n)).
Proof.
  intros [|i] l Hl; [injection Hl as <-; constructor|]. simpl in Hl. apply list_lookup_fmap_Some in Hl as (k & -> & Hk).
  apply lookup_seq in Hk as [-> _]. repeat constructor; lia.
Qed.

(** Task [k] runs everything up to it. *)
Lemma order_chain n k fuel :
  (k <= n)%nat -> (k < fuel)%nat ->
  order fuel ([] :: ((fun k => [Z.of_nat k + 1]) <$> seq 0 n)) (Z.of_nat k + 1) = (fun i => Z.of_nat i + 1) <$> seq 0 (S k).
Proof.
  revert fuel. induction k as [|k IH]; intros [|fuel] Hk Hf; try lia; cbn [order].
  - done.
  - replace (Z.to_nat (Z.of_nat (S k) + 1 - 1)) with (S k) by lia. rewrite deps_lookup by lia.
    rewrite bind_cons, IH by lia. simpl ([] ≫= _). rewrite app_nil_r. rewrite (seq_S (S k)), fmap_app. done.
Qed.

(** What the first [k] tasks print *)
Definition prints (i : nat) : line := match i with O => BaseTask "task-0" | S i => Task (name i) end.

Lemma execute_installed n i k out :
  (i + k <= S n)%nat -> Z.of_nat n < 2 ^ 63 ->
  execute_all ((fun i => Z.of_nat i + 1) <$> seq i k) (mkScheduler (installed n), out) =
    Ret (tt, (mkScheduler (installed n), out ++ (prints <$> seq i k))).
Proof.
  revert i out. induction k as [|k IH]; intros i out Hi Hn; [by rewrite app_nil_r|]. simpl seq. rewrite !fmap_cons. cbn [execute_all].
  assert (exists r, installed n !! i = Some r /\ task_execute (task r) out = Ret (task r, out ++ [prints i])) as (r & Hr & Hx).
  { destruct i as [|i]; [by eexists|]. unfold installed, links. simpl. rewrite list_lookup_fmap, lookup_seq_lt by lia. by eexists. }
  assert (Hone : execute_task (Z.of_nat i + 1) (mkScheduler (installed n), out) = Ret (tt, (mkScheduler (installed n), out ++ [prints i]))).
  { unfold execute_task. erewrite sbind_Ret by (apply task_at_ok; [lia|]; replace (Z.to_nat (Z.of_nat i + 1 - 1)) with i by lia; exact Hr).
    erewrite sbind_Ret by (apply zoom_Ret; exact Hx). unfold smodify. simpl. replace (Z.to_nat (Z.of_nat i + 1 - 1)) with i by lia.
    do 4 f_equal. apply list_insert_id. rewrite Hr. by destruct r. }
  erewrite sbind_Ret by exact Hone. rewrite IH by lia. by rewrite <-app_assoc.
Qed.

(** With at least one link, the program ends and prints the base task and then the links in
    the order in which they were added. *)
Lemma main_runs_chain fuel n :
  (0 < n)%nat -> (n < fuel)%nat -> Z.of_nat n < 2 ^ 63 ->
  main fuel n (Embedded.new, []) = Ret (tt, (mkScheduler (installed n), prints <$> seq 0 (S n))).
Proof.
  intros H0 Hf Hn. unfold main. erewrite sbind_Ret; [|unfold add_task; erewrite sbind_Ret by done; by erewrite sbind_Ret by done].
  erewrite sbind_Ret by done. cbn [fst tasks].
  erewrite sbind_Ret by (apply (add_chain_ok n 0 [mkRunnable (TestFunc "task-0") []]); done).
  erewrite sbind_Ret by (apply slift_Ret, usub_small; unfold uint; rewrite length_fmap, length_seq; lia).
  erewrite sbind_Ret.
  2: { apply slift_Ret, vindex_Ret. rewrite length_fmap, length_seq. split; [lia|].
       rewrite list_lookup_fmap, lookup_seq_lt by lia. reflexivity. }
  change ([mkRunnable (TestFunc "task-0") []] ++ links 0 n) with (installed n).
  replace (Z.of_nat (0 + Z.to_nat (Z.of_nat n - 1)) + 2) with (Z.of_nat n + 1) by lia.
  rewrite (exec_task_order fuel _ _ _ _ (chain_acyclic n)); [|simpl; rewrite length_fmap, length_seq; lia..|lia|apply deps_installed].
  rewrite order_chain by lia. by rewrite execute_installed by lia.
Qed.

(** The program itself *)
Lemma main_prints :
  main 11 10 (Embedded.new, []) = Ret (tt, (mkScheduler (installed 10),
    BaseTask "task-0" :: (Task <$> ["id-0"; "id-1"; "id-2"; "id-3"; "id-4"; "id-5"; "id-6"; "id-7"; "id-8"; "id-9"]))).
Proof. rewrite main_runs_chain by lia. done. Qed.

End program.
End DependencyTest.
