(* ===== verification/Stores.v ===== *)
(** * Per-flow stores ([framework/src/state/dp_mergeable.rs], [cp_mergeable.rs],
    [mergeable.rs])

    Tables from flows to a mergeable value. A [HashMap] is a finite map; the order its
    iterators visit entries in does not matter to any operation here, for the keys of one
    map are distinct. [AddAssign] with [Default] is a class; its laws are required only by
    theorems. A bounded channel is the list of what is in flight with its size, and whether
    a [try_read] or [try_write] of a lock succeeds is an input. *)

From S2P Require Import Prelude Flows.

Class AddAssign (T : Type) : Type := { default_ : T; add_assign : T -> T -> T }.

(** The merge of the documentation: a commutative monoid *)
Class MergeLaws (T : Type) {A : AddAssign T} : Prop := {
  add_comm x y : add_assign x y = add_assign y x;
  add_assoc x y z : add_assign x (add_assign y z) = add_assign (add_assign x y) z;
  add_default x : add_assign default_ x = x
}.

(** [HashMap::extend]: later entries replace earlier ones. *)
Definition extend {T} (m : gmap Flow T) (l : list (Flow * T)) : gmap Flow T :=
  foldl (fun m e => <[e.1 := e.2]> m) m l.

Lemma extend_app {T} (m : gmap Flow T) l k : extend m (l ++ k) = extend (extend m l) k.
Proof. apply foldl_app. Qed.

Lemma extend_empty_iff {T} (m : gmap Flow T) l : extend m l = ∅ <-> m = ∅ /\ l = [].
Proof.
  split; [|by intros [-> ->]]. revert m. induction l as [|e l IH]; intros m H; [done|]. simpl in H.
  apply IH in H as [H _]. by apply insert_non_empty in H.
Qed.

(** ** [dp_mergeable.rs] *)
Module Dp.

Record DpMergeableStore (T : Type) : Type := mkStore {
  state : gmap Flow T;
  cache : list (Flow * T);
  cache_size : Z
}.
#[global] Arguments mkStore {T}.
#[global] Arguments state {T}.
#[global] Arguments cache {T}.
#[global] Arguments cache_size {T}.

Definition VEC_SIZE : Z := Z.shiftl 1 24.
Definition CACHE_SIZE : Z := Z.shiftl 1 14.

Section operations.
Context {T : Type} {A : AddAssign T}.
Abbreviation Store := (DpMergeableStore T).

(** The capacities only reserve memory. *)
Definition with_cache_and_size (cache size : Z) : Store := mkStore ∅ [] cache.

Definition new : Store := with_cache_and_size CACHE_SIZE VEC_SIZE.

Definition merge_cache (s : Store) : Store := mkStore (extend (state s) (cache s)) [] (cache_size s).

Definition update (flow : Flow) (inc : T) (s : Store) : Store :=
  let s := mkStore (state s) (cache s ++ [(flow, inc)]) (cache_size s) in
  if cache_size s <=? zlen (cache s) then merge_cache s else s.

Definition remove (flow : Flow) (s : Store) : T * Store :=
  let s := merge_cache s in
  (default default_ (state s !! flow), mkStore (delete flow (state s)) (cache s) (cache_size s)).

(** The entries the iterator visits, as a map *)
Definition iter (s : Store) : gmap Flow T * Store := let s := merge_cache s in (state s, s).

Definition len (s : Store) : Z * Store := let s := merge_cache s in (Z.of_nat (size (state s)), s).

Definition is_empty (s : Store) : bool := bool_decide (state s = ∅) && bool_decide (cache s = []).

(** A history of operations *)
Inductive op : Type := Update (flow : Flow) (inc : T) | Remove (flow : Flow) | Iter | Len | IsEmpty.
Inductive reply : Type := Done | Value (v : T) | Entries (m : gmap Flow T) | Number (n : Z) | Flag (b : bool).

Definition step (o : op) (s : Store) : reply * Store :=
  match o with
  | Update f v => (Done, update f v s)
  | Remove f => let '(v, s) := remove f s in (Value v, s)
  | Iter => let '(m, s) := iter s in (Entries m, s)
  | Len => let '(n, s) := len s in (Number n, s)
  | IsEmpty => (Flag (is_empty s), s)
  end.

(** The table the store stands for: an update replaces the flow's value. *)
Definition table_step (o : op) (m : gmap Flow T) : reply * gmap Flow T :=
  match o with
  | Update f v => (Done, <[f := v]> m)
  | Remove f => (Value (default default_ (m !! f)), delete f m)
  | Iter => (Entries m, m)
  | Len => (Number (Z.of_nat (size m)), m)
  | IsEmpty => (Flag (bool_decide (m = ∅)), m)
  end.

Fixpoint run {S} (f : op -> S -> reply * S) (ops : list op) (s : S) : list reply * S :=
  match ops with
  | [] => ([], s)
  | o :: ops => let '(r, s) := f o s in let '(rs, s) := run f ops s in (r :: rs, s)
  end.

Definition table (s : Store) : gmap Flow T := extend (state s) (cache s).

Lemma step_refines o s :
  (step o s).1 = (table_step o (table s)).1 /\ table (step o s).2 = (table_step o (table s)).2.
Proof.
  destruct o as [f v|f| | |]; unfold table; simpl; try done.
  - split; [done|]. unfold update. simpl. destruct (_ <=? _); simpl; by rewrite extend_app.
  - split; [|done]. do 2 f_equal. unfold is_empty. apply eq_true_iff_eq.
    rewrite andb_true_iff, !bool_decide_eq_true, extend_empty_iff. done.
Qed.

(** Through any history of updates, removals, iterations and queries the store answers
    as a table in which an update replaces the value of its flow: the cache is never
    observable, but values are not merged with [AddAssign] as the documentation says. *)
Lemma dp_store_is_last_write_table ops s :
  (run step ops s).1 = (run table_step ops (table s)).1 /\
  table (run step ops s).2 = (run table_step ops (table s)).2.
Proof.
  revert s. induction ops as [|o ops IH]; intros s; [done|]. simpl.
  destruct (step_refines o s) as [Hr Hs]. destruct (step o s) as [r s1]. simpl in Hr, Hs.
  destruct (table_step o (table s)) as [r' m1]. simpl in Hr, Hs. subst r' m1. specialize (IH s1).
  destruct (run step ops s1) as [rs s2], (run table_step ops (table s1)) as [rs' m2]. simpl in *.
  destruct IH as [-> ->]. done.
Qed.

End operations.
#[global] Arguments op : clear implicits.
#[global] Arguments reply : clear implicits.

End Dp.

(** ** [cp_mergeable.rs] *)
Module Cp.

Record CpMergeableStoreDataPath (T : Type) : Type := mkDataPath {
  cache : list (Flow * T);
  updates : Z;
  delay : Z
}.
#[global] Arguments mkDataPath {T}.
#[global] Arguments cache {T}.
#[global] Arguments updates {T}.
#[global] Arguments delay {T}.

Record CpMergeableStoreControlPlane (T : Type) : Type := mkControl { flow_counters : gmap Flow T }.
#[global] Arguments mkControl {T}.
#[global] Arguments flow_counters {T}.

(** [sync_channel(size)]; a channel of size 0 hands over only to a waiting receiver, and the
    control plane never waits. *)
Record Channel (T : Type) : Type := mkChannel { in_flight : list (list (Flow * T)); chan_size : Z }.
#[global] Arguments mkChannel {T}.
#[global] Arguments in_flight {T}.
#[global] Arguments chan_size {T}.

(** The two ends and the channel between them *)
Record Store (T : Type) : Type := mkStore {
  data_path : CpMergeableStoreDataPath T;
  channel : Channel T;
  control : CpMergeableStoreControlPlane T
}.
#[global] Arguments mkStore {T}.
#[global] Arguments data_path {T}.
#[global] Arguments channel {T}.
#[global] Arguments control {T}.

Section operations.
Context {P : Profile} {T : Type} {A : AddAssign T}.

Definition try_send (v : list (Flow * T)) (c : Channel T) : bool * Channel T :=
  if zlen (in_flight c) <? chan_size c then (true, mkChannel (in_flight c ++ [v]) (chan_size c)) else (false, c).

Definition try_recv (c : Channel T) : option (list (Flow * T)) * Channel T :=
  match in_flight c with
  | [] => (None, c)
  | v :: l => (Some v, mkChannel l (chan_size c))
  end.

Definition update (flow : Flow) (inc : T) (s : Store T) : outcome (Store T) :=
  let d := data_path s in
  let cache := cache d ++ [(flow, inc)] in
  let! updates := uadd 64 (updates d) 1 in
  if delay d <=? updates then
    let '(_, c) := try_send cache (channel s) in
    Ret (mkStore (mkDataPath [] 0 (delay d)) c (control s))
  else Ret (mkStore (mkDataPath cache updates (delay d)) (channel s) (control s)).

(** [*entry.or_insert_with(Default::default) += c] for each entry *)
Definition update_internal (v : list (Flow * T)) (c : CpMergeableStoreControlPlane T) : CpMergeableStoreControlPlane T :=
  mkControl (foldl (fun m e => <[e.1 := add_assign (default default_ (m !! e.1)) e.2]> m) (flow_counters c) v).

Definition recv (s : Store T) : Store T :=
  match try_recv (channel s) with
  | (None, _) => s
  | (Some v, c) => mkStore (data_path s) c (update_internal v (control s))
  end.

Definition get (c : CpMergeableStoreControlPlane T) (flow : Flow) : T := default default_ (flow_counters c !! flow).
Definition iter (c : CpMergeableStoreControlPlane T) : gmap Flow T := flow_counters c.
Definition len (c : CpMergeableStoreControlPlane T) : Z := Z.of_nat (size (flow_counters c)).
Definition is_empty (c : CpMergeableStoreControlPlane T) : bool := bool_decide (flow_counters c = ∅).
Definition remove (c : CpMergeableStoreControlPlane T) (flow : Flow) : T * CpMergeableStoreControlPlane T :=
  (default default_ (flow_counters c !! flow), mkControl (delete flow (flow_counters c))).

Definition new_cp_mergeable_store (delay channel_size : Z) : Store T :=
  mkStore (mkDataPath [] 0 delay) (mkChannel [] channel_size) (mkControl ∅).

(** ** Nothing is lost while the channel has room *)

Context {L : MergeLaws T}.

(** The sum of the increments of a flow *)
Definition total (f : Flow) (l : list (Flow * T)) : T :=
  foldr (fun e acc => if decide (e.1 = f) then add_assign e.2 acc else acc) default_ l.

(** What the store has counted for a flow, wherever it is at the moment *)
Definition counted (f : Flow) (s : Store T) : T :=
  add_assign (get (control s) f) (add_assign (total f (concat (in_flight (channel s)))) (total f (cache (data_path s)))).

Lemma add_default_r x : add_assign x default_ = x.
Proof using L. by rewrite add_comm, add_default. Qed.

Lemma total_app f l k : total f (l ++ k) = add_assign (total f l) (total f k).
Proof using L.
  induction l as [|e l IH]; simpl; [by rewrite add_default|]. rewrite IH. case_decide; [|done]. by rewrite add_assoc.
Qed.

Lemma get_update_internal f v c : get (update_internal v c) f = add_assign (get c f) (total f v).
Proof using L.
  unfold get, update_internal. simpl. generalize (flow_counters c) as m. induction v as [|e v IH]; intros m; simpl.
  { by rewrite add_default_r. }
  rewrite IH. case_decide as He.
  - subst f. rewrite lookup_insert_eq. simpl. by rewrite add_assoc.
  - by rewrite lookup_insert_ne.
Qed.

Lemma recv_counted f s : counted f (recv s) = counted f s.
Proof using L.
  unfold recv, try_recv. destruct (in_flight (channel s)) as [|v l] eqn:Hl; [done|].
  unfold counted. simpl. rewrite Hl, get_update_internal. simpl. rewrite total_app. by rewrite !add_assoc.
Qed.

(** Whether an update ends a batch, and whether the channel then takes it *)
Definition flushes (s : Store T) : bool := delay (data_path s) <=? updates (data_path s) + 1.
Definition has_room (s : Store T) : bool := zlen (in_flight (channel s)) <? chan_size (channel s).

Lemma update_counted f v s g :
  uint 64 (updates (data_path s) + 1) ->
  exists s', update f v s = Ret s' /\
    counted g s' =
      if flushes s && negb (has_room s)
      then add_assign (get (control s) g) (total g (concat (in_flight (channel s))))
      else add_assign (counted g s) (total g [(f, v)]).
Proof using L.
  intros [H0 H1]. unfold update, uadd, fit. rewrite (proj2 (Z.leb_le _ _) H0), (proj2 (Z.ltb_lt _ _) H1).
  cbn [andb obind]. fold (flushes s). unfold try_send. fold (has_room s).
  destruct (flushes s), (has_room s); eexists; (split; [done|]); unfold counted;
    cbn [data_path channel control in_flight cache andb negb].
  - rewrite concat_app. cbn [concat]. rewrite app_nil_r, !total_app, !add_assoc. apply add_default_r.
  - by rewrite add_default_r.
  - by rewrite total_app, !add_assoc.
  - by rewrite total_app, !add_assoc.
Qed.

(** A history of data-path updates and control-plane receives *)
Inductive op : Type := Update (flow : Flow) (inc : T) | Recv.

Fixpoint run (ops : list op) (s : Store T) : outcome (Store T) :=
  match ops with
  | [] => Ret s
  | Update f v :: ops => let! s := update f v s in run ops s
  | Recv :: ops => run ops (recv s)
  end.

Definition increments (ops : list op) : list (Flow * T) :=
  omap (fun o => match o with Update f v => Some (f, v) | Recv => None end) ops.

(** Every batch that became full along the history found room in the channel. *)
Fixpoint keeps_room (ops : list op) (s : Store T) : Prop :=
  match ops with
  | [] => True
  | Update f v :: ops =>
      (flushes s = true -> has_room s = true) /\ uint 64 (updates (data_path s) + 1) /\
      forall s', update f v s = Ret s' -> keeps_room ops s'
  | Recv :: ops => keeps_room ops (recv s)
  end.

(** C30: The control-plane store counts every update exactly once while its channel keeps up:
    along any interleaving of updates and receives in which each full batch found room, what
    the control plane, the channel and the cache hold for a flow together is the merge of
    all increments of that flow. When a full batch finds no room, all its increments are
    lost. *)
Theorem cp_store_counts_all ops s :
  (keeps_room ops s ->
   exists s', run ops s = Ret s' /\ forall f, counted f s' = add_assign (counted f s) (total f (increments ops))) /\
  (forall f v, flushes s = true -> has_room s = false -> uint 64 (updates (data_path s) + 1) ->
   exists s', update f v s = Ret s' /\ cache (data_path s') = [] /\ channel s' = channel s /\ control s' = control s).
Proof using L.
  split.
  - revert s. induction ops as [|o ops IH]; intros s Hk.
    { exists s. split; [done|]. intros f. by rewrite add_default_r. }
    destruct o as [f v|]; simpl in Hk.
    + destruct Hk as (Hr & Hu & Hk). destruct (update_counted f v s f Hu) as (s1 & H1 & _).
      destruct (IH s1 (Hk _ H1)) as (s' & H' & Hc). exists s'. simpl. rewrite H1. split; [done|].
      intros g. rewrite Hc. destruct (update_counted f v s g Hu) as (s2 & H2 & Hg). rewrite H1 in H2.
      injection H2 as <-. replace (flushes s && negb (has_room s)) with false in Hg by
        (destruct (flushes s); [by rewrite Hr|done]).
      by rewrite Hg, <-add_assoc, <-total_app.
    + destruct (IH _ Hk) as (s' & H' & Hc). exists s'. split; [done|]. intros f. by rewrite Hc, recv_counted.
  - intros f v Hf Hr [H0 H1]. unfold update, uadd, fit.
    rewrite (proj2 (Z.leb_le _ _) H0), (proj2 (Z.ltb_lt _ _) H1). cbn [andb obind]. fold (flushes s).
    unfold try_send. fold (has_room s). rewrite Hf, Hr. by eexists.
Qed.

End operations.
#[global] Arguments op : clear implicits.

End Cp.

(** ** [mergeable.rs]: a table per data-path core behind a lock, collected by the control plane *)
Module Mergeable.

(** The [Arc<RwLock<HashMap>>]s, by their address *)
Abbreviation Tables T := (gmap Z (gmap Flow T)).

Record MergeableStoreCP (T : Type) : Type := mkCP { flow_counters : gmap Flow T; hashmaps : list Z }.
#[global] Arguments mkCP {T}.
#[global] Arguments flow_counters {T}.
#[global] Arguments hashmaps {T}.

Record MergeableStoreDP (T : Type) : Type := mkDP {
  counters : Z;            (* [flow_counters] *)
  cache : list (Flow * T);
  base_cache_size : Z;
  cache_size : Z;
  len_ : Z
}.
#[global] Arguments mkDP {T}.
#[global] Arguments counters {T}.
#[global] Arguments cache {T}.
#[global] Arguments base_cache_size {T}.
#[global] Arguments cache_size {T}.
#[global] Arguments len_ {T}.

Definition VEC_SIZE : Z := Z.shiftl 1 10.
Definition CACHE_SIZE : Z := Z.shiftl 1 10.
Definition MAX_CACHE_SIZE : Z := Z.shiftl 1 20.
Definition CHAN_SIZE : Z := 128.

Section operations.
Context {P : Profile} {T : Type} {A : AddAssign T}.

Definition new : MergeableStoreCP T := mkCP ∅ [].

(** The new table is allocated at an address [p] not in use. *)
Definition dp_store_with_cache_and_size (p cache size : Z) (cp : MergeableStoreCP T) (ts : Tables T)
    : MergeableStoreDP T * MergeableStoreCP T * Tables T :=
  (mkDP p [] cache cache 0, mkCP (flow_counters cp) (hashmaps cp ++ [p]), <[p := ∅]> ts).

Definition dp_store (p : Z) (cp : MergeableStoreCP T) (ts : Tables T) : MergeableStoreDP T * MergeableStoreCP T * Tables T :=
  dp_store_with_cache_and_size p CACHE_SIZE VEC_SIZE cp ts.

Definition hmap_to_vec (hash : gmap Flow T) : list (Flow * T) := map_to_list hash.

(** [readable p] tells whether [try_read] of the table at [p] succeeds. *)
Definition sync (readable : Z -> bool) (cp : MergeableStoreCP T) (ts : Tables T) : MergeableStoreCP T :=
  let copies := omap (fun p => if readable p then hmap_to_vec <$> ts !! p else None) (hashmaps cp) in
  mkCP (foldl extend ∅ copies) (hashmaps cp).

Definition get (cp : MergeableStoreCP T) (flow : Flow) : T := default default_ (flow_counters cp !! flow).
Definition iter (cp : MergeableStoreCP T) : gmap Flow T := flow_counters cp.
Definition cp_len (cp : MergeableStoreCP T) : Z := Z.of_nat (size (flow_counters cp)).
Definition cp_is_empty (cp : MergeableStoreCP T) : bool := bool_decide (flow_counters cp = ∅).

(** [writable] tells whether [try_write] succeeds. *)
Definition merge_cache (writable : bool) (d : MergeableStoreDP T) (ts : Tables T) : outcome (MergeableStoreDP T * Tables T) :=
  match writable, ts !! counters d with
  | true, Some g =>
      let g := extend g (cache d) in
      Ret (mkDP (counters d) [] (base_cache_size d) (base_cache_size d) (Z.of_nat (size g)), <[counters d := g]> ts)
  | _, _ =>
      let! c := umul 64 (cache_size d) 2 in
      Ret (mkDP (counters d) (cache d) (base_cache_size d) (Z.max c MAX_CACHE_SIZE) (len_ d), ts)
  end.

Definition update (writable : bool) (flow : Flow) (inc : T) (d : MergeableStoreDP T) (ts : Tables T)
    : outcome (MergeableStoreDP T * Tables T) :=
  let d := mkDP (counters d) (cache d ++ [(flow, inc)]) (base_cache_size d) (cache_size d) (len_ d) in
  if cache_size d <=? zlen (cache d) then merge_cache writable d ts else Ret (d, ts).

(** [write] blocks until it has the lock; a poisoned lock panics. *)
Definition remove (flow : Flow) (d : MergeableStoreDP T) (ts : Tables T) : outcome (T * MergeableStoreDP T * Tables T) :=
  match ts !! counters d with
  | Some g =>
      let g := extend g (cache d) in
      Ret (default default_ (g !! flow),
           mkDP (counters d) [] (base_cache_size d) (base_cache_size d) (Z.of_nat (size g)),
           <[counters d := delete flow g]> ts)
  | None => Panic
  end.

Definition len (d : MergeableStoreDP T) : Z := len_ d.
Definition is_empty (d : MergeableStoreDP T) : bool := negb (len_ d =? 0).

End operations.

End Mergeable.

(** ** Witness *)

Module StoreSample.

#[global] Instance Z_add_assign : AddAssign Z := {| default_ := 0; add_assign := Z.add |}.
#[global] Instance Z_merge_laws : MergeLaws Z.
Proof. split; simpl; intros; lia. Qed.

Definition web : Flow := mkFlow 1 2 1000 80 6.

(** Two updates fill a batch, which the control plane then receives. *)
Lemma cp_store_counts_all_witness :
  (exists s', Cp.run (P := release) [Cp.Update web 3; Cp.Update web 4; Cp.Recv] (Cp.new_cp_mergeable_store 2 1) = Ret s' /\
     forall f, Cp.counted f s' = 0 + Cp.total f [(web, 3); (web, 4)]) /\
  (exists s', Cp.update (P := release) web 1 (Cp.new_cp_mergeable_store 1 0) = Ret s' /\
     Cp.cache (Cp.data_path s') = [] /\ Cp.channel s' = Cp.mkChannel [] 0 /\ Cp.control s' = Cp.mkControl ∅).
Proof.
  split.
  - destruct (@Cp.cp_store_counts_all release Z _ _ [Cp.Update web 3; Cp.Update web 4; Cp.Recv]
      (Cp.new_cp_mergeable_store 2 1)) as [H _]. destruct H as (s' & H1 & H2).
    { split; [done|]. split; [done|]. intros s1 [= <-]. split; [done|]. split; [done|]. by intros s2 [= <-]. }
    exists s'. split; [exact H1|]. intros f. rewrite H2. f_equal.
  - destruct (@Cp.cp_store_counts_all release Z _ _ [] (Cp.new_cp_mergeable_store 1 0)) as [_ H]. by apply H.
Defined.

End StoreSample.
