(* ===== verification/Groups.v ===== *)
(** * Splitting a batch by group
    ([framework/src/operators/group_by.rs], with the queue handles of
    [framework/src/queues/mpsc_mbuf_queue.rs])

    A [GroupBy] is a task that lets its parent act, saves the parse position of every packet
    in the packet's metadata and hands it to the queue of its group, and, per group, a
    receive batch over the other end of that queue whose packets take up the saved position.
    The queues are shared through [Arc]s: they live in the network state, under the address
    of the [Arc]. *)

From S2P Require Import Prelude Headers RingBuffer Packet Mpsc Batch Operators Pipelines.
Import Mbuf Pkt.

(** Where the network state keeps the queues *)
Class HasQueues (Net : Type) : Type := {
  queues : Net -> gmap Z Mpsc.MpscQueue;
  set_queues : gmap Z Mpsc.MpscQueue -> Net -> Net;
  queues_lens :: Lens queues set_queues
}.

Record MpscProducer : Type := mkProducer { producer_queue : Z }.
Record MpscConsumer : Type := mkConsumer { consumer_queue : Z }.

Section queues.
Context {P : Profile} {F : Fuel} {Net : Type} {Q : HasQueues Net}.

(** Work on the queue behind an [Arc]. *)
Definition on_queue {A} (id : Z) (f : Mpsc.MpscQueue -> outcome (A * Mpsc.MpscQueue)) : St (World Net) A := fun w =>
  match queues (net w) !! id with
  | Some q => let! '(a, q) := f q in Ret (a, mkWorld (heap w) (set_queues (<[id := q]> (queues (net w))) (net w)))
  | None => Undef
  end.

#[global] Instance MpscConsumer_PacketRx : PacketRx Net MpscConsumer := fun c pkts =>
  on_queue (consumer_queue c) (fun q =>
    let! '(r, pkts, q) := Mpsc.MpscConsumer_recv q pkts in Ret ((r, pkts), q)).

Definition enqueue_packet {T M} (p : MpscProducer) (packet : Packet T M) : St (World Net) bool :=
  on_queue (producer_queue p) (fun q => Mpsc.MpscProducer_enqueue_one loop_fuel q packet).

(** A new queue, at an address not in use, with its producer and a receive batch over its
    consumer *)
Definition new_queue_pair : St (World Net) (MpscProducer * Receive.ReceiveBatch MpscConsumer) :=
  let* q := slift Mpsc.new_mpsc_queue_pair in
  let* id := sgets (fun w => fresh (dom (queues (net w)))) in
  let* _ := smodify (fun w => mkWorld (heap w) (set_queues (<[id := q]> (queues (net w))) (net w))) in
  let* b := slift (Receive.new (mkConsumer id)) in
  sret (mkProducer id, b).

End queues.

Module Group.

Record GroupByProducer (V C : Type) : Type := mkProducerTask {
  parent : V;
  producers : list MpscProducer;
  group_fn : C
}.
#[global] Arguments mkProducerTask {V C}.
#[global] Arguments parent {V C}.
#[global] Arguments producers {V C}.
#[global] Arguments group_fn {V C}.

Definition set_parent {V C} (p : V) (b : GroupByProducer V C) : GroupByProducer V C :=
  mkProducerTask p (producers b) (group_fn b).
Definition set_group_fn {V C} (c : C) (b : GroupByProducer V C) : GroupByProducer V C :=
  mkProducerTask (parent b) (producers b) c.

#[global] Instance Group_lens V C : Lens (B := GroupByProducer V C) parent set_parent.
Proof. lens. Qed.

Record GroupBy : Type := mkGroupBy {
  groups : Z;
  consumers : gmap Z (Receive.ReceiveBatch MpscConsumer);
  task : Z
}.

Section operations.
Context {P : Profile} {Z_ : Zcsi} {F : Fuel} {Net V C T M : Type} {Q : HasQueues Net}.
Context {AV : Act Net V} {IV : BatchIterator Net V T M} {Fn : FnRef C (Packet T M) Z}.

(** The body of the loop; whether the queue took the packet is ignored. *)
Definition hand_over (d : ParsedDescriptor T M) : St (GroupByProducer V C * World Net) unit :=
  let* group := on_closure_ref group_fn set_group_fn (call_ref (packet d)) in
  let* _ := on_heap (save_header_and_offset (packet d)) in
  let* ps := sgets (fun s => producers s.1) in
  let* p := slift (vindex ps group) in
  let* _ := zoom snd (fun w s => (s.1, w)) (enqueue_packet p (packet d)) in
  sret tt.

Definition execute_ : St (GroupByProducer V C * World Net) unit :=
  let* _ := on_field parent set_parent act in
  let* _ := for_each (fun A => on_field parent set_parent) hand_over in
  let* _ := on_field parent set_parent (get_packet_batch PacketBatch.clear_packets) in
  on_field parent set_parent done.

#[global] Instance GroupByProducer_Executable : Executable Net (GroupByProducer V C) := {|
  execute := execute_;
  dependencies b := get_task_dependencies (parent b)
|}.

(** The queues of the groups [i], [i + 1], ..., [n] of them *)
Fixpoint make_queues (n : nat) (i : Z) (ps : list MpscProducer) (cs : gmap Z (Receive.ReceiveBatch MpscConsumer))
    : St (World Net) (list MpscProducer * gmap Z (Receive.ReceiveBatch MpscConsumer)) :=
  match n with
  | O => sret (ps, cs)
  | S n =>
      let* '(prod, consumer) := new_queue_pair in
      make_queues n (i + 1) (ps ++ [prod]) (<[i := consumer]> cs)
  end.

(** [add_task] of whatever scheduler [Sched] is given *)
Definition new {Sched : Type} (add_task : GroupByProducer V C -> St (Sched * World Net) (result Z))
    (p : V) (n : Z) (f : C) : St (Sched * World Net) GroupBy :=
  let* '(ps, cs) := zoom snd (fun w s => (s.1, w)) (make_queues (Z.to_nat n) 0 [] ∅) in
  let* r := add_task (mkProducerTask p ps f) in
  let* t := slift (unwrap_ok r) in
  sret (mkGroupBy n cs t).

(** [Batch::group_by] *)
Definition group_by {Sched : Type} (add_task : GroupByProducer V C -> St (Sched * World Net) (result Z))
    (b : V) (n : Z) (group_f : C) : St (Sched * World Net) GroupBy :=
  new add_task b n group_f.

Definition len (g : GroupBy) : Z := groups g.

Definition get_group (group : Z) : St (GroupBy * World Net)
    (option (Restore.RestoreHeader T M (Receive.ReceiveBatch MpscConsumer))) :=
  let* g := sgets fst in
  match consumers g !! group with
  | Some p =>
      let* _ := smodify (fun s => (mkGroupBy (groups s.1) (delete group (consumers s.1)) (task s.1), s.2)) in
      let* p := zoom (fun s => (p, s.2)) (fun v s => (s.1, v.2))
        (let* _ := get_packet_batch (PacketBatch.add_parent_task (task g)) in sgets fst) in
      sret (Some (Restore.new p))
  | None => sret None
  end.

(** [groups.get_group(i).unwrap()] for every [i] of the list *)
Fixpoint take_groups (l : list Z) : St (GroupBy * World Net) (list (Restore.RestoreHeader T M (Receive.ReceiveBatch MpscConsumer))) :=
  match l with
  | [] => sret []
  | i :: l =>
      let* o := get_group i in
      let* g := slift (unwrap o) in
      let* gs := take_groups l in
      sret (g :: gs)
  end.

(** Grouping, and the receive batches of all groups in order *)
Definition split_by {Sched : Type} (add_task : GroupByProducer V C -> St (Sched * World Net) (result Z)) (b : V) (n : Z) (group_f : C) :
    St (Sched * World Net) (list (Restore.RestoreHeader T M (Receive.ReceiveBatch MpscConsumer))) :=
  let* groups := group_by add_task b n group_f in
  zoom (fun s => (groups, s.2)) (fun v s => (s.1, v.2)) (take_groups (seqZ 0 n)).

End operations.

(** ** Every packet reaches the queue of its group *)

Section delivery.
Context {P : Profile} {Z_ : Zcsi} {F : Fuel} {Net V C T M : Type} {Q : HasQueues Net}.
Context {AV : Act Net V} {IV : BatchIterator Net V T M} {LV : BatchLaws Net V T M} {Fn : FnRef C (Packet T M) Z}.

(** Heaps that differ at most in the metadata areas of mbufs, whose sizes are kept *)
Definition same_frames (h h' : Heap) : Prop := forall x,
  match h !! x, h' !! x with
  | Some m, Some m' => with_meta m [] = with_meta m' [] /\ (mbuf_wf m -> mbuf_wf m')
  | None, None => True
  | _, _ => False
  end.

(** A mbuf that carries the parse position of a packet *)
Definition saved (p : Packet T M) (h : Heap) : Prop :=
  exists m, h !! mbuf p = Some m /\
    read_metadata_slot m HEADER_SLOT = Ret (header p) /\ read_metadata_slot m OFFSET_SLOT = Ret (offset_ p).

Definition storable (h : Heap) (p : Packet T M) : Prop :=
  (exists m, h !! mbuf p = Some m /\ mbuf_wf m) /\ uint 64 (header p) /\ uint 64 (offset_ p).

Lemma same_frames_refl h : same_frames h h.
Proof. intros x. by destruct (h !! x). Qed.

Lemma same_frames_trans h1 h2 h3 : same_frames h1 h2 -> same_frames h2 h3 -> same_frames h1 h3.
Proof.
  intros H1 H2 x. specialize (H1 x). specialize (H2 x).
  destruct (h1 !! x), (h2 !! x), (h3 !! x); try done. destruct H1 as [-> ?], H2 as [-> ?]. auto.
Qed.

Lemma same_frames_insert h x m m' :
  h !! x = Some m -> m' = with_meta m (meta m') -> mbuf_wf m' -> same_frames h (<[x := m']> h).
Proof.
  intros Hx Hm Hwf y. destruct (decide (x = y)) as [<-|]; [|rewrite lookup_insert_ne by done; by destruct (h !! y)].
  rewrite lookup_insert_eq, Hx. split; [rewrite Hm; by destruct m|done].
Qed.

Lemma same_frames_lookup h h' x m :
  same_frames h h' -> h !! x = Some m -> mbuf_wf m ->
  exists m', h' !! x = Some m' /\ mbuf_wf m' /\ m' = with_meta m (meta m').
Proof.
  intros Hs Hx Hwf. specialize (Hs x). rewrite Hx in Hs. destruct (h' !! x) as [m'|]; [|done]. destruct Hs as [He Hw].
  exists m'. split; [done|]. split; [by apply Hw|]. destruct m, m'. simpl in *. by injection He as -> -> -> -> -> -> ->.
Qed.

(** Saving the position of one packet *)
Lemma save_ok (h : Heap) (p : Packet T M) :
  storable h p ->
  exists m', save_header_and_offset p h = Ret (tt, <[mbuf p := m']> h) /\
    same_frames h (<[mbuf p := m']> h) /\ mbuf_wf m' /\ saved p (<[mbuf p := m']> h).
Proof.
  intros ((m & Hm & Hwf) & Hh & Ho).
  destruct (slot_same m HEADER_SLOT (header p) Hwf) as (m1 & H1 & E1 & W1 & R1 & _); [by vm_compute|done|].
  destruct (slot_same m1 OFFSET_SLOT (offset_ p) W1) as (m2 & H2 & E2 & W2 & R2 & D2); [by vm_compute|done|].
  exists m2. assert (Hs : save_header_and_offset p h = Ret (tt, <[mbuf p := m2]> h)).
  { unfold save_header_and_offset, update_ptrs, write_slot. erewrite sbind_Ret.
    2: { eapply on_mbuf_ok; [exact Hm|]. unfold header_u8. rewrite H1. done. }
    erewrite on_mbuf_ok; [by rewrite insert_insert_eq|by rewrite lookup_insert_eq|].
    unfold offset. rewrite H2. done. }
  split; [exact Hs|]. split; [|split; [done|]].
  - apply (same_frames_insert h _ m); [done| |done]. rewrite E2, E1. by destruct m.
  - exists m2. rewrite lookup_insert_eq. split; [done|]. split; [|done].
    unfold read_metadata_slot in *. rewrite D2; [done|lia|]. left. by vm_compute.
Qed.

(** A queue that works, and the queue it becomes when mbufs [ms] are offered to it one at a
    time: it takes them in order until it is full *)
Definition queue_ok (q : Mpsc.MpscQueue) : Prop := Mpsc.Inv q /\ 1 <= Mpsc.n_producers q.

Definition received (q0 : Mpsc.MpscQueue) (ms : list Z) (q : Mpsc.MpscQueue) : Prop :=
  queue_ok q /\ Mpsc.mask q = Mpsc.mask q0 /\
  Mpsc.contents q = take (Z.to_nat (Mpsc.mask q0)) (Mpsc.contents q0 ++ ms).

Lemma queue_ok_length q : queue_ok q -> zlen (Mpsc.contents q) <= Mpsc.mask q.
Proof. intros [HI _]. unfold Mpsc.contents. rewrite (Ring.length_contents _ (proj1 HI)). apply (Ring.inv_available _ (proj1 HI)). Qed.

Lemma received_nil q : queue_ok q -> received q [] q.
Proof.
  intros Hq. pose proof (queue_ok_length q Hq). split_and!; try done.
  rewrite app_nil_r, take_ge; [done|lia].
Qed.

Lemma received_one fuel q0 ms q (p : Packet T M) :
  received q0 ms q -> exists b q', Mpsc.MpscProducer_enqueue_one fuel q p = Ret (b, q') /\ received q0 (ms ++ [mbuf p]) q'.
Proof.
  intros (Hq & Hm & Hc). pose proof (queue_ok_length q Hq) as Hl. destruct Hq as [HI Hn].
  destruct (Mpsc.enqueue_spec fuel q [mbuf p] HI Hn) as (q' & He & HI' & Hm' & Hn' & Hc').
  unfold Mpsc.MpscProducer_enqueue_one, Mpsc.enqueue_one, get_mbuf. rewrite He. simpl.
  eexists _, _. split; [done|]. unfold received, queue_ok. rewrite Hm', Hn', Hc', Hm. split_and!; try done.
  unfold Mpsc.accepted. simpl length. rewrite Hm, app_assoc, (take_app (Mpsc.contents q0 ++ ms)).
  rewrite <-Hc. f_equal. rewrite Hc, length_take, Hm in *.
  destruct (decide (length (Mpsc.contents q0 ++ ms) < Z.to_nat (Mpsc.mask q0))%nat).
  - rewrite !take_ge; simpl; (lia || done).
  - set (n1 := Z.to_nat (Z.min _ _)). set (k := (_ - _)%nat).
    assert (n1 = 0%nat /\ k = 0%nat) as [-> ->] by (subst n1 k; simpl in *; lia). done.
Qed.

(** The group of a packet, and the mbufs of the packets that go to a queue. The closure may
    keep a state; what it keeps in it is [keeps]. *)
Context (group : Packet T M -> Z) (prods : list MpscProducer) (keeps : C -> Prop).

(** On the packet the closure answers its group, whatever the metadata areas hold. *)
Definition grouped (h0 : Heap) (p : Packet T M) : Prop :=
  forall h c, same_frames h0 h -> keeps c -> exists c', call_ref p h c = Ret (group p, c') /\ keeps c'.

Definition target (p : Packet T M) : option Z := producer_queue <$> prods !! Z.to_nat (group p).

Definition destined (id : Z) (ps : list (Packet T M)) : list Z :=
  mbuf <$> filter (fun p => target p = Some id) ps.

(** Packets enumerated alike whatever the metadata areas hold *)
Definition enumerates (v : V) (w : World Net) (ps : list (Packet T M)) : Prop :=
  length ps = length (PacketBatch.array (view v)) /\
  forall i p w', same_frames (heap w) (heap w') -> ps !! i = Some p ->
    next_payload (Z.of_nat i) (v, w') = Ret (Some p, (v, w')).

(** A packet the producer can hand over: its group has a producer, whose queue works *)
Definition deliverable (w : World Net) (p : Packet T M) : Prop :=
  0 <= group p /\ exists id q, target p = Some id /\ queues (net w) !! id = Some q /\ queue_ok q.

(** The packets [past] are delivered, the packets [todo] can still be. *)
Record delivered (w0 : World Net) (past todo : list (Packet T M)) (w : World Net) : Prop := {
  delivered_frames : same_frames (heap w0) (heap w);
  delivered_saved : Forall (fun p => saved p (heap w)) past;
  delivered_todo : Forall (storable (heap w)) todo;
  delivered_queues id q0 : queues (net w0) !! id = Some q0 -> queue_ok q0 ->
    exists q, queues (net w) !! id = Some q /\ received q0 (destined id past) q;
  delivered_net : net w = set_queues (queues (net w)) (net w0)
}.

Lemma saved_insert (p p' : Packet T M) h m : mbuf p <> mbuf p' -> saved p h -> saved p (<[mbuf p' := m]> h).
Proof. intros Hne (m0 & ? & ?). exists m0. by rewrite lookup_insert_ne. Qed.

Lemma storable_insert (p p' : Packet T M) h m : mbuf p <> mbuf p' -> storable h p -> storable (<[mbuf p' := m]> h) p.
Proof. intros Hne ((m0 & ? & ?) & ?). split; [|done]. exists m0. by rewrite lookup_insert_ne. Qed.

Lemma destined_snoc id ps p :
  destined id (ps ++ [p]) = destined id ps ++ if decide (target p = Some id) then [mbuf p] else [].
Proof. unfold destined. rewrite filter_app, fmap_app. f_equal. simpl. rewrite filter_cons. by case_decide. Qed.

(** One turn of the loop *)
Lemma hand_over_ok w0 past p todo (w : World Net) (v : V) (c : C) i :
  delivered w0 past (p :: todo) w -> deliverable w0 p ->
  grouped (heap w0) p -> keeps c -> NoDup (mbuf <$> past ++ p :: todo) ->
  exists w' c', hand_over (mkParsed i p) (mkProducerTask v prods c, w) = Ret (tt, (mkProducerTask v prods c', w')) /\
    keeps c' /\ delivered w0 (past ++ [p]) todo w'.
Proof.
  intros [Hfr Hsv Htd Hqs Hnet] (Hg & id & q0 & Ht & Hq0 & Hok) Hgr Hk Hnd.
  destruct (Hgr _ c Hfr Hk) as (c' & Hc & Hk').
  apply Forall_cons in Htd as [Hp Htd]. destruct (save_ok _ p Hp) as (m' & Hs & Hfr' & _ & Hsv').
  destruct (Hqs id q0 Hq0 Hok) as (q & Hq & Hr).
  destruct (received_one loop_fuel q0 _ q p Hr) as (b & q' & He & Hr').
  unfold target in Ht. destruct (prods !! Z.to_nat (group p)) as [pr|] eqn:Hpr; [|done]. injection Ht as Ht.
  rewrite fmap_app, fmap_cons, NoDup_app, NoDup_cons in Hnd. destruct Hnd as (_ & Hd & Hn & _).
  exists (mkWorld (<[mbuf p := m']> (heap w)) (set_queues (<[id := q']> (queues (net w))) (net w))), c'.
  split; [|split; [exact Hk'|]].
  - unfold hand_over. erewrite sbind_Ret; [|unfold on_closure_ref; simpl; by rewrite Hc].
    erewrite sbind_Ret; [|unfold on_heap; by apply zoom_Ret].
    erewrite sbind_Ret by done. erewrite sbind_Ret by (apply slift_Ret, vindex_Ret; done).
    erewrite sbind_Ret; [|unfold zoom, enqueue_packet, on_queue; simpl; rewrite Ht, Hq, He; done].
    done.
  - split; simpl.
    + by eapply same_frames_trans.
    + apply Forall_app. split; [|by apply Forall_singleton]. rewrite Forall_forall in *. intros x Hx.
      apply saved_insert; [|by apply Hsv]. intros Heq. apply (Hd (mbuf x)); [by apply list_elem_of_fmap_2|]. rewrite Heq. left.
    + rewrite Forall_forall in *. intros x Hx. apply storable_insert; [|by apply Htd].
      intros Heq. apply Hn. rewrite <-Heq. by apply list_elem_of_fmap_2.
    + rewrite (get_set (get := queues) (set := set_queues)). intros id1 q1 Hq1 Hok1. rewrite destined_snoc.
      unfold target. rewrite Hpr. simpl. rewrite Ht. destruct (decide (id = id1)) as [<-|Hne].
      * rewrite lookup_insert_eq, decide_True by done. simplify_eq. eauto.
      * rewrite lookup_insert_ne, decide_False, app_nil_r by (done || congruence). by apply Hqs.
    + rewrite (get_set (get := queues) (set := set_queues)). rewrite Hnet at 2. by rewrite (set_set (get := queues)).
Qed.

Lemma hand_over_all w0 ps (v : V) (c : C) :
  enumerates v w0 ps -> (length ps <= loop_fuel)%nat -> zlen ps < 2 ^ 31 ->
  delivered w0 [] ps w0 -> Forall (deliverable w0) ps -> NoDup (mbuf <$> ps) ->
  Forall (grouped (heap w0)) ps -> keeps c ->
  exists w' c', for_each (fun A => on_field parent set_parent) hand_over (mkProducerTask v prods c, w0) =
      Ret (tt, (mkProducerTask v prods c', w')) /\
    keeps c' /\ delivered w0 ps [] w'.
Proof.
  intros [Hl Hen] Hfu Hsz Hd Hdel Hnd Hc Hk.
  destruct (for_each_inv parent set_parent hand_over (length ps) (fun k b w => exists c', b = mkProducerTask v prods c' /\
    keeps c' /\ delivered w0 (take k ps) (drop k ps) w)) with (b := mkProducerTask v prods c) (w := w0)
    as (b' & w' & Hrun & c' & -> & Hk' & Hd'); [|..|done|done|by exists c|].
  - by intros k b w (c' & -> & _).
  - intros k b w Hlt (c1 & -> & Hk1 & Hd1). destruct (lookup_lt_is_Some_2 ps k Hlt) as [p Hp].
    rewrite (drop_S _ _ _ Hp) in Hd1.
    destruct (hand_over_ok w0 (take k ps) p (drop (S k) ps) w v c1 (Z.of_nat k) Hd1) as (w1 & c2 & Hh & Hk2 & Hd2); try done.
    { by apply (Forall_lookup_1 _ _ _ _ Hdel Hp). }
    { by apply (Forall_lookup_1 _ _ _ _ Hc Hp). }
    { by rewrite take_drop_middle. }
    exists p, (mkProducerTask v prods c2), w1. split; [by apply Hen; [apply Hd1|]|]. split; [exact Hh|].
    exists c2. by rewrite (take_S_r _ _ _ Hp).
  - exists w', c'. rewrite drop_all, firstn_all in Hd'. done.
Qed.

(** A consumer finds a saved packet again. *)
Lemma saved_restores (p : Packet T M) h {T1 M1} (p0 : Packet T1 M1) :
  saved p h -> mbuf p0 = mbuf p -> header p <> 0 -> restore_saved_header T M p0 h = Ret (Some p, h).
Proof.
  intros (m & Hm & Hsh & Hso) H0 Hh. unfold restore_saved_header, read_header, read_offset, peek, sbind. rewrite H0, Hm, Hsh. simpl.
  rewrite (proj2 (Z.eqb_neq _ _)) by done. rewrite Hm, Hso. simpl. by destruct p.
Qed.

(** One run of the task *)
Lemma execute_delivers (b : GroupByProducer V C) (v : V) (w w1 : World Net) ps :
  producers b = prods -> act (parent b, w) = Ret (tt, (v, w1)) ->
  enumerates v w1 ps -> (length ps <= loop_fuel)%nat -> zlen ps < 2 ^ 31 ->
  Forall (storable (heap w1)) ps -> Forall (deliverable w1) ps -> NoDup (mbuf <$> ps) ->
  Forall (grouped (heap w1)) ps -> keeps (group_fn b) ->
  exists w2 c',
    execute (b, w) =
      on_field parent set_parent done
        (mkProducerTask (update (PacketBatch.resized (view v) 0) v) prods c', w2) /\ keeps c' /\
    same_frames (heap w1) (heap w2) /\
    (forall id q0, queues (net w1) !! id = Some q0 -> queue_ok q0 ->
       exists q, queues (net w2) !! id = Some q /\ received q0 (destined id ps) q) /\
    Forall (fun p => saved p (heap w2)) ps /\ net w2 = set_queues (queues (net w2)) (net w1).
Proof.
  intros Hpr Hact Hen Hfu Hsz Hst Hdel Hnd Hc Hk. destruct b as [v0 pr c]. simpl in *. subst pr.
  destruct (hand_over_all w1 ps v c) as (w2 & c' & Hrun & Hk' & Hd); try done.
  { split; try done.
    - apply same_frames_refl.
    - intros id q0 Hq Hok. exists q0. split; [done|]. by apply received_nil.
    - by rewrite (set_get (get := queues)). }
  exists w2, c'. split; [|split; [done|split; [apply Hd|split; [apply Hd|split; apply Hd]]]].
  unfold execute_. erewrite sbind_Ret by (by apply on_field_Ret).
    erewrite sbind_Ret by exact Hrun.
    rewrite (sbind_Ret _ _ _ tt (set_parent (update (PacketBatch.resized (view v) 0) v) (mkProducerTask v prods c'), w2));
      [done|]. etransitivity; [apply on_field_ext; intros; apply borrows|].
    apply on_field_Ret, on_field_Ret. unfold PacketBatch.clear_packets, PacketBatch.consume_batch.
    erewrite sbind_Ret by done. cbn [parent fst].
    erewrite sbind_Ret; [|apply slift_Ret, PacketBatch.set_len_ok; unfold PacketBatch.vec_capacity; lia]. done.
Qed.

(** C23: Grouping delivers. Let the parent act and yield packets whose group, as the closure
    answers it in any state it can be in, has a producer with a working queue. Then the task,
    run once, saves the parse position of every packet in its mbuf, offers the mbuf to the queue of its group, keeps the order of arrival inside
    every group and touches no other queue, empties the batch without freeing anything and
    lets the parent finish. A consumer that restores a packet gets it back as the producer
    saw it. A queue takes mbufs only until it is full: those past its capacity are in no
    queue, no batch and not freed. *)
Theorem group_by_delivers (b : GroupByProducer V C) (v : V) (w w1 : World Net) ps :
  producers b = prods -> act (parent b, w) = Ret (tt, (v, w1)) ->
  enumerates v w1 ps -> (length ps <= loop_fuel)%nat -> zlen ps < 2 ^ 31 ->
  Forall (storable (heap w1)) ps -> Forall (deliverable w1) ps -> NoDup (mbuf <$> ps) ->
  Forall (grouped (heap w1)) ps -> keeps (group_fn b) ->
  exists w2 c',
    execute (b, w) =
      on_field parent set_parent done
        (mkProducerTask (update (PacketBatch.resized (view v) 0) v) prods c', w2) /\ keeps c' /\
    same_frames (heap w1) (heap w2) /\
    (forall id q0, queues (net w1) !! id = Some q0 -> queue_ok q0 ->
       exists q, queues (net w2) !! id = Some q /\ received q0 (destined id ps) q) /\
    (forall p, p ∈ ps -> header p <> 0 ->
       restore_saved_header T M (mkPacket (mbuf p) 0 0 : Packet NullHeader EmptyMetadata) (heap w2) =
       Ret (Some p, heap w2)).
Proof.
  intros Hpr Hact Hen Hfu Hsz Hst Hdel Hnd Hc Hk.
  destruct (execute_delivers b v w w1 ps) as (w2 & c' & He & Hk' & Hs & Hq & Hsv & _); try done.
  exists w2, c'. split_and!; try done. intros p Hp Hh. apply saved_restores; [|done|done]. by apply (proj1 (Forall_forall _ _) Hsv).
Qed.

End delivery.

(** ** Setting groups up *)

Section building.
Context {P : Profile} {Z_ : Zcsi} {F : Fuel} {Net V C T M : Type} {Q : HasQueues Net}.

(** The queues of the groups are new, work and are empty; the consumers are their other ends. *)
Record linked (w0 w : World Net) (ps : list MpscProducer) (cs : gmap Z (Receive.ReceiveBatch MpscConsumer)) : Prop := {
  linked_heap : heap w = heap w0;
  linked_old id q : queues (net w0) !! id = Some q -> queues (net w) !! id = Some q;
  linked_distinct : NoDup (producer_queue <$> ps);
  linked_new i pr : ps !! i = Some pr ->
    queues (net w0) !! producer_queue pr = None /\
    (exists q, queues (net w) !! producer_queue pr = Some q /\ queue_ok q /\ Mpsc.contents q = []) /\
    exists b, PacketBatch.new 32 = Ret b /\ cs !! Z.of_nat i = Some (Receive.mkReceive b (mkConsumer (producer_queue pr)) 0)
}.

Lemma new_queue_ok : exists q, Mpsc.new_mpsc_queue_pair = Ret q /\ queue_ok q /\ Mpsc.contents q = [].
Proof.
  eexists. split; [by vm_compute|]. split; [|by vm_compute]. split; [|done]. split; [|done].
  refine (conj (ex_intro _ 10 _) (conj _ (conj _ (conj _ (conj _ _))))); vm_compute; done.
Qed.

Lemma linked_start w : linked w w [] ∅.
Proof. split; try done. constructor. Qed.

Lemma linked_snoc w0 w ps cs :
  linked w0 w ps cs -> exists prod consumer w', new_queue_pair w = Ret ((prod, consumer), w') /\
    linked w0 w' (ps ++ [prod]) (<[zlen ps := consumer]> cs).
Proof.
  intros [Hh Ho Hd Hn]. destruct new_queue_ok as (q & Hq & Hqo & Hqc). set (id := fresh (dom (queues (net w)))).
  assert (Hf : queues (net w) !! id = None) by (apply not_elem_of_dom, is_fresh).
  assert (Hb : exists b, PacketBatch.new 32 = Ret b) by (eexists; done). destruct Hb as [b Hb].
  assert (Hne : forall i pr, ps !! i = Some pr -> producer_queue pr <> id).
  { intros i pr Hi He. destruct (Hn i pr Hi) as (_ & (q' & Hq' & _) & _). congruence. }
  eexists _, _, _. split.
  { unfold new_queue_pair. erewrite sbind_Ret by (by apply slift_Ret). erewrite sbind_Ret by done. erewrite sbind_Ret by done.
    unfold Receive.new. rewrite Hb. by erewrite sbind_Ret by done. }
  fold id. split; simpl; rewrite ?(get_set (get := queues) (set := set_queues)).
  - done.
  - intros i q' Hi. rewrite lookup_insert_ne; [by apply Ho|]. intros ->. rewrite (Ho _ _ Hi) in Hf. done.
  - rewrite fmap_app. apply NoDup_app. split; [done|]. split; [|apply NoDup_singleton].
    intros x Hx ->%list_elem_of_singleton. apply list_elem_of_fmap in Hx as (pr & Hpr & [i Hi]%list_elem_of_lookup).
    by apply (Hne i pr).
  - intros i pr [Hi|[Hi Hpr]]%lookup_app_Some.
    + destruct (Hn i pr Hi) as (Hn1 & Hn2 & Hn3). pose proof (lookup_lt_Some _ _ _ Hi).
      rewrite lookup_insert_ne by (intros He; by apply (Hne i pr)). rewrite lookup_insert_ne by lia. done.
    + apply list_lookup_singleton_Some in Hpr as [Hi0 <-]. simpl. replace (Z.of_nat i) with (zlen ps) by lia. rewrite !lookup_insert_eq.
      split; [|split; [by exists q|by exists b]]. destruct (queues (net w0) !! id) eqn:He; [|done]. by rewrite (Ho _ _ He) in Hf.
Qed.

Lemma make_queues_ok n w0 w ps cs :
  linked w0 w ps cs -> exists ps' cs' w', make_queues n (zlen ps) ps cs w = Ret ((ps', cs'), w') /\
    linked w0 w' ps' cs' /\ length ps' = (length ps + n)%nat.
Proof.
  revert w ps cs. induction n as [|n IH]; intros w ps cs Hl; [exists ps, cs, w; split; [done|]; split; [done|lia]|].
  destruct (linked_snoc w0 w ps cs Hl) as (prod & consumer & w1 & Hp & Hl1).
  destruct (IH _ _ _ Hl1) as (ps' & cs' & w' & Hm & Hl' & Hlen). rewrite length_app in *. simpl in *.
  exists ps', cs', w'. split; [|split; [done|lia]]. erewrite sbind_Ret by done.
  by replace (zlen ps + 1) with (Z.of_nat (length ps + 1)) by lia.
Qed.

(** A scheduler that takes every task, under the number [id] *)
Definition hands_over {Sched Task : Type} (add_task : Task -> St (Sched * World Net) (result Z)) (put : Task -> Sched -> Sched)
    (id : Z) (sch : Sched) : Prop := forall task w, add_task task (sch, w) = Ret (Ok id, (put task sch, w)).

(** With a scheduler that takes the task, grouping sets up the queues and hands over the task. *)
Lemma group_by_built {Sched} (add_task : GroupByProducer V C -> St (Sched * World Net) (result Z)) (put : GroupByProducer V C -> Sched -> Sched)
    t b n c sch (w : World Net) :
  hands_over add_task put t sch ->
  exists ps cs w', group_by add_task b n c (sch, w) = Ret (mkGroupBy n cs t, (put (mkProducerTask b ps c) sch, w')) /\
    linked w w' ps cs /\ length ps = Z.to_nat n.
Proof.
  intros Ha. destruct (make_queues_ok (Z.to_nat n) w w [] ∅ (linked_start w)) as (ps & cs & w' & Hm & Hl & Hlen).
  exists ps, cs, w'. split; [|done]. unfold group_by, new. erewrite sbind_Ret by (by apply zoom_Ret).
  simpl. erewrite sbind_Ret by done. by erewrite sbind_Ret by done.
Qed.

(** The receive batch of a group depends on the task that fills its queue. *)
Definition depending (t : Z) (r : Receive.ReceiveBatch MpscConsumer) : Restore.RestoreHeader T M (Receive.ReceiveBatch MpscConsumer) :=
  let b := Receive.parent r in
  Restore.mkRestore (Receive.mkReceive (PacketBatch.mkBatch (PacketBatch.array b) (PacketBatch.spare b) (PacketBatch.scratch b)
    (PacketBatch.parent_tasks b ++ [t])) (Receive.queue r) (Receive.received r)).

(** Every group can be taken once. *)
Lemma take_groups_ok l g (w : World Net) :
  NoDup l -> (forall i, i ∈ l -> is_Some (consumers g !! i)) ->
  exists gs g', take_groups l (g, w) = Ret (gs, (g', w)) /\
    Forall2 (fun i c => exists r, consumers g !! i = Some r /\ c = depending (task g) r) l gs.
Proof.
  intros Hnd. revert g. induction Hnd as [|i l Hi _ IH]; intros g Hc; [by exists [], g|].
  destruct (Hc i) as [r Hr]; [by left|]. set (g1 := mkGroupBy (groups g) (delete i (consumers g)) (task g)).
  destruct (IH g1) as (gs & g' & Ht & Hgs).
  { intros j Hj. simpl. rewrite lookup_delete_ne by (by intros ->). apply Hc. by right. }
  exists (depending (task g) r :: gs), g'. cbn [take_groups]. split.
  - assert (Hg : get_group (T := T) (M := M) i (g, w) = Ret (Some (depending (task g) r), (g1, w))).
    { unfold get_group. erewrite sbind_Ret by done. simpl. rewrite Hr. by erewrite sbind_Ret by done. }
    erewrite sbind_Ret by exact Hg. erewrite sbind_Ret by done. by erewrite sbind_Ret by exact Ht.
  - constructor; [by exists r|]. eapply Forall2_impl; [exact Hgs|]. intros j c (r' & Hr' & ->).
    exists r'. split; [|done]. simpl in Hr'. by apply lookup_delete_Some in Hr' as [_ Hr'].
Qed.

(** The other end of a producer's queue *)
Definition reads (c : Restore.RestoreHeader T M (Receive.ReceiveBatch MpscConsumer)) (pr : MpscProducer) : Prop :=
  Receive.queue (Restore.parent c) = mkConsumer (producer_queue pr).

(** New queues that work and are empty *)
Definition new_queues (w0 w : World Net) (ps : list MpscProducer) : Prop :=
  NoDup (producer_queue <$> ps) /\ (forall id q, queues (net w0) !! id = Some q -> queues (net w) !! id = Some q) /\
  Forall (fun pr => queues (net w0) !! producer_queue pr = None /\
    exists q, queues (net w) !! producer_queue pr = Some q /\ queue_ok q /\ Mpsc.contents q = []) ps.

(** Splitting by group hands the scheduler a task with one producer per group, and gives the
    caller, per group, the other end of its queue. *)
Lemma split_by_built {Sched} (add_task : GroupByProducer V C -> St (Sched * World Net) (result Z)) (put : GroupByProducer V C -> Sched -> Sched)
    t b n c sch (w : World Net) :
  0 <= n -> hands_over add_task put t sch ->
  exists ps gs w', split_by add_task b n c (sch, w) = Ret (gs, (put (mkProducerTask b ps c) sch, w')) /\
    zlen ps = n /\ Forall2 reads gs ps /\ heap w' = heap w /\ new_queues w w' ps.
Proof.
  intros Hn0 Ha. destruct (group_by_built add_task put t b n c sch w Ha) as (ps & cs & w' & Hg & [Hh Ho Hd Hn] & Hlen).
  assert (Hlk : forall i, i ∈ seqZ 0 n -> exists pr, ps !! Z.to_nat i = Some pr /\ 0 <= i).
  { intros i Hi%elem_of_seqZ. destruct (lookup_lt_is_Some_2 ps (Z.to_nat i)) as [pr Hpr]; [lia|]. exists pr. split; [done|lia]. }
  destruct (take_groups_ok (seqZ 0 n) (mkGroupBy n cs t) w' (NoDup_seqZ _ _)) as (gs & g' & Ht & Hgs).
  { intros i (pr & Hpr & Hi)%Hlk. destruct (Hn _ _ Hpr) as (_ & _ & r & _ & Hr). simpl. rewrite Z2Nat.id in Hr by done. eauto. }
  exists ps, gs, w'. split; [|split; [lia|split; [|split; [done|split; [done|split; [done|]]]]]].
  - unfold split_by. erewrite sbind_Ret by exact Hg. erewrite zoom_Ret by exact Ht. done.
  - pose proof (Forall2_length _ _ _ Hgs) as Hlg. rewrite length_seqZ in Hlg.
    apply Forall2_same_length_lookup_2; [lia|]. intros i c' pr Hc' Hpr.
    destruct (Forall2_lookup_r _ _ _ _ _ Hgs Hc') as (j & Hj & r & Hr & ->). apply lookup_seqZ in Hj as [-> Hj].
    destruct (Hn _ _ Hpr) as (_ & _ & b' & _ & Hb'). simpl in Hr. rewrite Z.add_0_l, Hb' in Hr. by injection Hr as <-.
  - apply Forall_forall. intros pr [i Hi]%list_elem_of_lookup. destruct (Hn _ _ Hi) as (H1 & H2 & _). done.
Qed.

End building.

End Group.

(** ** Three packets, two groups, queues with room for one mbuf each *)

Module GroupSample.
Import Sample Group.

#[local] Existing Instance release.
#[local] Existing Instance zcsi.
#[local] Instance fuel : Fuel := 8%nat.

#[local] Instance queues_only : HasQueues (gmap Z Mpsc.MpscQueue).
Proof. refine {| queues := fun q => q; set_queues := fun q _ => q |}. by split. Defined.

#[local] Instance parity : FnRef unit (Packet NullHeader EmptyMetadata) Z := fun p _ c => Ret (mbuf p mod 2, c).

Definition small_queue : Mpsc.MpscQueue :=
  Mpsc.mkMpscQueue 2 1 (Mpsc.mkQueueMetadata 0 0) (Mpsc.mkQueueMetadata 0 0) [0; 0] 1.
Definition world2 : World (gmap Z Mpsc.MpscQueue) := mkWorld heap3 (<[10 := small_queue]> (<[11 := small_queue]> ∅)).
Definition task2 : GroupByProducer PacketBatch.PacketBatch unit :=
  mkProducerTask batch3 [mkProducer 10; mkProducer 11] tt.
Definition packets3 : list (Packet NullHeader EmptyMetadata) :=
  [mkPacket 1 4104 0; mkPacket 2 8200 0; mkPacket 3 12296 0].

Lemma small_queue_ok : queue_ok small_queue.
Proof.
  split; [|done]. split; [|done].
  refine (conj (ex_intro _ 1 _) (conj _ (conj _ (conj _ (conj _ _))))); vm_compute; done.
Qed.

Lemma heap3_frames x m w' : heap3 !! x = Some m -> same_frames heap3 (heap (Net := gmap Z Mpsc.MpscQueue) w') ->
  packet_from_mbuf_no_free NullHeader x 0 (heap w') = Ret (mkPacket x (data_address m 0) 0, heap w').
Proof.
  intros Hm Hf. specialize (Hf x). rewrite Hm in Hf. destruct (heap w' !! x) as [m'|] eqn:Hm'; [|done].
  destruct Hf as [Hf _]. injection Hf as Ha Ho _ _ _ _ _.
  unfold packet_from_mbuf_no_free, packet_from_mbuf_no_increment, peek, sbind. rewrite Hm'. simpl.
  unfold data_address, create_packet. by rewrite Ha, Ho.
Qed.

Lemma batch3_enumerates : enumerates batch3 world2 packets3.
Proof.
  split; [done|]. intros i p w' Hf Hp. simpl next_payload. unfold PacketBatch.next_payload.
  destruct i as [|[|[|i]]]; [..|done]; injection Hp as <-; unfold sbind, PacketBatch.self, slift, on_heap, zoom; simpl.
  all: erewrite heap3_frames by (done || vm_compute; reflexivity); by destruct w'.
Qed.

Lemma group_by_delivers_witness :
  exists w2,
    execute (task2, world2) = Ret (tt, (mkProducerTask (PacketBatch.mkBatch [] [1; 2; 3; 0] [] [])
      [mkProducer 10; mkProducer 11] tt, w2)) /\
    (exists q, net w2 !! 10 = Some q /\ Mpsc.contents q = [2]) /\
    (exists q, net w2 !! 11 = Some q /\ Mpsc.contents q = [1]).
Proof.
  destruct (@group_by_delivers release zcsi fuel _ _ unit NullHeader EmptyMetadata queues_only _ _ _ parity
    (fun p => mbuf p mod 2) [mkProducer 10; mkProducer 11] (fun _ => True) task2 batch3 world2 world2 packets3)
    as (w2 & [] & Hx & _ & _ & Hq & _).
  - reflexivity.
  - reflexivity.
  - exact batch3_enumerates.
  - vm_compute. lia.
  - reflexivity.
  - repeat constructor; try (eexists; split; [reflexivity|apply (bool_decide_unpack _); vm_compute; exact I]);
      simpl; lia.
  - unfold packets3. rewrite !Forall_cons, Forall_nil.
    refine (conj _ (conj _ (conj _ I))); (split; [vm_compute; discriminate|]; eexists _, small_queue;
      split; [reflexivity|split; [reflexivity|exact small_queue_ok]]).
  - apply (bool_decide_unpack _). vm_compute. exact I.
  - apply Forall_forall. intros p _ h []. by exists tt.
  - exact I.
  - exists w2. split; [rewrite Hx; destruct w2; reflexivity|].
    destruct (Hq 10 small_queue eq_refl small_queue_ok) as (q & H10 & _ & _ & C10).
    destruct (Hq 11 small_queue eq_refl small_queue_ok) as (q' & H11 & _ & _ & C11).
    split; [exists q|exists q']; by split.
Defined.

End GroupSample.
