(* ===== verification/Config.v ===== *)
(** * Configuration of the framework
    ([framework/src/config/mod.rs], [config_reader.rs], [flag_reader.rs])

    A configuration is built from a TOML document or from command-line flags. The TOML
    parser, the debug printer of its values, the flag parser and the file system are
    parameters; what the readers do with their results is modelled in full. Output with
    [println!] is not modelled. *)

From Stdlib Require Import Ascii.
From stdpp Require Import pretty.
From S2P Require Import Prelude.
Open Scope string_scope.
Open Scope list_scope.
Open Scope Z_scope.

(** ** Decimal integers: [str::parse::<i32>] and [i32::to_string] *)

Definition digit (c : Ascii.ascii) : option Z :=
  let n := Z.of_nat (Ascii.nat_of_ascii c) in
  if (48 <=? n) && (n <=? 57) then Some (n - 48) else None.

Fixpoint parse_digits (s : string) (acc : Z) : option Z :=
  match s with
  | EmptyString => Some acc
  | String c s => match digit c with Some d => parse_digits s (10 * acc + d) | None => None end
  end.

Definition parse_sign (s : string) : bool * string :=
  match s with
  | String "+"%char r => (false, r)
  | String "-"%char r => (true, r)
  | _ => (false, s)
  end.

Definition parse_i32 (s : string) : option Z :=
  let '(negative, digits) := parse_sign s in
  match digits with
  | EmptyString => None
  | _ =>
      match parse_digits digits 0 with
      | Some n => let z := if negative : bool then - n else n in if decide (sint 32 z) then Some z else None
      | None => None
      end
  end.

(** ** The configuration records ([mod.rs]) *)

Definition DEFAULT_POOL_SIZE : Z := 2048 - 1.
Definition DEFAULT_CACHE_SIZE : Z := 32.
Definition DEFAULT_SECONDARY : bool := false.
Definition DEFAULT_PRIMARY_CORE : Z := 0.
Definition DEFAULT_NAME : string := "zcsi".
Definition NUM_RXD : Z := 128.
Definition NUM_TXD : Z := 128.

Module PortConf.

Record PortConfiguration : Type := mkPort {
  name : string;
  rx_queues : list Z;
  tx_queues : list Z;
  rxd : Z;
  txd : Z;
  loopback : bool;
  tso : bool;
  csum : bool
}.

Definition default : PortConfiguration := mkPort EmptyString [] [] NUM_RXD NUM_TXD false false false.

Definition new_with_name (n : string) : PortConfiguration :=
  let d := default in
  mkPort n (rx_queues d) (tx_queues d) (rxd d) (txd d) (loopback d) (tso d) (csum d).

Definition new_with_queues (n : string) (rx tx : list Z) : PortConfiguration :=
  let d := new_with_name n in
  mkPort (name d) rx tx (rxd d) (txd d) (loopback d) (tso d) (csum d).

Definition show_bool (b : bool) : string := if b then "true" else "false".

(** [Display for PortConfiguration] *)
Definition fmt (p : PortConfiguration) : string :=
  let rx_queue_str := String.concat " " (pretty <$> rx_queues p) in
  let tx_queue_str := String.concat " " (pretty <$> tx_queues p) in
  "Port " +:+ name p +:+ " RXQ_Count: " +:+ pretty (zlen (rx_queues p)) +:+ " RX_Queues: [ " +:+ rx_queue_str +:+
  " ] TXQ_Count: " +:+ pretty (zlen (tx_queues p)) +:+ " TX_Queues: " +:+ tx_queue_str +:+
  " RXD: " +:+ pretty (rxd p) +:+ " TXD: " +:+ pretty (txd p) +:+ " Loopback " +:+ show_bool (loopback p).

Definition well_typed (p : PortConfiguration) : Prop :=
  Forall (sint 32) (rx_queues p) /\ Forall (sint 32) (tx_queues p) /\ sint 32 (rxd p) /\ sint 32 (txd p).

End PortConf.

Module Conf.

Record NetbricksConfiguration : Type := mkConf {
  name : string;
  secondary : bool;
  primary_core : Z;
  cores : list Z;
  strict : bool;
  ports : list PortConf.PortConfiguration;
  pool_size : Z;
  cache_size : Z;
  dpdk_args : option string
}.

Definition default : NetbricksConfiguration :=
  mkConf EmptyString false 0 [] false [] DEFAULT_POOL_SIZE DEFAULT_CACHE_SIZE None.

Definition new_with_name (n : string) : NetbricksConfiguration :=
  let d := default in
  mkConf n (secondary d) (primary_core d) (cores d) (strict d) (ports d) (pool_size d) (cache_size d) (dpdk_args d).

Definition newline : string := String (Ascii.ascii_of_nat 10) EmptyString.
Definition tab : string := String (Ascii.ascii_of_nat 9) EmptyString.

(** [Display for NetbricksConfiguration] *)
Definition fmt (c : NetbricksConfiguration) : string :=
  "Configuration: name: " +:+ name c +:+ " mempool size: " +:+ pretty (pool_size c) +:+ " core cache: " +:+
  pretty (cache_size c) +:+ " primary core: " +:+ pretty (primary_core c) +:+ newline +:+ " Ports:" +:+ newline +:+
  String.concat EmptyString ((fun p => tab +:+ PortConf.fmt p +:+ newline) <$> ports c) +:+
  "Cores:" +:+ newline +:+
  String.concat EmptyString ((fun x => tab +:+ pretty x +:+ newline) <$> cores c) +:+
  match dpdk_args c with Some arg => "DPDK Args: " +:+ arg +:+ newline | None => EmptyString end.

Definition well_typed (c : NetbricksConfiguration) : Prop :=
  sint 32 (primary_core c) /\ Forall (sint 32) (cores c) /\ Forall PortConf.well_typed (ports c) /\
  uint 32 (pool_size c) /\ uint 32 (cache_size c).

End Conf.

(** ** Reading a TOML document ([config_reader.rs]) *)

(** [toml::Value]; a float and a date are never looked into. *)
#[local] Set Warnings "-register-all,-clear-no-such-hyp".

Inductive Value : Type :=
| VString (s : string)
| VInteger (i : Z)
| VFloat (bits : Z)
| VBoolean (b : bool)
| VDatetime (d : string)
| VArray (l : list Value)
| VTable (m : list (string * Value)).

Definition table_get (key : string) (m : list (string * Value)) : option Value :=
  snd <$> head (filter (fun kv => kv.1 = key) m).

(** [Value::get] *)
Definition get (key : string) (v : Value) : option Value :=
  match v with VTable m => table_get key m | _ => None end.

(** The TOML library: its parser, with the error it displays, and how it prints values;
    the file system. *)
Class Toml : Type := {
  from_str : string -> Value + string;
  debug_value : Value -> string;
  display_value : Value -> string;
  read_file : string -> option string
}.

Section reader.
Context {X : Toml}.

Definition cfg_error {A} (msg : string) : result A := Err (ConfigurationError msg).

(** [{:?}] of an [Option<&Value>] *)
Definition debug_opt (v : option Value) : string :=
  match v with Some v => "Some(" +:+ debug_value v +:+ ")" | None => "None" end.

Definition read_i32 (v : option Value) (dflt : Z) (msg : string) : result Z :=
  match v with
  | Some (VInteger i) => Ok (as_signed 32 i)
  | None => Ok dflt
  | v => cfg_error (msg +:+ debug_opt v)
  end.

Definition read_flag (v : option Value) (msg : string) : result bool :=
  match v with
  | Some (VBoolean b) => Ok b
  | None => Ok false
  | v => cfg_error (msg +:+ debug_opt v)
  end.

(** The nested function of [read_port] *)
Definition read_queue (queue : Value) : result (list Z) :=
  match queue with
  | VArray queues =>
      traverse (fun q => match q with
                         | VInteger core => Ok (as_signed 32 core)
                         | _ => cfg_error ("Could not parse queue spec " +:+ debug_value q)
                         end) queues
  | VInteger core => Ok [as_signed 32 core]
  | _ => Ok []
  end.

Definition read_queue_opt (v : option Value) : result (list Z) :=
  match v with Some v => read_queue v | None => Ok [] end.

Definition contains_key (key : string) (m : list (string * Value)) : bool := bool_decide (is_Some (table_get key m)).

Definition read_port (value : Value) : result PortConf.PortConfiguration :=
  match value with
  | VTable port_def =>
      let? name := match table_get "name" port_def with
                   | Some (VString name) => Ok name
                   | _ => cfg_error "Could not parse name for port"
                   end in
      let? rxd := read_i32 (table_get "rxd" port_def) NUM_RXD "Could not parse number of rx descriptors " in
      let? txd := read_i32 (table_get "txd" port_def) NUM_TXD "Could not parse number of tx descriptors " in
      let? loopback := read_flag (table_get "loopback" port_def) "Could not parse loopback spec " in
      let? tso := read_flag (table_get "tso" port_def) "Could not parse tso spec " in
      let? csum := read_flag (table_get "checksum" port_def) "Could not parse csum spec " in
      let symmetric_queue := contains_key "cores" port_def in
      if symmetric_queue && (contains_key "rx_cores" port_def || contains_key "tx_cores" port_def) then
        cfg_error ("cores specified along with rx_cores and/or tx_cores for port " +:+ name)
      else
        let? rx_queues := if symmetric_queue then read_queue_opt (table_get "cores" port_def)
                          else read_queue_opt (table_get "rx_cores" port_def) in
        let? tx_queues := if symmetric_queue then Ok rx_queues
                          else read_queue_opt (table_get "tx_cores" port_def) in
        Ok (PortConf.mkPort name rx_queues tx_queues rxd txd loopback tso csum)
  | _ => cfg_error "Could not understand port spec"
  end.

Definition read_u32 (v : option Value) (dflt : Z) (msg : string) : result Z :=
  match v with
  | Some (VInteger i) => Ok (wrap 32 i)
  | None => Ok dflt
  | _ => cfg_error msg
  end.

Definition read_cores (v : option Value) : result (list Z) :=
  match v with
  | Some (VArray c) =>
      traverse (fun core => match core with
                            | VInteger core => Ok (as_signed 32 core)
                            | _ => cfg_error ("Could not parse core spec " +:+ display_value core)
                            end) c
  | None => Ok []
  | _ => cfg_error "Cores is not an array"
  end.

Definition read_ports (v : option Value) : result (list PortConf.PortConfiguration) :=
  match v with
  | Some (VArray ports) => traverse read_port ports
  | None => Ok []
  | _ => cfg_error "Ports is not an array"
  end.

Definition read_master_core (v : option Value) : result Z :=
  match v with
  | Some (VInteger core) => Ok (as_signed 32 core)
  | Some (VString core) =>
      match parse_i32 core with
      | Some c => Ok c
      | None => cfg_error ("Could not parse " +:+ core +:+ " as core")
      end
  | None => Ok DEFAULT_PRIMARY_CORE
  | v => cfg_error ("Could not parse " +:+ debug_opt v +:+ " as core")
  end.

(** The part of [read_configuration_from_str] after the text is parsed *)
Definition read_configuration_from_value (toml : Value) : result Conf.NetbricksConfiguration :=
  let? name := match get "name" toml with
               | Some (VString name) => Ok name
               | None => Ok DEFAULT_NAME
               | _ => cfg_error "Could not parse name"
               end in
  let? master_lcore := read_master_core (get "master_core" toml) in
  let? pool_size := read_u32 (get "pool_size" toml) DEFAULT_POOL_SIZE "Could not parse pool size" in
  let? cache_size := read_u32 (get "cache_size" toml) DEFAULT_CACHE_SIZE "Could not parse cache size" in
  let? secondary := match get "secondary" toml with
                    | Some (VBoolean secondary) => Ok secondary
                    | None => Ok DEFAULT_SECONDARY
                    | _ => cfg_error "Could not parse secondary processor spec"
                    end in
  let? cores := read_cores (get "cores" toml) in
  let? strict := read_flag (get "strict" toml) "Could not parse strict spec (should be boolean) " in
  let? ports := read_ports (get "ports" toml) in
  Ok (Conf.mkConf name secondary master_lcore cores strict ports pool_size cache_size None).

Definition read_configuration_from_str (configuration filename : string) : result Conf.NetbricksConfiguration :=
  match from_str configuration with
  | inl toml => read_configuration_from_value toml
  | inr error => cfg_error ("Experienced " +:+ error +:+ " parse errors in spec.")
  end.

Definition read_configuration (filename : string) : result Conf.NetbricksConfiguration :=
  match read_file filename with
  | Some toml_str => read_configuration_from_str toml_str filename
  | None => cfg_error "Could not read file"
  end.

End reader.

(** ** Reading command-line flags ([flag_reader.rs]) *)

Inductive OptKind : Type := OptFlag | OptOpt | OptMulti.

Record OptSpec : Type := mkOpt { kind : OptKind; short : string; long : string; desc : string; hint : string }.

Definition basic_opts : list OptSpec := [
  mkOpt OptFlag "h" "help" "print this help menu" EmptyString;
  mkOpt OptFlag EmptyString "secondary" "run as a secondary process" EmptyString;
  mkOpt OptFlag EmptyString "primary" "run as a primary process" EmptyString;
  mkOpt OptOpt "n" "name" "name to use for the current process" "name";
  mkOpt OptMulti "p" "port" "Port to use" "[type:]id";
  mkOpt OptMulti "c" "core" "Core to use" "core";
  mkOpt OptOpt "m" "master" "Master core" "master";
  mkOpt OptOpt "f" "configuration" "Configuration file" "path";
  mkOpt OptMulti EmptyString "dpdk_args" "DPDK arguments" "DPDK arguments"].

(** What the flag parser found *)
Class Matches : Type := {
  opt_present : string -> bool;
  opt_str : string -> option string;
  opt_strs : string -> list string
}.

(** The process goes on, or has ended with an exit code. *)
Inductive process (A : Type) : Type :=
| Running (a : A)
| Exited (code : Z).
#[global] Arguments Running {A} a.
#[global] Arguments Exited {A} code.

Section flags.
Context {X : Toml} {H : HashOrder string} {M : Matches}.

Definition add_core (m : gmap string (list Z)) (pc : string * Z) : gmap string (list Z) :=
  <[pc.1 := default [] (m !! pc.1) ++ [pc.2]]> m.

Definition extract_cores_for_port (ports : list string) (cores : list Z) : gmap string (list Z) :=
  foldl add_core ∅ (zip ports cores).

(** [Vec::dedup] removes repetitions that follow each other. *)
Fixpoint dedup (l : list Z) : list Z :=
  match l with
  | x :: (y :: _) as t => if decide (x = y) then dedup t else x :: dedup t
  | _ => l
  end.

(** [cores_str.iter().map(parse).collect()] *)
Fixpoint parse_cores (l : list string) : outcome (list Z) :=
  match l with
  | [] => Ret []
  | s :: l => let! c := unwrap (parse_i32 s) in let! cs := parse_cores l in Ret (c :: cs)
  end.

Definition set_primary_core (m : Z) (c : Conf.NetbricksConfiguration) : Conf.NetbricksConfiguration :=
  Conf.mkConf (Conf.name c) (Conf.secondary c) m (Conf.cores c) true (Conf.ports c) (Conf.pool_size c)
    (Conf.cache_size c) (Conf.dpdk_args c).
Definition set_secondary (b : bool) (c : Conf.NetbricksConfiguration) : Conf.NetbricksConfiguration :=
  Conf.mkConf (Conf.name c) b (Conf.primary_core c) (Conf.cores c) (Conf.strict c) (Conf.ports c)
    (Conf.pool_size c) (Conf.cache_size c) (Conf.dpdk_args c).
Definition set_cores_ports (cores : list Z) (ports : list PortConf.PortConfiguration)
    (c : Conf.NetbricksConfiguration) : Conf.NetbricksConfiguration :=
  Conf.mkConf (Conf.name c) (Conf.secondary c) (Conf.primary_core c) cores (Conf.strict c) ports
    (Conf.pool_size c) (Conf.cache_size c) (Conf.dpdk_args c).

Definition port_configurations (cores_for_port : gmap string (list Z)) : list PortConf.PortConfiguration :=
  (fun port => let cores := default [] (cores_for_port !! port) in PortConf.new_with_queues port cores cores)
    <$> keys cores_for_port.

Definition read_matches : outcome (process Conf.NetbricksConfiguration) :=
  if opt_present "h" then Ret (Exited 0)
  else if opt_present "dpdk_args" then Ret (Exited 0)
  else
    let! configuration :=
      if opt_present "f" then
        let! config_file := unwrap (opt_str "f") in
        match read_configuration config_file with
        | Ok cfg => Ret (Running cfg)
        | Err e => Ret (Exited 1)
        end
      else Ret (Running (Conf.new_with_name (default "recv" (opt_str "n")))) in
    match configuration with
    | Exited code => Ret (Exited code)
    | Running configuration =>
        let! configuration :=
          if opt_present "m" then
            let! s := unwrap (opt_str "m") in
            let! m := unwrap (parse_i32 s) in
            Ret (set_primary_core m configuration)
          else Ret configuration in
        let configuration := if opt_present "secondary" then set_secondary true configuration else configuration in
        let configuration := if opt_present "primary" then set_secondary false configuration else configuration in
        if opt_present "c" then
          let! cores := parse_cores (opt_strs "c") in
          let cores_for_port := extract_cores_for_port (opt_strs "p") cores in
          let ports := port_configurations cores_for_port in
          Ret (Running (set_cores_ports (dedup cores) ports configuration))
        else Ret (Running configuration)
    end.

End flags.

(** ** What a document must look like *)

Definition is_string (v : Value) : bool := match v with VString _ => true | _ => false end.
Definition is_integer (v : Value) : bool := match v with VInteger _ => true | _ => false end.
Definition is_boolean (v : Value) : bool := match v with VBoolean _ => true | _ => false end.

(** A key that may be missing *)
Definition optional (check : Value -> bool) (o : option Value) : bool :=
  match o with Some v => check v | None => true end.
Definition required (check : Value -> bool) (o : option Value) : bool :=
  match o with Some v => check v | None => false end.

(** The schema of a document, given what the queues of a port may be *)
Section documents.
Variable queue : Value -> bool.

Definition port_schema (v : Value) : bool :=
  match v with
  | VTable m =>
      required is_string (table_get "name" m) && optional is_integer (table_get "rxd" m) &&
      optional is_integer (table_get "txd" m) && optional is_boolean (table_get "loopback" m) &&
      optional is_boolean (table_get "tso" m) && optional is_boolean (table_get "checksum" m) &&
      negb (contains_key "cores" m && (contains_key "rx_cores" m || contains_key "tx_cores" m)) &&
      optional queue (table_get "cores" m) && optional queue (table_get "rx_cores" m) &&
      optional queue (table_get "tx_cores" m)
  | _ => false
  end.

Definition master_conforms (v : Value) : bool :=
  match v with VInteger _ => true | VString s => bool_decide (is_Some (parse_i32 s)) | _ => false end.

Definition list_conforms (check : Value -> bool) (v : Value) : bool :=
  match v with VArray l => forallb check l | _ => false end.

Definition schema (v : Value) : bool :=
  optional is_string (get "name" v) && optional master_conforms (get "master_core" v) &&
  optional is_integer (get "pool_size" v) && optional is_integer (get "cache_size" v) &&
  optional is_boolean (get "secondary" v) && optional (list_conforms is_integer) (get "cores" v) &&
  optional is_boolean (get "strict" v) && optional (list_conforms port_schema) (get "ports" v).

End documents.

(** The queues of a port are a core or an array of cores. *)
Definition queue_conforms (v : Value) : bool :=
  match v with VArray l => forallb is_integer l | VInteger _ => true | _ => false end.
Definition conforms (v : Value) : bool := schema queue_conforms v.

(** What the reader takes for queues: a value that is neither an integer nor an array counts as
    no queues. *)
Definition queue_read (v : Value) : bool := match v with VArray l => forallb is_integer l | _ => true end.

(** The values that the ports of a document give for their queues *)
Definition port_queues (v : Value) : list Value :=
  omap (fun key => get key v) ["cores"; "rx_cores"; "tx_cores"].
Definition document_queues (v : Value) : list Value :=
  match get "ports" v with Some (VArray l) => l ≫= port_queues | _ => [] end.
Definition is_queue (v : Value) : Prop := match v with VArray _ | VInteger _ => True | _ => False end.

Lemma queue_conforms_read v : queue_conforms v = true -> queue_read v = true.
Proof. by destruct v. Qed.

Lemma queue_read_typed v : is_queue v -> queue_read v = queue_conforms v.
Proof. by destruct v. Qed.

Lemma optional_eq (f g : Value -> bool) o : (forall v, o = Some v -> f v = g v) -> optional f o = optional g o.
Proof. destruct o; simpl; auto. Qed.

Lemma optional_mono (f g : Value -> bool) o : (forall v, f v = true -> g v = true) -> optional f o = true -> optional g o = true.
Proof. destruct o; simpl; auto. Qed.

Lemma port_schema_typed v : Forall is_queue (port_queues v) -> port_schema queue_read v = port_schema queue_conforms v.
Proof.
  destruct v as [| | | | | |m]; try done. intros Hq. rewrite Forall_forall in Hq. simpl.
  assert (Ho : forall key, key ∈ ["cores"; "rx_cores"; "tx_cores"] ->
    optional queue_read (table_get key m) = optional queue_conforms (table_get key m)).
  { intros key Hk. apply optional_eq. intros v Hv. apply queue_read_typed, Hq, list_elem_of_omap. by exists key. }
  by rewrite !Ho by set_solver.
Qed.

Lemma schema_typed v : Forall is_queue (document_queues v) -> schema queue_read v = conforms v.
Proof.
  intros Hq. unfold conforms, schema. f_equal. apply optional_eq. unfold document_queues in Hq. intros p Hp. rewrite Hp in Hq.
  clear Hp. destruct p as [| | | | |l|]; try done. simpl. induction l as [|p l IH]; [done|]. simpl.
  rewrite bind_cons, Forall_app in Hq. destruct Hq. rewrite port_schema_typed by done. f_equal. by apply IH.
Qed.

Lemma port_schema_mono v : port_schema queue_conforms v = true -> port_schema queue_read v = true.
Proof.
  destruct v as [| | | | | |m]; try done. simpl. rewrite !andb_true_iff.
  intros [[[? ?] ?] ?]. split_and!; try tauto; (eapply optional_mono; [exact queue_conforms_read|assumption]).
Qed.

Lemma schema_mono v : conforms v = true -> schema queue_read v = true.
Proof.
  unfold conforms, schema. rewrite !andb_true_iff. intros [? Hp]. split; [done|]. revert Hp. apply optional_mono.
  intros []; try done. simpl. rewrite !forallb_forall. eauto using port_schema_mono.
Qed.

Create HintDb nb_conf.

Section schema.
Context {X : Toml}.

Lemma read_i32_ok o d msg : is_ok (read_i32 o d msg) = optional is_integer o.
Proof. by destruct o as [[]|]. Qed.
Lemma read_u32_ok o d msg : is_ok (read_u32 o d msg) = optional is_integer o.
Proof. by destruct o as [[]|]. Qed.
Lemma read_flag_ok o msg : is_ok (read_flag o msg) = optional is_boolean o.
Proof. by destruct o as [[]|]. Qed.
Lemma read_master_core_ok o : is_ok (read_master_core o) = optional master_conforms o.
Proof. destruct o as [[]|]; try done. simpl. by destruct (parse_i32 _). Qed.

Lemma forallb_eq {A} (f g : A -> bool) l : (forall x, f x = g x) -> forallb f l = forallb g l.
Proof. intros Hfg. induction l; simpl; [done|]. by rewrite Hfg, IHl. Qed.

Lemma read_queue_opt_ok o : is_ok (read_queue_opt o) = optional queue_read o.
Proof.
  destruct o as [[]|]; try done. simpl. rewrite is_ok_traverse. apply forallb_eq. by intros [].
Qed.

Lemma read_cores_ok o : is_ok (read_cores o) = optional (list_conforms is_integer) o.
Proof. destruct o as [[]|]; try done. simpl. rewrite is_ok_traverse. apply forallb_eq. by intros []. Qed.

#[local] Hint Resolve read_i32_ok read_u32_ok read_flag_ok read_master_core_ok read_queue_opt_ok read_cores_ok : nb_conf.

(** Read the keys one after the other. *)
Ltac conform := repeat (apply is_ok_bind; [by auto with nb_conf|intros]).

Lemma is_ok_last {A B} (r : result A) (f : A -> result B) b :
  is_ok r = b -> (forall a, is_ok (f a) = true) -> is_ok (rbind r f) = b.
Proof. intros <- Hf. destruct r; [apply Hf|done]. Qed.

Lemma read_port_ok v : is_ok (read_port v) = port_schema queue_read v.
Proof.
  destruct v as [| | | | | |m]; try done. unfold read_port, port_schema. rewrite <-!andb_assoc.
  apply is_ok_bind; [by destruct (table_get "name" m) as [[]|]|intros]. conform.
  unfold contains_key. destruct (table_get "cores" m) as [v|] eqn:Hc; cbn [is_Some negb andb orb].
  - rewrite (bool_decide_true (is_Some (Some v))) by done.
    destruct (table_get "rx_cores" m), (table_get "tx_cores" m); try done. simpl andb.
    by apply is_ok_bind; [apply (read_queue_opt_ok (Some v))|].
  - rewrite bool_decide_false by (by intros [? [=]]). simpl andb. conform. simpl.
    by apply is_ok_last; [apply read_queue_opt_ok|].
Qed.

Lemma read_ports_ok o : is_ok (read_ports o) = optional (list_conforms (port_schema queue_read)) o.
Proof. destruct o as [[]|]; try done. simpl. rewrite is_ok_traverse. apply forallb_eq, read_port_ok. Qed.

Lemma read_value_ok v : is_ok (read_configuration_from_value v) = schema queue_read v.
Proof.
  unfold read_configuration_from_value, schema. rewrite <-!andb_assoc.
  apply is_ok_bind; [by destruct (get "name" v) as [[]|]|intros]. conform.
  apply is_ok_bind; [by destruct (get "secondary" v) as [[]|]|intros]. conform.
  by apply is_ok_last; [apply read_ports_ok|].
Qed.

End schema.

(** ** Errors are configuration errors, values are in range *)

(** An error of [r] is a configuration error, a value of [r] satisfies [Q]. *)
Definition gives {A} (r : result A) (Q : A -> Prop) : Prop :=
  match r with Ok a => Q a | Err e => exists msg, e = ConfigurationError msg end.

Lemma gives_bind {A B} (r : result A) (f : A -> result B) Q1 Q :
  gives r Q1 -> (forall a, Q1 a -> gives (f a) Q) -> gives (rbind r f) Q.
Proof. destruct r; simpl; auto. Qed.

Lemma gives_error {A} msg (Q : A -> Prop) : gives (cfg_error msg) Q.
Proof. by exists msg. Qed.

Lemma gives_traverse {A B} (f : A -> result B) l (Q : B -> Prop) :
  (forall x, x ∈ l -> gives (f x) Q) -> gives (traverse f l) (Forall Q).
Proof.
  intros Hf. destruct (traverse f l) as [ys|e] eqn:Ht; simpl.
  - apply traverse_Ok in Ht. induction Ht as [|x y l ys Hxy _ IH]; constructor.
    + specialize (Hf x ltac:(left)). by rewrite Hxy in Hf.
    + apply IH. intros z Hz. apply Hf. by right.
  - apply traverse_Err in Ht as (x & Hx & Hxe). specialize (Hf x Hx). by rewrite Hxe in Hf.
Qed.

Lemma gives_any {A} (a : A) : gives (Ok a) (fun _ => True).
Proof. done. Qed.

#[export] Hint Resolve gives_error gives_any : nb_conf.

Lemma parse_i32_range s z : parse_i32 s = Some z -> sint 32 z.
Proof. 
  unfold parse_i32. destruct (parse_sign s) as [neg [|ch r]]; [done|]. destruct (parse_digits _ _) as [n|]; [|done].
  case_decide; [|done]. by intros [= <-].
Qed.

Section ranges.
Context {X : Toml}.

Lemma gives_i32 o d msg : sint 32 d -> gives (read_i32 o d msg) (sint 32).
Proof. intros. destruct o as [[]|]; try apply gives_error; [by apply as_signed_range|done]. Qed.

Lemma gives_u32 o d msg : uint 32 d -> gives (read_u32 o d msg) (uint 32).
Proof. intros. destruct o as [[]|]; try apply gives_error; [by apply wrap_range|done]. Qed.

Lemma gives_flag o msg : gives (read_flag o msg) (fun _ => True).
Proof. destruct o as [[]|]; eauto with nb_conf. Qed.

Lemma gives_queue o : gives (read_queue_opt o) (Forall (sint 32)).
Proof.
  destruct o as [[]|]; try by constructor.
  - constructor; [by apply as_signed_range|done].
  - apply gives_traverse. intros [] _; try apply gives_error. by apply as_signed_range.
Qed.

Lemma gives_cores o : gives (read_cores o) (Forall (sint 32)).
Proof.
  destruct o as [[]|]; try apply gives_error; [|by constructor].
  apply gives_traverse. intros [] _; try apply gives_error. by apply as_signed_range.
Qed.

Lemma gives_master o : gives (read_master_core o) (sint 32).
Proof.
  destruct o as [[]|]; try apply gives_error; [simpl|by apply as_signed_range|done].
  destruct (parse_i32 _) eqn:Hp; [by eapply parse_i32_range|apply gives_error].
Qed.

Lemma gives_port v : gives (read_port v) PortConf.well_typed.
Proof.
  destruct v as [| | | | | |m]; try apply gives_error. unfold read_port.
  apply (gives_bind _ _ (fun _ => True)); [destruct (table_get "name" m) as [[]|]; eauto with nb_conf|intros name _].
  eapply gives_bind; [by apply gives_i32|intros rxd Hr]. eapply gives_bind; [by apply gives_i32|intros txd Ht].
  do 3 (eapply gives_bind; [apply gives_flag|intros ? _]).
  destruct (_ && _); [apply gives_error|]. destruct (contains_key "cores" m).
  - eapply gives_bind; [apply gives_queue|done].
  - eapply gives_bind; [apply gives_queue|intros rx Hrx]. eapply gives_bind; [apply gives_queue|done].
Qed.

Lemma gives_configuration v : gives (read_configuration_from_value v) Conf.well_typed.
Proof.
  unfold read_configuration_from_value.
  apply (gives_bind _ _ (fun _ => True)); [destruct (get "name" v) as [[]|]; eauto with nb_conf|intros name _].
  eapply gives_bind; [apply gives_master|intros master Hm].
  eapply gives_bind; [by apply gives_u32|intros pool Hp]. eapply gives_bind; [by apply gives_u32|intros cache Hc].
  apply (gives_bind _ _ (fun _ => True)); [destruct (get "secondary" v) as [[]|]; eauto with nb_conf|intros sec _].
  eapply gives_bind; [apply gives_cores|intros cores Hcs]. eapply gives_bind; [apply gives_flag|intros strict _].
  eapply gives_bind; [|intros ports Hps; done].
  destruct (get "ports" v) as [[]|]; try apply gives_error; [|by constructor].
  apply gives_traverse. intros. apply gives_port.
Qed.


End ranges.

(** ** Printing and parsing integers *)

Lemma digit_pretty n : (n < 10)%N -> digit (pretty_N_char n) = Some (Z.of_N n).
Proof.
  intros Hn. assert (Hin : n ∈ [0; 1; 2; 3; 4; 5; 6; 7; 8; 9]%N) by (set_unfold; lia).
  clear Hn. revert n Hin. apply Forall_forall. by repeat constructor.
Qed.

Lemma parse_digits_go n s : parse_digits (pretty_N_go n s) 0 = parse_digits s (Z.of_N n).
Proof.
  revert s. induction (N.lt_wf_0 n) as [n _ IH]. intros s. destruct (decide (n = 0)%N) as [->|Hn]; [done|].
  rewrite pretty_N_go_step by lia. rewrite IH by (apply N.div_lt; lia).
  cbn [parse_digits]. rewrite digit_pretty by (apply N.mod_lt; lia). f_equal.
  rewrite N2Z.inj_div, N2Z.inj_mod by lia. pose proof (Z.div_mod (Z.of_N n) 10). lia.
Qed.

Lemma parse_digits_pretty n : parse_digits (pretty n) 0 = Some (Z.of_N n) /\ pretty n <> EmptyString.
Proof.
  unfold pretty, pretty_N. case_decide as Hn; [by subst|]. rewrite parse_digits_go. split; [done|].
  intros He. pose proof (parse_digits_go n EmptyString) as Hp. rewrite He in Hp. simpl in Hp. injection Hp. lia.
Qed.

Lemma parse_sign_digits s acc n : parse_digits s acc = Some n -> parse_sign s = (false, s).
Proof.
  destruct s as [|[b0 b1 b2 b3 b4 b5 b6 b7] r]; [done|]. cbn [parse_digits].
  destruct b0, b1, b2, b3, b4, b5, b6, b7; done.
Qed.

Lemma parse_pretty z : sint 32 z -> parse_i32 (pretty z) = Some z.
Proof.
  intros Hz. unfold parse_i32. destruct z as [|p|p]; [done| |].
  - change (pretty (Z.pos p)) with (pretty (N.pos p)). destruct (parse_digits_pretty (N.pos p)) as [Hp Hn].
    rewrite (parse_sign_digits _ _ _ Hp). destruct (pretty (N.pos p)); [done|]. rewrite Hp. by rewrite decide_True.
  - change (pretty (Z.neg p)) with (String "-"%char (pretty (N.pos p))).
    destruct (parse_digits_pretty (N.pos p)) as [Hp Hn].
    unfold parse_sign. destruct (pretty (N.pos p)); [done|]. rewrite Hp. by rewrite decide_True.
Qed.

(** ** Writing a configuration as a document *)

Definition port_toml (p : PortConf.PortConfiguration) : Value := VTable [
  ("name", VString (PortConf.name p)); ("rxd", VInteger (PortConf.rxd p)); ("txd", VInteger (PortConf.txd p));
  ("loopback", VBoolean (PortConf.loopback p)); ("tso", VBoolean (PortConf.tso p));
  ("checksum", VBoolean (PortConf.csum p));
  ("rx_cores", VArray (VInteger <$> PortConf.rx_queues p)); ("tx_cores", VArray (VInteger <$> PortConf.tx_queues p))].

Definition to_toml (c : Conf.NetbricksConfiguration) : Value := VTable [
  ("name", VString (Conf.name c)); ("master_core", VString (pretty (Conf.primary_core c)));
  ("pool_size", VInteger (Conf.pool_size c)); ("cache_size", VInteger (Conf.cache_size c));
  ("secondary", VBoolean (Conf.secondary c)); ("cores", VArray (VInteger <$> Conf.cores c));
  ("strict", VBoolean (Conf.strict c)); ("ports", VArray (port_toml <$> Conf.ports c))].

Section roundtrip.
Context {X : Toml}.

Lemma traverse_fmap {A B} (f : A -> result B) (g : B -> A) l :
  Forall (fun x => f (g x) = Ok x) l -> traverse f (g <$> l) = Ok l.
Proof. induction 1 as [|x l Hx _ IH]; [done|]. cbn. by rewrite Hx, IH. Qed.

Lemma traverse_integers (f : Value -> result Z) l :
  (forall z, f (VInteger z) = Ok (as_signed 32 z)) -> Forall (sint 32) l -> traverse f (VInteger <$> l) = Ok l.
Proof.
  intros Hf Hl. apply traverse_fmap. eapply Forall_impl; [exact Hl|]. intros z Hz. rewrite Hf. f_equal. by apply as_signed_small.
Qed.

Lemma read_port_toml p : PortConf.well_typed p -> read_port (port_toml p) = Ok p.
Proof.
  intros (Hrx & Htx & Hr & Ht). destruct p as [n rx tx rd td lb ts cs]. simpl in *.
  unfold read_port, port_toml. cbn [PortConf.name PortConf.rx_queues PortConf.tx_queues PortConf.rxd PortConf.txd
    PortConf.loopback PortConf.tso PortConf.csum].
  cbn -[as_signed traverse].
  rewrite !as_signed_small by done. rewrite !traverse_integers by done. done.
Qed.

Lemma read_u32_small z d msg : uint 32 z -> read_u32 (Some (VInteger z)) d msg = Ok z.
Proof. intros. simpl. by rewrite wrap_small. Qed.

Lemma read_master_pretty z : sint 32 z -> read_master_core (Some (VString (pretty z))) = Ok z.
Proof. intros. unfold read_master_core. by rewrite parse_pretty. Qed.

(** C37: Every well-typed configuration without extra arguments can be expressed: the document
    that spells out each of its fields reads back as that configuration. *)
Theorem configuration_roundtrip c configuration filename :
  Conf.well_typed c -> Conf.dpdk_args c = None -> from_str configuration = inl (to_toml c) ->
  read_configuration_from_str configuration filename = Ok c.
Proof.
  intros (Hm & Hc & Hp & Hps & Hcs) Hd Hs. unfold read_configuration_from_str. rewrite Hs. clear Hs.
  destruct c as [n sec pc cs st ps pl ca da]. simpl in *. subst da.
  unfold read_configuration_from_value, to_toml.
  assert (Hstep : forall A B (r : result A) (f : A -> result B) a, r = Ok a -> rbind r f = f a) by (by intros; subst).
  rewrite (Hstep _ _ _ _ n) by done. rewrite (Hstep _ _ _ _ pc) by (by apply read_master_pretty).
  rewrite (Hstep _ _ _ _ pl) by (by apply read_u32_small).
  rewrite (Hstep _ _ _ _ ca) by (by apply read_u32_small). rewrite (Hstep _ _ _ _ sec) by done.
  rewrite (Hstep _ _ _ _ cs) by (by apply traverse_integers).
  rewrite (Hstep _ _ _ _ st) by done. rewrite (Hstep _ _ _ _ ps); [done|].
  apply traverse_fmap. eapply Forall_impl; [exact Hp|].
  intros p. apply read_port_toml.
Qed.

End roundtrip.

(** ** Command lines *)

Section command_line.
Context {X : Toml} {H : HashOrder string} {M : Matches}.

(** The cores that the pairs of a port and a core give to a port *)
Definition cores_of (n : string) (pairs : list (string * Z)) : list Z := (filter (fun pc => pc.1 = n) pairs).*2.

Lemma cores_of_snoc n pairs pc : cores_of n (pairs ++ [pc]) = cores_of n pairs ++ if decide (pc.1 = n) then [pc.2] else [].
Proof. unfold cores_of. rewrite filter_app, fmap_app. f_equal. rewrite filter_cons. by case_decide. Qed.

Lemma cores_of_nonempty n pairs : n ∈ pairs.*1 <-> cores_of n pairs <> [].
Proof.
  induction pairs as [|[p c] pairs IH] using rev_ind; [by split; [intros ?%elem_of_nil|]|].
  rewrite cores_of_snoc, fmap_app, elem_of_app. simpl. rewrite list_elem_of_singleton, IH.
  case_decide as Hp; simpl.
  - split; [by destruct (cores_of n pairs)|by right].
  - rewrite app_nil_r. naive_solver.
Qed.

Lemma add_cores pairs n :
  foldl add_core ∅ pairs !! n = if decide (cores_of n pairs = []) then None else Some (cores_of n pairs).
Proof.
  induction pairs as [|pc pairs IH] using rev_ind; [done|]. rewrite foldl_app. simpl. unfold add_core at 1.
  rewrite cores_of_snoc. destruct (decide (pc.1 = n)) as [Hn|Hn].
  - rewrite Hn, lookup_insert_eq, IH.
    rewrite (decide_False (P := cores_of n pairs ++ [pc.2] = [])) by (by destruct (cores_of n pairs)).
    case_decide as He; [by rewrite He|done].
  - by rewrite lookup_insert_ne, IH, app_nil_r.
Qed.

Lemma dedup_elem x l : x ∈ dedup l <-> x ∈ l.
Proof.
  induction l as [|y l IH]; [done|]. destruct l as [|z l]; [done|]. change (dedup (y :: z :: l)) with
    (if decide (y = z) then dedup (z :: l) else y :: dedup (z :: l)).
  case_decide as Hy; [subst; rewrite IH|]; rewrite !elem_of_cons, ?IH, ?elem_of_cons; naive_solver.
Qed.

Lemma parse_cores_pretty cs : Forall (sint 32) cs -> parse_cores (pretty <$> cs) = Ret cs.
Proof. induction 1 as [|c cs Hc _ IH]; [done|]. cbn. rewrite parse_pretty by done. simpl. by rewrite IH. Qed.

(** The ports that the pairs of ports and cores make *)
Lemma ports_of_pairs ports cs :
  let e := extract_cores_for_port ports cs in
  let pairs := zip ports cs in
  NoDup (PortConf.name <$> port_configurations e) /\
  (forall n, n ∈ PortConf.name <$> port_configurations e <-> n ∈ pairs.*1) /\
  (forall p, p ∈ port_configurations e -> PortConf.tx_queues p = PortConf.rx_queues p /\
     PortConf.rx_queues p = cores_of (PortConf.name p) pairs /\ Forall (.∈ cs) (PortConf.rx_queues p)).
Proof.
  intros e pairs.
  assert (He : forall n, e !! n = if decide (cores_of n pairs = []) then None else Some (cores_of n pairs)).
  { intros n. apply add_cores. }
  assert (Hnames : PortConf.name <$> port_configurations e = keys e).
  { unfold port_configurations. rewrite <-list_fmap_compose. apply list_fmap_id. }
  assert (Hkeys : forall n, n ∈ keys e <-> n ∈ pairs.*1).
  { intros n. rewrite (keys_permutation e), cores_of_nonempty, list_elem_of_fmap. split.
    - intros ([k l] & -> & Hk%elem_of_map_to_list). simpl. rewrite He in Hk. by case_decide.
    - intros Hn. exists (n, cores_of n pairs). split; [done|]. apply elem_of_map_to_list.
      by rewrite He, decide_False. }
  rewrite Hnames. split; [rewrite (keys_permutation e); apply NoDup_fst_map_to_list|]. split; [done|].
  intros p (n & -> & Hn)%list_elem_of_fmap. simpl. split; [done|].
  apply Hkeys, cores_of_nonempty in Hn. rewrite He, decide_False by done. split; [done|]. simpl.
  apply Forall_forall. intros x Hx. unfold cores_of in Hx.
  apply list_elem_of_fmap in Hx as ([n' x'] & -> & [_ Hx]%list_elem_of_filter). simpl. subst pairs.
  by apply elem_of_zip_r in Hx.
Qed.

(** Where [read_matches] starts: the configuration file that [-f] names, or the defaults *)
Definition base_configuration (base : Conf.NetbricksConfiguration) : Prop :=
  if opt_present "f" then exists file, opt_str "f" = Some file /\ read_configuration file = Ok base
  else base = Conf.new_with_name (default "recv" (opt_str "n")).


End command_line.

(** ** A document, and a command line *)

Module ConfigSample.

Definition port0 : PortConf.PortConfiguration := PortConf.mkPort "dpdk:eth0" [1; 2] [1] 64 128 false true false.
Definition conf0 : Conf.NetbricksConfiguration :=
  Conf.mkConf "nf" false 3 [1; 2] true [port0; PortConf.new_with_name "null"] 511 32 None.

(** A parser that knows one text, and a file system with one file *)
#[local] Instance one_text : Toml := {|
  from_str s := if decide (s = "conf0") then inl (to_toml conf0) else inr "unexpected";
  debug_value _ := "value";
  display_value _ := "value";
  read_file f := if decide (f = "nf.toml") then Some "conf0" else None
|}.

Lemma conf0_well_typed : Conf.well_typed conf0.
Proof. repeat constructor; done. Qed.

(** A port whose queues are a string does not conform, but is read as one without queues. *)
Lemma string_queue_accepted :
  let v := VTable [("ports", VArray [VTable [("name", VString "eth0"); ("cores", VString "1, 2")]])] in
  conforms v = false /\ exists c, read_configuration_from_value v = Ok c /\ PortConf.rx_queues <$> Conf.ports c = [[]].
Proof. split; [by vm_compute|]. eexists. split; [vm_compute; reflexivity|done]. Qed.


Lemma configuration_roundtrip_witness : read_configuration_from_str "conf0" "nf.toml" = Ok conf0.
Proof. apply configuration_roundtrip; [exact conf0_well_typed|reflexivity|reflexivity]. Defined.

#[local] Instance sorted_keys : HashOrder string := {| keys A m := (map_to_list m).*1; keys_permutation A m := reflexivity _ |}.

(** [-p a -c 4 -p b -c 5 -p a -c 4 -c 6] *)
#[local] Instance argv : Matches := {|
  opt_present s := bool_decide (s ∈ ["c"; "p"]);
  opt_str s := None;
  opt_strs s := if decide (s = "c") then ["4"; "5"; "4"; "6"] else if decide (s = "p") then ["a"; "b"; "a"] else []
|}.


End ConfigSample.
