(* ===== verification/Ports.v ===== *)
(** * Ports and the native runtime
    ([framework/src/interface/port], [framework/src/interface/dpdk.rs])

    A physical port is opened through DPDK and hands out queue pairs, through which batches
    receive and send; a virtual port allocates what it receives and frees what it sends.
    Both count packets in counters that the port and its queues share through [Arc]s: the
    counters live in the network state, under their addresses. The functions of the native
    library are parameters. *)

From S2P Require Import Prelude Headers Packet Batch Operators Pipelines Config.
From stdpp Require Import pretty.
Open Scope string_scope.
Open Scope list_scope.
Open Scope Z_scope.

(** Where the network state keeps the counters and this thread's NUMA domain *)
Class HasHost (Net : Type) : Type := {
  counters : Net -> gmap Z Z;
  set_counters : gmap Z Z -> Net -> Net;
  counters_lens :: Lens counters set_counters;
  numa_domain : Net -> Z;
  set_numa : Z -> Net -> Net;
  numa_lens :: Lens numa_domain set_numa
}.

(** The native library: DPDK through [zcsi], and [libnuma]. A C array is passed with its
    contents; [send_pkts] and [recv_pkts] hand it back. *)
Class Dpdk (Net : Type) : Type := {
  send_pkts : Z -> Z -> list Z -> Z -> St (World Net) (Z * list Z);
  recv_pkts : Z -> Z -> list Z -> Z -> St (World Net) (Z * list Z);
  num_pmd_ports : St (World Net) Z;
  find_port_with_pci_address : string -> St (World Net) Z;
  max_txqs : Z -> St (World Net) Z;
  max_rxqs : Z -> St (World Net) Z;
  init_pmd_port : Z -> Z -> Z -> list Z -> list Z -> Z -> Z -> Z -> Z -> Z -> St (World Net) Z;
  free_pmd_port : Z -> St (World Net) Z;
  init_bess_eth_ring : string -> Z -> St (World Net) Z;
  init_ovs_eth_ring : Z -> Z -> St (World Net) Z;
  attach_pmd_device : string -> St (World Net) Z;
  rte_eth_macaddr_get : Z -> St (World Net) Mac.MacAddress;
  init_system_whitelisted : string -> Z -> Z -> list string -> Z -> Z -> Z -> Z -> St (World Net) Z;
  init_secondary : string -> Z -> Z -> list string -> Z -> St (World Net) Z;
  zcsi_init_thread : Z -> Z -> St (World Net) Z;
  numa_available : St (World Net) Z;
  numa_preferred : St (World Net) Z;
  (** the regular expression of a PCI address without its domain *)
  PCI_RE : string -> bool
}.

(** ** Shared counters ([port/mod.rs]) *)

Record PortStats : Type := mkStats { stats : Z }.

Section counters.
Context {P : Profile} {Net : Type} {H : HasHost Net}.

Definition on_counters {A} (f : gmap Z Z -> outcome (A * gmap Z Z)) : St (World Net) A := fun w =>
  let! '(a, c) := f (counters (net w)) in Ret (a, mkWorld (heap w) (set_counters c (net w))).

Definition PortStats_new : St (World Net) PortStats :=
  on_counters (fun c => let id := fresh (dom c) in Ret (mkStats id, <[id := 0]> c)).

Definition load (s : PortStats) : St (World Net) Z :=
  on_counters (fun c => match c !! stats s with Some n => Ret (n, c) | None => Undef end).

Definition store (s : PortStats) (v : Z) : St (World Net) unit :=
  on_counters (fun c => match c !! stats s with Some _ => Ret (tt, <[stats s := v]> c) | None => Undef end).

(** A load, an addition and a store, as the four methods below spell it *)
Definition count (s : PortStats) (n : Z) : St (World Net) unit :=
  let* old := load s in
  let* update := slift (uadd 64 old n) in
  store s update.

Fixpoint new_stats (n : nat) : St (World Net) (list PortStats) :=
  match n with
  | O => sret []
  | S n => let* s := PortStats_new in let* l := new_stats n in sret (s :: l)
  end.

End counters.

(** ** Physical ports ([phy_port.rs]) *)

Module Phy.

Record PmdPort : Type := mkPmd {
  connected : bool;
  should_close : bool;
  port : Z;
  rxqs : Z;
  txqs : Z;
  stats_rx : list PortStats;
  stats_tx : list PortStats
}.

Record PortQueue : Type := mkQueue {
  queue_port : PmdPort;
  queue_stats_rx : PortStats;
  queue_stats_tx : PortStats;
  port_id : Z;
  txq : Z;
  rxq : Z
}.

(** A [CString] cannot hold a zero byte. *)
Fixpoint has_nul (s : string) : bool :=
  match s with
  | EmptyString => false
  | String c s => bool_decide (c = Ascii.ascii_of_nat 0) || has_nul s
  end.
Definition cstring (s : string) : outcome string := if has_nul s then Panic else Ret s.

(** [name.splitn(2, ':')] *)
Fixpoint split_colon (s : string) : string * option string :=
  match s with
  | EmptyString => (EmptyString, None)
  | String c s =>
      if decide (c = Ascii.ascii_of_nat 58) then (EmptyString, Some s)
      else let '(a, b) := split_colon s in (String c a, b)
  end.
Definition splitn2 (s : string) : list string :=
  let '(a, b) := split_colon s in a :: match b with Some b => [b] | None => [] end.

Definition i32_from_bool (x : bool) : Z := match x with true => 1 | false => 0 end.

Section operations.
Context {P : Profile} {Net : Type} {H : HasHost Net} {D : Dpdk Net}.

(** [Drop for PmdPort] *)
Definition PmdPort_drop (p : PmdPort) : St (World Net) unit :=
  if connected p && should_close p then let* _ := free_pmd_port (port p) in sret tt else sret tt.

Definition send_queue (q : PortQueue) (queue : Z) (pkts : list Z) (to_send : Z) : St (World Net) (result Z * list Z) :=
  let* '(sent, pkts) := send_pkts (port_id q) queue pkts to_send in
  let* _ := count (queue_stats_tx q) (wrap 64 sent) in
  sret (Ok (wrap 32 sent), pkts).

Definition recv_queue (q : PortQueue) (queue : Z) (pkts : list Z) (to_recv : Z) : St (World Net) (result Z * list Z) :=
  let* '(recv, pkts) := recv_pkts (port_id q) queue pkts to_recv in
  let* _ := count (queue_stats_rx q) (wrap 64 recv) in
  sret (Ok (wrap 32 recv), pkts).

#[global] Instance PortQueue_PacketTx : PacketTx Net PortQueue := fun q pkts =>
  send_queue q (txq q) pkts (as_signed 32 (zlen pkts)).

#[global] Instance PortQueue_PacketRx : PacketRx Net PortQueue := fun q pkts =>
  recv_queue q (rxq q) pkts (as_signed 32 (zlen pkts)).

Definition find_port_id (pcie : string) : St (World Net) Z :=
  let* pcie_cstr := slift (cstring pcie) in find_port_with_pci_address pcie_cstr.

Definition new_queue_pair (p : PmdPort) (rxq txq : Z) : outcome (result PortQueue) :=
  if (rxqs p <? rxq) || (rxq <? 0) then Ret (Err (BadRxQueue (port p) rxq))
  else if (txqs p <? txq) || (txq <? 0) then Ret (Err (BadTxQueue (port p) txq))
  else
    let! sr := vindex (stats_rx p) rxq in
    let! st := vindex (stats_tx p) txq in
    Ret (Ok (mkQueue p sr st (port p) txq rxq)).

(** The current port ID *)
Definition name (p : PmdPort) : Z := port p.

Definition port_stats (p : PmdPort) (queue : Z) : St (World Net) (Z * Z) :=
  let idx := wrap 64 queue in
  let* rx := slift (vindex (stats_rx p) idx) in
  let* r := load rx in
  let* tx := slift (vindex (stats_tx p) idx) in
  let* t := load tx in
  sret (r, t).

Definition init_dpdk_port (port rxqs txqs : Z) (rx_cores tx_cores : list Z) (nrxd ntxd : Z)
    (loopback tso csumoffload : bool) : St (World Net) (result PmdPort) :=
  let loopbackv := i32_from_bool loopback in
  let tsov := i32_from_bool tso in
  let csumoffloadv := i32_from_bool csumoffload in
  let* max_txqs := max_txqs port in
  let* max_rxqs := max_rxqs port in
  let actual_rxqs := Z.min max_rxqs rxqs in
  let actual_txqs := Z.min max_txqs txqs in
  if (wrap 64 actual_txqs <=? zlen tx_cores) && (wrap 64 actual_rxqs <=? zlen rx_cores) then
    let* ret := init_pmd_port port actual_rxqs actual_txqs rx_cores tx_cores nrxd ntxd loopbackv tsov csumoffloadv in
    if ret =? 0 then
      let* sr := new_stats (Z.to_nat rxqs) in
      let* st := new_stats (Z.to_nat txqs) in
      sret (Ok (mkPmd true true port actual_rxqs actual_txqs sr st))
    else sret (Err (FailedToInitializePort port))
  else sret (Err (FailedToInitializePort port)).

(** A port with one queue, over the ring the native library created *)
Definition ring_port (port : Z) : St (World Net) (result PmdPort) :=
  if 0 <=? port then
    let* sr := PortStats_new in
    let* st := PortStats_new in
    sret (Ok (mkPmd true false port 1 1 [sr] [st]))
  else sret (Err (FailedToInitializePort port)).

Definition new_bess_port (name : string) (core : Z) : St (World Net) (result PmdPort) :=
  let* ifname := slift (cstring name) in
  let* port := init_bess_eth_ring ifname core in
  ring_port port.

Definition new_ovs_port (name : string) (core : Z) : St (World Net) (result PmdPort) :=
  match parse_i32 name with
  | Some iface => let* port := init_ovs_eth_ring iface core in ring_port port
  | None => sret (Err (BadVdev name))
  end.

Definition cannonicalize_pci (pci : string) : outcome string :=
  if PCI_RE pci then cstring ("0000:" +:+ pci) else cstring pci.

(** [r.chain_err(|| e)] *)
Definition chain_err {A} (e : ErrorKind) (r : result A) : result A :=
  match r with Ok a => Ok a | Err _ => Err e end.

Definition new_dpdk_port (spec : string) (rxqs txqs : Z) (rx_cores tx_cores : list Z) (nrxd ntxd : Z)
    (loopback tso csumoffload : bool) : St (World Net) (result PmdPort) :=
  let* cannonical_spec := slift (cannonicalize_pci spec) in
  let* port := attach_pmd_device cannonical_spec in
  if 0 <=? port then
    let* r := init_dpdk_port port rxqs txqs rx_cores tx_cores nrxd ntxd loopback tso csumoffload in
    sret (chain_err (BadDev spec) r)
  else sret (Err (BadDev spec)).

Definition null_port : St (World Net) (result PmdPort) :=
  let* sr := PortStats_new in
  let* st := PortStats_new in
  sret (Ok (mkPmd false false 0 0 0 [sr] [st])).

Definition new_port_with_queues_descriptors_offloads (name : string) (rxqs txqs : Z) (rx_cores tx_cores : list Z)
    (nrxd ntxd : Z) (loopback tso csumoffload : bool) : St (World Net) (result PmdPort) :=
  let parts := splitn2 name in
  let* kind := slift (vindex parts 0) in
  if decide (kind = "bess") then
    let* n := slift (vindex parts 1) in let* core := slift (vindex rx_cores 0) in new_bess_port n core
  else if decide (kind = "ovs") then
    let* n := slift (vindex parts 1) in let* core := slift (vindex rx_cores 0) in new_ovs_port n core
  else if decide (kind = "dpdk") then
    let* n := slift (vindex parts 1) in
    new_dpdk_port n rxqs txqs rx_cores tx_cores nrxd ntxd loopback tso csumoffload
  else if decide (kind = "null") then null_port
  else new_dpdk_port name rxqs txqs rx_cores tx_cores nrxd ntxd loopback tso csumoffload.

Definition new_port_from_configuration (c : PortConf.PortConfiguration) : St (World Net) (result PmdPort) :=
  new_port_with_queues_descriptors_offloads (PortConf.name c)
    (as_signed 32 (zlen (PortConf.rx_queues c))) (as_signed 32 (zlen (PortConf.tx_queues c)))
    (PortConf.rx_queues c) (PortConf.tx_queues c) (PortConf.rxd c) (PortConf.txd c)
    (PortConf.loopback c) (PortConf.tso c) (PortConf.csum c).

Definition new_with_queues (name : string) (rxqs txqs : Z) (rx_cores tx_cores : list Z)
    : St (World Net) (result PmdPort) :=
  new_port_with_queues_descriptors_offloads name rxqs txqs rx_cores tx_cores NUM_RXD NUM_TXD false false false.

Definition new_with_cores (name : string) (rx_core tx_core : Z) : St (World Net) (result PmdPort) :=
  new_with_queues name 1 1 [rx_core] [tx_core].

Definition new (name : string) (core : Z) : St (World Net) (result PmdPort) := new_with_cores name core core.

Definition mac_address (p : PmdPort) : St (World Net) Mac.MacAddress := rte_eth_macaddr_get (port p).

End operations.

End Phy.

(** ** Virtual ports ([virt_port.rs]) *)

Module Virt.

Record VirtualPort : Type := mkVirtual { stats_rx : PortStats; stats_tx : PortStats }.
Record VirtualQueue : Type := mkVirtualQueue { queue_stats_rx : PortStats; queue_stats_tx : PortStats }.

Section operations.
Context {P : Profile} {Z_ : Zcsi} {Net : Type} {H : HasHost Net}.

Definition in_heap {A} (m : St Heap A) : St (World Net) A := zoom heap (fun h w => mkWorld h (net w)) m.

#[global] Instance VirtualQueue_PacketTx : PacketTx Net VirtualQueue := fun q pkts =>
  let len := as_signed 32 (zlen pkts) in
  let* _ := count (queue_stats_tx q) (wrap 64 len) in
  let* _ := in_heap (mbuf_free_bulk pkts) in
  sret (Ok (wrap 32 len), pkts).

#[global] Instance VirtualQueue_PacketRx : PacketRx Net VirtualQueue := fun q pkts =>
  let len := as_signed 32 (zlen pkts) in
  let* '(status, array) := in_heap (mbuf_alloc_bulk 60 len) in
  let alloced := if status =? 0 then len else 0 in
  let* _ := count (queue_stats_rx q) (wrap 64 alloced) in
  sret (Ok (wrap 32 alloced), splice pkts 0 array).

Definition new (_queues : Z) : St (World Net) (result VirtualPort) :=
  let* sr := PortStats_new in
  let* st := PortStats_new in
  sret (Ok (mkVirtual sr st)).

Definition new_virtual_queue (p : VirtualPort) (_queue : Z) : result VirtualQueue :=
  Ok (mkVirtualQueue (stats_rx p) (stats_tx p)).

Definition virtual_stats (p : VirtualPort) : St (World Net) (Z * Z) :=
  let* r := load (stats_rx p) in
  let* t := load (stats_tx p) in
  sret (r, t).

End operations.

End Virt.

(** ** Starting the native runtime ([dpdk.rs]) *)

Module Runtime.

Section operations.
Context {Net : Type} {H : HasHost Net} {D : Dpdk Net}.

Definition cstrings (l : list string) : outcome (list string) :=
  foldr (fun s acc => let! c := Phy.cstring s in let! l := acc in Ret (c :: l)) (Ret []) l.

Definition str_len (s : string) : Z := as_signed 32 (Z.of_nat (String.length s)).

Definition init_system_wl_with_mempool (name : string) (core : Z) (pci : list string) (pool_size cache_size : Z)
    : St (World Net) unit :=
  let* name_cstr := slift (Phy.cstring name) in
  let* whitelist := slift (cstrings pci) in
  let* ret := init_system_whitelisted name_cstr (str_len name) core whitelist (as_signed 32 (zlen pci))
    pool_size cache_size Mbuf.METADATA_SLOTS in
  if negb (ret =? 0) then spanic else sret tt.

Definition set_numa_domain : St (World Net) unit :=
  let* available := numa_available in
  let* domain := if available =? -1 then sret (-1) else numa_preferred in
  smodify (fun w => mkWorld (heap w) (set_numa domain (net w))).

Definition init_system_wl (name : string) (core : Z) (pci : list string) : St (World Net) unit :=
  let* _ := init_system_wl_with_mempool name core pci DEFAULT_POOL_SIZE DEFAULT_CACHE_SIZE in
  set_numa_domain.

Definition init_system_secondary (name : string) (core : Z) : St (World Net) unit :=
  let* name_cstr := slift (Phy.cstring name) in
  let* ret := init_secondary name_cstr (str_len name) core [] 0 in
  if negb (ret =? 0) then spanic else set_numa_domain.

Definition init_system (config : Conf.NetbricksConfiguration) : St (World Net) unit :=
  if decide (Conf.name config = EmptyString) then spanic
  else
    let* _ :=
      if Conf.secondary config then init_system_secondary (Conf.name config) (Conf.primary_core config)
      else init_system_wl_with_mempool (Conf.name config) (Conf.primary_core config) []
             (Conf.pool_size config) (Conf.cache_size config) in
    set_numa_domain.

Definition init_thread (tid core : Z) : St (World Net) unit :=
  let* numa := zcsi_init_thread tid core in
  smodify (fun w => mkWorld (heap w) (set_numa numa (net w))).

Definition get_domain : St (World Net) Z := sgets (fun w => numa_domain (net w)).

End operations.

End Runtime.

(** ** Counters *)

Section counter_specs.
Context {P : Profile} {Net : Type} {H : HasHost Net}.
Implicit Types w : World Net.

(** The world with other counters *)
Definition with_counters (c : gmap Z Z) w : World Net := mkWorld (heap w) (set_counters c (net w)).

Lemma counters_with c w : counters (net (with_counters c w)) = c.
Proof. apply (get_set (get := counters) (set := set_counters)). Qed.

Lemma with_counters_id w : with_counters (counters (net w)) w = w.
Proof. unfold with_counters. rewrite (set_get (get := counters)). by destruct w. Qed.

Lemma with_counters_twice c c' w : with_counters c (with_counters c' w) = with_counters c w.
Proof. unfold with_counters. simpl. by rewrite (set_set (get := counters)). Qed.

Lemma load_ok s w n : counters (net w) !! stats s = Some n -> load s w = Ret (n, w).
Proof. intros Hn. unfold load, on_counters. rewrite Hn. simpl. rewrite (set_get (get := counters)). by destruct w. Qed.

Lemma count_ok s k w n :
  counters (net w) !! stats s = Some n -> uint 64 (n + k) ->
  count s k w = Ret (tt, with_counters (<[stats s := n + k]> (counters (net w))) w).
Proof.
  intros Hn Hk. unfold count, load, store, on_counters.
  erewrite sbind_Ret by (simpl; rewrite Hn; done). rewrite (set_get (get := counters)). simpl.
  erewrite sbind_Ret by (apply slift_Ret; by apply uadd_small). simpl. rewrite Hn. done.
Qed.

(** New counters are new, different from each other and zero. *)
Lemma new_stats_ok n w :
  exists l c, new_stats n w = Ret (l, with_counters c w) /\ length l = n /\ NoDup (stats <$> l) /\
    (forall x, x ∈ stats <$> l -> counters (net w) !! x = None /\ c !! x = Some 0) /\
    (forall x, x ∉ stats <$> l -> c !! x = counters (net w) !! x).
Proof.
  revert w. induction n as [|n IH]; intros w.
  { exists [], (counters (net w)). rewrite with_counters_id. split_and!; try done; [constructor|set_solver]. }
  set (id := fresh (dom (counters (net w)))).
  assert (Hid : counters (net w) !! id = None) by (apply not_elem_of_dom, is_fresh).
  destruct (IH (with_counters (<[id := 0]> (counters (net w))) w)) as (l & c & Hr & Hl & Hnd & Hin & Hout).
  rewrite counters_with in Hin, Hout.
  assert (Hni : id ∉ stats <$> l).
  { intros Hx. destruct (Hin id Hx) as [Hx' _]. by rewrite lookup_insert_eq in Hx'. }
  exists (mkStats id :: l), c. split_and!.
  - cbn [new_stats]. erewrite sbind_Ret by done. fold id.
    erewrite sbind_Ret by exact Hr. by rewrite with_counters_twice.
  - simpl. lia.
  - by constructor.
  - intros x [->|Hx]%elem_of_cons; simpl.
    + split; [done|]. by rewrite Hout, lookup_insert_eq.
    + destruct (Hin x Hx) as [H1 H2]. split; [|done]. rewrite lookup_insert_ne in H1; [done|]. by intros ->.
  - intros x [Hne Hx]%not_elem_of_cons. simpl in Hne. by rewrite Hout, lookup_insert_ne.
Qed.

(** The counters for receiving, then those for sending *)
Lemma stats_pair {A} n m (k : list PortStats -> list PortStats -> St (World Net) A) w :
  exists l l' c,
    (let* sr := new_stats n in let* st := new_stats m in k sr st) w = k l l' (with_counters c w) /\
    length l = n /\ length l' = m /\ NoDup (stats <$> l ++ l') /\
    Forall (fun s => c !! stats s = Some 0) (l ++ l') /\
    (forall x, x ∉ stats <$> l ++ l' -> c !! x = counters (net w) !! x) /\
    (forall x, x ∈ stats <$> l ++ l' -> counters (net w) !! x = None).
Proof.
  destruct (new_stats_ok n w) as (l & c & Hr & Hl & Hnd & Hin & Hout).
  destruct (new_stats_ok m (with_counters c w)) as (l' & c' & Hr' & Hl' & Hnd' & Hin' & Hout').
  rewrite counters_with in Hin', Hout'.
  assert (Hdis : forall x, x ∈ stats <$> l -> x ∉ stats <$> l').
  { intros x Hx Hx'. destruct (Hin x Hx) as [_ H1], (Hin' x Hx') as [H2 _]. congruence. }
  exists l, l', c'. split_and!; try done.
  - erewrite sbind_Ret by exact Hr. erewrite sbind_Ret by exact Hr'. by rewrite with_counters_twice.
  - rewrite fmap_app. by apply NoDup_app.
  - apply Forall_app. split; apply Forall_forall; intros s Hs%(list_elem_of_fmap_2 stats).
    + rewrite Hout' by (by apply Hdis). by apply Hin.
    + by apply Hin'.
  - intros x. rewrite fmap_app, not_elem_of_app. intros [H1 H2]. by rewrite Hout', Hout.
  - intros x. rewrite fmap_app, elem_of_app. intros [Hx|Hx]; [by apply Hin|].
    rewrite <-Hout by (intros Hx'; by apply (Hdis x)). by apply Hin'.
Qed.

End counter_specs.

(** ** Opening ports and taking queues *)

Module PhySpec.
Import Phy.

Section ports.
Context {P : Profile} {Net : Type} {H : HasHost Net} {D : Dpdk Net}.
Implicit Types w : World Net.

(** What a port promises: no more queues than counters, every counter exists and belongs to
    one queue, and only a connected port is closed. *)
Record port_ok (p : PmdPort) (c : gmap Z Z) : Prop := {
  rx_bounds : 0 <= rxqs p <= zlen (stats_rx p);
  tx_bounds : 0 <= txqs p <= zlen (stats_tx p);
  stats_separate : NoDup (stats <$> stats_rx p ++ stats_tx p);
  stats_exist : Forall (fun s => c !! stats s = Some 0) (stats_rx p ++ stats_tx p);
  close_connected : should_close p = true -> connected p = true
}.

(** A computation that opens a port, or does not *)
Definition opens (m : St (World Net) (result PmdPort)) : Prop :=
  forall w p w', m w = Ret (Ok p, w') -> port_ok p (counters (net w')).

Lemma opens_err e : opens (sret (Err e)).
Proof. by intros w p w'. Qed.

Lemma opens_bind {A} (m : St (World Net) A) k : (forall a, opens (k a)) -> opens (sbind m k).
Proof. intros Hk w p w' (a & w1 & _ & H1)%sbind_Ret_inv. by eapply Hk. Qed.

Lemma opens_stats n m con cl port rq tq :
  0 <= rq <= Z.of_nat n -> 0 <= tq <= Z.of_nat m -> (cl = true -> con = true) ->
  opens (let* sr := new_stats n in let* st := new_stats m in sret (Ok (mkPmd con cl port rq tq sr st))).
Proof.
  intros Hr Ht Hc w p w'. destruct (stats_pair n m (fun sr st => sret (Ok (mkPmd con cl port rq tq sr st))) w)
    as (l & l' & c & Hk & Hl & Hl' & Hnd & Hz & _).
  rewrite Hk. intros [= <- <-]. rewrite counters_with. split; simpl; try done; lia.
Qed.

(** One counter each is two vectors of one counter. *)
Lemma one_stats_each con cl port rq tq w :
  (let* sr := PortStats_new in let* st := PortStats_new in sret (Ok (mkPmd con cl port rq tq [sr] [st]))) w =
  (let* sr := new_stats 1 in let* st := new_stats 1 in sret (Ok (mkPmd con cl port rq tq sr st))) w.
Proof.
  cbn [new_stats]. unfold sbind. by destruct (PortStats_new w) as [[s w1]| | |].
Qed.

Lemma opens_one con cl port rq tq :
  0 <= rq <= 1 -> 0 <= tq <= 1 -> (cl = true -> con = true) ->
  opens (let* sr := PortStats_new in let* st := PortStats_new in sret (Ok (mkPmd con cl port rq tq [sr] [st]))).
Proof. intros Hr Ht Hc w p w'. rewrite one_stats_each. by apply opens_stats. Qed.

Lemma opens_ring port : opens (ring_port port).
Proof. unfold ring_port. destruct (0 <=? port); [|apply opens_err]. by apply opens_one. Qed.

Lemma actual_bounds a len : - 2 ^ 63 <= a < 2 ^ 63 -> 0 <= len < 2 ^ 63 -> wrap 64 a <= len -> 0 <= a.
Proof.
  intros Ha Hl Hw. destruct (Z.leb_spec 0 a); [done|].
  assert (wrap 64 a = a + 2 ^ 64); [|lia].
  rewrite <-(wrap_add_pow 64 a) by lia. apply wrap_small. unfold uint. lia.
Qed.

(** A native function that returns a C [int] *)
Definition returns_i32 (m : St (World Net) Z) : Prop := forall w z w', m w = Ret (z, w') -> sint 32 z.

(** The size of a vector is below [isize::MAX]. *)
Definition vec_len {A} (l : list A) : Prop := zlen l < 2 ^ 63.

Lemma opens_dpdk port rq tq rc tc nr nt lb tso cs :
  (forall i, returns_i32 (max_rxqs i)) -> (forall i, returns_i32 (max_txqs i)) ->
  sint 32 rq -> sint 32 tq -> vec_len rc -> vec_len tc ->
  opens (init_dpdk_port port rq tq rc tc nr nt lb tso cs).
Proof.
  intros Hmr Hmt Hrq Htq Hrc Htc w p w' Ho. unfold init_dpdk_port in Ho.
  apply sbind_Ret_inv in Ho as (mt & w1 & Hm1%Hmt & Ho). apply sbind_Ret_inv in Ho as (mr & w2 & Hm2%Hmr & Ho).
  destruct (Z.leb_spec (wrap 64 (Z.min mt tq)) (zlen tc)) as [Ht|]; [|done].
  destruct (Z.leb_spec (wrap 64 (Z.min mr rq)) (zlen rc)) as [Hr|]; [|done]. simpl andb in Ho. cbv iota in Ho.
  apply sbind_Ret_inv in Ho as (ret & w3 & _ & Ho). destruct (ret =? 0); [|done].
  unfold sint, vec_len in *. apply actual_bounds in Ht, Hr; try (simpl in *; lia).
  eapply opens_stats; [..|exact Ho]; try done; lia.
Qed.

(** The native queue limits are C integers. *)
Definition native_limits : Prop := (forall i, returns_i32 (max_rxqs i)) /\ (forall i, returns_i32 (max_txqs i)).

Lemma opens_dpdk_name spec rq tq rc tc nr nt lb tso cs :
  native_limits -> sint 32 rq -> sint 32 tq -> vec_len rc -> vec_len tc ->
  opens (new_dpdk_port spec rq tq rc tc nr nt lb tso cs).
Proof.
  intros [Hmr Hmt] Hrq Htq Hrc Htc. unfold new_dpdk_port. do 2 (apply opens_bind; intros).
  destruct (0 <=? _); [|apply opens_err]. intros w p w' (r & w1 & Hi & Ho)%sbind_Ret_inv.
  destruct r; [|done]. injection Ho as <- <-. by eapply (opens_dpdk _ rq tq rc tc).
Qed.

(** Whatever the name and the number of queues, a port that was opened from a
    configuration keeps its promise: it has no more queues than counters, the counters are
    its own, start at zero and are shared by no two queues, and it is closed only if it is
    connected. *)
Lemma opened_port_ok (c : PortConf.PortConfiguration) w p w' :
  native_limits -> vec_len (PortConf.rx_queues c) -> vec_len (PortConf.tx_queues c) ->
  new_port_from_configuration c w = Ret (Ok p, w') -> port_ok p (counters (net w')).
Proof.
  intros Hn Hr Ht. cut (opens (new_port_from_configuration c)); [intros Ho; apply Ho|].
  unfold new_port_from_configuration, new_port_with_queues_descriptors_offloads.
  apply opens_bind. intros kind.
  assert (Hd : forall n, opens (new_dpdk_port n (as_signed 32 (zlen (PortConf.rx_queues c)))
    (as_signed 32 (zlen (PortConf.tx_queues c))) (PortConf.rx_queues c) (PortConf.tx_queues c) (PortConf.rxd c)
    (PortConf.txd c) (PortConf.loopback c) (PortConf.tso c) (PortConf.csum c))).
  { intros n. by apply opens_dpdk_name; try done; apply as_signed_range. }
  repeat case_decide.
  - repeat (apply opens_bind; intros). apply opens_ring.
  - do 2 (apply opens_bind; intros). unfold new_ovs_port. destruct (parse_i32 _); [|apply opens_err].
    apply opens_bind. intros. apply opens_ring.
  - apply opens_bind. intros. apply Hd.
  - by apply opens_one.
  - apply Hd.
Qed.

(** *** Counters of their own *)

(** A call that leaves the counters alone *)
Definition silent {A} (m : St (World Net) A) : Prop :=
  forall w a w', m w = Ret (a, w') -> counters (net w') = counters (net w).

(** The native functions know nothing of the counters. *)
Class NativeSilent : Prop := {
  silent_max_rxqs i : silent (max_rxqs i);
  silent_max_txqs i : silent (max_txqs i);
  silent_init port r t rc tc nr nt l s c : silent (init_pmd_port port r t rc tc nr nt l s c);
  silent_bess n c : silent (init_bess_eth_ring n c);
  silent_ovs i c : silent (init_ovs_eth_ring i c);
  silent_attach s : silent (attach_pmd_device s)
}.
Context {NS : NativeSilent}.

Lemma silent_lift {A} (m : outcome A) : silent (slift m).
Proof. intros w a w'. unfold slift. destruct m; try done. by intros [= _ <-]. Qed.

Definition counters_of (p : PmdPort) : list Z := stats <$> stats_rx p ++ stats_tx p.

(** A computation that opens a port with new counters *)
Definition adds (m : St (World Net) (result PmdPort)) : Prop :=
  forall w p w', m w = Ret (Ok p, w') ->
    counters (net w) ⊆ counters (net w') /\ forall id, id ∈ counters_of p -> counters (net w) !! id = None.

Lemma adds_err e : adds (sret (Err e)).
Proof. by intros w p w'. Qed.

Lemma adds_bind {A} (m : St (World Net) A) k : silent m -> (forall a, adds (k a)) -> adds (sbind m k).
Proof. intros Hm Hk w p w' (a & w1 & H1%Hm & H2)%sbind_Ret_inv. rewrite <-H1. by eapply Hk. Qed.

Lemma adds_stats n m con cl port rq tq :
  adds (let* sr := new_stats n in let* st := new_stats m in sret (Ok (mkPmd con cl port rq tq sr st))).
Proof.
  intros w p w'. destruct (stats_pair n m (fun sr st => sret (Ok (mkPmd con cl port rq tq sr st))) w)
    as (l & l' & c & Hk & _ & _ & _ & _ & Hout & Hnew).
  rewrite Hk. intros [= <- <-]. rewrite counters_with. split; [|exact Hnew].
  apply map_subseteq_spec. intros x v Hx. rewrite Hout; [done|]. intros Hin. by rewrite Hnew in Hx.
Qed.

Lemma adds_one con cl port rq tq :
  adds (let* sr := PortStats_new in let* st := PortStats_new in sret (Ok (mkPmd con cl port rq tq [sr] [st]))).
Proof.
  intros w p w'. rewrite one_stats_each. apply adds_stats.
Qed.

Lemma adds_ring port : adds (ring_port port).
Proof. unfold ring_port. destruct (0 <=? port); [apply adds_one|apply adds_err]. Qed.

Lemma adds_dpdk_name spec rq tq rc tc nr nt lb tso cs : adds (new_dpdk_port spec rq tq rc tc nr nt lb tso cs).
Proof using NS.
  apply adds_bind; [apply silent_lift|intros]. apply adds_bind; [apply silent_attach|intros port].
  destruct (0 <=? port); [|apply adds_err]. intros w p w' (r & w1 & Hi & Ho)%sbind_Ret_inv.
  destruct r; [|done]. injection Ho as <- <-. revert Hi. cut (adds (init_dpdk_port port rq tq rc tc nr nt lb tso cs)); [eauto|].
  unfold init_dpdk_port. apply adds_bind; [apply silent_max_txqs|intros]. apply adds_bind; [apply silent_max_rxqs|intros].
  destruct (_ && _); [|apply adds_err]. apply adds_bind; [apply silent_init|intros r]. destruct (r =? 0); [apply adds_stats|apply adds_err].
Qed.

(** Whatever the name, the counters of a port opened from a configuration are new, and the
    counters that were there are still there. *)
Lemma opened_port_adds (c : PortConf.PortConfiguration) : adds (new_port_from_configuration c).
Proof using NS.
  unfold new_port_from_configuration, new_port_with_queues_descriptors_offloads.
  apply adds_bind; [apply silent_lift|intros]. repeat case_decide.
  - do 2 (apply adds_bind; [apply silent_lift|intros]). apply adds_bind; [apply silent_lift|intros].
    apply adds_bind; [apply silent_bess|intros]. apply adds_ring.
  - do 2 (apply adds_bind; [apply silent_lift|intros]). unfold new_ovs_port. destruct (parse_i32 _); [|apply adds_err].
    apply adds_bind; [apply silent_ovs|intros]. apply adds_ring.
  - apply adds_bind; [apply silent_lift|intros]. apply adds_dpdk_name.
  - apply adds_one.
  - apply adds_dpdk_name.
Qed.

Lemma queue_pair_ok p r t sr st :
  0 <= r <= rxqs p -> 0 <= t <= txqs p ->
  stats_rx p !! Z.to_nat r = Some sr -> stats_tx p !! Z.to_nat t = Some st ->
  new_queue_pair p r t = Ret (Ok (mkQueue p sr st (port p) t r)).
Proof.
  intros Hr Ht Hsr Hst. unfold new_queue_pair.
  rewrite !(proj2 (Z.ltb_ge _ _)) by lia. simpl.
  by rewrite (proj2 (vindex_Ret _ _ sr)), (proj2 (vindex_Ret _ _ st)) by (split; [lia|done]).
Qed.

(** A queue pair of a port that keeps its promise has two counters of its own, at zero. *)
Lemma queue_counters p c i q :
  port_ok p c -> new_queue_pair p i i = Ret (Ok q) ->
  c !! stats (queue_stats_rx q) = Some 0 /\ c !! stats (queue_stats_tx q) = Some 0 /\
  stats (queue_stats_rx q) <> stats (queue_stats_tx q) /\ 0 <= i < zlen (stats_rx p) /\
  vindex (stats_rx p) i = Ret (queue_stats_rx q) /\ vindex (stats_tx p) i = Ret (queue_stats_tx q).
Proof.
  intros [_ _ Hnd Hz _]. unfold new_queue_pair. destruct (_ || _); [done|]. destruct (_ || _); [done|].
  intros (sr & Hr & (st & Ht & [= <-])%obind_Ret_inv)%obind_Ret_inv. simpl.
  pose proof (proj1 (vindex_Ret _ _ _) Hr) as [Hi Hr']. pose proof (proj1 (vindex_Ret _ _ _) Ht) as [_ Ht'].
  pose proof (lookup_lt_Some _ _ _ Hr'). rewrite fmap_app in Hnd. apply NoDup_app in Hnd as (_ & Hd & _).
  rewrite Forall_app, !Forall_lookup in Hz. destruct Hz as [Hzr Hzt].
  split_and!; eauto; [|lia]. intros Heq. apply (Hd (stats sr)); [|rewrite Heq];
    by eapply list_elem_of_fmap_2, list_elem_of_lookup_2.
Qed.

(** The statistics of a port are its counters. *)
Lemma port_stats_ok p i sr st w r t :
  0 <= i < 2 ^ 64 -> vindex (stats_rx p) i = Ret sr -> vindex (stats_tx p) i = Ret st ->
  counters (net w) !! stats sr = Some r -> counters (net w) !! stats st = Some t ->
  port_stats p i w = Ret ((r, t), w).
Proof.
  intros Hi Hsr Hst Hr Ht. unfold port_stats. rewrite wrap_small by done.
  erewrite sbind_Ret by (by apply slift_Ret). erewrite sbind_Ret by (by apply load_ok).
  erewrite sbind_Ret by (by apply slift_Ret). by erewrite sbind_Ret by (by apply load_ok).
Qed.

(** Taking a queue pair of a port that keeps its promise. Every configured pair is handed
    out, with the counters of its two queues; negative numbers and numbers above the count
    are refused, the receive queue first. The number just past the last receive queue is
    not refused: it panics when every counter belongs to a queue, and otherwise hands out a
    queue that was never set up. *)
Lemma queue_pair_bounds p c r t :
  port_ok p c ->
  (0 <= r < rxqs p -> 0 <= t < txqs p -> exists sr st,
     new_queue_pair p r t = Ret (Ok (mkQueue p sr st (port p) t r)) /\
     stats_rx p !! Z.to_nat r = Some sr /\ stats_tx p !! Z.to_nat t = Some st) /\
  (r < 0 \/ rxqs p < r -> new_queue_pair p r t = Ret (Err (BadRxQueue (port p) r))) /\
  (0 <= r <= rxqs p -> t < 0 \/ txqs p < t -> new_queue_pair p r t = Ret (Err (BadTxQueue (port p) t))) /\
  (r = rxqs p -> 0 <= t < txqs p ->
     if decide (rxqs p = zlen (stats_rx p)) then new_queue_pair p r t = Panic
     else exists q, new_queue_pair p r t = Ret (Ok q) /\ rxq q = rxqs p).
Proof.
  intros [Hr Ht _ _ _].
  assert (Hst : 0 <= t < txqs p -> exists st, stats_tx p !! Z.to_nat t = Some st).
  { intros. apply lookup_lt_is_Some_2. lia. }
  split_and!.
  - intros Hr1 Ht1. destruct (Hst Ht1) as [st Hs].
    destruct (lookup_lt_is_Some_2 (stats_rx p) (Z.to_nat r)) as [sr Hsr]; [lia|].
    exists sr, st. split; [apply queue_pair_ok; lia || done|done].
  - intros Hr1. unfold new_queue_pair.
    assert ((rxqs p <? r) || (r <? 0) = true) as -> by (apply orb_true_iff; rewrite !Z.ltb_lt; lia). done.
  - intros Hr1 Ht1. unfold new_queue_pair. rewrite !(proj2 (Z.ltb_ge _ _)) by lia. simpl.
    assert ((txqs p <? t) || (t <? 0) = true) as -> by (apply orb_true_iff; rewrite !Z.ltb_lt; lia). done.
  - intros -> Ht1. destruct (Hst Ht1) as [st Hs]. case_decide as Hd.
    + unfold new_queue_pair. rewrite !(proj2 (Z.ltb_ge _ _)) by lia. simpl. by rewrite vindex_oob by lia.
    + destruct (lookup_lt_is_Some_2 (stats_rx p) (Z.to_nat (rxqs p))) as [sr Hsr]; [lia|].
      eexists. split; [apply queue_pair_ok; lia || done|done].
Qed.

End ports.

(** ** Counting packets *)

Section traffic.
Context {P : Profile} {Net : Type} {H : HasHost Net} {D : Dpdk Net}.
Implicit Types w : World Net.

(** What the driver promises: a burst completes, moves no more packets than it was given
    room for and leaves the counters alone. *)
Definition burst_ok (m : list Z -> Z -> St (World Net) (Z * list Z)) : Prop :=
  forall pkts n w, 0 <= n -> exists r pkts' w', m pkts n w = Ret ((r, pkts'), w') /\ 0 <= r <= n /\
    counters (net w') = counters (net w).

Class DriverLaws : Prop := {
  send_burst port queue : burst_ok (send_pkts port queue);
  recv_burst port queue : burst_ok (recv_pkts port queue)
}.
Context {L : DriverLaws}.

(** A send or a receive through a queue, and the counter it goes to *)
Inductive burst : Type := Tx (q : PortQueue) (pkts : list Z) | Rx (q : PortQueue) (pkts : list Z).

Definition counter (b : burst) : Z :=
  match b with Tx q _ => stats (queue_stats_tx q) | Rx q _ => stats (queue_stats_rx q) end.
Definition room (b : burst) : Z := match b with Tx _ pkts | Rx _ pkts => zlen pkts end.

Definition run_burst (b : burst) : St (World Net) (result Z * list Z) :=
  match b with Tx q pkts => send q pkts | Rx q pkts => recv q pkts end.

Fixpoint run_bursts (bs : list burst) : St (World Net) (list Z) :=
  match bs with
  | [] => sret []
  | b :: bs =>
      let* r := run_burst b in
      let* n := slift (unwrap_ok r.1) in
      let* ns := run_bursts bs in
      sret (n :: ns)
  end.

(** The packets that the bursts on a counter moved *)
Fixpoint moved (id : Z) (bs : list burst) (ns : list Z) : Z :=
  match bs, ns with
  | b :: bs, n :: ns => (if decide (counter b = id) then n else 0) + moved id bs ns
  | _, _ => 0
  end.

Fixpoint total_room (bs : list burst) : Z := match bs with [] => 0 | b :: bs => room b + total_room bs end.

(** A burst of either kind, followed by its count *)
Lemma counted_burst (m : list Z -> Z -> St (World Net) (Z * list Z)) s pkts w n0 :
  burst_ok m -> counters (net w) !! stats s = Some n0 -> 0 <= n0 -> n0 + zlen pkts < 2 ^ 64 -> zlen pkts < 2 ^ 31 ->
  exists n pkts' w',
    (let* '(sent, pkts) := m pkts (as_signed 32 (zlen pkts)) in
     let* _ := count s (wrap 64 sent) in
     sret (Ok (wrap 32 sent), pkts)) w = Ret ((Ok n, pkts'), w') /\ 0 <= n <= zlen pkts /\
    counters (net w') = <[stats s := n0 + n]> (counters (net w)).
Proof.
  intros Hm Hc H0 Hb Hs. rewrite as_signed_small by (done || unfold sint; simpl in *; lia).
  destruct (Hm pkts (zlen pkts) w) as (r & pkts' & w1 & Hr & Hrb & Hcs); [lia|].
  exists r, pkts', (with_counters (<[stats s := n0 + r]> (counters (net w1))) w1).
  erewrite sbind_Ret by exact Hr. cbn beta iota. rewrite !wrap_small by (unfold uint; simpl in *; lia).
  erewrite sbind_Ret by (apply count_ok; [by rewrite Hcs|unfold uint; lia]).
  split; [done|]. split; [done|]. by rewrite counters_with, Hcs.
Qed.

Lemma run_burst_ok b w n0 :
  counters (net w) !! counter b = Some n0 -> 0 <= n0 -> n0 + room b < 2 ^ 64 -> room b < 2 ^ 31 ->
  exists n pkts w', run_burst b w = Ret ((Ok n, pkts), w') /\ 0 <= n <= room b /\
    counters (net w') = <[counter b := n0 + n]> (counters (net w)).
Proof using L. destruct b; [apply (counted_burst _ _ _ _ _ (send_burst _ _))|apply (counted_burst _ _ _ _ _ (recv_burst _ _))]. Qed.

(** The counters of a port count. Over any sequence of bursts through any queues, none of
    which could overflow a counter, every burst completes, and in the end each counter has
    grown by exactly the packets that the bursts through its queue moved: the port's
    statistics are the traffic. *)
Lemma port_counters_count bs w :
  Forall (fun b => room b < 2 ^ 31 /\ is_Some (counters (net w) !! counter b)) bs ->
  (forall id n, counters (net w) !! id = Some n -> 0 <= n /\ n + total_room bs < 2 ^ 64) ->
  exists ns w', run_bursts bs w = Ret (ns, w') /\ length ns = length bs /\
    forall id, counters (net w') !! id = (fun n => n + moved id bs ns) <$> counters (net w) !! id.
Proof using L.
  revert w. induction bs as [|b bs IH]; intros w Hbs Hc.
  { exists [], w. split; [done|]. split; [done|]. intros id. destruct (counters _ !! id); simpl; [|done]. f_equal. lia. }
  apply Forall_cons in Hbs as [[Hsz [n0 Hn0]] Hbs].
  assert (Hroom : forall b, 0 <= room b) by (intros []; simpl; lia).
  assert (Htot : 0 <= total_room bs) by (clear -Hroom; induction bs; simpl; [lia|specialize (Hroom a); lia]).
  destruct (Hc _ _ Hn0) as [Hp Hb]. simpl in Hb. specialize (Hroom b).
  destruct (run_burst_ok b w n0) as (n & pkts & w1 & Hr & Hn & Hcs); try lia; [done|].
  destruct (IH w1) as (ns & w2 & Hrs & Hl & Hcs2).
  { eapply Forall_impl; [exact Hbs|]. intros b' [? Hs]. split; [done|]. rewrite Hcs.
    destruct (decide (counter b = counter b')) as [<-|]; [by rewrite lookup_insert_eq|by rewrite lookup_insert_ne]. }
  { intros id k. rewrite Hcs. destruct (decide (counter b = id)) as [<-|]; [rewrite lookup_insert_eq|rewrite lookup_insert_ne by done].
    - intros [= <-]. lia.
    - intros Hk. destruct (Hc _ _ Hk) as [? Hk2]. simpl in Hk2. lia. }
  exists (n :: ns), w2. split; [|split; [simpl; lia|]].
  - cbn [run_bursts]. erewrite sbind_Ret by exact Hr. erewrite sbind_Ret by done. by erewrite sbind_Ret by exact Hrs.
  - intros id. rewrite Hcs2, Hcs. simpl. case_decide as Hid.
    + rewrite Hid in *. rewrite lookup_insert_eq, Hn0. simpl. f_equal. lia.
    + rewrite lookup_insert_ne by done. by destruct (counters (net w) !! id).
Qed.

End traffic.
End PhySpec.

(** ** A machine with one device of two queues *)

Module PortSample.
Import Phy PhySpec.

Record host : Type := mkHost { host_counters : gmap Z Z; host_numa : Z }.

#[export] Instance host_HasHost : HasHost host.
Proof.
  refine {| counters := host_counters; set_counters := fun c h => mkHost c (host_numa h);
            numa_domain := host_numa; set_numa := fun d h => mkHost (host_counters h) d |};
    by split; [| intros [] |].
Defined.

(** A burst of sends takes every packet but the last, a burst of receives finds one. *)
#[export] Instance machine : Dpdk host := {|
  send_pkts _ _ pkts n w := Ret ((Z.max 0 (n - 1), pkts), w);
  recv_pkts _ _ pkts n w := Ret ((Z.min 1 n, pkts), w);
  num_pmd_ports := sret 1;
  find_port_with_pci_address _ := sret 0;
  max_txqs _ := sret 2;
  max_rxqs _ := sret 2;
  init_pmd_port _ _ _ _ _ _ _ _ _ _ := sret 0;
  free_pmd_port _ := sret 0;
  init_bess_eth_ring _ _ := sret (-1);
  init_ovs_eth_ring _ _ := sret (-1);
  attach_pmd_device dev := sret (if decide (dev = "0000:02:00.0") then 0 else -1);
  rte_eth_macaddr_get _ := sret Mac.MacAddress_default;
  init_system_whitelisted _ _ _ _ _ _ _ _ := sret 0;
  init_secondary _ _ _ _ _ := sret 0;
  zcsi_init_thread _ _ := sret 0;
  numa_available := sret 0;
  numa_preferred := sret 1;
  PCI_RE s := bool_decide (s = "02:00.0")
|}.

#[export] Instance machine_laws : DriverLaws.
Proof.
  split; intros port queue pkts n w Hn; eexists _, pkts, w; (split; [reflexivity|]); (split; [lia|done]).
Qed.

Lemma machine_limits : native_limits.
Proof. split; intros i w z w' [= <- <-]; by split. Qed.

(** Three receive queues are asked for; the device has two. *)
Definition conf3 : PortConf.PortConfiguration := PortConf.new_with_queues "02:00.0" [1; 2; 3] [1].
Definition world0 : World host := mkWorld ∅ (mkHost ∅ 0).
Definition st (n : Z) : PortStats := mkStats n.
Definition opened : outcome (result PmdPort * World host) := new_port_from_configuration conf3 world0.
Definition pmd : PmdPort := match opened with Ret (Ok p, _) => p | _ => mkPmd false false 0 0 0 [] [] end.
Definition world1 : World host := match opened with Ret (_, w) => w | _ => world0 end.

Lemma opened_port_ok_witness : port_ok pmd (counters (net world1)).
Proof.
  apply (opened_port_ok conf3 world0 pmd world1 machine_limits); [vm_compute; reflexivity|vm_compute; reflexivity|].
  vm_compute. reflexivity.
Defined.

Lemma pmd_ok : port_ok pmd (counters (net world1)).
Proof.
  split; [split; vm_compute; discriminate|split; vm_compute; discriminate| | |reflexivity].
  all: apply (bool_decide_unpack _); vm_compute; exact I.
Qed.

Lemma queue_pair_bounds_witness :
  new_queue_pair pmd 4 0 = Ret (Err (BadRxQueue (port pmd) 4)) /\
  exists q, new_queue_pair pmd (rxqs pmd) 0 = Ret (Ok q) /\ rxq q = rxqs pmd.
Proof.
  split.
  - destruct (queue_pair_bounds pmd (counters (net world1)) 4 0 pmd_ok) as (_ & Hq & _).
    apply Hq. right. vm_compute. reflexivity.
  - destruct (queue_pair_bounds pmd (counters (net world1)) (rxqs pmd) 0 pmd_ok) as (_ & _ & _ & Hq).
    assert (Hd : rxqs pmd <> zlen (stats_rx pmd)) by (vm_compute; discriminate).
    rewrite decide_False in Hq by exact Hd. apply Hq; [reflexivity|]. split; [lia|vm_compute; reflexivity].
Defined.

Definition queue0 : PortQueue :=
  match new_queue_pair pmd 0 0 with Ret (Ok q) => q | _ => mkQueue pmd (st 0) (st 0) 0 0 0 end.

Lemma port_counters_count_witness :
  exists ns w', @run_bursts release _ _ _ [Rx queue0 [0; 0]; Tx queue0 [7; 8; 9]; Tx queue0 [5; 6]] world1 = Ret (ns, w') /\
    length ns = 3%nat /\
    forall id, counters (net w') !! id =
      (fun n => n + moved id [Rx queue0 [0; 0]; Tx queue0 [7; 8; 9]; Tx queue0 [5; 6]] ns) <$> counters (net world1) !! id.
Proof.
  apply (port_counters_count (P := release) (L := machine_laws)).
  - repeat (apply Forall_cons; split; [split; [reflexivity|vm_compute; eexists; reflexivity]|]). constructor.
  - intros id n Hn. apply (map_Forall_lookup_1 (fun _ n => 0 <= n /\ n + 7 < 2 ^ 64) (counters (net world1)) id n);
      [|exact Hn]. apply (bool_decide_unpack _). vm_compute. exact I.
Defined.

End PortSample.
