(* ===== verification/Display.v ===== *)
(** * Text of headers and queues

    The [Display] implementations of [headers/*.rs] and of the queues of [interface/port], and
    that a printed line determines what it prints: no two headers that differ in a printed
    field give the same line. A formatter that fails is not modelled, so [write_or_return!]
    always goes on. *)

From stdpp Require Import pretty.
From S2P Require Import Prelude Headers IpHeader TcpHeader Packet Batch Ports.

(** [impl fmt::Display for T] *)
Class Display (T : Type) : Type := to_string : T -> string.

(** ** Hexadecimal digits *)

(** A digit of [{:x}] *)
Definition hex_char (d : Z) : Ascii.ascii := Ascii.ascii_of_nat (Z.to_nat (if d <? 10 then 48 + d else 87 + d)).

(** [{:0kx}] of a number of [k] hexadecimal digits *)
Fixpoint hex (k : nat) (n : Z) : string :=
  match k with
  | O => ""
  | S k => hex k (n / 16) +:+ String (hex_char (n mod 16)) ""
  end.

(** ** Headers *)

#[export] Instance NullHeader_Display : Display NullHeader := fun _ => "null".

(** An address is an array of six bytes. *)
#[export] Instance MacAddress_Display : Display Mac.MacAddress := fun m =>
  String.concat ":" (hex 2 <$> Mac.addr m).

#[export] Instance MacHeader_Display : Display Mac.MacHeader := fun h =>
  to_string (Mac.src h) +:+ " > " +:+ to_string (Mac.dst h) +:+ " 0x" +:+ hex 4 (swap16 (Mac.etype_ h)).

(** [Display for Ipv4Addr] of the standard library, of [Ipv4Addr::from(n)] *)
Definition ipv4 (n : Z) : string :=
  pretty (n / 2 ^ 24 mod 256) +:+ "." +:+ pretty (n / 2 ^ 16 mod 256) +:+ "." +:+
  pretty (n / 2 ^ 8 mod 256) +:+ "." +:+ pretty (n mod 256).

#[export] Instance IpHeader_Display : Display Ip.IpHeader := fun h =>
  ipv4 (Ip.src h) +:+ " > " +:+ ipv4 (Ip.dst h) +:+ " version: " +:+ pretty (Ip.version h) +:+ " ihl: " +:+
  pretty (Ip.ihl h) +:+ " len: " +:+ pretty (Ip.length h) +:+ " ttl: " +:+ pretty (Ip.ttl h) +:+ " proto: " +:+
  pretty (Ip.protocol h) +:+ " csum: " +:+ pretty (Ip.csum h).

#[export] Instance TcpHeader_Display : Display Tcp.TcpHeader := fun h =>
  "tcp src_port " +:+ pretty (Tcp.src_port h) +:+ " dst_port " +:+ pretty (Tcp.dst_port h) +:+ " seq " +:+
  pretty (Tcp.seq_num h) +:+ " ack " +:+ pretty (Tcp.ack_num h) +:+ " data_offset " +:+ pretty (Tcp.data_offset h) +:+
  " flags " +:+ Tcp.fmt_flags h +:+ "cwnd " +:+ pretty (Tcp.window_size h) +:+ " csum " +:+ pretty (Tcp.checksum h) +:+
  " urgent " +:+ pretty (Tcp.urgent h).

#[export] Instance UdpHeader_Display : Display Udp.UdpHeader := fun h =>
  "src_port: " +:+ pretty (Udp.src_port h) +:+ " dst_port: " +:+ pretty (Udp.dst_port h) +:+ " len: " +:+
  pretty (Udp.length h) +:+ " checksum: " +:+ pretty (Udp.checksum h).

(** ** Queues *)

#[export] Instance VirtualQueue_Display : Display Virt.VirtualQueue := fun _ => "virtual queue".

(** The address of the port is asked from the native library when the queue is printed. *)
Definition PortQueue_display {Net : Type} {D : Dpdk Net} (q : Phy.PortQueue) : St (World Net) string :=
  let* mac := Phy.mac_address (Phy.queue_port q) in
  sret ("port: " +:+ to_string mac +:+ " (" +:+ pretty (Phy.port_id q) +:+ ") rxq: " +:+ pretty (Phy.rxq q) +:+
    " txq: " +:+ pretty (Phy.txq q)).

(** ** What a line determines *)

Fixpoint contains (c : Ascii.ascii) (s : string) : bool :=
  match s with
  | EmptyString => false
  | String d s => bool_decide (c = d) || contains c s
  end.

Lemma contains_app c s t : contains c (s +:+ t) = contains c s || contains c t.
Proof. induction s as [|d s IH]; [done|]. simpl. by rewrite IH, orb_assoc. Qed.

(** Text up to a separator that is not in it *)
Lemma sep_inj c l t t' s s' :
  contains c t = false -> contains c t' = false ->
  t +:+ String c l +:+ s = t' +:+ String c l +:+ s' -> t = t' /\ s = s'.
Proof.
  revert t'. induction t as [|a t IH]; intros [|a' t'] Ht Ht'; simpl; intros Heq.
  - injection Heq as Heq. by apply (inj (String.append l)) in Heq.
  - injection Heq as -> _. simpl in Ht'. by rewrite bool_decide_true in Ht'.
  - injection Heq as <- _. simpl in Ht. by rewrite bool_decide_true in Ht.
  - injection Heq as <- Heq. simpl in Ht, Ht'. apply orb_false_iff in Ht as [_ Ht], Ht' as [_ Ht'].
    by destruct (IH t' Ht Ht' Heq) as [<- <-].
Qed.

(** A decimal number has digits and perhaps a sign. *)
Definition numeral (c : Ascii.ascii) : bool := bool_decide (c = Ascii.ascii_of_nat 45) || (48 <=? Ascii.nat_of_ascii c)%nat && (Ascii.nat_of_ascii c <=? 57)%nat.

Lemma numeral_digit n : (n < 10)%N -> numeral (pretty_N_char n) = true.
Proof.
  intros Hn. assert (Hin : n ∈ [0; 1; 2; 3; 4; 5; 6; 7; 8; 9]%N) by (set_unfold; lia).
  clear Hn. revert n Hin. apply Forall_forall. by repeat constructor.
Qed.

Lemma contains_go c n s : numeral c = false -> contains c s = false -> contains c (pretty_N_go n s) = false.
Proof.
  intros Hc. revert s. induction (N.lt_wf_0 n) as [n _ IH]. intros s Hs. destruct (decide (n = 0)%N) as [->|Hn]; [done|].
  rewrite pretty_N_go_step by lia. apply IH; [apply N.div_lt; lia|]. cbn [contains]. rewrite Hs, orb_false_r.
  apply bool_decide_false. intros ->. rewrite numeral_digit in Hc; [done|]. apply N.mod_lt. lia.
Qed.

Lemma contains_pretty c (z : Z) : numeral c = false -> contains c (pretty z) = false.
Proof.
  intros Hc. assert (Hn : forall n : N, contains c (pretty n) = false).
  { intros n. unfold pretty, pretty_N. case_decide; [|by apply contains_go]. subst. cbn [contains].
    rewrite orb_false_r. apply bool_decide_false. intros ->. by vm_compute in Hc. }
  destruct z as [|p|p]; [exact (Hn 0%N)|exact (Hn (N.pos p))|].
  change (pretty (Z.neg p)) with (String (Ascii.ascii_of_nat 45) (pretty (N.pos p))). cbn [contains]. rewrite Hn, orb_false_r.
  apply bool_decide_false. intros ->. by vm_compute in Hc.
Qed.

(** Read the equation of two lines from left to right. *)
Ltac same_field H :=
  let E := fresh "E" in
  first [ apply sep_inj in H as [E%(inj pretty) H]; [|by apply contains_pretty..] | apply (inj (String.append _)) in H ].

Lemma string_app_assoc (s t u : string) : (s +:+ t) +:+ u = s +:+ t +:+ u.
Proof. induction s as [|c s IH]; [done|]. exact (f_equal (String c) IH). Qed.

Lemma ipv4_inj n n' s s' :
  uint 32 n -> uint 32 n' -> ipv4 n +:+ String (Ascii.ascii_of_nat 32) s = ipv4 n' +:+ String (Ascii.ascii_of_nat 32) s' -> n = n' /\ s = s'.
Proof.
  unfold ipv4. intros Hn Hn'. rewrite !string_app_assoc. intros H. do 3 same_field H.
  apply (sep_inj (Ascii.ascii_of_nat 32) "") in H as [E3%(inj pretty) H]; [|by apply contains_pretty..]. split; [|done].
  unfold uint in *. simpl in *. Z.to_euclidean_division_equations. lia.
Qed.

(** *** Hexadecimal text *)

Definition hex_digits : list Z := [0; 1; 2; 3; 4; 5; 6; 7; 8; 9; 10; 11; 12; 13; 14; 15].

Lemma elem_of_hex_digits d : 0 <= d < 16 -> d ∈ hex_digits.
Proof. intros. unfold hex_digits. set_unfold. lia. Qed.

Lemma hex_char_inj d d' : 0 <= d < 16 -> 0 <= d' < 16 -> hex_char d = hex_char d' -> d = d'.
Proof.
  intros Hd%elem_of_hex_digits Hd'%elem_of_hex_digits. revert d' Hd'. revert d Hd.
  cut (Forall (fun d => Forall (fun d' => hex_char d = hex_char d' -> d = d') hex_digits) hex_digits).
  { intros HF d Hd d' Hd'. rewrite Forall_forall in HF. specialize (HF d Hd). rewrite Forall_forall in HF. by apply HF. }
  apply (bool_decide_unpack _). by vm_compute.
Qed.

(** What is not a digit *)
Definition punctuation (c : Ascii.ascii) : bool := bool_decide (Forall (fun d => c <> hex_char d) hex_digits).

Lemma contains_hex c k n : punctuation c = true -> contains c (hex k n) = false.
Proof.
  intros Hc%bool_decide_eq_true. revert n. induction k as [|k IH]; intros n; [done|].
  cbn [hex]. rewrite contains_app, IH. cbn [contains orb]. rewrite orb_false_r. apply bool_decide_false.
  rewrite Forall_forall in Hc. apply Hc, elem_of_hex_digits, Z.mod_pos_bound. lia.
Qed.

Lemma snoc_inj (s s' : string) a a' : s +:+ String a "" = s' +:+ String a' "" -> s = s' /\ a = a'.
Proof.
  revert s'. induction s as [|c s IH]; intros [|c' s'] Heq; cbn in Heq.
  - by injection Heq as ->.
  - injection Heq as _ Heq. by destruct s'.
  - injection Heq as _ Heq. by destruct s.
  - injection Heq as <- Heq. by destruct (IH s' Heq) as [<- <-].
Qed.

Lemma hex_inj k n n' : uint (4 * Z.of_nat k) n -> uint (4 * Z.of_nat k) n' -> hex k n = hex k n' -> n = n'.
Proof.
  unfold uint. revert n n'. induction k as [|k IH]; intros n n' Hn Hn' Heq; [simpl in *; lia|].
  cbn [hex] in Heq. apply snoc_inj in Heq as [Hh Hd].
  assert (Hp : 2 ^ (4 * Z.of_nat (S k)) = 16 * 2 ^ (4 * Z.of_nat k)).
  { replace (4 * Z.of_nat (S k)) with (4 + 4 * Z.of_nat k) by lia. by rewrite Z.pow_add_r by lia. }
  apply IH in Hh; [|split; [apply Z.div_pos; lia|apply Z.div_lt_upper_bound; lia]..].
  apply hex_char_inj in Hd; [|apply Z.mod_pos_bound; lia..]. rewrite (Z.div_mod n 16), (Z.div_mod n' 16) by lia. lia.
Qed.

(** An address is between separators that are no digits. *)
Lemma mac_inj c m m' l s s' :
  Mac.mac_ok m -> Mac.mac_ok m' -> punctuation c = true ->
  to_string m +:+ String c l +:+ s = to_string m' +:+ String c l +:+ s' -> m = m' /\ s = s'.
Proof.
  intros [Hl Hb] [Hl' Hb'] Hc. destruct m as [m], m' as [m']. simpl in *.
  destruct m as [|a0 [|a1 [|a2 [|a3 [|a4 [|a5 [|]]]]]]]; try done.
  destruct m' as [|b0 [|b1 [|b2 [|b3 [|b4 [|b5 [|]]]]]]]; try done. clear Hl Hl'.
  unfold to_string, MacAddress_Display. cbn [Mac.addr fmap list_fmap String.concat].
  unfold bytes_ok in *. rewrite !Forall_cons in Hb, Hb'. destruct_and! Hb. destruct_and! Hb'.
  rewrite !string_app_assoc. intros Heq.
  do 5 (apply (sep_inj _ "") in Heq as [?%hex_inj Heq]; [|done..|by apply contains_hex|by apply contains_hex]).
  apply sep_inj in Heq as [?%hex_inj ?]; [|done..|by apply contains_hex|by apply contains_hex]. by subst.
Qed.

(** *** Lines of headers *)

Lemma swap16_inj x y : uint 16 x -> uint 16 y -> swap16 x = swap16 y -> x = y.
Proof. intros Hx Hy Heq. rewrite <-(swap16_swap16 x), <-(swap16_swap16 y) by done. by rewrite Heq. Qed.

Lemma mac_header_line (h h' : Mac.MacHeader) : wf h -> wf h' -> to_string h = to_string h' -> h = h'.
Proof.
  intros (Hd & Hs & He) (Hd' & Hs' & He') Heq. unfold to_string, MacHeader_Display in Heq.
  apply mac_inj in Heq as [Hsrc Heq]; [|done..]. apply mac_inj in Heq as [Hdst Heq]; [|done..].
  apply (hex_inj 4) in Heq; [|apply swap16_uint..]. apply (f_equal swap16) in Heq. rewrite !swap16_swap16 in Heq by done.
  destruct h, h'. simpl in *. congruence.
Qed.

Lemma udp_header_line (h h' : Udp.UdpHeader) : wf h -> wf h' -> to_string h = to_string h' -> h = h'.
Proof.
  intros (?&?&?&?) (?&?&?&?) Heq. unfold to_string, UdpHeader_Display in Heq. do 4 same_field Heq.
  apply (inj pretty) in Heq. unfold Udp.src_port, Udp.dst_port, Udp.length, Udp.checksum in *.
  destruct h, h'. simpl in *. f_equal; by apply swap16_inj.
Qed.

(** Everything but the identification, the flags and the fragment offset is printed. *)
Lemma ip_header_line (h h' : Ip.IpHeader) :
  wf h -> wf h' -> to_string h = to_string h' ->
  Ip.src h = Ip.src h' /\ Ip.dst h = Ip.dst h' /\ Ip.version h = Ip.version h' /\ Ip.ihl h = Ip.ihl h' /\
  Ip.length h = Ip.length h' /\ Ip.ttl h = Ip.ttl h' /\ Ip.protocol h = Ip.protocol h' /\ Ip.csum h = Ip.csum h'.
Proof.
  intros (_&_&_&?&?) (_&_&_&?&?) Heq. unfold to_string, IpHeader_Display in Heq.
  apply ipv4_inj in Heq as [Hsrc Heq]; [|apply swap32_uint..].
  apply (inj (String.append "> ")) in Heq. apply ipv4_inj in Heq as [Hdst Heq]; [|apply swap32_uint..].
  apply (inj (String.append "version: ")) in Heq. do 5 same_field Heq. apply (inj pretty) in Heq. by split_and!.
Qed.

(** *** The flags *)

Definition flag_word (b : bool) (w : string) : string := if b then w else "".

Lemma contains_flag c b w : contains c (flag_word b w) = b && contains c w.
Proof. by destruct b. Qed.

Definition flag_words (ns cwr ece urg ack psh rst syn fin : bool) : string :=
  flag_word ns "NS " +:+ flag_word cwr "CWR " +:+ flag_word ece "ECE " +:+ flag_word urg "URG " +:+ flag_word ack "ACK " +:+
  flag_word psh "PSH " +:+ flag_word rst "RST " +:+ flag_word syn "SYN " +:+ flag_word fin "FIN ".

Lemma length_string_app (s t : string) : String.length (s +:+ t) = (String.length s + String.length t)%nat.
Proof. induction s as [|c s IH]; [done|]. exact (f_equal S IH). Qed.

Lemma flag_word_inj b b' w s : w <> "" -> flag_word b w +:+ s = flag_word b' w +:+ s -> b = b'.
Proof.
  intros Hw Heq. apply (f_equal String.length) in Heq. rewrite !length_string_app in Heq.
  destruct b, b', w; simpl in *; done || lia.
Qed.

(** The letter number [n] is in one of the words only. *)
Ltac own_letter H n :=
  let E := fresh "E" in
  pose proof (f_equal (contains (Ascii.ascii_of_nat n)) H) as E; unfold flag_words in E;
  rewrite !contains_app, !contains_flag in E;
  repeat match type of E with context [contains ?c ?w] => let b := eval vm_compute in (contains c w) in change (contains c w) with b in E end;
  rewrite ?andb_false_r, ?andb_true_r, ?orb_false_r in E; cbn [orb] in E; subst.

(** Each word but the first has a letter of its own. *)
Lemma flag_words_inj ns cwr ece urg ack psh rst syn fin ns' cwr' ece' urg' ack' psh' rst' syn' fin' :
  flag_words ns cwr ece urg ack psh rst syn fin = flag_words ns' cwr' ece' urg' ack' psh' rst' syn' fin' ->
  (ns, cwr, ece, urg, ack, psh, rst, syn, fin) = (ns', cwr', ece', urg', ack', psh', rst', syn', fin').
Proof.
  intros Heq. own_letter Heq 87%nat. own_letter Heq 69%nat. own_letter Heq 85%nat. own_letter Heq 65%nat. own_letter Heq 80%nat.
  own_letter Heq 84%nat. own_letter Heq 89%nat. own_letter Heq 70%nat. by apply flag_word_inj in Heq as ->.
Qed.

Lemma fmt_flags_words h :
  Tcp.fmt_flags h = "| " +:+ flag_words (Tcp.ns_flag h) (Tcp.cwr_flag h) (Tcp.ece_flag h) (Tcp.urg_flag h)
    (Tcp.ack_flag h) (Tcp.psh_flag h) (Tcp.rst_flag h) (Tcp.syn_flag h) (Tcp.fin_flag h) +:+ "|".
Proof. unfold Tcp.fmt_flags, flag_words. by rewrite !string_app_assoc. Qed.

Lemma contains_flag_words c ns cwr ece urg ack psh rst syn fin :
  contains c "NS CWR ECE URG ACK PSH RST SYN FIN " = false ->
  contains c (flag_words ns cwr ece urg ack psh rst syn fin) = false.
Proof.
  change "NS CWR ECE URG ACK PSH RST SYN FIN " with
    ("NS " +:+ "CWR " +:+ "ECE " +:+ "URG " +:+ "ACK " +:+ "PSH " +:+ "RST " +:+ "SYN " +:+ "FIN ").
  unfold flag_words. rewrite !contains_app, !contains_flag, !orb_false_iff. intros (->&->&->&->&->&->&->&->&->).
  by rewrite !andb_false_r.
Qed.

(** Everything of a TCP header is printed: ports, numbers, window, flags. *)
Lemma tcp_header_line (h h' : Tcp.TcpHeader) :
  to_string h = to_string h' ->
  Tcp.src_port h = Tcp.src_port h' /\ Tcp.dst_port h = Tcp.dst_port h' /\ Tcp.seq_num h = Tcp.seq_num h' /\
  Tcp.ack_num h = Tcp.ack_num h' /\ Tcp.data_offset h = Tcp.data_offset h' /\ Tcp.fmt_flags h = Tcp.fmt_flags h' /\
  Tcp.window_size h = Tcp.window_size h' /\ Tcp.checksum h = Tcp.checksum h' /\ Tcp.urgent h = Tcp.urgent h' /\
  (Tcp.ns_flag h, Tcp.cwr_flag h, Tcp.ece_flag h, Tcp.urg_flag h, Tcp.ack_flag h, Tcp.psh_flag h, Tcp.rst_flag h,
   Tcp.syn_flag h, Tcp.fin_flag h) =
  (Tcp.ns_flag h', Tcp.cwr_flag h', Tcp.ece_flag h', Tcp.urg_flag h', Tcp.ack_flag h', Tcp.psh_flag h', Tcp.rst_flag h',
   Tcp.syn_flag h', Tcp.fin_flag h').
Proof.
  unfold to_string, TcpHeader_Display. intros Heq. do 6 same_field Heq. rewrite !fmt_flags_words, !string_app_assoc in *.
  apply (inj (String.append "| ")), sep_inj in Heq as [Hf Heq]; [|by apply contains_flag_words..].
  rewrite Hf. apply (inj (String.append "cwnd ")) in Heq. do 2 same_field Heq. apply (inj pretty) in Heq.
  apply flag_words_inj in Hf. by split_and!.
Qed.
