(* ===== verification/Context.v ===== *)
(** * The context: initialization and coordination of schedulers
    ([framework/src/scheduler/context.rs])

    [initialize_system] opens the ports of a configuration and gives each core its receive
    queues; the context then starts a scheduler thread per core and talks to the threads
    through rendezvous channels. The threads appear here through what they have received:
    a send completes when the thread takes the command, is refused once the thread took a
    shutdown, and waits while the thread is parked at a barrier. What a thread does with
    the commands it receives is [Scheduler.Standalone]. A call that would wait for ever does
    not return. Output with [println!] is not modelled. *)

From stdpp Require Import pretty.
From S2P Require Import Prelude Headers Packet Batch Operators Pipelines Scheduler Config Ports.
Import Phy Virt.
Open Scope string_scope.
Open Scope list_scope.
Open Scope Z_scope.

#[local] Set Warnings "-clear-no-such-hyp".

Module Context.

(** What a [Run] closure captured: the function that installs the pipeline, and queues *)
Inductive Installer (R : Type) : Type :=
| OnPorts (run : R) (queues : list PortQueue)
| OnVirtual (run : R) (queues : list VirtualQueue).
#[global] Arguments OnPorts {R}.
#[global] Arguments OnVirtual {R}.

(** Channels and join handles name the thread at their other end. *)
Record NetBricksContext : Type := mkCtx {
  ports : gmap string PmdPort;
  rx_queues : gmap Z (list PortQueue);
  active_cores : list Z;
  virtual_ports : gmap Z VirtualPort;
  scheduler_channels : gmap Z nat;
  scheduler_handles : gmap Z nat
}.

Definition default_ctx : NetBricksContext := mkCtx ∅ ∅ [] ∅ ∅ ∅.

Section system.
Context {P : Profile} {Task R Net : Type} {H : HasHost Net} {D : Dpdk Net}.
Context {HZ : HashOrder Z} {HS : HashOrder string}.

Abbreviation Cmd := (Standalone.SchedulerCommand Task (Installer R)).

Record Thread : Type := mkThread { core_of : Z; received : list Cmd; parked : bool }.

(** The threads, the number of handshake channels made, and the world *)
Record System : Type := mkSys { threads : list Thread; chans : Z; world : World Net }.

Abbreviation Ctx A := (St (NetBricksContext * System) A).

Definition this : Ctx NetBricksContext := sgets fst.
Definition sys : Ctx System := sgets snd.
Definition put_ctx (c : NetBricksContext) : Ctx unit := smodify (fun s => (c, s.2)).
Definition put_threads (l : list Thread) : Ctx unit := smodify (fun s => (s.1, mkSys l (chans s.2) (world s.2))).
Definition in_world {A} (m : St (World Net) A) : Ctx A :=
  zoom (fun s => world s.2) (fun w s => (s.1, mkSys (threads s.2) (chans s.2) w)) m.
Definition blocks {A} : Ctx A := fun _ => NoFuel.

Definition stopped (t : Thread) : bool :=
  existsb (fun c => match c with Standalone.Shutdown => true | _ => false end) (received t).
Definition is_handshake (c : Cmd) : bool := match c with Standalone.Handshake _ => true | _ => false end.

(** [channel.send(cmd).unwrap()] *)
Definition send_cmd (tid : nat) (c : Cmd) : Ctx unit :=
  let* s := sys in
  match threads s !! tid with
  | None => fun _ => Undef
  | Some t =>
      if stopped t then spanic
      else if parked t then blocks
      else put_threads (<[tid := mkThread (core_of t) (received t ++ [c]) (is_handshake c)]> (threads s))
  end.

(** [join_handle.join().unwrap()] *)
Definition join (tid : nat) : Ctx unit :=
  let* s := sys in
  match threads s !! tid with
  | None => fun _ => Undef
  | Some t => if stopped t then sret tt else blocks
  end.

(** [for (core, x) in &map { body }] *)
Fixpoint for_keys {V} (body : Z -> V -> Ctx unit) (ks : list Z) (m : gmap Z V) : Ctx unit :=
  match ks with
  | [] => sret tt
  | k :: ks =>
      match m !! k with
      | Some v => let* _ := body k v in for_keys body ks m
      | None => for_keys body ks m
      end
  end.
Definition for_map {V} (m : gmap Z V) (body : Z -> V -> Ctx unit) : Ctx unit := for_keys body (keys m) m.

(** ** Starting schedulers *)

(** The thread is spawned with the receiving end of the new channel. *)
Definition start_scheduler (core : Z) : Ctx unit :=
  let* s := sys in
  let tid := length (threads s) in
  let* _ := put_threads (threads s ++ [mkThread core [] false]) in
  let* c := this in
  put_ctx (mkCtx (ports c) (rx_queues c) (active_cores c) (virtual_ports c)
    (<[core := tid]> (scheduler_channels c)) (<[core := tid]> (scheduler_handles c))).

Fixpoint start_each (cores : list Z) : Ctx unit :=
  match cores with
  | [] => sret tt
  | core :: cores => let* _ := start_scheduler core in start_each cores
  end.

Definition start_schedulers : Ctx unit :=
  let* c := this in start_each (active_cores c).

(** ** Installing pipelines *)

Definition ports_of (c : NetBricksContext) (core : Z) : list PortQueue := default [] (rx_queues c !! core).

Definition add_pipeline_to_run (run : R) : Ctx unit :=
  let* c := this in
  for_map (scheduler_channels c) (fun core channel => send_cmd channel (Standalone.Run (OnPorts run (ports_of c core)))).

(** [virtual_ports.entry(core).or_insert(VirtualPort::new(1).unwrap())]: the argument is
    evaluated whether or not the entry exists. *)
Definition virtual_port_entry (core : Z) : Ctx VirtualPort :=
  let* r := in_world (Virt.new 1) in
  let* fresh_port := slift (unwrap_ok r) in
  let* c := this in
  match virtual_ports c !! core with
  | Some p => sret p
  | None =>
      let* _ := put_ctx (mkCtx (ports c) (rx_queues c) (active_cores c) (<[core := fresh_port]> (virtual_ports c))
        (scheduler_channels c) (scheduler_handles c)) in
      sret fresh_port
  end.

Definition install_test (run : R) (core : Z) (channel : nat) : Ctx unit :=
  let* port := virtual_port_entry core in
  let* queue := slift (unwrap_ok (new_virtual_queue port 1)) in
  send_cmd channel (Standalone.Run (OnVirtual run [queue])).

Definition add_test_pipeline (run : R) : Ctx unit :=
  let* c := this in for_map (scheduler_channels c) (install_test run).

Definition add_test_pipeline_to_core (core : Z) (run : R) : Ctx (result unit) :=
  let* c := this in
  match scheduler_channels c !! core with
  | Some channel => let* _ := install_test run core channel in sret (Ok tt)
  | None => sret (Err (NoRunningSchedulerOnCore core))
  end.

Definition add_pipeline_to_core (core : Z) (run : R) : Ctx (result unit) :=
  let* c := this in
  match scheduler_channels c !! core with
  | Some channel => let* _ := send_cmd channel (Standalone.Run (OnPorts run (ports_of c core))) in sret (Ok tt)
  | None => sret (Err (NoRunningSchedulerOnCore core))
  end.

(** ** Running, pausing and stopping *)

Definition execute : Ctx unit :=
  let* c := this in for_map (scheduler_channels c) (fun _ channel => send_cmd channel Standalone.Execute).

(** Whether some thread answered on a handshake channel *)
Definition answered (chan : Z) (l : list Thread) : bool :=
  existsb (fun t => existsb (fun c => match c with Standalone.Handshake n => n =? chan | _ => false end) (received t)) l.

Fixpoint handshakes (ks : list Z) (m : gmap Z nat) (chans : list Z) : Ctx unit :=
  match ks, chans with
  | k :: ks, chan :: chans =>
      match m !! k with
      | Some channel => let* _ := send_cmd channel (Standalone.Handshake chan) in handshakes ks m chans
      | None => handshakes ks m (chan :: chans)
      end
  | _, _ => sret tt
  end.

Fixpoint await (chans : list Z) : Ctx unit :=
  match chans with
  | [] => sret tt
  | chan :: chans => let* s := sys in if answered chan (threads s) then await chans else blocks
  end.

(** The threads to unpark *)
Record BarrierHandle : Type := mkBarrier { paused : list nat }.

Definition with_threads (l : list nat) : BarrierHandle := mkBarrier l.

Definition barrier : Ctx BarrierHandle :=
  let* c := this in
  let* s := sys in
  let n := base.size (scheduler_handles c) in
  let made := (fun i => chans s + Z.of_nat i) <$> seq 0 n in
  let* _ := smodify (fun s => (s.1, mkSys (threads s.2) (chans s.2 + Z.of_nat n) (world s.2))) in
  let* _ := handshakes (keys (scheduler_channels c)) (scheduler_channels c) made in
  let* _ := await made in
  sret (with_threads (omap (fun k => scheduler_handles c !! k) (keys (scheduler_handles c)))).

Definition unpark (l : list Thread) (tid : nat) : list Thread :=
  alter (fun t => mkThread (core_of t) (received t) false) tid l.

Definition release (b : BarrierHandle) : Ctx unit :=
  smodify (fun s => (s.1, mkSys (foldl unpark (threads s.2) (paused b)) (chans s.2) (world s.2))).

Definition drain_handles (c : NetBricksContext) : NetBricksContext :=
  mkCtx (ports c) (rx_queues c) (active_cores c) (virtual_ports c) (scheduler_channels c) ∅.

Definition wait : Ctx unit :=
  let* c := this in
  let* _ := put_ctx (drain_handles c) in
  for_map (scheduler_handles c) (fun _ handle => join handle).

Definition stop : Ctx unit :=
  let* c := this in
  let* _ := for_map (scheduler_channels c) (fun _ channel => send_cmd channel Standalone.Shutdown) in
  wait.

Definition shutdown : Ctx unit := stop.

End system.

(** ** Initialization *)

Section initialization.
Context {P : Profile} {Net : Type} {H : HasHost Net} {D : Dpdk Net}.
Context {HZ : HashOrder Z} {HS : HashOrder string}.
(** [{:?}] of an error *)
Context (debug_error : ErrorKind -> string).

#[global] Instance PortStats_eq_dec : EqDecision PortStats.
Proof. solve_decision. Defined.
#[global] Instance PmdPort_eq_dec : EqDecision PmdPort.
Proof. solve_decision. Defined.

(** Whether a queue pair of the port was handed out: such a queue keeps its [Arc] for ever,
    because [CacheAligned] frees its memory without dropping what is in it. *)
Definition held (c : NetBricksContext) (p : PmdPort) : bool :=
  existsb (fun kv => existsb (fun q => bool_decide (queue_port q = p)) kv.2) (map_to_list (rx_queues c)).

Fixpoint drop_ports (c : NetBricksContext) (names : list string) : St (World Net) unit :=
  match names with
  | [] => sret tt
  | n :: names =>
      let* _ := match ports c !! n with
                | Some p => if held c p then sret tt else PmdPort_drop p
                | None => sret tt
                end in
      drop_ports c names
  end.

(** An early return drops the context. *)
Definition fail_with {A} (c : NetBricksContext) (msg : string) : St (World Net) (result A) :=
  let* _ := drop_ports c (keys (ports c)) in sret (Err (ConfigurationError msg)).

Definition add_rx_queue (core : Z) (q : PortQueue) (c : NetBricksContext) : NetBricksContext :=
  mkCtx (ports c) (<[core := default [] (rx_queues c !! core) ++ [q]]> (rx_queues c)) (active_cores c)
    (virtual_ports c) (scheduler_channels c) (scheduler_handles c).

Definition add_port (n : string) (p : PmdPort) (c : NetBricksContext) : NetBricksContext :=
  mkCtx (<[n := p]> (ports c)) (rx_queues c) (active_cores c) (virtual_ports c) (scheduler_channels c)
    (scheduler_handles c).

(** [for (rx_q, core) in port.rx_queues.iter().enumerate()], from number [i] on *)
Fixpoint add_queues (name : string) (p : PmdPort) (cores : list Z) (i : Z) (c : NetBricksContext)
    : St (World Net) (result NetBricksContext) :=
  match cores with
  | [] => sret (Ok c)
  | core :: cores =>
      let rx_q := as_signed 32 i in
      let* r := slift (new_queue_pair p rx_q rx_q) in
      match r with
      | Ok q => add_queues name p cores (i + 1) (add_rx_queue core q c)
      | Err e =>
          fail_with c ("Queue " +:+ pretty rx_q +:+ " on port " +:+ name +:+ " could not be initialized " +:+ debug_error e)
      end
  end.

Fixpoint open_ports (l : list PortConf.PortConfiguration) (c : NetBricksContext)
    : St (World Net) (result NetBricksContext) :=
  match l with
  | [] => sret (Ok c)
  | port :: l =>
      let name := PortConf.name port in
      if decide (is_Some (ports c !! name)) then
        fail_with c ("Port " +:+ name +:+ " appears twice in specification")
      else
        let* r := new_port_from_configuration port in
        match r with
        | Err e => fail_with c ("Port " +:+ name +:+ " could not be initialized " +:+ debug_error e)
        | Ok p =>
            let* r := add_queues name p (PortConf.rx_queues port) 0 (add_port name p c) in
            match r with
            | Ok c => open_ports l c
            | Err e => sret (Err e)
            end
        end
  end.

(** The elements of a hash set, in the order it lists them *)
Definition set_elems (s : gset Z) : list Z := keys (gset_to_gmap tt s).

Definition set_active (l : list Z) (c : NetBricksContext) : NetBricksContext :=
  mkCtx (ports c) (rx_queues c) l (virtual_ports c) (scheduler_channels c) (scheduler_handles c).

Definition initialize_system (configuration : Conf.NetbricksConfiguration) : St (World Net) (result NetBricksContext) :=
  let* _ := Runtime.init_system configuration in
  let cores : gset Z := list_to_set (Conf.cores configuration) in
  let* r := open_ports (Conf.ports configuration) default_ctx in
  match r with
  | Err e => sret (Err e)
  | Ok ctx =>
      if Conf.strict configuration then
        let other_cores : gset Z := dom (rx_queues ctx) in
        let core_diff := pretty <$> set_elems (other_cores ∖ cores) in
        if negb (zlen core_diff =? 0) then
          fail_with ctx ("Strict configuration selected but core(s) " +:+ String.concat ", " core_diff +:+
            " appear in port configuration but not in cores")
        else sret (Ok (set_active (set_elems cores) ctx))
      else sret (Ok (set_active (set_elems (cores ∪ dom (rx_queues ctx))) ctx))
  end.

End initialization.

(** ** What initialization promises *)

Section initialized.
Context {P : Profile} {Net : Type} {H : HasHost Net} {D : Dpdk Net}.
Context {HZ : HashOrder Z} {HS : HashOrder string}.
Context (debug_error : ErrorKind -> string).

Lemma elem_of_set_elems x s : x ∈ set_elems s <-> x ∈ s.
Proof.
  unfold set_elems. rewrite keys_permutation, list_elem_of_fmap. split.
  - intros ([k []] & -> & Hk%elem_of_map_to_list). by apply lookup_gset_to_gmap_Some in Hk as [? _].
  - intros Hx. exists (x, tt). split; [done|]. apply elem_of_map_to_list. by apply lookup_gset_to_gmap_Some.
Qed.

Lemma NoDup_set_elems s : NoDup (set_elems s).
Proof. unfold set_elems. rewrite keys_permutation. apply NoDup_fst_map_to_list. Qed.

(** The queues that an assignment of queues to cores gives to a core, in order *)
Definition queues_on (core : Z) (l : list (Z * PortQueue)) : list PortQueue := (filter (fun cq => cq.1 = core) l).*2.

(** [l] pairs the receive queues of the port, from queue [i] on, with their cores. *)
Definition paired (p : PmdPort) (i : nat) (cores : list Z) (l : list (Z * PortQueue)) : Prop :=
  l.*1 = cores /\ forall k q, l.*2 !! k = Some q ->
    let n := as_signed 32 (Z.of_nat (i + k)) in new_queue_pair p n n = Ret (Ok q).

(** A context that holds the assignment [l] *)
Definition holds (c : NetBricksContext) (l : list (Z * PortQueue)) : Prop :=
  (forall core, ports_of c core = queues_on core l) /\ (forall core, core ∈ dom (rx_queues c) <-> core ∈ l.*1).

Lemma queues_on_app core l l' : queues_on core (l ++ l') = queues_on core l ++ queues_on core l'.
Proof. unfold queues_on. by rewrite filter_app, fmap_app. Qed.

Lemma holds_add c l core q : holds c l -> holds (add_rx_queue core q c) (l ++ [(core, q)]).
Proof.
  intros [Hq Hd]. split.
  - intros x. rewrite queues_on_app, <-Hq. unfold ports_of, add_rx_queue, queues_on. cbn [rx_queues].
    rewrite filter_cons. simpl. case_decide as Hx; simpl in Hx.
    + subst. by rewrite lookup_insert_eq.
    + by rewrite lookup_insert_ne, app_nil_r.
  - intros x. unfold add_rx_queue. cbn [rx_queues]. rewrite dom_insert, fmap_app, elem_of_app, <-Hd. set_solver.
Qed.

Lemma fail_with_Err {A} c msg w (r : result A) w' : fail_with c msg w = Ret (r, w') -> r = Err (ConfigurationError msg).
Proof. unfold fail_with. intros ([] & w1 & _ & [= <- _])%sbind_Ret_inv. done. Qed.

Lemma add_queues_Ok name p cores i c w c' w' l0 :
  add_queues debug_error name p cores (Z.of_nat i) c w = Ret (Ok c', w') -> holds c l0 ->
  exists l, paired p i cores l /\ holds c' (l0 ++ l) /\ ports c' = ports c.
Proof.
  revert i c w l0. induction cores as [|core cores IH]; intros i c w l0 Hr Hh; cbn [add_queues] in Hr.
  { injection Hr as <- <-. exists []. split; [done|]. by rewrite app_nil_r. }
  apply sbind_Ret_inv in Hr as (r & w1 & Hn & Hr). unfold slift in Hn.
  destruct (new_queue_pair _ _ _) as [r'| | |] eqn:Hq; try done. injection Hn as -> ->.
  destruct r as [q|e]; [|by apply fail_with_Err in Hr].
  replace (Z.of_nat i + 1) with (Z.of_nat (S i)) in Hr by lia.
  destruct (IH _ _ _ (l0 ++ [(core, q)]) Hr) as (l & [Hl1 Hl2] & Hh' & Hp); [by apply holds_add|].
  exists ((core, q) :: l). split_and!; [|by rewrite <-app_assoc in Hh'|by rewrite Hp].
  split; [by apply (f_equal (cons core))|]. intros [|k] q' Hk; simpl in *.
  - injection Hk as <-. by rewrite Nat.add_0_r.
  - rewrite Nat.add_succ_r. by apply (Hl2 k).
Qed.

(** One block of the assignment per configured port, in the order of the configuration *)
Definition assigns (pcs : list PortConf.PortConfiguration) (ps : gmap string PmdPort) (l : list (Z * PortQueue)) : Prop :=
  exists blocks, l = concat blocks /\
    Forall2 (fun pc b => exists p, ps !! PortConf.name pc = Some p /\ paired p 0 (PortConf.rx_queues pc) b) pcs blocks.

Lemma open_ports_Ok pcs c w c' w' l0 :
  open_ports debug_error pcs c w = Ret (Ok c', w') -> holds c l0 ->
  exists l, holds c' (l0 ++ l) /\ assigns pcs (ports c') l /\
    NoDup (PortConf.name <$> pcs) /\ ports c ⊆ ports c' /\
    (forall n, n ∈ PortConf.name <$> pcs -> ports c !! n = None) /\
    dom (ports c') = dom (ports c) ∪ list_to_set (PortConf.name <$> pcs).
Proof.
  revert c w l0. induction pcs as [|pc pcs IH]; intros c w l0 Hr Hh; cbn [open_ports] in Hr.
  { injection Hr as <- <-. exists []. rewrite app_nil_r. split_and!; try done; [by exists []|constructor|set_solver|set_solver]. }
  case_decide as Hd; [by apply fail_with_Err in Hr|]. rewrite <-eq_None_not_Some in Hd.
  apply sbind_Ret_inv in Hr as (r & w1 & Hn & Hr). destruct r as [p|e]; [|by apply fail_with_Err in Hr].
  apply sbind_Ret_inv in Hr as (r & w2 & Hq & Hr). destruct r as [c1|e]; [|done].
  destruct (add_queues_Ok _ _ _ 0 _ _ _ _ l0 Hq) as (b & Hb & Hh1 & Hp1); [exact Hh|]. simpl in Hp1.
  destruct (IH _ _ _ Hr Hh1) as (l & Hh2 & (bs & -> & Hbs) & Hnd & Hsub & Hnew & Hdom). rewrite Hp1 in *.
  exists (b ++ concat bs). rewrite app_assoc. split_and!; try done.
  - exists (b :: bs). split; [done|]. constructor; [|done]. exists p. split; [|done].
    eapply lookup_weaken; [|exact Hsub]. apply lookup_insert_eq.
  - simpl. constructor; [|done]. intros Hin. specialize (Hnew _ Hin). by rewrite lookup_insert_eq in Hnew.
  - etransitivity; [|exact Hsub]. by apply insert_subseteq.
  - intros n [->|Hin]%elem_of_cons; [done|]. specialize (Hnew n Hin).
    destruct (decide (PortConf.name pc = n)) as [<-|]; [done|]. by rewrite lookup_insert_ne in Hnew.
  - rewrite Hdom, dom_insert_L. simpl. set_solver.
Qed.

(** C13: When initialization succeeds, the ports have different names and each was opened
    once; every receive queue of every port, in the order of the configuration, is given to
    the core the configuration names for it, and to no other; every core that has a queue
    is active, no core is active twice, and the active cores are the configured ones,
    together with those that have a queue unless the configuration is strict, in which case
    these are among the configured ones. *)
Theorem initialize_assigns_queues conf w ctx w' :
  initialize_system debug_error conf w = Ret (Ok ctx, w') ->
  NoDup (PortConf.name <$> Conf.ports conf) /\
  dom (ports ctx) = list_to_set (PortConf.name <$> Conf.ports conf) /\
  (exists l, assigns (Conf.ports conf) (ports ctx) l /\ holds ctx l) /\
  NoDup (active_cores ctx) /\
  (forall x, x ∈ dom (rx_queues ctx) -> x ∈ active_cores ctx) /\
  (forall x, x ∈ active_cores ctx <-> x ∈ Conf.cores conf \/ x ∈ dom (rx_queues ctx)) /\
  (Conf.strict conf = true -> forall x, x ∈ dom (rx_queues ctx) -> x ∈ Conf.cores conf).
Proof.
  intros Hr. unfold initialize_system in Hr. apply sbind_Ret_inv in Hr as ([] & w1 & _ & Hr).
  apply sbind_Ret_inv in Hr as ([c|e] & w2 & Ho & Hr); [|done].
  destruct (open_ports_Ok _ _ _ _ _ [] Ho) as (l & Hh & Ha & Hnd & _ & _ & Hdom).
  { split; intros core; [done|]. simpl. rewrite dom_empty. set_solver. }
  change (ports default_ctx) with (∅ : gmap string PmdPort) in Hdom. rewrite dom_empty_L, union_empty_l_L in Hdom. destruct (Conf.strict conf).
  - destruct (Z.eqb_spec (zlen (pretty <$> set_elems (dom (rx_queues c) ∖ list_to_set (Conf.cores conf)))) 0) as [Hz|];
      simpl in Hr; [|by apply fail_with_Err in Hr]. injection Hr as <- <-.
    assert (Hsub : forall x, x ∈ dom (rx_queues c) -> x ∈ Conf.cores conf).
    { intros x Hx. destruct (decide (x ∈ Conf.cores conf)) as [|Hn]; [done|exfalso].
      rewrite length_fmap in Hz. assert (Hin : x ∈ set_elems (dom (rx_queues c) ∖ list_to_set (Conf.cores conf))).
      { apply elem_of_set_elems. set_solver. }
      destruct (set_elems _); [set_solver|simpl in Hz; lia]. }
    simpl. split_and!; try done; [by exists l|apply NoDup_set_elems|..].
    + intros x Hx. apply elem_of_set_elems. set_solver.
    + intros x. rewrite elem_of_set_elems. set_solver.
  - injection Hr as <- <-. simpl. split_and!; try done; [by exists l|apply NoDup_set_elems|..].
    + intros x Hx. apply elem_of_set_elems. set_solver.
    + intros x. rewrite elem_of_set_elems. set_solver.
Qed.

(** A port with receive queues and no send queues cannot be used: the queue pair of its
    first receive queue asks for the counter of send queue zero, and initialization panics
    instead of reporting an error. *)
Lemma initialize_rx_only_panics conf w w0 pc rest p w1 core cores :
  Runtime.init_system conf w = Ret (tt, w0) -> Conf.ports conf = pc :: rest ->
  new_port_from_configuration pc w0 = Ret (Ok p, w1) ->
  PortConf.rx_queues pc = core :: cores -> 0 < rxqs p -> txqs p = 0 -> Phy.stats_tx p = [] -> rxqs p <= zlen (Phy.stats_rx p) ->
  initialize_system debug_error conf w = Panic.
Proof.
  intros Hi Hp Ho Hrx Hr Ht Hs Hl. unfold initialize_system. erewrite sbind_Ret by exact Hi.
  rewrite Hp. cbn [open_ports]. unfold sbind at 1. rewrite decide_False by (by intros [? [=]]).
  erewrite sbind_Ret by exact Ho. cbn beta iota. unfold sbind at 1. rewrite Hrx. cbn [add_queues]. unfold sbind at 1, slift.
  change (as_signed 32 0) with 0. unfold new_queue_pair. rewrite Ht, Hs.
  rewrite !(proj2 (Z.ltb_ge _ _)) by lia. simpl.
  destruct (vindex_lt (Phy.stats_rx p) 0) as [s Hv]; [lia|]. by rewrite Hv.
Qed.

End initialized.

(** ** When initialization cannot panic *)

Section totality.
Context {P : Profile} {Net : Type} {H : HasHost Net} {D : Dpdk Net}.
Context {HZ : HashOrder Z} {HS : HashOrder string}.
Context (debug_error : ErrorKind -> string).

(** The native functions that initialization calls return. *)
Class NativeTotal : Prop := {
  max_txqs_total i : total (max_txqs i);
  max_rxqs_total i : total (max_rxqs i);
  init_pmd_port_total a b c d e f g h i j : total (init_pmd_port a b c d e f g h i j);
  free_pmd_port_total i : total (free_pmd_port i);
  attach_total s : total (attach_pmd_device s)
}.
Context {NT : NativeTotal}.

Lemma total_counters {A} (f : gmap Z Z -> outcome (A * gmap Z Z)) :
  (forall c, exists r, f c = Ret r) -> total (on_counters f : St (World Net) A).
Proof. intros Hf w. unfold on_counters. destruct (Hf (counters (net w))) as [[a c] ->]. by eexists _, _. Qed.

Lemma total_PortStats_new : total (PortStats_new : St (World Net) _).
Proof. apply total_counters. eauto. Qed.

Lemma total_new_stats n : total (new_stats n : St (World Net) _).
Proof. induction n; simpl; eauto using total_PortStats_new with nb_total. Qed.

#[local] Hint Resolve total_PortStats_new total_new_stats : nb_total.
#[local] Hint Resolve max_txqs_total max_rxqs_total init_pmd_port_total free_pmd_port_total attach_total : nb_total.

(** Names of devices, of which no prefix asks for another kind of port *)
Definition device_name (n : string) : Prop :=
  has_nul n = false /\ (split_colon n).1 <> "bess" /\ (split_colon n).1 <> "ovs" /\ (split_colon n).1 <> "dpdk".

(** Every queue of the port up to [n] can be asked for without a panic. *)
Definition answers (n : Z) (p : PmdPort) : Prop := forall i, 0 <= i < n -> exists r, new_queue_pair p i i = Ret r.

Lemma answers_stats n p : n <= zlen (Phy.stats_rx p) -> n <= zlen (Phy.stats_tx p) -> answers n p.
Proof.
  intros Hr Ht i Hi. unfold new_queue_pair. destruct (_ || _); [eauto|]. destruct (_ || _); [eauto|].
  destruct (vindex_lt (Phy.stats_rx p) i) as [sr ->]; [lia|]. destruct (vindex_lt (Phy.stats_tx p) i) as [st ->]; [lia|].
  simpl. eauto.
Qed.

(** A computation that returns, and any port it opens answers *)
Definition gives_port (n : Z) (m : St (World Net) (result PmdPort)) : Prop :=
  forall w, exists r w', m w = Ret (r, w') /\ match r with Ok p => answers n p | Err _ => True end.

Lemma gives_port_bind {A} n (m : St (World Net) A) k :
  total m -> (forall a, gives_port n (k a)) -> gives_port n (sbind m k).
Proof. intros Hm Hk w. destruct (Hm w) as (a & w1 & E). rewrite (sbind_Ret _ _ _ _ _ E). apply Hk. Qed.

Lemma gives_port_err n e : gives_port n (sret (Err e)).
Proof. intros w. by eexists _, _. Qed.

Lemma gives_port_stats (n : nat) k con cl port rq tq :
  k <= Z.of_nat n ->
  gives_port k (let* sr := new_stats n in let* st := new_stats n in sret (Ok (mkPmd con cl port rq tq sr st))).
Proof.
  intros Hk w. destruct (stats_pair n n (fun sr st => sret (Ok (mkPmd con cl port rq tq sr st))) w)
    as (l & l' & c & E & Hl & Hl' & _). eexists _, _. split; [exact E|]. simpl. apply answers_stats; simpl; lia.
Qed.

Lemma gives_port_dpdk spec n rc tc nr nt lb tso cs :
  has_nul spec = false -> (forall s, has_nul s = false -> has_nul ("0000:" +:+ s) = false) -> 0 <= n ->
  gives_port n (new_dpdk_port spec n n rc tc nr nt lb tso cs).
Proof using NT.
  intros Hs Hz Hn. unfold new_dpdk_port, cannonicalize_pci.
  apply gives_port_bind; [destruct (PCI_RE spec); eapply total_slift; unfold cstring; by rewrite ?Hz, ?Hs|intros spec'].
  apply gives_port_bind; [apply attach_total|intros port]. destruct (0 <=? port); [|apply gives_port_err].
  intros w. assert (Hi : gives_port n (init_dpdk_port port n n rc tc nr nt lb tso cs)).
  { unfold init_dpdk_port. do 2 (apply gives_port_bind; [eauto with nb_total|intros]).
    destruct (_ && _); [|apply gives_port_err]. apply gives_port_bind; [eauto with nb_total|intros ret].
    destruct (ret =? 0); [|apply gives_port_err]. apply gives_port_stats. lia. }
  destruct (Hi w) as (r & w' & E & Hr). eexists _, w'. split; [rewrite (sbind_Ret _ _ _ _ _ E); done|]. by destruct r.
Qed.

Lemma gives_port_null n : gives_port n null_port.
Proof.
  unfold null_port. do 2 (apply gives_port_bind; [apply total_PortStats_new|intros]). intros w.
  eexists _, _. split; [done|]. simpl. intros i Hi. unfold new_queue_pair. simpl.
  destruct (Z.ltb_spec 0 i); [eauto|]. assert (i = 0) as -> by lia. simpl. eauto.
Qed.

(** A port whose configuration asks for as many send queues as receive queues *)
Definition symmetric (pc : PortConf.PortConfiguration) : Prop :=
  device_name (PortConf.name pc) /\ length (PortConf.tx_queues pc) = length (PortConf.rx_queues pc) /\
  zlen (PortConf.rx_queues pc) < 2 ^ 31.

Lemma gives_port_configuration pc :
  symmetric pc -> gives_port (zlen (PortConf.rx_queues pc)) (new_port_from_configuration pc).
Proof using NT.
  intros ((Hnul & Hb & Ho & Hd) & Hl & Hs). unfold new_port_from_configuration.
  assert (Hz : zlen (PortConf.tx_queues pc) = zlen (PortConf.rx_queues pc)) by (by rewrite Hl).
  rewrite Hz, PacketBatch.as_i32_small by lia.
  unfold new_port_with_queues_descriptors_offloads.
  assert (Hk : vindex (splitn2 (PortConf.name pc)) 0 = Ret (split_colon (PortConf.name pc)).1).
  { unfold splitn2. by destruct (split_colon (PortConf.name pc)) as [kind [rest|]]. }
  intros w. erewrite sbind_Ret by (by apply slift_Ret). rewrite !decide_False by done.
  case_decide; [apply gives_port_null|]. apply gives_port_dpdk; [done|done|lia].
Qed.

Lemma total_PmdPort_drop p : total (PmdPort_drop p : St (World Net) _).
Proof using NT. unfold PmdPort_drop. eauto with nb_total. Qed.

Lemma total_drop_ports c ns : total (drop_ports c ns : St (World Net) _).
Proof using NT.
  induction ns as [|n ns IH]; simpl; [eauto with nb_total|]. apply total_sbind; [|done].
  destruct (ports c !! n); [destruct (held c p)|]; eauto using total_PmdPort_drop with nb_total.
Qed.

(** A computation that returns a value or a configuration error *)
Definition settles {A} (m : St (World Net) (result A)) : Prop :=
  forall w, exists r w', m w = Ret (r, w') /\ match r with Ok _ => True | Err e => exists msg, e = ConfigurationError msg end.

Lemma settles_ok {A} (a : A) : settles (sret (Ok a)).
Proof. intros w. by eexists _, _. Qed.

Lemma settles_fail {A} c msg : settles (fail_with (A := A) c msg).
Proof using NT.
  intros w. destruct (total_drop_ports c (keys (ports c)) w) as (u & w' & E). unfold fail_with.
  eexists _, _. rewrite (sbind_Ret _ _ _ _ _ E). split; [done|]. simpl. eauto.
Qed.

(** [let* r := m in match r with Ok a => k a | Err e => sret (Err e) end] *)
Lemma settles_bind {A B} (m : St (World Net) (result A)) (k : A -> St (World Net) (result B)) :
  settles m -> (forall a, settles (k a)) ->
  settles (let* r := m in match r with Ok a => k a | Err e => sret (Err e) end).
Proof.
  intros Hm Hk w. destruct (Hm w) as (r & w' & E & Hr). rewrite (sbind_Ret _ _ _ _ _ E).
  destruct r as [a|e]; [apply Hk|]. by eexists _, _.
Qed.

Lemma settles_add_queues name p cores i c :
  0 <= i -> i + zlen cores < 2 ^ 31 -> answers (i + zlen cores) p -> settles (add_queues debug_error name p cores i c).
Proof using NT.
  revert i c. induction cores as [|core cores IH]; intros i c Hi Hl Hp; cbn [add_queues]; [apply settles_ok|].
  simpl length in *. rewrite PacketBatch.as_i32_small by lia.
  destruct (Hp i ltac:(lia)) as [r Hr]. intros w. erewrite sbind_Ret by (by apply slift_Ret).
  destruct r as [q|e]; [|apply settles_fail]. apply IH; [lia..|]. by replace (i + 1 + _) with (i + Z.of_nat (S (length cores))) by lia.
Qed.

Lemma settles_open_ports l c : Forall symmetric l -> settles (open_ports debug_error l c).
Proof using NT.
  intros Hl. revert c. induction Hl as [|pc l Hpc Hl IH]; intros c; cbn [open_ports]; [apply settles_ok|].
  case_decide; [apply settles_fail|]. intros w. destruct (gives_port_configuration pc Hpc w) as (r & w' & E & Hr).
  rewrite (sbind_Ret _ _ _ _ _ E). destruct r as [p|e]; [|apply settles_fail]. destruct Hpc as (_ & _ & Hs).
  apply settles_bind; [|done]. by apply settles_add_queues.
Qed.

(** C17: Starting a system does not crash. When the native runtime starts, its calls return,
    and every port of the configuration names a device and asks for as many send queues as
    receive queues, [initialize_system] returns a context or a [ConfigurationError]; it never
    panics, whatever the native library answers about the devices and their queues. (A port
    without send queues does panic: [initialize_rx_only_panics].) *)
Theorem initialize_never_panics conf w w0 :
  Runtime.init_system conf w = Ret (tt, w0) -> Forall symmetric (Conf.ports conf) ->
  exists r w', initialize_system debug_error conf w = Ret (r, w') /\
    match r with Ok _ => True | Err e => exists msg, e = ConfigurationError msg end.
Proof using NT.
  intros Hi Hp. unfold initialize_system. rewrite (sbind_Ret _ _ _ _ _ Hi).
  apply settles_bind; [by apply settles_open_ports|]. intros ctx. destruct (Conf.strict conf); [|apply settles_ok].
  destruct (negb _); [apply settles_fail|apply settles_ok].
Qed.

End totality.

(** ** Talking to the schedulers *)

Section coordination.
Context {Task R Net : Type} {H : HasHost Net} {HZ : HashOrder Z}.
Abbreviation Cmd := (Standalone.SchedulerCommand Task (Installer R)).
Abbreviation Thr := (Thread (Task := Task) (R := R)).
Implicit Types l : list Thr.

Definition deliver (f : Z -> Cmd) (t : Thr) : Thr :=
  mkThread (core_of t) (received t ++ [f (core_of t)]) (is_handshake (f (core_of t))).

(** The thread behind the channel of its core *)
Definition addressed (m : gmap Z nat) (ks : list Z) (tid : nat) (t : Thr) : Prop :=
  core_of t ∈ ks /\ m !! core_of t = Some tid.

#[local] Instance addressed_dec m ks tid t : Decision (addressed m ks tid t).
Proof. unfold addressed. apply _. Defined.

(** The threads after each core of [ks] was sent a command *)
Definition broadcast (f : Z -> Cmd) (m : gmap Z nat) (ks : list Z) l : list Thr :=
  imap (fun tid t => if decide (addressed m ks tid t) then deliver f t else t) l.

(** Channels lead to threads of their core that take commands. *)
Definition listening (m : gmap Z nat) l : Prop := forall core tid, m !! core = Some tid ->
  exists t, l !! tid = Some t /\ core_of t = core /\ stopped t = false /\ parked t = false.

Lemma broadcast_cons f m k ks l tid t :
  m !! k = Some tid -> l !! tid = Some t -> core_of t = k -> k ∉ ks ->
  broadcast f m ks (<[tid := deliver f t]> l) = broadcast f m (k :: ks) l.
Proof.
  intros Hk Ht Hc Hn. apply list_eq. intros i. unfold broadcast. rewrite !list_lookup_imap.
  destruct (decide (i = tid)) as [->|Hi].
  - rewrite list_lookup_insert_eq by (by eapply lookup_lt_Some). rewrite Ht. simpl. f_equal.
    rewrite decide_False, decide_True; [done| |]; unfold addressed; simpl; rewrite Hc; [|naive_solver]. set_solver.
  - rewrite list_lookup_insert_ne by done. destruct (l !! i) as [t'|] eqn:Hti; [|done]. simpl. f_equal.
    apply decide_ext. unfold addressed. rewrite elem_of_cons. split; [naive_solver|].
    intros [[->|?] Hm]; [congruence|done].
Qed.

Lemma send_cmd_ok c (s : System) tid t (cmd : Cmd) :
  threads s !! tid = Some t -> stopped t = false -> parked t = false ->
  send_cmd (Net := Net) tid cmd (c, s) =
  Ret (tt, (c, mkSys (<[tid := mkThread (core_of t) (received t ++ [cmd]) (is_handshake cmd)]> (threads s)) (chans s) (world s))).
Proof.
  intros Ht Hs Hp. unfold send_cmd. erewrite sbind_Ret by done. simpl. by rewrite Ht, Hs, Hp.
Qed.

(** Sending to every core of [ks] *)
Lemma for_keys_send (f : Z -> Cmd) m ks c (s : System) :
  NoDup ks -> (forall k, k ∈ ks -> exists tid t, m !! k = Some tid /\ threads s !! tid = Some t /\
    core_of t = k /\ stopped t = false /\ parked t = false) ->
  for_keys (Net := Net) (fun core channel => send_cmd channel (f core)) ks m (c, s) =
  Ret (tt, (c, mkSys (broadcast f m ks (threads s)) (chans s) (world s))).
Proof.
  intros Hnd. revert s. induction Hnd as [|k ks Hk Hnd IH]; intros s Hl; cbn [for_keys].
  { destruct s as [l ch w]. unfold sret. do 4 f_equal. apply list_eq. intros i. unfold broadcast. cbn [threads].
    rewrite list_lookup_imap. destruct (l !! i) as [t|]; cbn [fmap option_fmap option_map]; [|done].
    rewrite decide_False; [done|]. unfold addressed. set_solver. }
  destruct (Hl k ltac:(left)) as (tid & t & Hm & Ht & Hc & Hs & Hp). rewrite Hm.
  erewrite sbind_Ret by (by apply send_cmd_ok). rewrite IH; simpl.
  - rewrite <-(broadcast_cons f m k ks (threads s) tid t) by done. unfold deliver. by rewrite Hc.
  - intros k' Hk'. destruct (Hl k' ltac:(by right)) as (tid' & t' & Hm' & Ht' & Hc' & Hs' & Hp').
    exists tid', t'. split_and!; try done. rewrite list_lookup_insert_ne; [done|].
    intros ->. rewrite Ht in Ht'. congruence.
Qed.

Lemma for_map_send (f : Z -> Cmd) m c (s : System) :
  listening m (threads s) ->
  for_map (Net := Net) m (fun core channel => send_cmd channel (f core)) (c, s) =
  Ret (tt, (c, mkSys (broadcast f m (keys m) (threads s)) (chans s) (world s))).
Proof.
  intros Hl. unfold for_map. apply for_keys_send; [apply NoDup_keys|].
  intros k [tid Hk]%elem_of_keys. destruct (Hl k tid Hk) as (t & Ht). by exists tid, t.
Qed.

(** A thread that took commands, none of them a shutdown or a handshake, still listens. *)
Definition ordinary (c : Cmd) : Prop := match c with Standalone.Shutdown | Standalone.Handshake _ => False | _ => True end.

Lemma stopped_deliver f t : stopped (deliver f t) = stopped t || match f (core_of t) with Standalone.Shutdown => true | _ => false end.
Proof. unfold stopped, deliver. cbn [received]. rewrite existsb_app. simpl. by rewrite orb_false_r. Qed.

Lemma broadcast_lookup f m l core tid t :
  m !! core = Some tid -> l !! tid = Some t -> core_of t = core -> broadcast f m (keys m) l !! tid = Some (deliver f t).
Proof.
  intros Hm Ht Hc. unfold broadcast. rewrite list_lookup_imap, Ht. simpl. f_equal. apply decide_True.
  split; rewrite Hc; [|done]. apply elem_of_keys. eauto.
Qed.

Lemma listening_broadcast f m l :
  (forall core, ordinary (f core)) -> listening m l -> listening m (broadcast f m (keys m) l).
Proof.
  intros Hf Hl core tid Hm. destruct (Hl core tid Hm) as (t & Ht & Hc & Hs & Hp).
  exists (deliver f t). split; [by eapply broadcast_lookup|]. split; [done|]. rewrite stopped_deliver, Hs.
  specialize (Hf (core_of t)). unfold deliver. cbn [parked]. by destruct (f (core_of t)).
Qed.

(** One thread per core, each with its own history *)
Definition fleet (cores : list Z) (log : Z -> list Cmd) (pk : bool) : list Thr :=
  (fun core => mkThread core (log core) pk) <$> cores.

(** The channel of the [i]-th core leads to the [i]-th thread. *)
Definition wired (m : gmap Z nat) (cores : list Z) : Prop :=
  forall core tid, m !! core = Some tid <-> cores !! tid = Some core.

Definition running (log : list Cmd) : Prop :=
  existsb (fun c => match c with Standalone.Shutdown => true | _ => false end) log = false.

Lemma fleet_listening m cores log :
  wired m cores -> (forall core, running (log core)) -> listening m (fleet cores log false).
Proof.
  intros Hw Hr core tid Hm%Hw. exists (mkThread core (log core) false). split_and!; try done.
  - unfold fleet. by rewrite list_lookup_fmap, Hm.
  - apply Hr.
Qed.

Lemma fleet_broadcast f m cores log pk :
  wired m cores ->
  broadcast f m (keys m) (fleet cores log pk) =
  (fun core => mkThread core (log core ++ [f core]) (is_handshake (f core))) <$> cores.
Proof.
  intros Hw. apply list_eq. intros i. unfold broadcast. rewrite list_lookup_imap. unfold fleet. rewrite !list_lookup_fmap.
  destruct (cores !! i) as [core|] eqn:Hi; [|done]. cbn [fmap option_fmap option_map]. f_equal. apply decide_True.
  apply Hw in Hi. split; [|done]. apply elem_of_keys. eauto.
Qed.

(** Sending the same kind of command to every core of the fleet *)
Lemma fleet_send f m cores log c (s : System) :
  wired m cores -> (forall core, running (log core)) -> threads s = fleet cores log false ->
  (forall core, is_handshake (f core) = false) ->
  for_map (Net := Net) m (fun core channel => send_cmd channel (f core)) (c, s) =
  Ret (tt, (c, mkSys (fleet cores (fun core => log core ++ [f core]) false) (chans s) (world s))).
Proof.
  intros Hw Hr Ht Hf. rewrite for_map_send by (rewrite Ht; by apply fleet_listening).
  rewrite Ht, fleet_broadcast by done. do 4 f_equal. apply list_fmap_ext. intros i core _. by rewrite Hf.
Qed.

Lemma fleet_join m cores log c (s : System) :
  wired m cores -> (forall core, ~ running (log core)) -> threads s = fleet cores log false ->
  for_map (Net := Net) m (fun _ handle => join handle) (c, s) = Ret (tt, (c, s)).
Proof.
  intros Hw Hr Ht. unfold for_map. induction (keys m) as [|k ks IH]; cbn [for_keys]; [done|].
  destruct (m !! k) as [tid|] eqn:Hk; [|exact IH]. erewrite sbind_Ret; [exact IH|].
  unfold join. erewrite sbind_Ret by done. cbn [snd]. rewrite Ht. apply Hw in Hk. unfold fleet. rewrite list_lookup_fmap, Hk.
  cbn. unfold stopped. simpl received. specialize (Hr k). unfold running in Hr.
  by destruct (existsb _ (log k)).
Qed.

Lemma start_scheduler_ok core c (s : System) :
  start_scheduler (Net := Net) core (c, s) =
  Ret (tt, (mkCtx (ports c) (rx_queues c) (active_cores c) (virtual_ports c)
              (<[core := length (threads s)]> (scheduler_channels c)) (<[core := length (threads s)]> (scheduler_handles c)),
            mkSys (threads s ++ [mkThread core [] false : Thr]) (chans s) (world s))).
Proof. done. Qed.

Lemma start_each_ok cores c (s : System) :
  start_each (Net := Net) cores (c, s) =
  Ret (tt, (mkCtx (ports c) (rx_queues c) (active_cores c) (virtual_ports c)
              (list_to_map (reverse (imap (fun i core => (core, (length (threads s) + i)%nat)) cores)) ∪ scheduler_channels c)
              (list_to_map (reverse (imap (fun i core => (core, (length (threads s) + i)%nat)) cores)) ∪ scheduler_handles c),
            mkSys (threads s ++ fleet cores (fun _ => []) false) (chans s) (world s))).
Proof.
  revert c s. induction cores as [|core cores IH]; intros c s; cbn [start_each].
  { simpl. rewrite !(left_id_L ∅ (∪)), app_nil_r. by destruct c, s. }
  erewrite sbind_Ret by apply start_scheduler_ok. rewrite IH. simpl. rewrite length_app, <-app_assoc. simpl.
  assert (Hm : forall m : gmap Z nat,
    list_to_map (reverse (imap (fun i core => (core, (length (threads s) + 1 + i)%nat)) cores)) ∪
      <[core := length (threads s)]> m =
    list_to_map (reverse ((core, (length (threads s) + 0)%nat) ::
      imap ((fun i core => (core, (length (threads s) + i)%nat)) ∘ S) cores)) ∪ m).
  { intros m. rewrite reverse_cons, list_to_map_app. simpl. rewrite insert_empty, <-(assoc_L (∪)), Nat.add_0_r.
    rewrite <-insert_union_singleton_l. do 3 f_equal. apply imap_ext. intros i x _. simpl. f_equal. lia. }
  by rewrite !Hm.
Qed.

Lemma wired_imap cores :
  NoDup cores -> wired (list_to_map (reverse (imap (fun i core => (core, i)) cores))) cores.
Proof.
  intros Hnd core tid.
  assert (Hfst : (reverse (imap (fun i core => (core, i)) cores)).*1 ≡ₚ cores).
  { rewrite reverse_Permutation, fmap_imap. replace (imap _ cores) with cores; [done|].
    apply list_eq. intros i. rewrite list_lookup_imap. by destruct (cores !! i). }
  rewrite <-(elem_of_list_to_map (M := gmap Z)) by (by rewrite Hfst). rewrite elem_of_reverse, elem_of_lookup_imap.
  split; [by intros (i & x & [= -> ->] & Hi)|]. intros Hi. by exists tid, core.
Qed.

(** Starting the schedulers of a fresh system *)
Lemma start_schedulers_ok c (s : System) :
  NoDup (active_cores c) -> scheduler_channels c = ∅ -> scheduler_handles c = ∅ -> threads s = [] ->
  exists m, wired m (active_cores c) /\
    start_schedulers (Net := Net) (c, s) =
    Ret (tt, (mkCtx (ports c) (rx_queues c) (active_cores c) (virtual_ports c) m m,
              mkSys (fleet (active_cores c) (fun _ => []) false) (chans s) (world s))).
Proof.
  intros Hnd Hc Hh Ht. eexists. split; [by apply wired_imap|]. unfold start_schedulers.
  erewrite sbind_Ret by done. cbn [fst]. rewrite start_each_ok, Hc, Hh, Ht. by rewrite !(right_id_L ∅ (∪)).
Qed.

(** C19: The life of a system. On an initialized context, starting the schedulers, installing
    a pipeline, executing and stopping returns; by then there is exactly one scheduler thread
    per active core, it has received the installer with the queues of its own core, the
    order to execute and the shutdown, in this order and nothing else, and all of them were
    joined. After that the channels are dead: a further command panics. *)
Theorem system_lifecycle c (s : System) (run : R) :
  NoDup (active_cores c) -> scheduler_channels c = ∅ -> scheduler_handles c = ∅ -> threads s = [] ->
  exists c' s',
    (let* _ := start_schedulers in let* _ := add_pipeline_to_run run in let* _ := execute in stop) (c, s) =
      Ret (tt, (c', s')) /\
    threads s' = fleet (active_cores c)
      (fun core => [Standalone.Run (OnPorts run (ports_of c core)); Standalone.Execute; Standalone.Shutdown]) false /\
    scheduler_handles c' = ∅ /\ world s' = world (Net := Net) s /\
    (active_cores c <> [] -> execute (c', s') = Panic).
Proof.
  intros Hnd Hc Hh Ht. destruct (start_schedulers_ok c s Hnd Hc Hh Ht) as (m & Hw & Hs).
  set (c1 := mkCtx (ports c) (rx_queues c) (active_cores c) (virtual_ports c) m m) in *.
  set (log := fun core => [Standalone.Run (OnPorts run (ports_of c core)); Standalone.Execute; Standalone.Shutdown]).
  exists (drain_handles c1), (mkSys (fleet (active_cores c) log false) (chans s) (world s)). split_and!; try done.
  - erewrite sbind_Ret by exact Hs. unfold add_pipeline_to_run, execute, stop, wait.
    erewrite sbind_Ret. 2: { erewrite sbind_Ret by done.
      by apply (fleet_send (fun core => Standalone.Run (OnPorts run (ports_of c1 core))) m (active_cores c) (fun _ => [])). }
    erewrite sbind_Ret. 2: { erewrite sbind_Ret by done.
      by apply (fleet_send (fun _ => Standalone.Execute) m (active_cores c) (fun core => [Standalone.Run (OnPorts run (ports_of c core))])). }
    erewrite sbind_Ret by done. cbn [fst].
    erewrite sbind_Ret by (by apply (fleet_send (fun _ => Standalone.Shutdown) m (active_cores c) 
      (fun core => [Standalone.Run (OnPorts run (ports_of c core)); Standalone.Execute]))).
    erewrite sbind_Ret by done. erewrite sbind_Ret by done. by apply (fleet_join m (active_cores c) log).
  - intros Hne. unfold execute. erewrite sbind_Ret by done. unfold for_map.
    destruct (active_cores c) as [|core cores] eqn:Hac; [done|].
    assert (Hm : m !! core = Some 0%nat) by (by apply Hw).
    assert (Hk : core ∈ keys m) by (apply elem_of_keys; eauto).
    assert (Hall : forall k tid, m !! k = Some tid -> fleet (core :: cores) log false !! tid = Some (mkThread k (log k) false)).
    { intros k tid Hk1%Hw. unfold fleet. by rewrite list_lookup_fmap, Hk1. }
    cbn [scheduler_channels drain_handles c1 fst]. induction (keys m) as [|k ks IH]; [set_solver|]. cbn [for_keys].
    destruct (m !! k) as [tid|] eqn:Hmk.
    + unfold sbind at 1, send_cmd. erewrite sbind_Ret by done. cbn [snd threads]. by rewrite (Hall _ _ Hmk).
    + apply IH. apply elem_of_cons in Hk as [->|]; [congruence|done].
Qed.

Lemma handshakes_for_keys g ks chs m (s : NetBricksContext * System) :
  (forall k, k ∈ ks -> is_Some (m !! k)) -> Forall2 (fun k ch => g k = ch) ks chs ->
  handshakes (Net := Net) ks m chs s = for_keys (fun core channel => send_cmd channel (Standalone.Handshake (g core) : Cmd)) ks m s.
Proof.
  intros Hk Hg. revert s. induction Hg as [|k ch ks chs <- _ IH]; intros s; cbn [handshakes for_keys]; [done|].
  destruct (Hk k ltac:(left)) as [tid Hm]. rewrite Hm. unfold sbind. destruct (send_cmd _ _ s) as [[[] s1]| | |]; try done.
  apply IH. intros k' Hk'. apply Hk. by right.
Qed.

Lemma answered_fleet cores log pk chan core :
  core ∈ cores -> Standalone.Handshake chan ∈ log core -> answered chan (fleet cores log pk) = true.
Proof.
  intros Hc Hl. apply existsb_exists. exists (mkThread core (log core) pk). split.
  - apply list_elem_of_In, (list_elem_of_fmap_2 (fun core => mkThread core (log core) pk)), Hc.
  - apply existsb_exists. exists (Standalone.Handshake chan). split; [by apply list_elem_of_In|]. apply Z.eqb_refl.
Qed.

Lemma await_ok chs (s : NetBricksContext * System) :
  (forall ch, ch ∈ chs -> answered ch (threads s.2) = true) -> await (Task := Task) (R := R) (Net := Net) chs s = Ret (tt, s).
Proof.
  induction chs as [|ch chs IH]; intros Ha; cbn [await]; [done|]. erewrite sbind_Ret by done.
  rewrite Ha by left. apply IH. intros ch' Hch'. apply Ha. by right.
Qed.

(** Waking threads one by one wakes those listed. *)
Lemma unpark_all l tids i :
  foldl unpark l tids !! i =
  (fun t => if decide (i ∈ tids) then mkThread (core_of t) (received t) false else t) <$> l !! i.
Proof.
  revert l. induction tids as [|tid tids IH]; intros l; cbn [foldl].
  { by destruct (l !! i). }
  rewrite IH. unfold unpark. destruct (decide (tid = i)) as [->|Hne].
  - rewrite list_lookup_alter_eq. destruct (l !! i) as [t|]; simpl; [|done]. f_equal.
    rewrite (decide_True (P := i ∈ i :: tids)) by left. by destruct (decide (i ∈ tids)).
  - rewrite list_lookup_alter_ne by done. destruct (l !! i); simpl; [|done]. f_equal.
    apply decide_ext. rewrite elem_of_cons. naive_solver.
Qed.

Lemma fleet_unpark cores log tids :
  (forall i, (i < length cores)%nat -> i ∈ tids) -> foldl unpark (fleet cores log true) tids = fleet cores log false.
Proof.
  intros Hi. apply list_eq. intros i. rewrite unpark_all. unfold fleet. rewrite !list_lookup_fmap.
  destruct (cores !! i) as [core|] eqn:Hc; [|done]. cbn. f_equal. rewrite decide_True; [done|].
  apply Hi. by eapply lookup_lt_Some.
Qed.

(** The handshake channels of a barrier: one per channel, all different *)
Lemma barrier_channels (m : gmap Z nat) base :
  exists g : Z -> Z, Forall2 (fun k ch => g k = ch) (keys m) ((fun i => base + Z.of_nat i) <$> seq 0 (base.size m)) /\
    forall x y, x ∈ keys m -> y ∈ keys m -> g x = g y -> x = y.
Proof.
  assert (Hlen : length (keys m) = base.size m).
  { rewrite (Permutation_length (keys_permutation m)), length_fmap. by apply length_map_to_list. }
  exists (fun k => base + Z.of_nat (default 0%nat (fst <$> list_find (fun x => x = k) (keys m)))).
  assert (Hpos : forall i k, keys m !! i = Some k -> fst <$> list_find (fun x => x = k) (keys m) = Some i).
  { intros i k Hk. destruct (list_find_elem_of (fun x => x = k) (keys m) k) as [[j x] Hj]; [|done|].
    { by eapply list_elem_of_lookup_2. }
    rewrite Hj. simpl. f_equal. apply list_find_Some in Hj as (Hj & -> & _).
    eapply NoDup_lookup; [apply (NoDup_keys m)|done|done]. }
  split.
  - apply Forall2_same_length_lookup_2; [by rewrite length_fmap, length_seq|].
    intros i k ch Hk Hch. rewrite (Hpos i k Hk). simpl.
    apply list_lookup_fmap_Some in Hch as (j & -> & [-> _]%lookup_seq). lia.
  - intros x y [i Hx]%list_elem_of_lookup [j Hy]%list_elem_of_lookup. rewrite (Hpos i x Hx), (Hpos j y Hy). simpl.
    intros Hij. assert (i = j) as -> by lia. congruence.
Qed.

(** C35: A barrier pauses every scheduler and its release resumes every scheduler. With all
    schedulers listening, [barrier] returns, each thread having answered a handshake of its
    own and being parked; [release] wakes all of them and they have missed nothing. *)
Theorem barrier_pauses_all c (s : System) cores log :
  NoDup cores -> wired (scheduler_channels c) cores -> scheduler_handles c = scheduler_channels c ->
  (forall core, running (log core)) -> threads s = fleet cores log false ->
  exists b s1 g,
    barrier (Net := Net) (c, s) = Ret (b, (c, s1)) /\
    threads s1 = fleet cores (fun core => log core ++ [Standalone.Handshake (g core)]) true /\
    (forall x y, x ∈ cores -> y ∈ cores -> g x = g y -> x = y) /\
    exists s2, release b (c, s1) = Ret (tt, (c, s2)) /\
      threads s2 = fleet cores (fun core => log core ++ [Standalone.Handshake (g core)]) false.
Proof.
  intros Hnd Hw Hh Hr Ht. set (m := scheduler_channels c) in *.
  destruct (barrier_channels m (chans s)) as (g & Hg & Hinj).
  assert (Hkeys : forall k, k ∈ keys m <-> k ∈ cores).
  { intros k. rewrite elem_of_keys, list_elem_of_lookup. split; intros [tid Hk]; exists tid; by apply Hw. }
  set (s0 := mkSys (threads s) (chans s + Z.of_nat (base.size m)) (world s)).
  set (s1 := mkSys (fleet cores (fun core => log core ++ [Standalone.Handshake (g core)]) true)
    (chans s + Z.of_nat (base.size m)) (world s)).
  assert (Hsend : handshakes (keys m) m ((fun i => chans s + Z.of_nat i) <$> seq 0 (base.size m)) (c, s0) = Ret (tt, (c, s1))).
  { rewrite (handshakes_for_keys g) by (done || intros k; apply elem_of_keys).
    etransitivity; [apply for_map_send; simpl; rewrite Ht; by apply fleet_listening|].
    simpl. by rewrite Ht, (fleet_broadcast (fun core => Standalone.Handshake (g core))) by done. }
  eexists _, s1, g. split; [|split; [done|split]].
  - unfold barrier. erewrite sbind_Ret by done. erewrite sbind_Ret by done. cbn [fst snd]. rewrite Hh. fold m.
    erewrite sbind_Ret by done. cbn [snd]. erewrite sbind_Ret by exact Hsend.
    erewrite sbind_Ret; [done|]. apply await_ok. intros ch Hch. cbn [snd].
    apply list_elem_of_lookup in Hch as [i Hi]. destruct (Forall2_lookup_r _ _ _ _ _ Hg Hi) as (k & Hk & <-).
    apply (answered_fleet _ _ _ _ k); [|set_solver]. apply Hkeys. by eapply list_elem_of_lookup_2.
  - intros x y Hx Hy. apply Hinj; by apply Hkeys.
  - eexists. split; [done|]. simpl. apply fleet_unpark. intros i Hi.
    destruct (lookup_lt_is_Some_2 cores i Hi) as [core Hcore]. apply list_elem_of_omap. exists core.
    split; [|by apply Hw]. apply Hkeys. by eapply list_elem_of_lookup_2.
Qed.

End coordination.

(** ** What a thread does with the commands of the context *)

Section thread.
Context {P : Profile} {Task R W : Type} {CW : Standalone.Clock W} {RT : Standalone.Runtime Task (Installer R) W}.

(** The channel of a thread that receives [log] with [k] idle polls before its last command *)
Definition arrivals (k : nat) (log : list (Standalone.SchedulerCommand Task (Installer R))) :=
  (Some <$> removelast log) ++ replicate k None ++ drop (length log - 1) (Some <$> log).

(** A scheduler thread that the life of a system runs, from its creation to its end. It
    calls the installer, which leaves the tasks [q] in its queue, executes them for as many
    rounds as it finds its channel empty and one more, in order, and ends with the
    shutdown: the thread function returns. *)
Lemma thread_runs_pipeline (c : NetBricksContext) core run k fuel q (e : Standalone.Env W) w1 begin w2 last q' w' :
  let f := OnPorts run (ports_of c core) in
  let s0 := Standalone.mkScheduler [] 0 (Some Standalone.Execute :: replicate k None ++ [Some Standalone.Shutdown]) false false in
  Standalone.call_run f s0 (Standalone.world e) = Ret (Standalone.set_run_q q s0, w1) ->
  q <> [] -> zlen q < 2 ^ 64 ->
  Standalone.rdtsc_unsafe w1 = Ret (begin, w2) -> Standalone.run_rounds (S k) begin q w2 = Ret (last, q', w') ->
  (S k * length q <= fuel)%nat ->
  Standalone.handle_requests (S (S fuel))
    (Standalone.new_with_channel (arrivals k [Standalone.Run f; Standalone.Execute; Standalone.Shutdown]), e) =
  Ret (tt, (Standalone.mkScheduler q' 0 [] false true, Standalone.mkEnv w' (Standalone.answered e))).
Proof.
  intros f s0 Hf Hq Hl Ht Hr Hfu. unfold Standalone.handle_requests. erewrite sbind_Ret by done.
  cbn [Standalone.while_requests]. erewrite sbind_Ret by done. cbn [fst Standalone.shutdown Standalone.set_shutdown].
  erewrite sbind_Ret by done. cbn beta iota.
  erewrite sbind_Ret.
  2: { unfold Standalone.handle_request, Standalone.handle_request_with. erewrite sbind_Ret by done.
       erewrite sbind_Ret by (unfold Standalone.in_world; apply zoom_Ret; exact Hf). done. }
  cbn [fst snd Standalone.while_requests]. erewrite sbind_Ret by done.
  cbn [fst Standalone.shutdown Standalone.set_run_q s0]. erewrite sbind_Ret by done. cbn beta iota.
  erewrite sbind_Ret.
  2: { unfold Standalone.handle_request, Standalone.handle_request_with, Standalone.execute_loop. erewrite sbind_Ret by done.
       erewrite sbind_Ret by (unfold Standalone.in_world; apply zoom_Ret; exact Ht).
       erewrite sbind_Ret by done. cbn [fst Standalone.run_q Standalone.set_executing Standalone.set_channel Standalone.set_run_q].
       rewrite (proj2 (Z.eqb_neq (zlen q) 0)) by (destruct q; [done|simpl; lia]). cbn [negb].
       replace fuel with (S k * length q + (fuel - S k * length q))%nat by lia.
       by apply (Standalone.loop_until_shutdown k _ q [] false begin (Standalone.mkEnv w2 (Standalone.answered e)) last q' w'). }
  destruct fuel; by cbn.
Qed.

End thread.

End Context.

(** ** A system of one device and two cores *)

Module ContextSample.
Import Context PortSample.

#[local] Existing Instance Prelude.release.
#[local] Instance listed {K} `{Countable K} : HashOrder K :=
  {| keys A m := (map_to_list m).*1; keys_permutation A m := reflexivity _ |}.

Definition debug (e : ErrorKind) : string := "error".

(** One port with a queue on core 1 and a queue on core 2; core 1 is configured. *)
Definition conf12 : Conf.NetbricksConfiguration :=
  Conf.mkConf "nf" false 0 [1] false [PortConf.new_with_queues "02:00.0" [1; 2] [1; 2]] 511 32 None.

Definition initialized : outcome (result NetBricksContext * World host) := initialize_system debug conf12 world0.
Definition ctx12 : NetBricksContext := match initialized with Ret (Ok c, _) => c | _ => default_ctx end.
Definition world12 : World host := match initialized with Ret (_, w) => w | _ => world0 end.

Lemma initialize_assigns_queues_witness :
  initialize_system debug conf12 world0 = Ret (Ok ctx12, world12) /\
  (forall x, x ∈ active_cores ctx12 <-> x ∈ [1] \/ x ∈ dom (rx_queues ctx12)) /\
  (exists l, assigns (Conf.ports conf12) (ports ctx12) l /\ holds ctx12 l).
Proof.
  assert (Hi : initialize_system debug conf12 world0 = Ret (Ok ctx12, world12)) by (vm_compute; reflexivity).
  destruct (initialize_assigns_queues debug conf12 world0 ctx12 world12 Hi) as (_ & _ & Hl & _ & _ & Ha & _).
  split; [exact Hi|]. split; [exact Ha|exact Hl].
Defined.

#[local] Instance machine_total : NativeTotal (D := machine).
Proof. split; intros; intros w; by eexists _, _. Qed.

Lemma initialize_never_panics_witness :
  exists r w', initialize_system debug conf12 world0 = Ret (r, w') /\
    match r with Ok _ => True | Err e => exists msg, e = ConfigurationError msg end.
Proof.
  eapply (initialize_never_panics debug conf12 world0); [vm_compute; reflexivity|].
  constructor; [|constructor]. split; [split; [reflexivity|repeat split; discriminate]|]. split; reflexivity.
Defined.

(** A port whose configuration names receive cores only *)
Definition rx_only : Conf.NetbricksConfiguration :=
  Conf.mkConf "nf" false 0 [1] false [PortConf.new_with_queues "02:00.0" [1] []] 511 32 None.
Definition rx_port : PmdPort := mkPmd true true 0 1 0 [mkStats 1] [].

Lemma initialize_rx_only_panics_witness : initialize_system debug rx_only world0 = Panic.
Proof.
  eapply (initialize_rx_only_panics debug rx_only); [vm_compute; reflexivity|reflexivity|vm_compute; reflexivity|reflexivity|..];
    vm_compute; done.
Defined.

Definition sys0 : System (Task := unit) (R := unit) (Net := host) := mkSys [] 0 world12.

Lemma active12 : NoDup (active_cores ctx12).
Proof. apply (bool_decide_unpack _). vm_compute. exact I. Qed.

Lemma system_lifecycle_witness :
  exists c' s',
    (let* _ := start_schedulers in let* _ := add_pipeline_to_run tt in let* _ := execute in stop) (ctx12, sys0) =
      Ret (tt, (c', s')) /\
    threads s' = fleet (active_cores ctx12)
      (fun core => [Standalone.Run (OnPorts tt (ports_of ctx12 core)); Standalone.Execute; Standalone.Shutdown]) false /\
    scheduler_handles c' = ∅.
Proof.
  destruct (system_lifecycle ctx12 sys0 tt) as (c' & s' & Hr & Ht & Hh & _);
    [exact active12|vm_compute; reflexivity|vm_compute; reflexivity|reflexivity|].
  exists c', s'. split; [exact Hr|]. split; [exact Ht|exact Hh].
Defined.

(** Two running schedulers *)
Definition ctx_running : NetBricksContext :=
  mkCtx ∅ ∅ [4; 7] ∅ (<[4 := 0%nat]> (<[7 := 1%nat]> ∅)) (<[4 := 0%nat]> (<[7 := 1%nat]> ∅)).
Definition sys_running : System (Task := unit) (R := unit) (Net := host) :=
  mkSys (fleet [4; 7] (fun _ => [Standalone.Execute]) false) 0 world0.

Lemma ctx_running_wired : wired (scheduler_channels ctx_running) [4; 7].
Proof.
  intros core tid. simpl. rewrite !lookup_insert_Some, lookup_empty. split.
  - by intros [[<- <-]|[_ [[<- <-]|[_ [=]]]]].
  - destruct tid as [|[|tid]]; simpl; intros [= <-]; naive_solver.
Qed.

Lemma barrier_pauses_all_witness :
  exists b s1 g, barrier (ctx_running, sys_running) = Ret (b, (ctx_running, s1)) /\
    threads s1 = fleet [4; 7] (fun core => [Standalone.Execute; Standalone.Handshake (g core)]) true.
Proof.
  destruct (barrier_pauses_all ctx_running sys_running [4; 7] (fun _ => [Standalone.Execute])) as (b & s1 & g & Hb & Ht & _).
  - apply (bool_decide_unpack _). vm_compute. exact I.
  - exact ctx_running_wired.
  - reflexivity.
  - reflexivity.
  - reflexivity.
  - exists b, s1, g. split; [exact Hb|exact Ht].
Defined.

(** A task counts its runs in the world; the installer installs it; the clock stands still. *)
#[local] Instance standing : Standalone.Clock Z := fun w => Ret (0, w).
#[local] Instance counting : Standalone.Runtime unit (Installer unit) Z := {|
  Standalone.task_execute t w := Ret (t, w + 1);
  Standalone.call_run _ s w := Ret (Standalone.set_run_q [Standalone.mkRunnable tt 0 0] s, w)
|}.

Lemma thread_runs_pipeline_witness :
  Standalone.handle_requests 5
    (Standalone.new_with_channel (arrivals 2
       [Standalone.Run (OnPorts tt (ports_of ctx12 1)); Standalone.Execute; Standalone.Shutdown]),
     Standalone.mkEnv 0 []) =
  Ret (tt, (Standalone.mkScheduler [Standalone.mkRunnable tt 0 0] 0 [] false true, Standalone.mkEnv 3 [])).
Proof.
  apply (thread_runs_pipeline ctx12 1 tt 2 3 [Standalone.mkRunnable tt 0 0] (Standalone.mkEnv 0 []) 0 0 0 0);
    [reflexivity|discriminate|reflexivity|reflexivity|reflexivity|apply le_n].
Defined.

End ContextSample.
