(* ===== verification/Queues.v ===== *)
(** * The counters of the queues that initialization hands out

    Every port that [initialize_system] opens has new counters, and every queue pair of it
    counts on two of them. So the queues that a core receives count separately, from zero:
    what the pipelines of a core rely on. *)

From S2P Require Import Prelude Packet Batch Config Ports Context.
Import Phy PhySpec Context.

(** The counters of a queue pair *)
Definition queue_ids (q : PortQueue) : list Z := [stats (queue_stats_rx q); stats (queue_stats_tx q)].
Definition all_ids (qs : list PortQueue) : list Z := qs ≫= queue_ids.

(** Queues that count separately, from zero *)
Definition separate (qs : list PortQueue) (c : gmap Z Z) : Prop :=
  NoDup (all_ids qs) /\ Forall (fun id => c !! id = Some 0) (all_ids qs).

Lemma all_ids_snoc qs q : all_ids (qs ++ [q]) = all_ids qs ++ queue_ids q.
Proof. unfold all_ids. by rewrite bind_app. Qed.

Lemma separate_subseteq qs (c c' : gmap Z Z) : separate qs c -> c ⊆ c' -> separate qs c'.
Proof. intros [Hnd Hz] Hs. split; [done|]. eapply Forall_impl; [exact Hz|]. intros id Hid. exact (lookup_weaken _ _ _ _ Hid Hs). Qed.

(** The counter belongs to queue pair [k] of the port. *)
Definition of_queue (p : PmdPort) (k : nat) (id : Z) : Prop :=
  (stats <$> stats_rx p) !! k = Some id \/ (stats <$> stats_tx p) !! k = Some id.

Lemma of_queue_counters p k id : of_queue p k id -> id ∈ counters_of p.
Proof. unfold counters_of. rewrite fmap_app, elem_of_app. intros [Hk|Hk]; apply list_elem_of_lookup_2 in Hk; tauto. Qed.

Lemma of_queue_inj p c k k' id : port_ok p c -> of_queue p k id -> of_queue p k' id -> k = k'.
Proof.
  intros [_ _ Hnd _ _]. rewrite fmap_app in Hnd. apply NoDup_app in Hnd as (Hr & Hd & Ht).
  intros [Hk|Hk] [Hk'|Hk'].
  - exact (NoDup_lookup _ _ _ _ Hr Hk Hk').
  - destruct (Hd id); by eapply list_elem_of_lookup_2.
  - destruct (Hd id); by eapply list_elem_of_lookup_2.
  - exact (NoDup_lookup _ _ _ _ Ht Hk Hk').
Qed.

Section initialization.
Context {P : Profile} {Net : Type} {H : HasHost Net} {D : Dpdk Net} {HZ : HashOrder Z} {HS : HashOrder string}.
Context (debug_error : ErrorKind -> string) {NS : NativeSilent}.
Implicit Types w : World Net.

Lemma ports_of_add c core q x :
  ports_of (add_rx_queue core q c) x = if decide (core = x) then ports_of c x ++ [q] else ports_of c x.
Proof.
  unfold ports_of, add_rx_queue. cbn [rx_queues]. case_decide as Hx; [subst; by rewrite lookup_insert_eq|].
  by rewrite lookup_insert_ne.
Qed.

(** A queue pair that was handed out counts on the counters of its number. *)
Lemma pair_counters p c n q :
  port_ok p c -> new_queue_pair p n n = Ret (Ok q) ->
  0 <= n /\ NoDup (queue_ids q) /\ Forall (of_queue p (Z.to_nat n)) (queue_ids q) /\
  Forall (fun id => c !! id = Some 0) (queue_ids q).
Proof.
  intros Hok Hq. destruct (queue_counters p c n q Hok Hq) as (Hr & Ht & Hne & Hn & [_ Hvr]%vindex_Ret & [_ Hvt]%vindex_Ret).
  split; [lia|]. split; [|split].
  - by repeat constructor; rewrite ?elem_of_cons, ?elem_of_nil; intuition.
  - constructor; [left; by rewrite list_lookup_fmap, Hvr|]. constructor; [right; by rewrite list_lookup_fmap, Hvt|constructor].
  - by repeat constructor.
Qed.

(** While the queues of a port are handed out: the queues of every core count separately, on
    old counters or on those of the queues handed out before. *)
Definition handing_out (old : gset Z) (p : PmdPort) (i : nat) (cnt : gmap Z Z) (c : NetBricksContext) : Prop :=
  forall core, separate (ports_of c core) cnt /\
    forall id, id ∈ all_ids (ports_of c core) -> id ∈ old \/ exists j, (j < i)%nat /\ of_queue p j id.

Lemma add_queues_separate name p cores i c w c' w' (old : gset Z) :
  port_ok p (counters (net w)) -> (forall id, id ∈ counters_of p -> id ∉ old) -> Z.of_nat i <= 2 ^ 31 ->
  handing_out old p i (counters (net w)) c ->
  add_queues debug_error name p cores (Z.of_nat i) c w = Ret (Ok c', w') ->
  w' = w /\ forall core, separate (ports_of c' core) (counters (net w)).
Proof.
  intros Hok Hold. revert i c. induction cores as [|core cores IH]; intros i c Hi Hh Hr; cbn [add_queues] in Hr.
  { injection Hr as <- <-. split; [done|]. intros x. apply Hh. }
  apply sbind_Ret_inv in Hr as (r & w1 & Hn & Hr). unfold slift in Hn.
  destruct (new_queue_pair _ _ _) as [r'| | |] eqn:Hq; try done. injection Hn as -> ->.
  destruct r as [q|e]; [|by apply fail_with_Err in Hr].
  destruct (pair_counters _ _ _ _ Hok Hq) as (Hpos & Hnd & Hof & Hz).
  assert (Hlt : Z.of_nat i < 2 ^ 31).
  { destruct (decide (Z.of_nat i = 2 ^ 31)) as [He|]; [|lia]. rewrite He in Hpos. by vm_compute in Hpos. }
  rewrite as_signed_small in Hof by (done || unfold sint; simpl in *; lia). rewrite Nat2Z.id in Hof.
  replace (Z.of_nat i + 1) with (Z.of_nat (S i)) in Hr by lia. apply (IH (S i)) in Hr; [done|lia|].
  intros x. rewrite ports_of_add. destruct (Hh x) as [[Hs1 Hs2] Hids]. case_decide.
  - rewrite all_ids_snoc. split.
    + unfold separate. rewrite all_ids_snoc. split; [|by apply Forall_app]. apply NoDup_app. split_and!; try done.
      intros id Hid Hid'. rewrite Forall_forall in Hof. specialize (Hof id Hid').
      destruct (Hids id Hid) as [Ho|(j & Hj & Hjo)]; [by apply (Hold id (of_queue_counters _ _ _ Hof))|].
      pose proof (of_queue_inj _ _ _ _ _ Hok Hof Hjo). lia.
    + intros id [Hid|Hid]%elem_of_app.
      * destruct (Hids id Hid) as [?|(j & ? & ?)]; [by left|right; exists j; split; [lia|done]].
      * right. exists i. rewrite Forall_forall in Hof. split; [lia|by apply Hof].
  - split; [by split|]. intros id Hid. destruct (Hids id Hid) as [?|(j & ? & ?)]; [by left|right; exists j; split; [lia|done]].
Qed.

(** The sizes of the vectors of a port's configuration *)
Definition queue_vectors (pc : PortConf.PortConfiguration) : Prop :=
  vec_len (PortConf.rx_queues pc) /\ vec_len (PortConf.tx_queues pc).

Lemma open_ports_separate pcs c w c' w' :
  native_limits -> Forall queue_vectors pcs ->
  (forall core, separate (ports_of c core) (counters (net w))) ->
  open_ports debug_error pcs c w = Ret (Ok c', w') ->
  forall core, separate (ports_of c' core) (counters (net w')).
Proof using NS.
  intros Hnl Hv. revert c w. induction Hv as [|pc pcs [Hvr Hvt] _ IH]; intros c w Hs Hr; cbn [open_ports] in Hr.
  { by injection Hr as <- <-. }
  case_decide as Hd; [by apply fail_with_Err in Hr|].
  apply sbind_Ret_inv in Hr as (r & w1 & Hn & Hr). destruct r as [p|e]; [|by apply fail_with_Err in Hr].
  apply sbind_Ret_inv in Hr as (r & w2 & Hq & Hr). destruct r as [c1|e]; [|done].
  pose proof (opened_port_ok _ _ _ _ Hnl Hvr Hvt Hn) as Hok. destruct (opened_port_adds pc w p w1 Hn) as [Hsub Hnew].
  apply (add_queues_separate _ _ _ 0 _ _ _ _ (dom (counters (net w)))) in Hq as [-> Hs1]; [|done|..|lia|].
  - by apply (IH c1 w1).
  - intros id Hid. apply not_elem_of_dom. by apply Hnew.
  - intros core. change (ports_of (add_port (PortConf.name pc) p c) core) with (ports_of c core).
    split; [by eapply separate_subseteq|]. intros id Hid. left. destruct (Hs core) as [_ Hz].
    rewrite Forall_forall in Hz. apply elem_of_dom. rewrite (Hz id Hid). eauto.
Qed.

(** The queues that a core receives from initialization count separately, from zero. *)
Lemma initialize_separate conf w ctx w' :
  native_limits -> Forall queue_vectors (Conf.ports conf) ->
  initialize_system debug_error conf w = Ret (Ok ctx, w') ->
  forall core, separate (ports_of ctx core) (counters (net w')).
Proof using NS.
  intros Hnl Hv Hr. unfold initialize_system in Hr. apply sbind_Ret_inv in Hr as ([] & w1 & _ & Hr).
  apply sbind_Ret_inv in Hr as ([c|e] & w2 & Ho & Hr); [|done].
  assert (Hs : forall core, separate (ports_of c core) (counters (net w2))).
  { apply (open_ports_separate _ _ _ _ _ Hnl Hv) with (2 := Ho). intros core. split; [constructor|constructor]. }
  destruct (Conf.strict conf); [destruct (negb _); [by apply fail_with_Err in Hr|]|]; by injection Hr as <- <-.
Qed.

End initialization.
