(* ===== verification/Forwarding.v ===== *)
(** * Forwarding between two queues of physical ports

    The components put together: a pipeline that receives from a [PortQueue], parses a
    header, filters and sends to a [PortQueue], executed any number of times over a driver
    that hands mbufs over and takes them back as DPDK documents it. The heap of the world is
    what the application owns: a received mbuf enters it, a sent or freed one leaves it. *)

From S2P Require Import Prelude Headers Packet Batch Operators Pipelines Config Ports.
Import Mbuf Pkt Phy.

(** The heap without these mbufs *)
Definition without (l : list Z) (h : Heap) : Heap := foldr delete h l.

Lemma lookup_without l (h : Heap) p : without l h !! p = if decide (p ∈ l) then None else h !! p.
Proof.
  induction l as [|x l IH]; [by rewrite decide_False by set_solver|]. cbn [without foldr]. fold (without l h).
  destruct (decide (p = x)) as [->|Hp]; [rewrite lookup_delete_eq, decide_True by set_solver; done|].
  rewrite lookup_delete_ne, IH by done. apply decide_ext. rewrite elem_of_cons. tauto.
Qed.

(** Everything received and nothing else was given away: the heap is as before. *)
Lemma without_all l1 l2 l3 l (ms h : Heap) :
  l1 ++ l2 ++ l3 ≡ₚ l -> ms ##ₘ h -> (forall p, is_Some (ms !! p) -> p ∈ l) -> (forall p, p ∈ l -> is_Some (ms !! p)) ->
  without l3 (without l1 (without l2 (ms ∪ h))) = h.
Proof.
  intros Hl Hd Hm Hm'. apply map_eq. intros p. rewrite !lookup_without.
  assert (Hp : p ∈ l <-> p ∈ l1 \/ p ∈ l2 \/ p ∈ l3) by (rewrite <-Hl; set_solver).
  destruct (ms !! p) as [m|] eqn:Hmp.
  - assert (p ∈ l) as Hin by (apply Hm; eauto). rewrite (map_disjoint_Some_l _ _ _ _ Hd Hmp).
    apply Hp in Hin as [?|[?|?]]; repeat case_decide; tauto.
  - assert (p ∉ l) as Hin by (intros [m ?]%Hm'; congruence). rewrite lookup_union_r by done.
    repeat case_decide; tauto.
Qed.

Section forwarding.
Context {P : Profile} {Z_ : Zcsi} {F : Fuel} {Net : Type} {H : HasHost Net} {D : Dpdk Net}.
Context {T2 : Type} {E2 : EndOffset T2} {P2 : Packed T2} {C : Type}.
Context {Fn : FnRef C (Packet T2 EmptyMetadata) bool}.
Implicit Types (w : World Net) (h : Heap) (l pkts : list Z).

(** ** What the driver, the allocator and the closure promise *)

(** A received mbuf: well formed, held once, with a frame that the header fits in *)
Definition frame_ok (m : MBuf) : Prop := mbuf_wf m /\ refcnt_ m = 1 /\ size T2 < data_len_ m.

(** The application owns these mbufs, each once. *)
Definition owns h l : Prop := NoDup l /\ forall p, p ∈ l -> exists m, h !! p = Some m /\ frame_ok m.

Lemma owns_without h l l' : owns h l -> (forall p, p ∈ l -> p ∉ l') -> owns (without l' h) l.
Proof.
  intros [Hnd Ho] Hd. split; [done|]. intros p Hp. rewrite lookup_without, decide_False by auto. auto.
Qed.

Lemma owns_sub h l l' : owns h l -> NoDup l' -> (forall p, p ∈ l' -> p ∈ l) -> owns h l'.
Proof. intros [_ Ho] Hnd Hs. split; auto. Qed.

Class OwnershipLaws : Prop := {
  (** a receive burst fills the first [r] slots with new mbufs *)
  receives port queue pkts w : exists r pkts' ms w',
    recv_pkts port queue pkts (zlen pkts) w = Ret ((r, pkts'), w') /\ 0 <= r <= zlen pkts /\
    length pkts' = length pkts /\ counters (net w') = counters (net w) /\
    heap w' = ms ∪ heap w /\ ms ##ₘ heap w /\ owns ms (take (Z.to_nat r) pkts') /\
    forall p, is_Some (ms !! p) -> p ∈ take (Z.to_nat r) pkts';
  (** a send burst takes the first [k] mbufs *)
  transmits port queue pkts w : owns (heap w) pkts -> exists k w',
    send_pkts port queue pkts (zlen pkts) w = Ret ((k, pkts), w') /\ 0 <= k <= zlen pkts /\
    counters (net w') = counters (net w) /\ heap w' = without (take (Z.to_nat k) pkts) (heap w);
  frees l h : l <> [] -> owns h l -> mbuf_free_bulk l h = Ret (0, without l h)
}.

(** The closure answers on every packet it is given. *)
Class Answers : Prop :=
  answers_on p h c m : pkt_ok h p m -> exists b c', call_ref p h c = Ret (b, c').
Context {L : OwnershipLaws} {A : Answers}.

Lemma freed_without l h : owns h l -> PacketBatch.freed l h (without l h).
Proof using L. intros Ho. destruct l as [|p l]; [done|]. by apply frees. Qed.

(** ** The two queues *)

Lemma queue_receives (q : PortQueue) pkts w n0 :
  counters (net w) !! stats (queue_stats_rx q) = Some n0 -> 0 <= n0 -> n0 + zlen pkts < 2 ^ 64 -> zlen pkts < 2 ^ 31 ->
  exists r pkts' ms w',
    recv q pkts w = Ret ((Ok r, pkts'), w') /\ 0 <= r <= zlen pkts /\ length pkts' = length pkts /\
    counters (net w') = <[stats (queue_stats_rx q) := n0 + r]> (counters (net w)) /\
    heap w' = ms ∪ heap w /\ ms ##ₘ heap w /\ owns ms (take (Z.to_nat r) pkts') /\
    forall p, is_Some (ms !! p) -> p ∈ take (Z.to_nat r) pkts'.
Proof using L.
  intros Hc H0 Hb Hs. destruct (receives (port_id q) (rxq q) pkts w)
    as (r & pkts' & ms & w1 & Hr & Hrb & Hl & Hcs & Hm). exists r, pkts', ms.
  exists (with_counters (<[stats (queue_stats_rx q) := n0 + r]> (counters (net w1))) w1).
  split; [|by rewrite counters_with, Hcs]. unfold recv, PortQueue_PacketRx, recv_queue.
  rewrite PacketBatch.as_i32_small by lia. erewrite sbind_Ret by exact Hr. cbn beta iota.
  rewrite !wrap_small by (unfold uint; lia).
  by erewrite sbind_Ret by (apply count_ok; [by rewrite Hcs|unfold uint; lia]).
Qed.

Lemma queue_transmits (q : PortQueue) l w n0 :
  owns (heap w) l ->
  counters (net w) !! stats (queue_stats_tx q) = Some n0 -> 0 <= n0 -> n0 + zlen l < 2 ^ 64 -> zlen l < 2 ^ 31 ->
  exists k w', sent_by q l w k w' /\ 0 <= k <= zlen l /\
    counters (net w') = <[stats (queue_stats_tx q) := n0 + k]> (counters (net w)) /\
    heap w' = without (take (Z.to_nat k) l) (heap w).
Proof using L.
  intros Ho Hc H0 Hb Hs. destruct l as [|p l].
  { exists 0, w. split; [done|]. split; [done|]. split; [|done]. rewrite Z.add_0_r. by rewrite insert_id. }
  destruct (transmits (port_id q) (txq q) (p :: l) w Ho) as (k & w1 & Hk & Hkb & Hcs & Hh).
  exists k, (with_counters (<[stats (queue_stats_tx q) := n0 + k]> (counters (net w1))) w1).
  split; [split; [|done]|by rewrite counters_with, Hcs]. unfold send, PortQueue_PacketTx, send_queue.
  rewrite PacketBatch.as_i32_small by lia. erewrite sbind_Ret by exact Hk. cbn beta iota.
  rewrite !wrap_small by (unfold uint; lia).
  by erewrite sbind_Ret by (apply count_ok; [by rewrite Hcs|unfold uint; lia]).
Qed.

(** ** The packets in between *)

Definition null_packet (p : Z) (m : MBuf) : Packet NullHeader EmptyMetadata := mkPacket p (data_address m 0) 0.

Lemma next_received pb w i p m :
  PacketBatch.array pb !! i = Some p -> heap w !! p = Some m ->
  PacketBatch.next_payload (Z.of_nat i) (pb, w) = Ret (Some (null_packet p m), (pb, w)).
Proof.
  intros Hi Hp. unfold PacketBatch.next_payload. erewrite sbind_Ret by done. cbn [fst].
  pose proof (lookup_lt_Some _ _ _ Hi). rewrite (proj2 (Z.ltb_lt _ _)) by lia.
  erewrite sbind_Ret by (apply slift_Ret, vindex_Ret; split; [lia|by rewrite Nat2Z.id]).
  unfold sbind at 1, on_heap, zoom, packet_from_mbuf_no_free, packet_from_mbuf_no_increment. simpl.
  erewrite sbind_Ret by (by eapply peek_ok). simpl. by destruct w.
Qed.

Context (header_size : Z.of_nat (size_of T2) <= size T2).

Lemma next_parsed pb (rx : PortQueue) rcv w i p m :
  PacketBatch.array pb !! i = Some p -> heap w !! p = Some m -> frame_ok m ->
  let b := Parsed.mkParsedBatch (T2 := T2) (Receive.mkReceive pb rx rcv) in
  next_payload (Z.of_nat i) (b, w) = Ret (Some (parsed T2 (null_packet p m) m), (b, w)) /\
  pkt_ok (heap w) (parsed T2 (null_packet p m) m) m.
Proof using header_size.
  intros Hi Hp (Hwf & _ & Hsz) b. pose proof Hwf as (?&?&?&?&?&?&?&_).
  assert (Hok : pkt_ok (heap w) (null_packet p m) m).
  { split; [done|]. split; [done|]. split; [done|]. unfold null_packet, size_of, NullHeader_Packed. simpl offset_. lia. }
  assert (Hf : hdr_fits (null_packet p m) m).
  { unfold hdr_fits, payload_pos, Headers.offset, NullHeader_EndOffset. simpl offset_. lia. }
  destruct (parse_header_ok (T2 := T2) (heap w) _ m Hok Hf header_size) as [Hparse Hok'].
  { rewrite length_payload_of by done. unfold payload_pos, Headers.offset, NullHeader_EndOffset. simpl offset_. lia. }
  split; [|done]. simpl. erewrite sbind_Ret.
  2: { apply on_field_Ret. simpl. apply on_field_Ret. by eapply next_received. }
  cbn beta iota. unfold sbind, on_heap, zoom. simpl. rewrite Hparse. simpl. by destruct w.
Qed.

(** Every slot of the batch holds a packet that can be parsed. *)
Lemma received_packets pb (rx : PortQueue) rcv w :
  owns (heap w) (PacketBatch.array pb) ->
  exists ps, packets_of (Parsed.mkParsedBatch (T2 := T2) (Receive.mkReceive pb rx rcv)) w ps /\
    Forall (fun p => exists m, pkt_ok (heap w) p m) ps.
Proof using header_size.
  intros [_ Ho]. pose (frame_of := fun p => default (mkMBuf 0 0 0 0 0 0 [] []) (heap w !! p)).
  assert (Hm : forall i p, PacketBatch.array pb !! i = Some p -> heap w !! p = Some (frame_of p) /\ frame_ok (frame_of p)).
  { intros i p Hi. destruct (Ho p) as (m & Hp & Hok); [by eapply list_elem_of_lookup_2|]. unfold frame_of. by rewrite Hp. }
  exists ((fun p => parsed T2 (null_packet p (frame_of p)) (frame_of p)) <$> PacketBatch.array pb).
  split; [split; [by rewrite length_fmap|]|].
  - intros i q (p & -> & Hi)%list_lookup_fmap_Some. destruct (Hm i p Hi). by apply next_parsed.
  - apply Forall_fmap, Forall_lookup. intros i p Hi. destruct (Hm i p Hi) as [Hp Hf]. simpl. exists (frame_of p).
    by apply (next_parsed pb rx rcv w i).
Qed.

Lemma verdicts_total ps h c :
  Forall (fun p => exists m, pkt_ok h p m) ps -> exists bs c', verdicts ps h c = Ret (bs, c').
Proof using A.
  intros Hps. revert c. induction Hps as [|p ps [m Hp] _ IH]; intros c; simpl; [eauto|].
  destruct (answers_on p h c m Hp) as (b & c1 & ->). simpl. destruct (IH c1) as (bs & c2 & ->). simpl. eauto.
Qed.

(** ** Executions *)

(** A batch between executions, with room for [n] packets *)
Definition ready (n : nat) (pb : PacketBatch.PacketBatch) : Prop :=
  PacketBatch.batch_ok pb /\ PacketBatch.array pb = [] /\ length (PacketBatch.spare pb) = n.

Definition rx_id (q : PortQueue) : Z := stats (queue_stats_rx q).
Definition tx_id (q : PortQueue) : Z := stats (queue_stats_tx q).

Lemma owns_split h l l1 l2 :
  owns h l -> l1 ++ l2 ≡ₚ l -> owns h l1 /\ owns h l2 /\ (forall p, p ∈ l1 -> p ∉ l2).
Proof.
  intros Ho Hp. pose proof Ho as [Hnd _]. rewrite <-Hp in Hnd. apply NoDup_app in Hnd as (H1 & Hd & H2).
  split_and!; [..|exact Hd]; apply (owns_sub _ _ _ Ho); try done; intros p Hin; rewrite <-Hp; apply elem_of_app; tauto.
Qed.

Lemma owns_union (ms h : Heap) l : owns ms l -> owns (ms ∪ h) l.
Proof.
  intros [Hnd Ho]. split; [done|]. intros p Hp. destruct (Ho p Hp) as (m & Hm & Hf).
  exists m. split; [by apply lookup_union_Some_l|done].
Qed.

Lemma forward_once n pb rx rcv c cap tx snt w r0 t0 :
  ready n pb -> (n <= loop_fuel)%nat -> rx_id rx <> tx_id tx ->
  counters (net w) !! rx_id rx = Some r0 -> counters (net w) !! tx_id tx = Some t0 ->
  Forall (fun x => 0 <= x /\ x + Z.of_nat n < 2 ^ 64) [rcv; snt; r0; t0] ->
  exists pb' c' w' r k,
    execute (make (T2 := T2) pb rx rcv c cap tx snt, w) =
      Ret (tt, (make pb' rx (rcv + r) c' cap tx (snt + k), w')) /\
    0 <= k <= r /\ r <= Z.of_nat n /\ ready n pb' /\ heap w' = heap w /\
    counters (net w') = <[tx_id tx := t0 + k]> (<[rx_id rx := r0 + r]> (counters (net w))).
Proof using L A header_size.
  intros (Hok & Hnil & Hn) Hfuel Hne Hr Ht Hb.
  rewrite !Forall_cons in Hb. destruct Hb as ([??] & [??] & [??] & [??] & _).
  assert (Hsm : zlen (PacketBatch.spare pb) < 2 ^ 31).
  { destruct Hok as [_ Hc]. unfold PacketBatch.vec_capacity in Hc. rewrite Hnil in Hc. done. }
  destruct (queue_receives rx (PacketBatch.spare pb) w r0)
    as (r & pkts & ms & w1 & Hrecv & Hrb & Hl & Hc1 & Hh1 & Hd & Ho & Hms); [done|lia..|].
  set (mbufs := take (Z.to_nat r) pkts) in *.
  assert (Hlm : zlen mbufs = r) by (unfold mbufs; rewrite length_take; lia).
  destruct (received_packets (PacketBatch.received_batch pb (Ok r) pkts) rx (rcv + r) w1) as (ps & Hps & Hpk).
  { rewrite Hh1. by apply owns_union. }
  destruct (verdicts_total ps (heap w1) c Hpk) as (bs & c' & Hv).
  assert (Hlb : length bs = length mbufs) by (rewrite (verdicts_length _ _ _ _ _ Hv); by destruct Hps as [-> _]).
  destruct (owns_split (heap w1) mbufs (keep bs mbufs) (reject bs mbufs)) as (Hk & Hrej & Hdis);
    [rewrite Hh1; by apply owns_union|by apply keep_reject_permutation|].
  set (w2 := mkWorld (without (reject bs mbufs) (heap w1)) (net w1)).
  assert (Hk2 : owns (heap w2) (keep bs mbufs)) by (by apply owns_without).
  pose proof (Permutation_length (keep_reject_permutation bs mbufs Hlb)) as Hpl. rewrite length_app in Hpl.
  destruct (queue_transmits tx (keep bs mbufs) w2 t0) as (k & w3 & Hs & Hkb & Hc3 & Hh3).
  { done. }
  { change (net w2) with (net w1). rewrite Hc1. by rewrite lookup_insert_ne. }
  1-3: lia.
  destruct (pipeline_execute pb rx rcv c cap tx snt w w1 w3 r pkts ps bs c' (without (reject bs mbufs) (heap w1)) k
    (without (drop (Z.to_nat k) (keep bs mbufs)) (heap w3))) as (pb' & He & Hnil' & Hok' & Hsp'); try done; try lia.
  1-2: unfold uint; lia.
  { by apply freed_without. }
  { apply freed_without. rewrite Hh3. destruct (owns_split (heap w2) (keep bs mbufs) (take (Z.to_nat k) (keep bs mbufs))
      (drop (Z.to_nat k) (keep bs mbufs))) as (_ & Hdr & Hdis2); [done|by rewrite take_drop|].
    apply owns_without; [done|]. intros p Hp Hp'. by apply (Hdis2 p). }
  exists pb', c'. eexists _, r, k. split; [exact He|]. split; [lia|]. split; [lia|]. split; [split_and!; try done; lia|].
  split; [|cbn [net]; rewrite Hc3; change (net w2) with (net w1); by rewrite Hc1].
  cbn [heap]. rewrite Hh3. cbn [heap w2]. rewrite Hh1.
  apply (without_all _ _ _ mbufs ms); try done; [by apply split_permutation|].
  intros p Hp. destruct Ho as [_ Ho]. destruct (Ho p Hp) as (m & Hm & _). eauto.
Qed.

(** Any number of executions, from any two queues with counters of their own *)
Lemma forward_executions j n pb rx rcv c cap tx snt w r0 t0 :
  ready n pb -> (n <= loop_fuel)%nat -> rx_id rx <> tx_id tx ->
  counters (net w) !! rx_id rx = Some r0 -> counters (net w) !! tx_id tx = Some t0 ->
  Forall (fun x => 0 <= x /\ x + Z.of_nat (j * n) < 2 ^ 64) [rcv; snt; r0; t0] ->
  exists pb' c' w' r k,
    executions j (make (T2 := T2) pb rx rcv c cap tx snt, w) =
      Ret (tt, (make pb' rx (rcv + r) c' cap tx (snt + k), w')) /\
    0 <= k <= r /\ r <= Z.of_nat (j * n) /\ ready n pb' /\ heap w' = heap w /\
    counters (net w') = <[tx_id tx := t0 + k]> (<[rx_id rx := r0 + r]> (counters (net w))).
Proof using L A header_size.
  intros Hready Hfuel Hne. revert pb rcv c snt w r0 t0 Hready.
  induction j as [|j IH]; intros pb rcv c snt w r0 t0 Hready Hr Ht Hb.
  { exists pb, c, w, 0, 0. rewrite !Z.add_0_r, (insert_id _ (rx_id rx)), (insert_id _ (tx_id tx)) by done. by split_and!. }
  destruct (forward_once n pb rx rcv c cap tx snt w r0 t0) as (pb1 & c1 & w1 & r1 & k1 & He & Hk1 & Hr1 & Hrd & Hh & Hc);
    [done..|by eapply Forall_impl; [exact Hb|]; simpl; lia|].
  destruct (IH pb1 (rcv + r1) c1 (snt + k1) w1 (r0 + r1) (t0 + k1)) as (pb2 & c2 & w2 & r2 & k2 & He2 & Hk2 & Hr2 & Hrd2 & Hh2 & Hc2).
  { done. }
  { rewrite Hc, lookup_insert_ne, lookup_insert_eq by done. done. }
  { by rewrite Hc, lookup_insert_eq. }
  { rewrite !Forall_cons in Hb |- *. rewrite Forall_nil. lia. }
  exists pb2, c2, w2, (r1 + r2), (k1 + k2). rewrite !Z.add_assoc. split; [cbn [executions]; by erewrite sbind_Ret by exact He|].
  split; [lia|]. split; [lia|]. split; [done|]. split; [congruence|]. rewrite Hc2, Hc.
  rewrite (insert_insert_ne _ (rx_id rx)), !insert_insert_eq by done. done.
Qed.

(** C7: Forwarding on a freshly opened port never leaks. Open a port from its configuration,
    take queue pair [i] and execute, any number of times, a pipeline that receives from the
    pair, parses a header, filters and sends to the pair, over a driver that hands mbufs over
    and takes them back as documented. All of it returns; afterwards the application owns
    exactly the mbufs it owned before, so every received mbuf was sent or freed, once; and
    the statistics the port reports for the pair are the numbers of packets that the
    operators received and sent. *)
Theorem forwarding_never_leaks cfg w0 p w i q j n pb c cap :
  PhySpec.native_limits -> PhySpec.vec_len (PortConf.rx_queues cfg) -> PhySpec.vec_len (PortConf.tx_queues cfg) ->
  new_port_from_configuration cfg w0 = Ret (Ok p, w) -> new_queue_pair p i i = Ret (Ok q) ->
  ready n pb -> (n <= loop_fuel)%nat -> Z.of_nat (j * n) < 2 ^ 64 -> i < 2 ^ 64 ->
  exists pb' c' w' rcv snt,
    executions j (make (T2 := T2) pb q 0 c cap q 0, w) = Ret (tt, (make pb' q rcv c' cap q snt, w')) /\
    0 <= snt <= rcv /\ rcv <= Z.of_nat (j * n) /\ ready n pb' /\ heap w' = heap w /\
    port_stats p i w' = Ret ((rcv, snt), w').
Proof using L A header_size.
  intros Hnl Hvr Hvt Hopen Hq Hready Hfuel Hj Hi.
  pose proof (PhySpec.opened_port_ok cfg w0 p w Hnl Hvr Hvt Hopen) as Hok.
  destruct (PhySpec.queue_counters _ _ _ _ Hok Hq) as (Hr & Ht & Hne & Hib & Hsr & Hst).
  destruct (forward_executions j n pb q 0 c cap q 0 w 0 0) as (pb' & c' & w' & r & k & He & Hk & Hrb & Hrd & Hh & Hc);
    [done..|by repeat constructor|].
  exists pb', c', w', r, k. split_and!; try done; try lia.
  apply (PhySpec.port_stats_ok p i (queue_stats_rx q) (queue_stats_tx q)); [lia|done..| |]; rewrite Hc; unfold rx_id, tx_id.
  - by rewrite lookup_insert_ne, lookup_insert_eq.
  - by rewrite lookup_insert_eq.
Qed.

End forwarding.

(** ** A driver with traffic *)

Module ForwardingSample.
Import PortSample.

#[local] Existing Instance Prelude.release.
#[local] Existing Instance Sample.zcsi.
#[local] Instance fuel : Fuel := 8%nat.
#[local] Existing Instance Mac.MacHeader_EndOffset.

(** A burst of receives finds one frame, a burst of sends takes every packet but the last. *)
Definition arrival (h : Heap) : Z := fresh (dom h : gset Z).

#[local] Instance traffic : Dpdk host := {|
  recv_pkts _ _ pkts n w :=
    match pkts with
    | [] => Ret ((0, []), w)
    | _ :: pkts => let p := arrival (heap w) in
        Ret ((1, p :: pkts), mkWorld ({[ p := sample_mbuf 4096 20 ]} ∪ heap w) (net w))
    end;
  send_pkts _ _ pkts n w :=
    let k := Z.max 0 (n - 1) in Ret ((k, pkts), mkWorld (without (take (Z.to_nat k) pkts) (heap w)) (net w));
  num_pmd_ports := num_pmd_ports (Dpdk := machine);
  find_port_with_pci_address := find_port_with_pci_address (Dpdk := machine);
  max_txqs := max_txqs (Dpdk := machine);
  max_rxqs := max_rxqs (Dpdk := machine);
  init_pmd_port := init_pmd_port (Dpdk := machine);
  free_pmd_port := free_pmd_port (Dpdk := machine);
  init_bess_eth_ring := init_bess_eth_ring (Dpdk := machine);
  init_ovs_eth_ring := init_ovs_eth_ring (Dpdk := machine);
  attach_pmd_device := attach_pmd_device (Dpdk := machine);
  rte_eth_macaddr_get := rte_eth_macaddr_get (Dpdk := machine);
  init_system_whitelisted := init_system_whitelisted (Dpdk := machine);
  init_secondary := init_secondary (Dpdk := machine);
  zcsi_init_thread := zcsi_init_thread (Dpdk := machine);
  numa_available := numa_available (Dpdk := machine);
  numa_preferred := numa_preferred (Dpdk := machine);
  PCI_RE := PCI_RE (Dpdk := machine)
|}.

(** Every second packet passes. *)
#[local] Instance alternate : FnRef Z (Packet Mac.MacHeader EmptyMetadata) bool := fun _ _ c => Ret (Z.even c, c + 1).

Lemma sample_frame_ok : frame_ok (T2 := Mac.MacHeader) (sample_mbuf 4096 20).
Proof. split; [|by split]. apply (bool_decide_unpack _). vm_compute. exact I. Qed.

#[local] Instance traffic_laws : OwnershipLaws (T2 := Mac.MacHeader).
Proof.
  split.
  - intros port queue [|x pkts] w; simpl.
    + exists 0, [], ∅, w. rewrite (left_id_L ∅ (∪)). split_and!; try done; [apply map_disjoint_empty_l| |].
      * split; [constructor|]. set_solver.
      * intros p [m Hm]. by rewrite lookup_empty in Hm.
    + exists 1, (arrival (heap w) :: pkts), {[ arrival (heap w) := sample_mbuf 4096 20 ]}. eexists. split; [done|].
      assert (Hf : heap w !! arrival (heap w) = None) by (apply (not_elem_of_dom (D := gset Z)); exact (is_fresh (dom (heap w) : gset Z))).
      split_and!; try done; try lia; [by apply map_disjoint_singleton_l| |].
      * split; [apply NoDup_singleton|]. intros p Hp%list_elem_of_singleton. subst p. exists (sample_mbuf 4096 20).
        rewrite lookup_singleton_eq. split; [done|apply sample_frame_ok].
      * intros p [m Hm]. apply lookup_singleton_Some in Hm as [<- _]. left.
  - intros port queue pkts w _. eexists _, _. split; [done|]. split; [lia|done].
  - done.
Qed.

#[local] Instance alternate_answers : Answers (T2 := Mac.MacHeader) (C := Z).
Proof. intros p h c m _. by eexists _, _. Qed.

Definition batch4 : PacketBatch.PacketBatch := PacketBatch.mkBatch [] [0; 0; 0; 0] [] [].

(** The limits do not depend on the traffic. *)
Lemma traffic_limits : PhySpec.native_limits (D := traffic).
Proof. exact machine_limits. Qed.

(** Ten executions on the first queue pair of the device *)
Lemma forwarding_never_leaks_witness :
  exists pb' c' w' rcv snt,
    executions 10 (make (T2 := Mac.MacHeader) batch4 queue0 0 0 4 queue0 0, world1) =
      Ret (tt, (make pb' queue0 rcv c' 4 queue0 snt, w')) /\
    0 <= snt <= rcv /\ rcv <= 40 /\ ready 4 pb' /\ heap w' = heap world1 /\
    port_stats pmd 0 w' = Ret ((rcv, snt), w').
Proof.
  assert (Hs : Z.of_nat (size_of Mac.MacHeader) <= size Mac.MacHeader) by (vm_compute; discriminate).
  apply (forwarding_never_leaks (T2 := Mac.MacHeader) Hs conf3 world0 pmd world1 0 queue0 10 4 batch4 0 4 traffic_limits);
    try (vm_compute; reflexivity).
  - by split; vm_compute.
  - unfold loop_fuel, fuel. lia.
Defined.

End ForwardingSample.
