(* ===== verification/Control.v ===== *)
(** * The control plane
    ([framework/src/control/mod.rs], [linux/epoll.rs], [tcp.rs], [sctp.rs])

    A control server is a task that, each time it runs, takes at most one event from an
    epoll instance and either accepts a connection or lets the agent of a connection handle
    it. The kernel (epoll, sockets) and the agents are parameters that act on a world [W];
    the TCP and the SCTP server differ only in how their listener is made. *)

From S2P Require Import Prelude.

(** ** Availability *)

Definition NONE : Z := 0.
Definition READ : Z := 1.
Definition WRITE : Z := 2.
Definition HUP : Z := 4.

(** [EpollFlags] of Linux *)
Definition EPOLLIN : Z := 2 ^ 0.
Definition EPOLLOUT : Z := 2 ^ 2.
Definition EPOLLERR : Z := 2 ^ 3.
Definition EPOLLHUP : Z := 2 ^ 4.
Definition EPOLLONESHOT : Z := 2 ^ 30.
Definition EPOLLET : Z := 2 ^ 31.

Record EpollEvent : Type := mkEvent { events : Z; data : Z }.

Inductive EpollOp : Type := EpollCtlAdd | EpollCtlMod.

(** The system calls of epoll; [None] and [false] are errors. [epoll_wait fd n] never waits
    (its time limit is 0) and writes the events it reports to the first of [n] slots. *)
Class Epoll (W : Type) : Type := {
  epoll_create : St W (option Z);
  epoll_ctl : Z -> EpollOp -> Z -> EpollEvent -> St W bool;
  epoll_wait : Z -> nat -> St W (option (list EpollEvent))
}.

Module Poll.

Record PollHandle : Type := mkHandle { handle_fd : Z }.

Section handle.
Context {W : Type} {E : Epoll W}.

(** [r.unwrap()] of a system call that only succeeds or fails *)
Definition must (m : St W bool) : St W unit := let* ok := m in if ok then sret tt else spanic.

Definition schedule_read_rawfd (h : PollHandle) (fd token : Z) : St W unit :=
  let event := mkEvent (Z.lor (Z.lor EPOLLIN EPOLLET) EPOLLONESHOT) token in
  must (epoll_ctl (handle_fd h) EpollCtlMod fd event).

Definition schedule_write_rawfd (h : PollHandle) (fd token : Z) : St W unit :=
  let event := mkEvent (Z.lor (Z.lor EPOLLOUT EPOLLET) EPOLLONESHOT) token in
  must (epoll_ctl (handle_fd h) EpollCtlMod fd event).

Definition new_io_fd (h : PollHandle) (fd token : Z) : St W unit :=
  let event := mkEvent (Z.lor EPOLLET EPOLLONESHOT) token in
  must (epoll_ctl (handle_fd h) EpollCtlAdd fd event).

(** The methods that take a file are given its descriptor. *)
Definition schedule_read : PollHandle -> Z -> Z -> St W unit := schedule_read_rawfd.
Definition schedule_write : PollHandle -> Z -> Z -> St W unit := schedule_write_rawfd.
Definition new_io_port : PollHandle -> Z -> Z -> St W unit := new_io_fd.

End handle.

(** [pending] is the field [events]. *)
Record PollScheduler : Type := mkPoll { epoll_fd : Z; ready_tokens : list EpollEvent; pending : Z }.

(** The capacity of the vector of ready tokens *)
Definition CAPACITY : nat := 32.

Section scheduler.
Context {P : Profile} {W : Type} {E : Epoll W}.

Definition new_poll_handle (s : PollScheduler) : PollHandle := mkHandle (epoll_fd s).

Definition new : St W PollScheduler :=
  let* fd := epoll_create in
  let* fd := slift (unwrap fd) in
  sret (mkPoll fd [] 0).

Definition contains (kind flag : Z) : bool := Z.land kind flag =? flag.

Definition epoll_kind_to_available (kind : Z) : Z :=
  let available := NONE in
  let available := if contains kind EPOLLIN then Z.lor available READ else available in
  let available := if contains kind EPOLLOUT then Z.lor available WRITE else available in
  let available := if contains kind EPOLLHUP || contains kind EPOLLERR then Z.lor available HUP else available in
  available.

(** [Vec::pop] *)
Definition pop {A} (l : list A) : option A * list A := (last l, removelast l).

Definition available_of (t : EpollEvent) : Z * Z := (data t, epoll_kind_to_available (events t)).

Definition get_token_noblock : St (PollScheduler * W) (option (Z * Z)) :=
  let* s := sgets fst in
  if 0 <? pending s then
    let* n := slift (usub 64 (pending s) 1) in
    let '(t, rest) := pop (ready_tokens s) in
    let* _ := smodify (fun st => (mkPoll (epoll_fd s) rest n, st.2)) in
    sret (available_of <$> t)
  else
    let* r := zoom snd (fun w st => (st.1, w)) (epoll_wait (epoll_fd s) CAPACITY) in
    let* l := slift (unwrap r) in
    let '(t, rest) := pop l in
    let* _ := smodify (fun st => (mkPoll (epoll_fd s) rest (zlen l), st.2)) in
    sret (available_of <$> t).

End scheduler.

(** [IOScheduler] of [mod.rs] *)
Record IOScheduler : Type := mkIO { fd : Z; scheduler : PollHandle; token : Z }.

Section io.
Context {W : Type} {E : Epoll W}.

Definition IOScheduler_new (scheduler : PollHandle) (fd token : Z) : St W IOScheduler :=
  let* _ := new_io_fd scheduler fd token in sret (mkIO fd scheduler token).
Definition IO_schedule_read (io : IOScheduler) : St W unit := schedule_read_rawfd (scheduler io) (fd io) (token io).
Definition IO_schedule_write (io : IOScheduler) : St W unit := schedule_write_rawfd (scheduler io) (fd io) (token io).

End io.

End Poll.

(** ** Servers *)

(** The sockets of a transport: making a listener that does not block, its descriptor,
    accepting ([None] is an error), the descriptor of a stream and making it non-blocking *)
Class Transport (W : Type) : Type := {
  Address : Type;
  Listener : Type;
  Stream : Type;
  listen_on : Address -> St W (option Listener);
  listener_fd : Listener -> Z;
  accept : Listener -> St W (option (Stream * Address));
  stream_fd : Stream -> Z;
  set_nonblocking : Stream -> St W bool
}.

(** The traits [TcpControlAgent] and [SctpControlAgent]; the handlers return whether to keep
    the connection. *)
Class ControlAgent (W : Type) {Tr : Transport W} (T : Type) : Type := {
  agent_new : Address -> Stream -> Poll.IOScheduler -> St W T;
  handle_read_ready : T -> St W (bool * T);
  handle_write_ready : T -> St W (bool * T);
  handle_hup : T -> St W (bool * T)
}.

Module Server.
Import Poll.

Section server.
Context {P : Profile} {W : Type} {E : Epoll W} {Tr : Transport W} {T : Type} {A : ControlAgent W T}.

Record ControlServer : Type := mkServer {
  listener : Listener;
  scheduler : PollScheduler;
  handle : PollHandle;
  next_token : Z;
  listener_token : Z;
  connections : gmap Z T
}.

Abbreviation Srv R := (St (ControlServer * W) R).

Definition self : Srv ControlServer := sgets fst.
Definition in_world {R} (m : St W R) : Srv R := zoom snd (fun w s => (s.1, w)) m.
Definition set_scheduler (p : PollScheduler) (s : ControlServer) : ControlServer :=
  mkServer (listener s) p (handle s) (next_token s) (listener_token s) (connections s).
Definition set_connections (c : gmap Z T) (s : ControlServer) : ControlServer :=
  mkServer (listener s) (scheduler s) (handle s) (next_token s) (listener_token s) c.
Definition set_next_token (n : Z) (s : ControlServer) : ControlServer :=
  mkServer (listener s) (scheduler s) (handle s) n (listener_token s) (connections s).
Definition modify (f : ControlServer -> ControlServer) : Srv unit := smodify (fun s => (f s.1, s.2)).

Definition new (address : Address) : St W ControlServer :=
  let* l := listen_on address in
  let* l := slift (unwrap l) in
  let* p := Poll.new in
  let listener_token := 0 in
  let h := new_poll_handle p in
  let* _ := new_io_port h (listener_fd l) listener_token in
  let* _ := schedule_read h (listener_fd l) listener_token in
  sret (mkServer l p h (listener_token + 1) listener_token ∅).

Definition listen : Srv unit :=
  let* s := self in in_world (schedule_read (handle s) (listener_fd (listener s)) (listener_token s)).

Definition accept_connection (available : Z) : Srv unit :=
  let* _ :=
    if negb (Z.land available READ =? 0) then
      let* s := self in
      let* r := in_world (accept (listener s)) in
      match r with
      | Some (stream, addr) =>
          let token := next_token s in
          let* n := slift (uadd 64 token 1) in
          let* _ := modify (set_next_token n) in
          let* _ := in_world (must (set_nonblocking stream)) in
          let* io := in_world (IOScheduler_new (new_poll_handle (scheduler s)) (stream_fd stream) token) in
          let* a := in_world (agent_new addr stream io) in
          modify (fun s => set_connections (<[token := a]> (connections s)) s)
      | None => sret tt
      end
    else sret tt in
  listen.

(** The handler of the first kind of availability, in the order read, write, hang-up *)
Definition dispatch (available : Z) (a : T) : St W (bool * T) :=
  if negb (Z.land available READ =? 0) then handle_read_ready a
  else if negb (Z.land available WRITE =? 0) then handle_write_ready a
  else if negb (Z.land available HUP =? 0) then handle_hup a
  else sret (true, a).

Definition handle_data (token available : Z) : Srv unit :=
  let* s := self in
  let* preserve :=
    match connections s !! token with
    | Some a =>
        let* '(preserve, a) := in_world (dispatch available a) in
        let* _ := modify (set_connections (<[token := a]> (connections s))) in
        sret preserve
    | None => sret true
    end in
  if negb preserve then modify (fun s => set_connections (delete token (connections s)) s) else sret tt.

Definition get_token : Srv (option (Z * Z)) :=
  zoom (fun s => (scheduler s.1, s.2)) (fun v s => (set_scheduler v.1 s.1, v.2)) get_token_noblock.

Definition schedule : Srv unit :=
  let* r := get_token in
  let* s := self in
  match r with
  | Some (token, avail) =>
      if token =? listener_token s then accept_connection avail else handle_data token avail
  | None => sret tt
  end.

(** [Executable] of the server *)
Definition execute : Srv unit := schedule.
Definition dependencies (s : ControlServer) : list Z := [].

End server.

End Server.

(** The SCTP server repeats the code of the TCP server over its own sockets. *)
Module Sctp.

Section server.
Context {P : Profile} {W : Type} {E : Epoll W} {Tr : Transport W} {T : Type} {A : ControlAgent W T}.

Definition SctpControlServer : Type := Server.ControlServer (T := T).
Definition new_streaming : Address -> St W SctpControlServer := Server.new.
Definition listen : St (SctpControlServer * W) unit := Server.listen.
Definition accept_connection : Z -> St (SctpControlServer * W) unit := Server.accept_connection.
Definition handle_data : Z -> Z -> St (SctpControlServer * W) unit := Server.handle_data.
Definition schedule : St (SctpControlServer * W) unit := Server.schedule.
Definition execute : St (SctpControlServer * W) unit := Server.execute.
Definition dependencies : SctpControlServer -> list Z := Server.dependencies.

End server.

End Sctp.

(** ** Every event is delivered once *)

Module PollSpec.
Import Poll.

Section polling.
Context {P : Profile} {W : Type} {E : Epoll W}.

(** [n] calls of [get_token_noblock] *)
Fixpoint polls (n : nat) : St (PollScheduler * W) (list (option (Z * Z))) :=
  match n with
  | O => sret []
  | S n => let* r := get_token_noblock in let* rs := polls n in sret (r :: rs)
  end.

Lemma pop_snoc {A} (l : list A) x : pop (l ++ [x]) = (Some x, l).
Proof. unfold pop. by rewrite last_snoc, removelast_last. Qed.

Lemma poll_pending fd l n w :
  0 < n < 2 ^ 64 ->
  get_token_noblock (mkPoll fd l n, w) = Ret (available_of <$> last l, (mkPoll fd (removelast l) (n - 1), w)).
Proof.
  intros Hn. unfold get_token_noblock. erewrite sbind_Ret by done. cbn [fst pending].
  rewrite (proj2 (Z.ltb_lt _ _)) by lia. by erewrite sbind_Ret by (apply slift_Ret, usub_small; unfold uint; lia).
Qed.

(** The counter runs one ahead of the vector. *)
Lemma polls_pending fd l w :
  zlen l + 1 < 2 ^ 64 ->
  polls (length l + 1) (mkPoll fd l (zlen l + 1), w) =
  Ret ((Some <$> rev (available_of <$> l)) ++ [None], (mkPoll fd [] 0, w)).
Proof.
  induction l as [|x l IH] using rev_ind; intros Hl.
  { simpl. unfold sbind. by rewrite poll_pending by lia. }
  rewrite length_app in *. simpl length in *. replace (length l + 1 + 1)%nat with (S (length l + 1)) by lia.
  cbn [polls]. erewrite sbind_Ret by (apply poll_pending; lia). rewrite removelast_last, last_snoc.
  replace (Z.of_nat (length l + 1) + 1 - 1) with (zlen l + 1) by lia.
  erewrite sbind_Ret by (apply IH; lia). rewrite fmap_app. simpl. by rewrite rev_app_distr.
Qed.

(** The events of one [epoll_wait] are handed out one by one, each exactly once, the last
    reported first, without asking the kernel again. After them one more call returns
    nothing, again without asking: only the call after that polls. *)
Lemma poll_delivers_each_once fd ready l w w' :
  epoll_wait fd CAPACITY w = Ret (Some l, w') -> (length l <= CAPACITY)%nat ->
  polls (match l with [] => 1 | _ => length l + 1 end) (mkPoll fd ready 0, w) =
  Ret ((Some <$> rev (available_of <$> l)) ++ [None], (mkPoll fd [] 0, w')).
Proof.
  intros Hw Hl. unfold CAPACITY in *.
  assert (Hfirst : get_token_noblock (mkPoll fd ready 0, w) =
    Ret (available_of <$> last l, (mkPoll fd (removelast l) (zlen l), w'))).
  { unfold get_token_noblock. erewrite sbind_Ret by done. cbn [fst pending].
    rewrite (proj2 (Z.ltb_ge 0 0)) by lia. erewrite sbind_Ret by (apply zoom_Ret; exact Hw). by erewrite sbind_Ret by done. }
  destruct l as [|x l _] using rev_ind.
  { simpl. unfold sbind. by rewrite Hfirst. }
  replace (match l ++ [x] with [] => 1%nat | _ => (length (l ++ [x]) + 1)%nat end) with (S (length l + 1))
    by (destruct l; simpl; rewrite ?length_app; simpl; lia).
  cbn [polls]. erewrite sbind_Ret by exact Hfirst. rewrite removelast_last, last_snoc, length_app.
  simpl length. replace (Z.of_nat (length l + 1)) with (zlen l + 1) by lia.
  rewrite length_app in Hl. simpl in Hl.
  erewrite sbind_Ret by (apply polls_pending; lia). rewrite fmap_app. simpl. by rewrite rev_app_distr.
Qed.

End polling.
End PollSpec.

(** ** Tokens of connections are never reused *)

Module ServerSpec.
Import Poll Server.

Section server.
Context {P : Profile} {W : Type} {E : Epoll W} {Tr : Transport W} {T : Type} {A : ControlAgent W T}.
Abbreviation Srv := (ControlServer (T := T)).
Implicit Types s : Srv.

Record server_ok s : Prop := {
  listener_zero : listener_token s = 0;
  next_positive : 1 <= next_token s;
  tokens_below t : is_Some (connections s !! t) -> 1 <= t < next_token s
}.

(** From [s] to [s'] at most [k] tokens were added at the top, and none came back. *)
Record extends (k : Z) s s' : Prop := {
  ext_ok : server_ok s';
  ext_next : next_token s <= next_token s' <= next_token s + k;
  ext_closed t : t < next_token s -> connections s !! t = None -> connections s' !! t = None
}.

Lemma extends_refl k s : 0 <= k -> server_ok s -> extends k s s.
Proof. split; [done|lia|done]. Qed.

Lemma extends_trans k k' s1 s2 s3 : extends k s1 s2 -> extends k' s2 s3 -> extends (k + k') s1 s3.
Proof.
  intros [H1 H2 H3] [H4 H5 H6]. split; [done|lia|]. intros t Ht Hc. apply H6; [lia|]. by apply H3.
Qed.

(** Changing the entry of a connection that exists *)
Lemma extends_entry s t (c : gmap Z T) :
  server_ok s -> is_Some (connections s !! t) -> (forall u, u <> t -> c !! u = connections s !! u) ->
  extends 1 s (set_connections c s).
Proof.
  intros [H1 H2 H3] Ht Hc. split; simpl; [split; simpl; [done|done|]|lia|].
  - intros u Hu. destruct (decide (u = t)) as [->|]; [by apply H3|]. apply H3. by rewrite <-Hc.
  - intros u Hu Hn. destruct (decide (u = t)) as [->|]; [by rewrite Hn in Ht; destruct Ht|by rewrite Hc].
Qed.

Lemma handle_data_extends s w t av s' w' :
  server_ok s -> handle_data t av (s, w) = Ret (tt, (s', w')) -> extends 1 s s'.
Proof.
  intros Hs Hr. unfold handle_data in Hr. erewrite sbind_Ret in Hr by done. cbn [fst] in Hr.
  destruct (connections s !! t) as [a|] eqn:Ha.
  - apply sbind_Ret_inv in Hr as (keep & s1 & Hd & Hr). apply sbind_Ret_inv in Hd as ([k a'] & s2 & Hd & Hk).
    unfold in_world in Hd. apply zoom_Ret_inv in Hd as (w2 & _ & ->).
    apply sbind_Ret_inv in Hk as ([] & s3 & [= <-] & [= <- <-]). cbn [fst snd] in Hr.
    destruct k; simpl in Hr; injection Hr as <- <-.
    + eapply (extends_entry s t); [done|eauto|]. intros u Hu. by rewrite lookup_insert_ne.
    + eapply (extends_entry s t); [done|eauto|]. intros u Hu. by rewrite lookup_delete_ne, lookup_insert_ne.
  - apply sbind_Ret_inv in Hr as (keep & s1 & [= <- <-] & [= <- <-]). by apply extends_refl.
Qed.

Lemma in_world_Ret_inv {R} (m : St W R) s w r st :
  in_world m (s, w) = Ret (r, st) -> exists w', st = (s, w').
Proof. intros (w' & _ & ->)%zoom_Ret_inv. by exists w'. Qed.

Lemma accept_connection_extends s w av s' w' :
  server_ok s -> next_token s + 1 < 2 ^ 64 -> accept_connection av (s, w) = Ret (tt, (s', w')) -> extends 1 s s'.
Proof.
  intros Hs Hn Hr. unfold accept_connection in Hr. apply sbind_Ret_inv in Hr as ([] & [s1 w1] & Hr & Hl).
  unfold listen in Hl. erewrite sbind_Ret in Hl by done. apply in_world_Ret_inv in Hl as (w2 & [= -> _]).
  destruct (negb _); [|injection Hr as <- _; by apply extends_refl].
  erewrite sbind_Ret in Hr by done. apply sbind_Ret_inv in Hr as (r & st & Ha & Hr).
  apply in_world_Ret_inv in Ha as (w3 & ->). destruct r as [[stream addr]|]; [|injection Hr as <- _; by apply extends_refl].
  pose proof Hs as [H1 H2 H3]. cbn [fst] in Hr.
  erewrite sbind_Ret in Hr by (apply slift_Ret, uadd_small; unfold uint; lia). erewrite sbind_Ret in Hr by done.
  do 3 (apply sbind_Ret_inv in Hr as (? & st & Hx & Hr); apply in_world_Ret_inv in Hx as (? & ->)).
  injection Hr as <- _. split; simpl.
  - split; simpl; [done|lia|]. intros t. destruct (decide (t = next_token s)) as [->|]; [lia|].
    rewrite lookup_insert_ne by done. intros Ht%H3. lia.
  - lia.
  - intros t Ht Hc. by rewrite lookup_insert_ne by lia.
Qed.

Lemma get_token_same s w r s' w' :
  get_token (s, w) = Ret (r, (s', w')) -> exists p, s' = set_scheduler p s.
Proof. intros ([p w1] & _ & [= -> _])%zoom_Ret_inv. by exists p. Qed.

Lemma extends_scheduler k p s s' : extends k (set_scheduler p s) s' -> extends k s s'.
Proof. intros [H1 H2 H3]. by split. Qed.

Lemma schedule_extends s w s' w' :
  server_ok s -> next_token s + 1 < 2 ^ 64 -> schedule (s, w) = Ret (tt, (s', w')) -> extends 1 s s'.
Proof.
  intros Hs Hn Hr. unfold schedule in Hr. apply sbind_Ret_inv in Hr as (r & [s1 w1] & Hg & Hr).
  apply get_token_same in Hg as (p & ->). apply (extends_scheduler _ p).
  assert (Hok : server_ok (set_scheduler p s)) by (destruct Hs; by split).
  erewrite sbind_Ret in Hr by done. destruct r as [[t av]|]; [|injection Hr as <- _; by apply extends_refl].
  destruct (t =? _); [by eapply accept_connection_extends|by eapply handle_data_extends].
Qed.

(** [n] executions of the task *)
Fixpoint serve (n : nat) : St (Srv * W) unit :=
  match n with O => sret tt | S n => let* _ := execute in serve n end.

(** C39: A control server keeps its connections apart. From its creation on, over any number
    of executions and whatever the kernel and the agents do, the listener keeps token zero,
    every connection has a token of its own from those given out so far, and a token whose
    connection was closed is never given to another one. *)
Theorem server_tokens_unique address w0 s0 w1 n m s w s' w' :
  new address w0 = Ret (s0, w1) -> 1 + Z.of_nat (n + m) < 2 ^ 64 ->
  serve n (s0, w1) = Ret (tt, (s, w)) -> serve m (s, w) = Ret (tt, (s', w')) ->
  server_ok s' /\ (forall t, t < next_token s -> connections s !! t = None -> connections s' !! t = None).
Proof.
  intros Hnew Hb Hn Hm.
  assert (Hs0 : server_ok s0 /\ next_token s0 = 1).
  { unfold new in Hnew. repeat (apply sbind_Ret_inv in Hnew as (? & ? & _ & Hnew)). injection Hnew as <- _.
    split; [|done]. split; simpl; [done|lia|]. intros t. rewrite lookup_empty. by intros [? [=]]. }
  assert (Hserve : forall k s1 w1 s2 w2, server_ok s1 -> next_token s1 + Z.of_nat k < 2 ^ 64 ->
    serve k (s1, w1) = Ret (tt, (s2, w2)) -> extends (Z.of_nat k) s1 s2).
  { clear. intros k. induction k as [|k IH]; intros s1 w1 s2 w2 Hs Hk Hr.
    { injection Hr as <- _. by apply extends_refl. }
    cbn [serve] in Hr. apply sbind_Ret_inv in Hr as ([] & [s3 w3] & He & Hr).
    pose proof (schedule_extends s1 w1 s3 w3 Hs ltac:(lia) He) as Hx. pose proof Hx as [Hok Hle _].
    replace (Z.of_nat (S k)) with (1 + Z.of_nat k) by lia. eapply extends_trans; [exact Hx|].
    by apply (IH s3 w3 s2 w2); [|lia|]. }
  destruct Hs0 as [Hs0 Hs1]. destruct (Hserve n s0 w1 s w Hs0) as [Hok Hle _]; [lia|done|].
  destruct (Hserve m s w s' w') as [Hok' _ Hc]; [done|lia|done|]. by split.
Qed.

End server.
End ServerSpec.

(** ** A kernel that replays events *)

Module ControlSample.
Import Poll Server.

#[local] Existing Instance release.

(** What successive calls of [epoll_wait] report *)
Abbreviation Replay := (list (list EpollEvent)).

#[local] Instance replay : Epoll Replay := {|
  epoll_create := sret (Some 3);
  epoll_ctl _ _ _ _ := sret true;
  epoll_wait _ n w := match w with [] => Ret (Some [], []) | l :: w => Ret (Some (take n l), w) end
|}.

Definition in_event (t : Z) : EpollEvent := mkEvent EPOLLIN t.
Definition hup_event (t : Z) : EpollEvent := mkEvent (Z.lor EPOLLHUP EPOLLERR) t.

Lemma poll_delivers_each_once_witness :
  PollSpec.polls 3 (mkPoll 3 [] 0, [[in_event 5; hup_event 6]]) = Ret ([Some (6, HUP); Some (5, READ); None], (mkPoll 3 [] 0, [])).
Proof.
  apply (PollSpec.poll_delivers_each_once 3 [] [in_event 5; hup_event 6] [[in_event 5; hup_event 6]] []);
    [reflexivity|unfold CAPACITY; simpl; lia].
Defined.

(** Every accept finds a connection with descriptor 9. *)
#[local] Instance sockets : Transport Replay := {|
  Address := unit; Listener := unit; Stream := Z;
  listen_on _ := sret (Some tt);
  listener_fd _ := 4;
  accept _ := sret (Some (9, tt));
  stream_fd s := s;
  set_nonblocking _ := sret true
|}.

(** An agent counts its reads and closes on a hang-up. *)
#[local] Instance counter : ControlAgent Replay Z := {|
  agent_new _ _ _ := sret 0;
  handle_read_ready a := sret (true, a + 1);
  handle_write_ready a := sret (true, a);
  handle_hup a := sret (false, a)
|}.

Definition script : Replay := [[in_event 0]; [in_event 1]; [hup_event 1]; [in_event 0]].

(** The state of the server after [n] executions *)
Definition after (n : nat) : ControlServer (Tr := sockets) (T := Z) * Replay :=
  match new (Tr := sockets) (T := Z) tt script with
  | Ret s => match ServerSpec.serve n s with Ret (_, s) => s | _ => s end
  | _ => (mkServer (Tr := sockets) tt (mkPoll 0 [] 0) (mkHandle 0) 0 0 ∅, [])
  end.

(** Connection 1 was accepted, served and closed; the next one gets token 2. *)
Lemma server_tokens_unique_witness :
  connections (after 5).1 !! 1 = None /\ connections (after 8).1 !! 2 = Some 0 /\
  ServerSpec.server_ok (after 8).1 /\
  (forall t, t < next_token (after 5).1 -> connections (after 5).1 !! t = None -> connections (after 8).1 !! t = None).
Proof.
  split; [vm_compute; reflexivity|]. split; [vm_compute; reflexivity|].
  apply (ServerSpec.server_tokens_unique (Tr := sockets) (A := counter) tt script (after 0).1 (after 0).2 5 3 (after 5).1 (after 5).2 (after 8).1 (after 8).2);
    vm_compute; reflexivity.
Defined.

End ControlSample.
