(* ===== verification/Agents.v ===== *)
(** * Agents of the control plane ([test/sctp-test/src/control.rs],
    [test/sctp-test/control-test/src/control.rs])

    The agent of a connection reads whatever has arrived each time its stream is ready, asks
    for the next event and keeps the connection, or gives it up on an error. Reading from a
    stream is a parameter. *)

From S2P Require Import Prelude Control.
Import Poll Server.

Definition EAGAIN : Z := 11.

(** What a read gives: bytes, which are written to the start of the buffer it was given (for
    SCTP with the number of the stream they came on), or an error with the number of the
    operating system, if it has one *)
Inductive reading : Type :=
| Received (bytes : list Z) (on_stream : Z)
| Failed (raw_os_error : option Z).

Class Reads (W : Type) {Tr : Transport W} : Type := read_stream : Stream -> Z -> St W reading.

(** The server lets the agent of a connection read. *)
Lemma handle_data_read {P : Profile} {W} {E : Epoll W} {Tr : Transport W} {T} {A : ControlAgent W T} (s : ControlServer (T := T)) t available
    a keep a' (w w' : W) :
  Z.land available READ <> 0 -> connections s !! t = Some a -> handle_read_ready a w = Ret ((keep, a'), w') ->
  handle_data t available (s, w) =
    Ret (tt, (set_connections (if keep then <[t := a']> (connections s) else delete t (connections s)) s, w')).
Proof.
  intros Hav Ha Hr. assert (Hd : dispatch available a w = Ret ((keep, a'), w')).
  { unfold dispatch. by rewrite (proj2 (Z.eqb_neq _ _) Hav). }
  unfold handle_data. erewrite sbind_Ret by done. cbn [fst]. rewrite Ha.
  erewrite sbind_Ret; [|erewrite sbind_Ret by (apply zoom_Ret; exact Hd); cbn beta iota; by erewrite sbind_Ret by done].
  destruct keep; [done|]. simpl. unfold modify, smodify, set_connections. simpl. by rewrite delete_insert_eq.
Qed.

(** ** The SCTP listener *)

Module SctpAgent.

Section agent.
Context {W : Type} {E : Epoll W} {Tr : Transport W} {R : Reads W} (fuel : nat).

Record ControlListener : Type := mkListener { scheduler : IOScheduler; stream : Stream; buffer : list Z }.

Definition new (address : Address) (stream : Stream) (scheduler : IOScheduler) : St W ControlListener :=
  let* _ := IO_schedule_read scheduler in
  sret (mkListener scheduler stream (replicate 1024 0)).

(** The loop of [handle_read_ready], at most [n] turns; it ends with [schedule]. *)
Fixpoint drain (n : nat) (a : ControlListener) : St W (bool * ControlListener) :=
  match n with
  | O => fun _ => NoFuel
  | S n =>
      let* read := read_stream (stream a) (zlen (buffer a)) in
      match read with
      | Received bytes _ => drain n (mkListener (scheduler a) (stream a) (bytes ++ drop (length bytes) (buffer a)))
      | Failed (Some e) => if negb (e =? EAGAIN) then sret (false, a) else sret (true, a)
      | Failed None => sret (false, a)
      end
  end.

Definition handle_read_ready (a : ControlListener) : St W (bool * ControlListener) :=
  let* '(schedule, a) := drain fuel a in
  let* _ := if schedule : bool then IO_schedule_read (scheduler a) else sret tt in
  sret (schedule, a).

Definition handle_write_ready (a : ControlListener) : St W (bool * ControlListener) := spanic.
Definition handle_hup (a : ControlListener) : St W (bool * ControlListener) := sret (false, a).

#[global] Instance ControlListener_agent : ControlAgent W ControlListener := {|
  agent_new := new;
  Control.handle_read_ready := handle_read_ready;
  Control.handle_write_ready := handle_write_ready;
  Control.handle_hup := handle_hup
|}.

(** ** Everything that has arrived is read *)

(** The stream gives these messages, each no longer than [len], and then the error [e]. *)
Fixpoint gives (s : Stream) (len : Z) (w : W) (messages : list (list Z)) (e : option Z) (w' : W) : Prop :=
  match messages with
  | [] => read_stream s len w = Ret (Failed e, w')
  | bytes :: messages => exists n w1, read_stream s len w = Ret (Received bytes n, w1) /\ zlen bytes <= len /\ gives s len w1 messages e w'
  end.

(** A buffer after messages were written to its start one after the other *)
Definition overwritten (messages : list (list Z)) (b : list Z) : list Z :=
  foldl (fun b bytes => bytes ++ drop (length bytes) b) b messages.

Definition again (e : option Z) : bool := bool_decide (e = Some EAGAIN).

Lemma drain_all n a messages e w w' :
  gives (stream a) (zlen (buffer a)) w messages e w' -> (length messages < n)%nat ->
  drain n a w = Ret ((again e, mkListener (scheduler a) (stream a) (overwritten messages (buffer a))), w').
Proof.
  revert n a w. induction messages as [|bytes messages IH]; intros [|n] a w Hg Hn; simpl in Hn; try lia; cbn [drain gives] in *.
  - erewrite sbind_Ret by exact Hg. unfold again. destruct a. destruct e as [e|]; [|done].
    destruct (Z.eqb_spec e EAGAIN) as [->|Hne]; [done|]. simpl. by rewrite bool_decide_eq_false_2 by (by intros [= ->]).
  - destruct Hg as (k & w1 & Hr & Hl & Hg). erewrite sbind_Ret by exact Hr. apply IH; [|lia]. simpl.
    replace (zlen (bytes ++ drop (length bytes) (buffer a))) with (zlen (buffer a)) by (rewrite length_app, length_drop; lia). exact Hg.
Qed.

Context {P : Profile}.

(** C40: No message waits on a connection. Let the server take the event that connection [t] of
    an agent can be read. The agent reads every message that has arrived, however many, until
    the stream has no more. If the stream then says to try again, the server keeps the
    connection and has asked for its next event; on any other error the connection is gone,
    and no event of it is asked for. All other connections are as they were. *)
Theorem agent_drains (s : ControlServer) p t available a messages e (w w1 w2 : W) :
  get_token (s, w) = Ret (Some (t, available), (set_scheduler p s, w1)) -> t <> listener_token s -> Z.land available READ <> 0 ->
  connections s !! t = Some a -> gives (stream a) (zlen (buffer a)) w1 messages e w2 -> (length messages < fuel)%nat ->
  let a' := mkListener (scheduler a) (stream a) (overwritten messages (buffer a)) in
  (e = Some EAGAIN -> forall w3, IO_schedule_read (scheduler a) w2 = Ret (tt, w3) ->
    execute (s, w) = Ret (tt, (set_connections (<[t := a']> (connections s)) (set_scheduler p s), w3))) /\
  (e <> Some EAGAIN ->
    execute (s, w) = Ret (tt, (set_connections (delete t (connections s)) (set_scheduler p s), w2))).
Proof.
  intros Hget Ht Hav Ha Hg Hf a'. pose proof (drain_all fuel a messages e w1 w2 Hg Hf) as Hd. fold a' in Hd.
  assert (Hexec : forall st, handle_data t available (set_scheduler p s, w1) = st -> execute (s, w) = st).
  { intros st <-. unfold execute, schedule. erewrite sbind_Ret by exact Hget. erewrite sbind_Ret by done.
    simpl. by rewrite (proj2 (Z.eqb_neq _ _) Ht). }
  split; intros He.
  - intros w3 Hs. apply Hexec. apply (handle_data_read (set_scheduler p s) t available a true a'); [done..|]. simpl. unfold handle_read_ready.
    erewrite sbind_Ret by exact Hd. unfold again. rewrite bool_decide_eq_true_2 by done. cbn beta iota. by erewrite sbind_Ret by exact Hs.
  - apply Hexec. apply (handle_data_read (set_scheduler p s) t available a false a'); [done..|]. simpl. unfold handle_read_ready.
    erewrite sbind_Ret by exact Hd. unfold again. by rewrite bool_decide_eq_false_2 by done.
Qed.

End agent.
End SctpAgent.

(** ** The TCP listener, for messages of fourteen bytes *)

Module TcpAgent.

Section agent.
Context {P : Profile} {W : Type} {E : Epoll W} {Tr : Transport W} {R : Reads W} (fuel : nat).

Record ControlListener : Type := mkListener { scheduler : IOScheduler; stream : Stream; buffer : list Z; read_till : Z }.

Definition new (address : Address) (stream : Stream) (scheduler : IOScheduler) : St W ControlListener :=
  let* _ := IO_schedule_read scheduler in
  sret (mkListener scheduler stream (replicate 14 0) 0).

Fixpoint drain (n : nat) (a : ControlListener) : St W (bool * ControlListener) :=
  match n with
  | O => fun _ => NoFuel
  | S n =>
      let* slot := slift (vslice (buffer a) (read_till a) (zlen (buffer a))) in
      let* r := read_stream (stream a) (zlen slot) in
      match r with
      | Received bytes _ =>
          let b := splice (buffer a) (read_till a) bytes in
          if 0 <? zlen bytes then
            let* t := slift (uadd 64 (read_till a) (zlen bytes)) in
            drain n (mkListener (scheduler a) (stream a) b (if t =? 14 then 0 else read_till a))
          else sret (true, a)
      | Failed (Some e) => if negb (e =? EAGAIN) then sret (false, a) else sret (true, a)
      | Failed None => sret (false, a)
      end
  end.

Definition handle_read_ready (a : ControlListener) : St W (bool * ControlListener) :=
  let* '(schedule, a) := drain fuel a in
  let* _ := if schedule : bool then IO_schedule_read (scheduler a) else sret tt in
  sret (schedule, a).

Definition handle_write_ready (a : ControlListener) : St W (bool * ControlListener) := spanic.
Definition handle_hup (a : ControlListener) : St W (bool * ControlListener) := sret (false, a).

#[global] Instance ControlListener_agent : ControlAgent W ControlListener := {|
  agent_new := new;
  Control.handle_read_ready := handle_read_ready;
  Control.handle_write_ready := handle_write_ready;
  Control.handle_hup := handle_hup
|}.

(** What the agent does with fragments: every read starts at the front of the buffer, so a
    message that comes in two parts is never put together. *)
Lemma fragments_overwritten n a bytes k e (w w1 w2 : W) :
  read_till a = 0 -> length (buffer a) = 14%nat -> 0 < zlen bytes <= 14 ->
  read_stream (stream a) 14 w = Ret (Received bytes k, w1) -> read_stream (stream a) 14 w1 = Ret (Failed (Some e), w2) ->
  drain (S (S n)) a w = Ret ((e =? EAGAIN, mkListener (scheduler a) (stream a) (bytes ++ drop (length bytes) (buffer a)) 0), w2).
Proof.
  intros H0 Hl Hb Hr Hf. assert (Hs : splice (buffer a) 0 bytes = bytes ++ drop (length bytes) (buffer a)) by done.
  cbn [drain]. rewrite H0. erewrite sbind_Ret by (apply slift_Ret, vslice_Ret; lia).
  assert (Hz : zlen (take (Z.to_nat (zlen (buffer a) - 0)) (drop (Z.to_nat 0) (buffer a))) = 14) by (rewrite length_take, length_drop; lia).
  rewrite Hz. erewrite sbind_Ret by exact Hr. cbn beta iota zeta. rewrite (proj2 (Z.ltb_lt _ _)) by lia.
  erewrite sbind_Ret by (apply slift_Ret, uadd_small; unfold uint; lia). rewrite Hs.
  assert (Hi : (if 0 + zlen bytes =? 14 then 0 else 0) = 0) by (by destruct (_ =? _)). rewrite Hi. cbn [buffer read_till stream scheduler].
  set (b := bytes ++ drop (length bytes) (buffer a)).
  assert (Hlb : length b = 14%nat) by (unfold b; rewrite length_app, length_drop; lia).
  erewrite sbind_Ret by (apply slift_Ret, vslice_Ret; lia).
  assert (Hz2 : zlen (take (Z.to_nat (zlen b - 0)) (drop (Z.to_nat 0) b)) = 14) by (rewrite length_take, length_drop; lia).
  rewrite Hz2. erewrite sbind_Ret by exact Hf. cbn beta iota.
  destruct (e =? EAGAIN); reflexivity.
Qed.

(** At the end of the stream the connection is kept and asked for again. *)
Lemma closed_connection_kept n a k (w w1 : W) :
  read_till a = 0 -> length (buffer a) = 14%nat -> read_stream (stream a) 14 w = Ret (Received [] k, w1) ->
  drain (S n) a w = Ret ((true, a), w1).
Proof.
  intros H0 Hl Hr. cbn [drain]. rewrite H0. erewrite sbind_Ret by (apply slift_Ret, vslice_Ret; lia).
  assert (Hz : zlen (take (Z.to_nat (zlen (buffer a) - 0)) (drop (Z.to_nat 0) (buffer a))) = 14) by (rewrite length_take, length_drop; lia).
  rewrite Hz. by erewrite sbind_Ret by exact Hr.
Qed.

End agent.
End TcpAgent.

(** ** A stream with two messages *)

Module AgentSample.
Import SctpAgent.

#[local] Existing Instance release.

(** The messages that have arrived, and the tokens whose next event was asked for *)
Record Net : Type := mkNet { inbox : list (list Z); asked : list Z; reports : list EpollEvent }.

#[local] Instance kernel : Epoll Net := {|
  epoll_create := sret (Some 3);
  epoll_ctl _ _ _ ev w := Ret (true, mkNet (inbox w) (asked w ++ [data ev]) (reports w));
  epoll_wait _ n w := Ret (Some (take n (reports w)), mkNet (inbox w) (asked w) [])
|}.

#[local] Instance sockets : Transport Net := {|
  Address := unit; Listener := unit; Stream := Z;
  listen_on _ := sret (Some tt);
  listener_fd _ := 4;
  accept _ := sret (Some (9, tt));
  stream_fd s := s;
  set_nonblocking _ := sret true
|}.

#[local] Instance inboxes : Reads Net := fun _ _ w =>
  match inbox w with
  | [] => Ret (Failed (Some EAGAIN), w)
  | m :: l => Ret (Received m 0, mkNet l (asked w) (reports w))
  end.

#[local] Instance agent : ControlAgent Net ControlListener := ControlListener_agent 8.

Definition io1 : IOScheduler := mkIO 9 (mkHandle 3) 1.
Definition open1 : ControlListener := mkListener io1 (9 : Stream) (replicate 1024 0).
Definition server1 : ControlServer (T := ControlListener) :=
  mkServer (tt : Listener) (mkPoll 3 [] 0) (mkHandle 3) 2 0 {[1 := open1]}.
Definition net1 : Net := mkNet [[7; 8]; [9]] [] [mkEvent EPOLLIN 1].

Lemma agent_drains_witness :
  execute (server1, net1) =
  Ret (tt, (set_connections (<[1 := mkListener io1 (9 : Stream) (overwritten [[7; 8]; [9]] (replicate 1024 0))]> {[1 := open1]})
             (set_scheduler (mkPoll 3 [] 1) server1), mkNet [] [1] [])).
Proof.
  apply (agent_drains 8 server1 (mkPoll 3 [] 1) 1 READ open1 [[7; 8]; [9]] (Some EAGAIN) net1 (mkNet [[7; 8]; [9]] [] []) (mkNet [] [] []));
    [reflexivity|done|done|reflexivity| |simpl; lia|reflexivity|reflexivity].
  exists 0, (mkNet [[9]] [] []). split; [reflexivity|]. split; [vm_compute; discriminate|].
  exists 0, (mkNet [] [] []). split; [reflexivity|]. split; [vm_compute; discriminate|]. reflexivity.
Defined.

End AgentSample.
