(* ===== verification/SharedState.v ===== *)
(** * Shared state ([framework/src/shared_state])

    Named memory regions, the directory of structures kept in one and the vector meant to
    live in one. The system calls are parameters acting on a world [W]; the memory of a
    directory is its header and its entries. *)

From Stdlib Require Import Ascii.
From S2P Require Import Prelude Utils.
Open Scope string_scope.
Open Scope list_scope.
Open Scope Z_scope.

(** The system calls: [shm_open] with its error number, [mmap] or nothing on failure *)
Class Shm (W : Type) : Type := {
  shm_open : string -> St W (Z * Z);
  shm_unlink : string -> St W Z;
  ftruncate : Z -> Z -> St W Z;
  mmap : Z -> Z -> St W (option Z);
  munmap : Z -> Z -> St W Z;
  close : Z -> St W Z
}.

Definition EEXIST : Z := 17.

Fixpoint has_zero (s : string) : bool :=
  match s with
  | EmptyString => false
  | String c s => bool_decide (c = ascii_of_nat 0) || has_zero s
  end.

Record SharedMemory : Type := mkShared { mem : Z; name : string; size : Z }.

Section regions.
Context {W : Type} {M : Shm W}.

(** [Drop for SharedMemory] *)
Definition SharedMemory_drop (s : SharedMemory) : St W unit :=
  let* _ := munmap (mem s) (size s) in
  let* shm_ret := shm_unlink (name s) in
  if shm_ret =? 0 then sret tt else spanic.

Definition open_shared (n : string) (sz : Z) : St W SharedMemory :=
  if negb (Z.land sz (unot 64 PAGE_SIZE) =? 0) then spanic
  else if has_zero n then spanic
  else
    let* '(fd, errno) := shm_open n in
    let* fd :=
      if fd =? -1 then
        if errno =? EEXIST then
          let* _ := shm_unlink n in
          let* '(fd, _) := shm_open n in sret fd
        else sret fd
      else sret fd in
    if negb (0 <=? fd) then spanic
    else
      let* ftret := ftruncate fd (as_signed 64 sz) in
      if negb (ftret =? 0) then spanic
      else
        let* address := mmap sz fd in
        match address with
        | None => spanic
        | Some address => let* _ := close fd in sret (mkShared address n sz)
        end.

End regions.

(** ** The directory ([directory.rs]) *)

Module Dir.

Definition MAX_LEN : Z := 256.
Definition DIRECTORY_PAGES : Z := 2.
Definition BYTE_SIZE : Z := DIRECTORY_PAGES * PAGE_SIZE.

Record DirectoryHeader : Type := mkHeader {
  entries : Z;
  current_version : Z;
  committed_version : Z;
  length_ : Z
}.

(** A packed struct of four words, and an array of bytes *)
Definition HEADER_SIZE : Z := 32.
Definition ENTRY_SIZE : Z := MAX_LEN.

(** The mapped memory: the header and the names of the entries behind it *)
Record Region : Type := mkRegion { header : DirectoryHeader; names : list (list Z) }.

Record Directory : Type := mkDirectory { shared_memory : SharedMemory; entry : Z; len : Z }.

Definition set_entries (n : Z) (h : DirectoryHeader) : DirectoryHeader :=
  mkHeader n (current_version h) (committed_version h) (length_ h).
Definition set_current (n : Z) (h : DirectoryHeader) : DirectoryHeader :=
  mkHeader (entries h) n (committed_version h) (length_ h).
Definition set_committed (n : Z) (h : DirectoryHeader) : DirectoryHeader :=
  mkHeader (entries h) (current_version h) n (length_ h).
Definition set_length (n : Z) (h : DirectoryHeader) : DirectoryHeader :=
  mkHeader (entries h) (current_version h) (committed_version h) n.
Definition on_header (f : DirectoryHeader -> DirectoryHeader) (r : Region) : Region := mkRegion (f (header r)) (names r).

Section operations.
Context {P : Profile} {W : Type} {M : Shm W}.

(** [mapped] is what the new mapping holds. *)
Definition new (n : string) (mapped : Region) : St W (Directory * Region) :=
  let* shared := open_shared n BYTE_SIZE in
  let r := on_header (set_current 1) mapped in
  let entries := (BYTE_SIZE - HEADER_SIZE) / ENTRY_SIZE in
  let r := on_header (set_length entries) r in
  let r := on_header (set_entries 0) r in
  let r := on_header (set_committed 1) r in
  sret (mkDirectory shared 0 entries, r).

Abbreviation Dir_ A := (St (Directory * Region) A).

(** [dst.copy_from_slice(src)] panics when the lengths differ. *)
Definition copy_name (dst src : list Z) : outcome (list Z) :=
  if Nat.eqb (length dst) (length src) then Ret src else Panic.

(** [name] is given by its bytes. *)
Definition register_new_entry (n : list Z) : Dir_ (option Z) :=
  let* d := sgets fst in
  let e := entry d in
  if (len d <=? e) || (MAX_LEN <=? zlen n) then sret None
  else
    let* r := sgets snd in
    let* old := slift (vindex (names r) e) in
    let* new := slift (copy_name old n) in
    let* _ := smodify (fun s => (s.1, on_header (set_entries e) (mkRegion (header r) (<[Z.to_nat e := new]> (names r))))) in
    let* e' := slift (uadd 64 e 1) in
    let* _ := smodify (fun s => (mkDirectory (shared_memory s.1) e' (len s.1), s.2)) in
    sret (Some e).

Definition begin_snapshot : Dir_ unit :=
  smodify (fun s => (s.1, on_header (fun h => set_current (wrapping_add 64 (current_version h) 1) h) s.2)).

Definition end_snapshot : Dir_ unit :=
  smodify (fun s => (s.1, on_header (fun h => set_committed (current_version h) h) s.2)).

End operations.

(** A directory over entries of the size its type says *)
Definition region_ok (d : Directory) (r : Region) : Prop :=
  0 <= entry d /\ len d = zlen (names r) /\ Forall (fun n => zlen n = MAX_LEN) (names r).

End Dir.

(** ** The shared vector ([shared_vec.rs]) *)

Module Vec.

Record SharedVec (T : Type) : Type := mkVec { vec : list T; shared : SharedMemory; modified : bool }.
#[global] Arguments mkVec {T}.
#[global] Arguments vec {T}.
#[global] Arguments shared {T}.
#[global] Arguments modified {T}.

Section operations.
Context {P : Profile} {W : Type} {M : Shm W} {T : Type}.

Definition new_with_capacity (n : string) (capacity : Z) : St W (SharedVec T) :=
  let* capacity_pages := slift (round_to_pages capacity) in
  let* s := open_shared n capacity_pages in
  sret (mkVec [] s false).

Definition borrow (v : SharedVec T) : list T := vec v.

(** [Hash]: the hasher [H] is fed the vector. *)
Definition hash {H} (feed : list T -> H -> H) (v : SharedVec T) (state : H) : H := feed (vec v) state.

Definition index (v : SharedVec T) (i : Z) : outcome T := vindex (vec v) i.
Definition index_range (v : SharedVec T) (a b : Z) : outcome (list T) := vslice (vec v) a b.
Definition index_to (v : SharedVec T) (b : Z) : outcome (list T) := vslice (vec v) 0 b.
Definition index_from (v : SharedVec T) (a : Z) : outcome (list T) := vslice (vec v) a (zlen (vec v)).

(** A store through [index_mut] *)
Definition index_mut (v : SharedVec T) (i : Z) (x : T) : outcome (SharedVec T) :=
  let! l := vset (vec v) i x in Ret (mkVec l (shared v) true).

End operations.

End Vec.

(** ** What can be opened *)

Lemma page_mask sz : uint 64 sz -> Z.land sz (unot 64 PAGE_SIZE) = 0 <-> sz = 0 \/ sz = PAGE_SIZE.
Proof.
  intros Hs. split; [|by intros [->| ->]]. intros Hz.
  assert (Hbit : forall i, 0 <= i -> i <> 12 -> Z.testbit sz i = false).
  { intros i Hi Hne. destruct (decide (64 <= i)) as [|Hi64]; [by apply (uint_testbit_high 64)|].
    pose proof (f_equal (fun z => Z.testbit z i) Hz) as Ht. simpl in Ht.
    unfold unot in Ht. rewrite Z.land_spec, Z.lxor_spec, testbit_ones_dec, Z.bits_0 in Ht by lia.
    change PAGE_SIZE with (2 ^ 12) in Ht. rewrite testbit_pow2_dec, (proj2 (Z.ltb_lt _ _)) in Ht by lia.
    rewrite (proj2 (Z.eqb_neq _ _)) in Ht by done. by rewrite andb_true_r in Ht. }
  destruct (Z.testbit sz 12) eqn:H12; [right; change PAGE_SIZE with (2 ^ 12)|left]; apply Z.bits_inj'; intros i Hi.
  - rewrite testbit_pow2_dec by lia. destruct (Z.eqb_spec i 12) as [->|]; [done|]. by apply Hbit.
  - rewrite Z.bits_0. destruct (decide (i = 12)) as [->|]; [done|]. by apply Hbit.
Qed.

Section limits.
Context {P : Profile} {W : Type} {M : Shm W}.

Lemma open_shared_size n sz w : uint 64 sz -> sz <> 0 -> sz <> PAGE_SIZE -> open_shared n sz w = Panic.
Proof.
  intros Hs H0 Hp. unfold open_shared. rewrite (proj2 (Z.eqb_neq _ _)); [done|]. rewrite page_mask by done. by intros [|].
Qed.

Lemma round_up_above cap : PAGE_SIZE < cap -> cap + PAGE_SIZE - 1 < 2 ^ 64 ->
  exists s, round_to_pages cap = Ret s /\ uint 64 s /\ PAGE_SIZE < s.
Proof.
  intros Hc Hb. destruct (round_to_pages_least cap) as (s & Hs & _ & Hr); [unfold PAGE_SIZE in *; lia|].
  exists s. split; [done|]. unfold uint, PAGE_SIZE in *. lia.
Qed.

(** A shared region can be one page or empty, and nothing else: the check of the size
    masks with the complement of the page size, which leaves bit twelve free instead of the
    low twelve. Hence the directory, which takes two pages, can never be created, and a
    shared vector only with a capacity of at most one page; both panic otherwise. A vector
    that was created has no elements, so every access to one of its positions panics. *)
Lemma shared_regions_one_page :
  (forall n sz w s w', uint 64 sz -> open_shared n sz w = Ret (s, w') -> sz = 0 \/ sz = PAGE_SIZE) /\
  (forall n mapped w, Dir.new n mapped w = Panic) /\
  (forall T n cap w, PAGE_SIZE < cap -> cap + PAGE_SIZE - 1 < 2 ^ 64 -> Vec.new_with_capacity (T := T) n cap w = Panic) /\
  (forall T n cap w (v : Vec.SharedVec T) w' i, Vec.new_with_capacity n cap w = Ret (v, w') -> Vec.index v i = Panic).
Proof.
  split_and!.
  - intros n sz w s w' Hs Hr. destruct (decide (sz = 0)); [by left|]. destruct (decide (sz = PAGE_SIZE)); [by right|].
    by rewrite open_shared_size in Hr.
  - intros n mapped w. unfold Dir.new, sbind. by rewrite open_shared_size by done.
  - intros T n cap w Hc Hb. destruct (round_up_above cap Hc Hb) as (s & Hs & Hu & Hlt).
    unfold Vec.new_with_capacity. erewrite sbind_Ret by (by apply slift_Ret). unfold sbind.
    rewrite open_shared_size; [done|done| |]; unfold PAGE_SIZE in *; lia.
  - intros T n cap w v w' i (c & w1 & _ & (s & w2 & _ & [= <- _])%sbind_Ret_inv)%sbind_Ret_inv.
    unfold Vec.index, vindex. by destruct (0 <=? i).
Qed.

(** The directory registers nothing. Over entries of the size their type says, a name of
    at least 256 bytes is refused, and any shorter name panics, because it is copied with
    [copy_from_slice] over the whole 256-byte array. *)
Lemma directory_registers_nothing (d : Dir.Directory) (r : Dir.Region) n :
  Dir.region_ok d r ->
  Dir.register_new_entry n (d, r) =
  if (Dir.len d <=? Dir.entry d) || (Dir.MAX_LEN <=? zlen n) then Ret (None, (d, r)) else Panic.
Proof.
  intros (He & Hl & Hn). unfold Dir.register_new_entry. erewrite sbind_Ret by done. cbn [fst].
  destruct (Z.leb_spec (Dir.len d) (Dir.entry d)); [done|]. destruct (Z.leb_spec Dir.MAX_LEN (zlen n)); [done|]. cbn [orb].
  erewrite sbind_Ret by done. cbn [snd].
  destruct (vindex_lt (Dir.names r) (Dir.entry d)) as [old Hold]; [lia|].
  erewrite sbind_Ret by (by apply slift_Ret). apply vindex_Ret in Hold as [_ Hold].
  pose proof (Forall_lookup_1 _ _ _ _ Hn Hold) as Hlen. simpl in Hlen. unfold Dir.copy_name.
  rewrite (proj2 (Nat.eqb_neq _ _)) by lia. done.
Qed.

End limits.

(** ** A directory with room for two entries *)

Lemma directory_registers_nothing_witness :
  Dir.register_new_entry (P := release) (replicate 255 97)
    (Dir.mkDirectory (mkShared 0 "d" 4096) 0 2, Dir.mkRegion (Dir.mkHeader 0 1 1 2) (replicate 2 (replicate 256 0))) = Panic.
Proof.
  apply (directory_registers_nothing (P := release) (Dir.mkDirectory (mkShared 0 "d" 4096) 0 2)
    (Dir.mkRegion (Dir.mkHeader 0 1 1 2) (replicate 2 (replicate 256 0))) (replicate 255 97)).
  split; [done|]. split; [reflexivity|]. repeat constructor.
Defined.
