(* ===== verification/Native.v ===== *)
(** * Memory helpers around native code
    ([framework/src/allocators/cache_aligned.rs], [framework/src/native/libnuma.rs],
    [framework/src/utils/asm.rs])

    Boxes aligned to cache lines, the safe wrapper of libnuma's bit masks and the reading of
    the time-stamp counter. The functions of libnuma and the instructions are parameters. *)

From S2P Require Import Prelude.

(** ** Cache-aligned boxes *)

Module Aligned.

Definition CACHE_LINE_SIZE : Z := 64.

(** A box is the address of its value; the memory of live boxes is the state. *)
Record CacheAligned (T : Type) : Type := mkAligned { ptr : Z }.
#[global] Arguments mkAligned {T}.
#[global] Arguments ptr {T}.

Section operations.
Context {T : Type}.
Abbreviation Mem A := (St (gmap Z T) A).

Definition allocate (src : T) : Mem (CacheAligned T) :=
  let* p := sgets (fun m => fresh (dom m)) in
  let* _ := smodify (<[p := src]>) in
  sret (mkAligned p).

Definition deref (b : CacheAligned T) : Mem T := fun m =>
  match m !! ptr b with Some t => Ret (t, m) | None => Undef end.

(** A store through [deref_mut] *)
Definition deref_mut (b : CacheAligned T) (f : T -> T) : Mem unit := fun m =>
  match m !! ptr b with Some t => Ret (tt, <[ptr b := f t]> m) | None => Undef end.

(** A copy of the bytes, whatever [Clone] of the value does *)
Definition clone (b : CacheAligned T) : Mem (CacheAligned T) :=
  let* t := deref b in
  let* p := sgets (fun m => fresh (dom m)) in
  let* _ := smodify (<[p := t]>) in
  sret (mkAligned p).

(** The memory is freed; the value is not dropped. *)
Definition drop (b : CacheAligned T) : Mem unit := fun m =>
  match m !! ptr b with Some _ => Ret (tt, delete (ptr b) m) | None => Undef end.

(** A clone reads like its original at the moment of cloning and is independent of it: the
    original keeps its value when the clone is written or dropped. *)
Lemma clone_independent (b : CacheAligned T) (m : gmap Z T) t f :
  m !! ptr b = Some t ->
  exists c m', clone b m = Ret (c, m') /\ deref c m' = Ret (t, m') /\
    (exists m2, deref_mut c f m' = Ret (tt, m2) /\ deref b m2 = Ret (t, m2)) /\
    drop c m' = Ret (tt, m).
Proof.
  intros Hb. assert (Hf : m !! fresh (dom m) = None) by apply not_elem_of_dom, is_fresh.
  eexists (mkAligned (fresh (dom m))), (<[fresh (dom m) := t]> m). unfold clone, deref, deref_mut, drop, sbind. simpl.
  rewrite Hb. simpl. rewrite !lookup_insert_eq. split_and!; try done.
  - eexists. split; [done|]. rewrite !lookup_insert_ne by congruence. by rewrite Hb.
  - by rewrite delete_insert_id.
Qed.

End operations.

End Aligned.

(** ** Bit masks of libnuma *)

(** The functions of libnuma that the wrapper calls; a mask is its address, [bitmap_size] the
    field [size] behind it. *)
Class Numa (W : Type) : Type := {
  numa_num_possible_nodes : St W Z;
  numa_num_possible_cpus : St W Z;
  numa_get_mems_allowed : St W Z;
  numa_get_interleave_mask : St W Z;
  numa_get_membind : St W Z;
  numa_get_run_node_mask : St W Z;
  numa_bitmask_alloc : Z -> St W Z;
  numa_bitmask_free : Z -> St W unit;
  numa_bitmask_clearall : Z -> St W Z;
  numa_bitmask_clearbit : Z -> Z -> St W Z;
  numa_bitmask_equal : Z -> Z -> St W Z;
  numa_bitmask_isbitset : Z -> Z -> St W Z;
  numa_bitmask_nbytes : Z -> St W Z;
  numa_bitmask_setall : Z -> St W Z;
  numa_bitmask_setbit : Z -> Z -> St W Z;
  wrapped_distance : Z -> Z -> St W Z;
  wrapped_set_interleave_mask : Z -> St W unit;
  wrapped_bind : Z -> St W unit;
  wrapped_set_membind : Z -> St W unit;
  wrapped_run_on_node_mask : Z -> St W unit;
  wrapped_alloc_interleaved_subset : Z -> Z -> St W Z;
  wrapped_tonodemask_memory : Z -> Z -> Z -> St W unit;
  bitmap_size : Z -> W -> Z
}.

Module Masks.

Record Bitmask : Type := mkBitmask { bitmask : Z }.

Section wrapper.
Context {W : Type} {N : Numa W}.

(** [PartialEq for Bitmask] *)
Definition eq (b other : Bitmask) : St W bool :=
  let* r := numa_bitmask_equal (bitmask b) (bitmask other) in sret (r =? 0).

Definition allocate_node_mask : St W Bitmask :=
  let* n := numa_num_possible_nodes in
  let* m := numa_bitmask_alloc (wrap 32 n) in
  let* m := numa_bitmask_clearall m in sret (mkBitmask m).

Definition allocate_cpu_mask : St W Bitmask :=
  let* n := numa_num_possible_cpus in
  let* m := numa_bitmask_alloc (wrap 32 n) in
  let* m := numa_bitmask_clearall m in sret (mkBitmask m).

Definition assert_size (b : Bitmask) (bit : Z) : St W unit :=
  let* size := sgets (bitmap_size (bitmask b)) in if bit <? size then sret tt else spanic.

Definition clear_bit (b : Bitmask) (bit : Z) : St W unit :=
  let* _ := assert_size b bit in
  let* _ := numa_bitmask_clearbit (bitmask b) (wrap 32 bit) in sret tt.

Definition clear (b : Bitmask) : St W unit := let* _ := numa_bitmask_clearall (bitmask b) in sret tt.

Definition get_mems_allowed : St W Bitmask := let* m := numa_get_mems_allowed in sret (mkBitmask m).
Definition get_interleaved_mask : St W Bitmask := let* m := numa_get_interleave_mask in sret (mkBitmask m).
Definition get_membind : St W Bitmask := let* m := numa_get_membind in sret (mkBitmask m).
Definition get_run_node_mask : St W Bitmask := let* m := numa_get_run_node_mask in sret (mkBitmask m).

Definition set_bit (b : Bitmask) (bit : Z) : St W unit :=
  let* _ := assert_size b bit in
  let* _ := numa_bitmask_setbit (bitmask b) (wrap 32 bit) in sret tt.

Definition set_all (b : Bitmask) : St W unit := let* _ := numa_bitmask_setall (bitmask b) in sret tt.

Definition bit (b : Bitmask) (idx : Z) : St W bool :=
  let* _ := assert_size b idx in
  let* r := numa_bitmask_isbitset (bitmask b) (wrap 32 idx) in sret (r =? 1).

Definition size_in_bytes (b : Bitmask) : St W Z := numa_bitmask_nbytes (bitmask b).

(** [Drop for Bitmask] *)
Definition drop (b : Bitmask) : St W unit := numa_bitmask_free (bitmask b).

Definition numa_distance (node1 node2 : Z) : St W Z := wrapped_distance node1 node2.
Definition numa_set_interleave_mask (b : Bitmask) : St W unit := wrapped_set_interleave_mask (bitmask b).
Definition numa_bind (b : Bitmask) : St W unit := wrapped_bind (bitmask b).
Definition numa_set_membind (b : Bitmask) : St W unit := wrapped_set_membind (bitmask b).
Definition numa_run_on_node_mask (b : Bitmask) : St W unit := wrapped_run_on_node_mask (bitmask b).
Definition numa_alloc_interleaved_subset (size : Z) (b : Bitmask) : St W Z :=
  wrapped_alloc_interleaved_subset size (bitmask b).
Definition numa_tonodemask_memory (start size : Z) (b : Bitmask) : St W unit :=
  wrapped_tonodemask_memory start size (bitmask b).

(** What the manual of libnuma says of masks: setting, clearing and testing a bit below the
    size, and that [numa_bitmask_equal] returns one for equal masks and zero for others *)
Class MaskLaws (bits : Z -> W -> Z -> bool) : Prop := {
  setbit_spec m i w : exists w', numa_bitmask_setbit m i w = Ret (m, w') /\ bitmap_size m w' = bitmap_size m w /\
    forall j, 0 <= j < bitmap_size m w -> bits m w' j = (j =? i) || bits m w j;
  clearbit_spec m i w : exists w', numa_bitmask_clearbit m i w = Ret (m, w') /\ bitmap_size m w' = bitmap_size m w /\
    forall j, 0 <= j < bitmap_size m w -> bits m w' j = negb (j =? i) && bits m w j;
  isbitset_spec m i w : numa_bitmask_isbitset m i w = Ret (if bits m w i then 1 else 0, w);
  equal_spec m m' w : exists r, numa_bitmask_equal m m' w = Ret (r, w) /\
    (r = 1 <-> bitmap_size m w = bitmap_size m' w /\ forall j, 0 <= j < bitmap_size m w -> bits m w j = bits m' w j) /\
    (r = 0 \/ r = 1)
}.

Context {bits : Z -> W -> Z -> bool} {L : MaskLaws bits}.

(** A bit in range that was set reads as set, one that was cleared reads as cleared, and an
    index out of range panics. *)
Lemma bit_after_set (b : Bitmask) i w :
  0 <= i < bitmap_size (bitmask b) w -> i < 2 ^ 32 ->
  (exists w', set_bit b i w = Ret (tt, w') /\ bit b i w' = Ret (true, w')) /\
  (exists w', clear_bit b i w = Ret (tt, w') /\ bit b i w' = Ret (false, w')).
Proof using L.
  intros Hi H32. unfold set_bit, clear_bit, bit, assert_size.
  assert (Hw : wrap 32 i = i) by (apply wrap_small; unfold uint; lia).
  split; [destruct (setbit_spec (bitmask b) i w) as (w' & Hs & Hz & Hb)|destruct (clearbit_spec (bitmask b) i w) as (w' & Hs & Hz & Hb)].
  all: exists w'; split.
  1, 3: erewrite sbind_Ret by (unfold sbind, sgets; by rewrite (proj2 (Z.ltb_lt _ _)) by lia);
    rewrite Hw; by erewrite sbind_Ret by exact Hs.
  all: erewrite sbind_Ret by (unfold sbind, sgets; by rewrite Hz, (proj2 (Z.ltb_lt _ _)) by lia);
    rewrite Hw; erewrite sbind_Ret by apply isbitset_spec; rewrite Hb by done; by rewrite Z.eqb_refl.
Qed.

(** Equality of masks is inverted: [==] answers false for masks with the same bits, a
    mask and itself included, and true exactly for masks that differ. *)
Lemma bitmask_eq_inverted (b c : Bitmask) w :
  exists r, eq b c w = Ret (r, w) /\
    (r = false <-> bitmap_size (bitmask b) w = bitmap_size (bitmask c) w /\
       forall j, 0 <= j < bitmap_size (bitmask b) w -> bits (bitmask b) w j = bits (bitmask c) w j).
Proof using L.
  destruct (equal_spec (bitmask b) (bitmask c) w) as (r & He & Hr & H01). exists (r =? 0). split.
  - unfold eq. by erewrite sbind_Ret by exact He.
  - rewrite <-Hr. destruct H01 as [->| ->]; split; done.
Qed.

End wrapper.

End Masks.

(** ** The time-stamp counter *)

Module Asm.

(** [rdtsc] and [rdtscp] leave the counter in two 32-bit registers. *)
Class Counter (W : Type) : Type := { rdtsc : St W (Z * Z); rdtscp : St W (Z * Z) }.

Section counter.
Context {W : Type} {C : Counter W}.

Definition join (low high : Z) : Z := Z.lor (wrap 64 (Z.shiftl high 32)) low.

Definition rdtsc_unsafe : St W Z := let* '(low, high) := rdtsc in sret (join low high).
Definition rdtscp_unsafe : St W Z := let* '(low, high) := rdtscp in sret (join low high).

(** The halves are put together without loss. *)
Lemma join_value low high : uint 32 low -> uint 32 high -> join low high = high * 2 ^ 32 + low /\ uint 64 (join low high).
Proof.
  intros Hl Hh. assert (Hj : join low high = high * 2 ^ 32 + low).
  { unfold join. rewrite wrap_small; [by apply lor_shiftl_add|].
    rewrite Z.shiftl_mul_pow2 by lia. unfold uint in *. simpl in *. lia. }
  split; [done|]. rewrite Hj. unfold uint in *. simpl in *. lia.
Qed.

End counter.

End Asm.
