(* ===== verification/Maglev.v ===== *)
(** * The Maglev load balancer ([test/maglev/src/nf.rs])

    A table maps the hash of a flow to one of the backends. Every backend has its own
    permutation of the table's slots, and the backends take turns to claim the next free slot
    of their permutation until the table is full. The FNV and xxHash hashers are parameters.

    The loops have fuel: the table size is enough for both. *)

From Stdlib Require Import Zdivisibility.
From S2P Require Import Prelude Flows.

Module Maglev.

(** What the code takes for an empty slot *)
Definition EMPTY : Z := 32768.

Record Maglev : Type := mkMaglev { lut : list Z; lut_size : Z }.

Section operations.
Context {P : Profile}.

Definition offset_skip_for_name (h1 h2 : string -> Z) (name : string) (lsize : Z) : outcome (Z * Z) :=
  let hash1 := h1 name in
  let hash2 := h2 name in
  let! offset := urem hash2 lsize in
  let! m := usub 64 lsize 1 in
  let! r := urem hash1 m in
  let! skip := uadd 64 r 1 in
  Ret (offset, skip).

(** [(0..lsize).map(|j| (offset + j * skip) % lsize).collect()] *)
Definition permutation (offset skip lsize : Z) : outcome (list Z) :=
  collect (fun j => let! m := umul 64 j skip in let! s := uadd 64 offset m in urem s lsize) (seqZ 0 lsize).

Definition generate_permutations (h1 h2 : string -> Z) (backends : list string) (lsize : Z) : outcome (list (list Z)) :=
  collect (fun n => let! '(offset, skip) := offset_skip_for_name h1 h2 n lsize in permutation offset skip lsize) backends.

(** The variables of [generate_lut] *)
Record Filling : Type := mkFilling { next : list Z; entry : list Z; n : Z }.

(** [while entry[c] != 0x8000], from the slot [next[i]] of the permutation on: the free slot
    and its position in the permutation *)
Fixpoint probe (fuel : nat) (perm entry : list Z) (nexti : Z) : outcome (Z * Z) :=
  let! c := vindex perm nexti in
  let! e := vindex entry c in
  if e =? EMPTY then Ret (c, nexti)
  else match fuel with
       | O => NoFuel
       | S fuel => let! nexti := uadd 64 nexti 1 in probe fuel perm entry nexti
       end.

(** The turn of backend [i] *)
Definition turn (fuel : nat) (permutations : list (list Z)) (i : Z) (s : Filling) : outcome Filling :=
  let! perm := vindex permutations i in
  let! nexti := vindex (next s) i in
  let! '(c, nexti) := probe fuel perm (entry s) nexti in
  let! entry := vset (entry s) c i in
  let! nexti := uadd 64 nexti 1 in
  let! next := vset (next s) i nexti in
  let! n := uadd 64 (n s) 1 in
  Ret (mkFilling next entry n).

(** [for i in 0..next.len()], over the backends that are left *)
Fixpoint round (fuel : nat) (permutations : list (list Z)) (size : Z) (todo : list Z) (s : Filling) : outcome Filling :=
  match todo with
  | [] => Ret s
  | i :: todo =>
      let! s := turn fuel permutations i s in
      if size <=? n s then Ret s else round fuel permutations size todo s
  end.

Fixpoint rounds (fuel : nat) (turns : nat) (permutations : list (list Z)) (size : Z) (s : Filling) : outcome Filling :=
  if n s <? size then
    match fuel with
    | O => NoFuel
    | S fuel =>
        let! s := round turns permutations size (seqZ 0 (zlen (next s))) s in
        rounds fuel turns permutations size s
    end
  else Ret s.

Definition generate_lut (fuel : nat) (permutations : list (list Z)) (size : Z) : outcome (list Z) :=
  let s := mkFilling ((fun _ => 0) <$> permutations) ((fun _ => EMPTY) <$> seqZ 0 size) 0 in
  let! s := rounds fuel fuel permutations size s in
  Ret (entry s).

Definition new (fuel : nat) (h1 h2 : string -> Z) (name : list string) (lsize : Z) : outcome Maglev :=
  let! permutations := generate_permutations h1 h2 name lsize in
  let! lut := generate_lut fuel permutations lsize in
  Ret (mkMaglev lut lsize).

Definition lookup (m : Maglev) (hash : Z) : outcome Z :=
  let! idx := urem hash (lut_size m) in vindex (lut m) idx.

End operations.

(** *** The closure that picks the group of a packet *)

(** What the closure captures *)
Record Chooser : Type := mkChooser { table : Maglev; cache : gmap Z Z }.

Section choosing.
Context {P : Profile} `{BE : BigEndian} (fnv_hash : list Z -> Z).

(** On the payload of a packet: [*cache.entry(hash).or_insert_with(|| lut.lookup(hash))] *)
Definition choose (c : Chooser) (payload : list Z) : outcome (Z * Chooser) :=
  let! hash := ipv4_flow_hash fnv_hash payload 0 in
  match cache c !! hash with
  | Some out => Ret (out, c)
  | None => let! out := lookup (table c) hash in Ret (out, mkChooser (table c) (<[hash := out]> (cache c)))
  end.

(** The cache holds only what the table answers. *)
Definition coherent (m : Maglev) (c : Chooser) : Prop :=
  table c = m /\ forall hash out, cache c !! hash = Some out -> lookup m hash = Ret out.

(** The cache is invisible. *)
Lemma choose_coherent m c payload hash out :
  coherent m c -> ipv4_flow_hash fnv_hash payload 0 = Ret hash -> lookup m hash = Ret out ->
  exists c', choose c payload = Ret (out, c') /\ coherent m c'.
Proof.
  intros [<- Hc] Hh Hl. unfold choose. rewrite Hh. cbn [obind]. destruct (cache c !! hash) as [out'|] eqn:He.
  - apply Hc in He. exists c. split; [congruence|by split].
  - rewrite Hl. eexists. split; [done|]. split; [done|]. intros hash' out'. simpl.
    destruct (decide (hash = hash')) as [<-|]; [rewrite lookup_insert_eq; congruence|rewrite lookup_insert_ne by done; apply Hc].
Qed.

End choosing.

(** ** Permutations *)

Section permutations.
Context {P : Profile}.

Definition perm_ok (size : Z) (p : list Z) : Prop := p ≡ₚ seqZ 0 size.

(** Steps of a size prime to the table visit every slot. *)
Lemma steps_injective o s p j j' :
  Z.prime p -> 0 < s < p -> 0 <= j < p -> 0 <= j' < p -> (o + j * s) mod p = (o + j' * s) mod p -> j = j'.
Proof.
  intros Hp Hs Hj Hj' Heq.
  assert (Hd : (p | (j - j') * s)).
  { apply Z.mod_divide; [lia|]. replace ((j - j') * s) with ((o + j * s) - (o + j' * s)) by lia.
    rewrite Zminus_mod, Heq, Z.sub_diag. apply Z.mod_0_l. lia. }
  apply Z.divide_prime_mul in Hd as [[k Hk]|[k Hk]]; [..|done]; [|assert (k < 1) by nia; assert (0 < k) by nia; lia].
  assert (-1 < k < 1) by nia. assert (k = 0) as -> by lia. lia.
Qed.

Lemma permutation_ok o s p :
  Z.prime p -> p < 2 ^ 32 -> 0 <= o < p -> 0 < s < p -> exists l, permutation o s p = Ret l /\ perm_ok p l.
Proof.
  intros Hp Hsm Ho Hs. pose proof (Z.prime_ge_2 _ Hp).
  exists ((fun j => (o + j * s) mod p) <$> seqZ 0 p). split.
  - apply collect_fmap. intros j Hj%elem_of_seqZ. rewrite umul_small by (unfold uint; nia). simpl.
    rewrite uadd_small by (unfold uint; nia). simpl. apply urem_pos. lia.
  - apply submseteq_length_Permutation; [|by rewrite length_fmap]. apply NoDup_submseteq.
    + apply NoDup_fmap_2_strong; [|apply NoDup_seqZ]. intros j j' Hj%elem_of_seqZ Hj'%elem_of_seqZ.
      apply steps_injective; done || lia.
    + intros x (j & -> & Hj)%list_elem_of_fmap. apply elem_of_seqZ. pose proof (Z.mod_pos_bound (o + j * s) p). lia.
Qed.

Lemma generate_permutations_ok h1 h2 names p :
  Z.prime p -> p < 2 ^ 32 -> (forall s, 0 <= h1 s) -> exists ps, generate_permutations h1 h2 names p = Ret ps /\
    length ps = length names /\ Forall (perm_ok p) ps.
Proof.
  intros Hp Hsm Hh. pose proof (Z.prime_ge_2 _ Hp). unfold generate_permutations.
  induction names as [|x names (ps & IH & Hl & Hf)]; [by exists []|]. cbn [collect]. unfold offset_skip_for_name at 1.
  rewrite urem_pos, usub_small by (unfold uint; lia). simpl.
  rewrite urem_pos by lia. simpl. pose proof (Z.mod_pos_bound (h1 x) (p - 1)). pose proof (Z.mod_pos_bound (h2 x) p).
  rewrite uadd_small by (unfold uint; lia). simpl.
  destruct (permutation_ok (h2 x mod p) (h1 x mod (p - 1) + 1) p) as (l & -> & Hok); [done|lia..|].
  simpl. rewrite IH. simpl. exists (l :: ps). split; [done|]. split; [simpl; lia|by constructor].
Qed.

Lemma perm_lookup size p j : perm_ok size p -> 0 <= j < size -> exists c, p !! Z.to_nat j = Some c /\ 0 <= c < size.
Proof.
  intros Hp Hj. assert (Hl : length p = Z.to_nat size) by (by rewrite Hp, length_seqZ).
  destruct (lookup_lt_is_Some_2 p (Z.to_nat j)) as [c Hc]; [lia|]. exists c. split; [done|].
  apply list_elem_of_lookup_2 in Hc. rewrite Hp in Hc. apply elem_of_seqZ in Hc. lia.
Qed.

Lemma perm_position size p c : perm_ok size p -> 0 <= c < size -> exists j, 0 <= j < size /\ p !! Z.to_nat j = Some c.
Proof.
  intros Hp Hc. assert (Hin : c ∈ p) by (rewrite Hp; apply elem_of_seqZ; lia).
  apply list_elem_of_lookup_1 in Hin as [i Hi]. exists (Z.of_nat i). rewrite Nat2Z.id. split; [|done].
  pose proof (lookup_lt_Some _ _ _ Hi) as Hlt. rewrite Hp, length_seqZ in Hlt. lia.
Qed.

End permutations.

(** ** Filling the table *)

(** How many slots backend [b] of [k] has after [t] turns *)
Definition share (k t b : Z) : Z := t / k + (if b <? t mod k then 1 else 0).

Lemma share_step k t b :
  0 < k -> 0 <= b < k -> share k (t + 1) b = share k t b + (if b =? t mod k then 1 else 0).
Proof.
  intros Hk Hb. unfold share. pose proof (Z.div_mod t k ltac:(lia)) as Ht. pose proof (Z.mod_pos_bound t k Hk) as Hm.
  remember (t / k) as q eqn:Eq. remember (t mod k) as r eqn:Er. clear Eq Er. subst t.
  destruct (Z.eq_dec (r + 1) k) as [He|Hne].
  - replace (k * q + r + 1) with ((q + 1) * k) by lia. rewrite Z.div_mul, Z.mod_mul by lia.
    destruct (Z.ltb_spec b r), (Z.eqb_spec b r), (Z.ltb_spec b 0); lia.
  - replace (k * q + r + 1) with (r + 1 + q * k) by lia. rewrite Z.div_add, Z.mod_add, Z.div_small, Z.mod_small by lia.
    destruct (Z.ltb_spec b r), (Z.eqb_spec b r), (Z.ltb_spec b (r + 1)); lia.
Qed.

(** How often a value is in a table *)
Definition occurrences (x : Z) (l : list Z) : Z := zlen (filter (fun y => y = x) l).

Lemma occurrences_cons x y l : occurrences x (y :: l) = (if decide (y = x) then 1 else 0) + occurrences x l.
Proof. unfold occurrences. rewrite filter_cons. case_decide; simpl; lia. Qed.

Lemma occurrences_app x l l' : occurrences x (l ++ l') = occurrences x l + occurrences x l'.
Proof. unfold occurrences. rewrite filter_app, length_app. lia. Qed.

Lemma occurrences_in x l : 0 < occurrences x l -> x ∈ l.
Proof.
  unfold occurrences. destruct (filter _ l) as [|y k] eqn:Hf; simpl; [lia|]. intros _.
  assert (Hy : y ∈ filter (fun z => z = x) l) by (rewrite Hf; left). by apply list_elem_of_filter in Hy as [-> ?].
Qed.

Lemma occurrences_insert x l c e v :
  l !! c = Some e ->
  occurrences x (<[c := v]> l) =
  occurrences x l + (if decide (v = x) then 1 else 0) - (if decide (e = x) then 1 else 0).
Proof.
  intros Hc. pose proof (lookup_lt_Some _ _ _ Hc) as Hlt.
  rewrite insert_take_drop by done. rewrite <-(take_drop_middle l c e Hc) at 3.
  rewrite !occurrences_app, !occurrences_cons. lia.
Qed.

Section filling.
Context {P : Profile}.
Context (permutations : list (list Z)) (size : Z).
Abbreviation k := (zlen permutations).
Context (Hperms : Forall (perm_ok size) permutations) (Hk : 0 < k <= EMPTY) (Hsize : 0 < size < 2 ^ 63).

(** After [t] turns: every slot is free or has a backend, the slots that a backend passed are
    taken, and every backend has its share. *)
Record filled (t : Z) (s : Filling) : Prop := {
  filled_n : n s = t;
  filled_next : length (next s) = length permutations;
  filled_entry : length (entry s) = Z.to_nat size;
  filled_values : Forall (fun e => e = EMPTY \/ 0 <= e < k) (entry s);
  filled_free : occurrences EMPTY (entry s) = size - t;
  filled_passed i p j : permutations !! i = Some p -> next s !! i = Some j ->
    0 <= j /\ forall j' c, 0 <= j' < j -> p !! Z.to_nat j' = Some c -> entry s !! Z.to_nat c <> Some EMPTY;
  filled_shares b : 0 <= b < k -> occurrences b (entry s) = share k t b
}.

(** A free slot at position [jc] ends the search there at the latest. *)
Lemma probe_ok fuel p e j jc c0 :
  perm_ok size p -> length e = Z.to_nat size -> p !! Z.to_nat jc = Some c0 -> e !! Z.to_nat c0 = Some EMPTY ->
  0 <= j <= jc -> jc < size -> (Z.to_nat (jc - j) <= fuel)%nat ->
  exists c j', probe fuel p e j = Ret (c, j') /\ j <= j' <= jc /\ 0 <= c < size /\
    p !! Z.to_nat j' = Some c /\ e !! Z.to_nat c = Some EMPTY /\
    forall i c', j <= i < j' -> p !! Z.to_nat i = Some c' -> e !! Z.to_nat c' <> Some EMPTY.
Proof using Hk Hsize.
  intros Hp Hl Hjc Hc0. revert j. induction fuel as [|fuel IH]; intros j Hj Hs Hf.
  all: destruct (perm_lookup size p j Hp) as (c & Hc & Hcb); [lia|]; cbn [probe].
  all: rewrite (proj2 (vindex_Ret p j c)) by (split; [lia|done]); cbn [obind].
  all: destruct (lookup_lt_is_Some_2 e (Z.to_nat c)) as [x Hx]; [lia|].
  all: rewrite (proj2 (vindex_Ret e c x)) by (split; [lia|done]); cbn [obind].
  all: destruct (Z.eqb_spec x EMPTY) as [->|Hne].
  1, 3: exists c, j; split_and!; try done; lia.
  - assert (j = jc) as -> by lia. congruence.
  - assert (j <> jc) by congruence. rewrite uadd_small by (unfold uint; lia). cbn [obind].
    destruct (IH (j + 1)) as (c1 & j1 & Hpr & Hj1 & Hcb1 & Hp1 & He1 & Hbet); [lia..|].
    exists c1, j1. split; [done|]. split; [lia|]. split_and!; try done; try lia. intros i c' Hi Hc'.
    destruct (decide (i = j)) as [->|]; [|apply (Hbet i); [lia|done]]. congruence.
Qed.

(** The turn of backend [i], which is next in line *)
Lemma turn_ok fuel t s i :
  filled t s -> 0 <= t < size -> i = t mod k -> (Z.to_nat size <= fuel)%nat ->
  exists s', turn fuel permutations i s = Ret s' /\ filled (t + 1) s'.
Proof using Hperms Hk Hsize.
  intros [Hn Hnx He Hv Hfr Hpass Hsh] Ht Hi Hfuel. pose proof (Z.mod_pos_bound t k ltac:(lia)) as Hib.
  destruct (lookup_lt_is_Some_2 permutations (Z.to_nat i)) as [p Hp]; [lia|].
  destruct (lookup_lt_is_Some_2 (next s) (Z.to_nat i)) as [j Hj]; [lia|].
  pose proof (Forall_lookup_1 _ _ _ _ Hperms Hp) as Hok. destruct (Hpass _ _ _ Hp Hj) as [Hj0 Hjp].
  assert (Hin : EMPTY ∈ entry s) by (apply occurrences_in; lia).
  apply list_elem_of_lookup_1 in Hin as [x Hx]. pose proof (lookup_lt_Some _ _ _ Hx) as Hxb.
  destruct (perm_position size p (Z.of_nat x) Hok) as (jc & Hjc & Hpc); [lia|].
  assert (j <= jc).
  { destruct (Z.le_gt_cases j jc); [done|]. destruct (Hjp jc (Z.of_nat x)); [lia|done|by rewrite Nat2Z.id]. }
  destruct (probe_ok fuel p (entry s) j jc (Z.of_nat x)) as (c & j' & Hpr & Hj' & Hcb & Hpj & Hec & Hbet);
    [done|done|done|by rewrite Nat2Z.id|lia..|].
  exists (mkFilling (<[Z.to_nat i := j' + 1]> (next s)) (<[Z.to_nat c := i]> (entry s)) (t + 1)). split.
  { unfold turn. rewrite (proj2 (vindex_Ret _ i p)) by (split; [lia|done]). cbn [obind].
    rewrite (proj2 (vindex_Ret _ i j)) by (split; [lia|done]). cbn [obind]. rewrite Hpr. cbn [obind].
    rewrite vset_Ret by lia. cbn [obind]. rewrite uadd_small by (unfold uint; lia). cbn [obind].
    rewrite vset_Ret by lia. cbn [obind]. rewrite Hn. by rewrite uadd_small by (unfold uint; lia). }
  assert (i <> EMPTY) by lia. split; cbn [n next entry].
  - done.
  - by rewrite length_insert.
  - by rewrite length_insert.
  - apply Forall_insert; [done|]. right. lia.
  - rewrite (occurrences_insert _ _ _ EMPTY) by done. rewrite decide_False, decide_True by done. lia.
  - intros i1 p1 j1 Hp1 Hj1. destruct (decide (i1 = Z.to_nat i)) as [->|Hne].
    + rewrite list_lookup_insert_eq in Hj1 by lia. simplify_eq. split; [lia|]. intros i1 c1 Hi1 Hc1.
      destruct (decide (Z.to_nat c1 = Z.to_nat c)) as [->|Hne]; [rewrite list_lookup_insert_eq by lia; congruence|].
      rewrite list_lookup_insert_ne by done. destruct (decide (i1 < j)); [by apply (Hjp i1); [lia|]|].
      destruct (decide (i1 = j')) as [->|]; [congruence|]. apply (Hbet i1); [lia|done].
    + rewrite list_lookup_insert_ne in Hj1 by done. destruct (Hpass _ _ _ Hp1 Hj1) as [? Hpp]. split; [done|].
      intros i2 c2 Hi2 Hc2. destruct (decide (Z.to_nat c2 = Z.to_nat c)) as [->|];
        [rewrite list_lookup_insert_eq by lia; congruence|rewrite list_lookup_insert_ne by done; by apply (Hpp i2)].
  - intros b Hb. rewrite (occurrences_insert _ _ _ EMPTY), Hsh, share_step by (done || lia).
    rewrite (decide_False (P := EMPTY = b)) by lia. rewrite <-Hi.
    destruct (decide (i = b)), (Z.eqb_spec b i); lia.
Qed.

(** The backends from [i] on take their turns, until the table is full. *)
Lemma round_ok fuel t s i :
  filled t s -> 0 <= t < size -> 0 <= i < k -> t mod k = i -> (Z.to_nat size <= fuel)%nat ->
  exists t' s', round fuel permutations size (seqZ i (k - i)) s = Ret s' /\ filled t' s' /\ t < t' <= size /\
    (t' = size \/ t' mod k = 0).
Proof using Hperms Hk Hsize.
  intros Hs Ht Hi Hti Hf. remember (Z.to_nat (k - i)) as m eqn:Hm. revert t s i Hs Ht Hi Hti Hm.
  induction m as [|m IH]; intros t s i Hs Ht Hi Hti Hm; [lia|]. rewrite seqZ_cons by lia. cbn [round].
  destruct (turn_ok fuel t s i) as (s1 & Htu & Hs1); [done..|]. rewrite Htu. cbn [obind].
  rewrite (filled_n _ _ Hs1). destruct (Z.leb_spec size (t + 1)) as [Hle|Hgt].
  { exists (t + 1), s1. split; [done|]. split; [done|]. lia. }
  pose proof (Z.div_mod t k ltac:(lia)) as Hdm. destruct (decide (i + 1 = k)) as [He|Hne].
  - replace (Z.pred (k - i)) with 0 by lia. exists (t + 1), s1. split; [done|]. split; [done|]. split; [lia|]. right.
    replace (t + 1) with ((t / k + 1) * k) by lia. apply Z.mod_mul. lia.
  - assert (Hti' : (t + 1) mod k = i + 1).
    { replace (t + 1) with (i + 1 + t / k * k) by lia. rewrite Z.mod_add, Z.mod_small by lia. done. }
    destruct (IH (t + 1) s1 (Z.succ i)) as (t2 & s2 & Hr & Hs2 & Hb & He); [done|lia..|].
    replace (k - Z.succ i) with (Z.pred (k - i)) in Hr by lia. exists t2, s2. split; [done|]. split; [done|]. lia.
Qed.

Lemma rounds_ok turns fuel t s :
  filled t s -> 0 <= t <= size -> (t = size \/ t mod k = 0) -> (Z.to_nat (size - t) <= fuel)%nat ->
  (Z.to_nat size <= turns)%nat ->
  exists s', rounds fuel turns permutations size s = Ret s' /\ filled size s'.
Proof using Hperms Hk Hsize.
  revert t s. induction fuel as [|fuel IH]; intros t s Hs Ht Htm Hf Htu; cbn [rounds].
  all: rewrite (filled_n _ _ Hs); destruct (Z.ltb_spec t size).
  all: try (assert (t = size) as -> by lia; by exists s).
  { lia. }
  rewrite (filled_next _ _ Hs). destruct (round_ok turns t s 0) as (t1 & s1 & Hr & Hs1 & Hb & He); [done|lia..|].
  rewrite Z.sub_0_r in Hr. rewrite Hr. cbn [obind]. apply (IH t1); [done|lia|done|lia|done].
Qed.

Lemma filled_init : filled 0 (mkFilling ((fun _ => 0) <$> permutations) ((fun _ => EMPTY) <$> seqZ 0 size) 0).
Proof using Hk Hsize.
  assert (Hrep : (fun _ => EMPTY) <$> seqZ 0 size = replicate (Z.to_nat size) EMPTY).
  { rewrite (const_fmap _ _ EMPTY) by done. by rewrite length_seqZ. }
  assert (Hocc : forall b m, occurrences b (replicate m EMPTY) = if decide (EMPTY = b) then Z.of_nat m else 0).
  { intros b m. induction m as [|m IH]; [by case_decide|]. simpl replicate. rewrite occurrences_cons, IH. case_decide; lia. }
  rewrite Hrep. split; cbn [n next entry].
  - done.
  - by rewrite length_fmap.
  - by rewrite length_replicate.
  - apply Forall_replicate. by left.
  - rewrite Hocc, decide_True by done. lia.
  - intros i p j _ Hj. rewrite list_lookup_fmap in Hj. destruct (permutations !! i); [|done]. simplify_eq/=.
    split; [done|]. intros. lia.
  - intros b Hb. rewrite Hocc, decide_False by lia. unfold share. rewrite Z.div_0_l, Z.mod_0_l by lia.
    destruct (Z.ltb_spec b 0); lia.
Qed.

Lemma generate_lut_ok fuel :
  (Z.to_nat size <= fuel)%nat ->
  exists l, generate_lut fuel permutations size = Ret l /\ zlen l = size /\ Forall (fun b => 0 <= b < k) l /\
    forall b, 0 <= b < k -> occurrences b l = share k size b.
Proof using Hperms Hk Hsize.
  intros Hf. unfold generate_lut. destruct (rounds_ok fuel fuel 0 _ filled_init) as (s & Hr & Hs); [lia| |lia|lia|].
  { right. apply Z.mod_0_l. lia. }
  rewrite Hr. exists (entry s). split; [done|]. destruct Hs as [_ _ He Hv Hfr _ Hsh]. split; [lia|]. split; [|done].
  apply Forall_forall. intros b Hb. pose proof (proj1 (Forall_forall _ _) Hv b Hb) as [->|]; [|done].
  exfalso. unfold occurrences in Hfr. assert (Hin : EMPTY ∈ filter (fun y => y = EMPTY) (entry s)).
  { by apply list_elem_of_filter. }
  destruct (filter _ _); [by apply not_elem_of_nil in Hin|simpl in Hfr; lia].
Qed.

End filling.

(** ** What a balancer does *)

Section balance.
Context {P : Profile} (h1 h2 : string -> Z).

Lemma new_balanced fuel backends lsize :
  Z.prime lsize -> lsize < 2 ^ 32 -> 0 < zlen backends <= EMPTY -> (forall s, 0 <= h1 s) ->
  (Z.to_nat lsize <= fuel)%nat ->
  exists m, new fuel h1 h2 backends lsize = Ret m /\ zlen (lut m) = lsize /\ lut_size m = lsize /\
    (forall b, 0 <= b < zlen backends -> occurrences b (lut m) =
       lsize / zlen backends + (if b <? lsize mod zlen backends then 1 else 0)) /\
    (forall hash, 0 <= hash -> exists b, lookup m hash = Ret b /\ 0 <= b < zlen backends /\
       lut m !! Z.to_nat (hash mod lsize) = Some b).
Proof.
  intros Hp Hsm Hk Hh Hf. pose proof (Z.prime_ge_2 _ Hp).
  destruct (generate_permutations_ok h1 h2 backends lsize Hp Hsm Hh) as (ps & Hg & Hl & Hok).
  destruct (generate_lut_ok ps lsize Hok) with (fuel := fuel) as (l & Hlut & Hlen & Hv & Hsh);
    [rewrite Hl; done|split; lia|done|].
  exists (mkMaglev l lsize). unfold new. rewrite Hg. cbn [obind]. rewrite Hlut. rewrite Hl in *.
  split_and!; try done. intros hash Hh0. unfold lookup. simpl. rewrite urem_pos by lia. cbn [obind].
  pose proof (Z.mod_pos_bound hash lsize ltac:(lia)). destruct (vindex_lt l (hash mod lsize)) as [b Hb]; [lia|].
  exists b. pose proof (proj1 (vindex_Ret _ _ _) Hb) as [_ Hb']. split; [done|]. split; [|done].
  by apply (Forall_lookup_1 _ _ _ _ Hv Hb').
Qed.

(** C12: Maglev balances. For a table whose size is a prime number and at least one backend,
    the table is built without a panic and within as many turns as it has slots; every slot
    belongs to a backend, and backend [b] of [k] owns [size / k] of them, the first
    [size mod k] backends one more; every hash is looked up, to the backend of its slot. *)
Theorem maglev_balanced fuel backends lsize :
  Z.prime lsize -> lsize < 2 ^ 32 -> 0 < zlen backends <= EMPTY -> (forall s, 0 <= h1 s) ->
  (Z.to_nat lsize <= fuel)%nat ->
  exists m, new fuel h1 h2 backends lsize = Ret m /\ zlen (lut m) = lsize /\ lut_size m = lsize /\
    (forall b, 0 <= b < zlen backends -> occurrences b (lut m) =
       lsize / zlen backends + (if b <? lsize mod zlen backends then 1 else 0)) /\
    (forall hash, 0 <= hash -> exists b, lookup m hash = Ret b /\ 0 <= b < zlen backends /\
       lut m !! Z.to_nat (hash mod lsize) = Some b).
Proof. apply new_balanced. Qed.

(** Without backends the table never fills, whatever the fuel. *)
Lemma maglev_no_backends_spins fuel lsize : 0 < lsize -> new fuel h1 h2 [] lsize = NoFuel.
Proof.
  intros Hs. unfold new. simpl. unfold generate_lut. simpl.
  assert (Hr : forall f e, rounds f fuel [] lsize (mkFilling [] e 0) = NoFuel).
  { induction f as [|f IH]; intros e; cbn [rounds n next]; rewrite (proj2 (Z.ltb_lt _ _)) by lia; [done|]. apply IH. }
  by rewrite Hr.
Qed.

End balance.

(** The size of the table of the network function is prime: no number up to 256 divides it. *)
Lemma prime_65537 : Z.prime 65537.
Proof.
  split; [lia|]. intros d Hd [q Hq].
  assert (Hall : Forall (fun x => 65537 mod x <> 0) (seqZ 2 255)) by (apply (bool_decide_unpack _); vm_compute; exact I).
  rewrite Forall_forall in Hall. assert (Hmod : forall x y, 65537 = x * y -> 2 <= x <= 256 -> False).
  { intros x y Hxy Hx. apply (Hall x); [apply elem_of_seqZ; lia|]. rewrite Hxy, Z.mul_comm. apply Z.mod_mul. lia. }
  destruct (Z.le_gt_cases d 256); [by apply (Hmod d q); lia|]. apply (Hmod q d); [lia|]. nia.
Qed.

End Maglev.

(** Three backends share seven slots. *)
Module MaglevSample.
Import Maglev.

#[local] Existing Instance release.

Definition backends : list string := ["Larry"; "Curly"; "Moe"]%string.
Definition h1 (s : string) : Z := Z.of_nat (String.length s).
Definition h2 (s : string) : Z := match s with String a _ => Z.of_nat (Ascii.nat_of_ascii a) | _ => 0 end.

Lemma prime_7 : Z.prime 7.
Proof.
  split; [lia|]. intros d Hd [q Hq].
  assert (d = 2 \/ d = 3 \/ d = 4 \/ d = 5 \/ d = 6) as [->|[->|[->|[->| ->]]]] by lia; lia.
Qed.

Lemma maglev_balanced_witness :
  exists m, new 7 h1 h2 backends 7 = Ret m /\ zlen (lut m) = 7 /\ lut_size m = 7 /\
    (forall b, 0 <= b < 3 -> occurrences b (lut m) = 7 / 3 + (if b <? 7 mod 3 then 1 else 0)) /\
    (forall hash, 0 <= hash -> exists b, lookup m hash = Ret b /\ 0 <= b < 3 /\ lut m !! Z.to_nat (hash mod 7) = Some b).
Proof.
  apply (maglev_balanced h1 h2 7 backends 7 prime_7).
  - lia.
  - split; vm_compute; done.
  - intros s. unfold h1. lia.
  - vm_compute. lia.
Defined.

End MaglevSample.
