(* ===== verification/Lpm.v ===== *)
(** * Longest-prefix matching ([test/lpm/src/nf.rs], [test/lpm-embedded/src/nf.rs])

    The table of the DIR-24-8 scheme: one entry per /24, which is a gate or, with the top bit
    set, the number of a block of 256 entries in a second table. The two vectors of
    [2^24 + 1] zeros are kept sparse: the cells that were written. The specification is the
    gate of the longest prefix that an address is in.

    The sums of the code stay below [2^33] and cannot overflow [usize]. *)

From S2P Require Import Prelude.

Module Lpm.

(** ** A vector of [u16], zero where it was not written *)

Record vec : Type := mkVec { vec_len : Z; cells : gmap Z Z }.

Definition zeros (n : Z) : vec := mkVec n ∅.

Definition get (v : vec) (i : Z) : outcome Z :=
  if (0 <=? i) && (i <? vec_len v) then Ret (default 0 (cells v !! i)) else Panic.

Definition set (v : vec) (i x : Z) : outcome vec :=
  if (0 <=? i) && (i <? vec_len v) then Ret (mkVec (vec_len v) (<[i := x]> (cells v))) else Panic.

(** The content of an entry *)
Definition at_ (v : vec) (i : Z) : Z := default 0 (cells v !! i).

Lemma get_ok v i : 0 <= i < vec_len v -> get v i = Ret (at_ v i).
Proof. intros. unfold get. by rewrite (proj2 (Z.leb_le _ _)), (proj2 (Z.ltb_lt _ _)) by lia. Qed.

(** Writing [f j] to the entries [j] from [a] on, [n] of them *)
Definition written (f : Z -> Z) (a n : Z) (v v' : vec) : Prop :=
  vec_len v' = vec_len v /\ forall j, at_ v' j = if decide (a <= j < a + n) then f j else at_ v j.

Lemma each_set (f : Z -> Z) a n v :
  0 <= a -> 0 <= n -> a + n <= vec_len v ->
  exists v', each (fun j v => set v j (f j)) (seqZ a n) v = Ret v' /\ written f a n v v'.
Proof.
  intros Ha Hn Hl. destruct (each_inv (fun j v => set v j (f j)) (fun past v' => written f a (zlen past) v v') (seqZ a n) v)
    as (v' & He & Hw).
  - split; [done|]. intros j. rewrite decide_False by (simpl; lia). done.
  - intros past x rest v1 Hs [Hl1 Hw]. assert (Hx : seqZ a n !! length past = Some x) by (rewrite Hs; by apply list_lookup_middle).
    apply lookup_seqZ in Hx as [-> Hx]. unfold set. rewrite (proj2 (Z.leb_le _ _)), (proj2 (Z.ltb_lt _ _)) by lia.
    eexists. split; [done|]. split; [done|]. intros j. unfold at_ at 1. simpl. rewrite length_app. simpl.
    destruct (decide (a + zlen past = j)) as [<-|Hne].
    + rewrite lookup_insert_eq, decide_True by lia. done.
    + rewrite lookup_insert_ne by done. change (at_ v1 j = if decide (a <= j < a + Z.of_nat (length past + 1)) then f j else at_ v j).
      rewrite Hw. apply decide_ext. lia.
  - exists v'. split; [done|]. by rewrite length_seqZ, Z2Nat.id in Hw by lia.
Qed.

Lemma set_ok v a x : 0 <= a < vec_len v -> exists v', set v a x = Ret v' /\ written (fun _ => x) a 1 v v'.
Proof.
  intros Ha. unfold set. rewrite (proj2 (Z.leb_le _ _)), (proj2 (Z.ltb_lt _ _)) by lia. eexists. split; [done|].
  split; [done|]. intros j. unfold at_ at 1. simpl. destruct (decide (a = j)) as [<-|Hne].
  - by rewrite lookup_insert_eq, decide_True by lia.
  - by rewrite lookup_insert_ne, decide_False by (done || lia).
Qed.

(** ** The code *)

Definition TBL24_SIZE : Z := 2 ^ 24 + 1.
Definition RAW_SIZE : nat := 33.
Definition OVERFLOW_MASK : Z := 32768.

Record IPLookup : Type := mkLookup {
  tbl24 : vec;
  tbl_long : vec;
  current_tbl_long : Z;
  raw_entries : list (gmap Z Z)
}.

Definition new : IPLookup := mkLookup (zeros TBL24_SIZE) (zeros TBL24_SIZE) 0 (replicate RAW_SIZE ∅).

Definition insert (ip len gate : Z) (t : IPLookup) : outcome IPLookup :=
  let! m := vindex (raw_entries t) len in
  let! r := vset (raw_entries t) len (<[ip := gate]> m) in
  Ret (mkLookup (tbl24 t) (tbl_long t) (current_tbl_long t) r).

(** [u32::from] of an address is its value in host order. *)
Definition insert_ipv4 (a b c d : Z) (len gate : Z) : IPLookup -> outcome IPLookup :=
  insert (a * 2 ^ 24 + b * 2 ^ 16 + c * 2 ^ 8 + d) len gate.

(** The body of the loop over the prefixes of length [i], up to 24 *)
Definition add_short (i : Z) (kv : Z * Z) (t : IPLookup) : outcome IPLookup :=
  let '(k, v) := kv in
  let start := Z.shiftr k 8 in
  let end_ := start + Z.shiftl 1 (24 - i) in
  let! tbl := each (fun pfx tbl => set tbl pfx v) (seqZ start (end_ - start)) (tbl24 t) in
  Ret (mkLookup tbl (tbl_long t) (current_tbl_long t) (raw_entries t)).

(** The body of the loop over the prefixes of length [i], from 25 on *)
Definition add_long (i : Z) (kv : Z * Z) (t : IPLookup) : outcome IPLookup :=
  let '(addr, v) := kv in
  let! t24entry := get (tbl24 t) (Z.shiftr addr 8) in
  if Z.land t24entry OVERFLOW_MASK =? 0 then
    let ctlb := current_tbl_long t in
    let start := ctlb + Z.land addr 255 in
    let end_ := start + Z.shiftl 1 (32 - i) in
    let! long := each (fun j tbl => set tbl j (if (j <? start) || (end_ <=? j) then t24entry else v))
      (seqZ ctlb 256) (tbl_long t) in
    let! tbl := set (tbl24 t) (Z.shiftr addr 8) (Z.lor (wrap 16 (Z.shiftr ctlb 8)) OVERFLOW_MASK) in
    Ret (mkLookup tbl long (ctlb + 256) (raw_entries t))
  else
    let start := Z.shiftl (Z.land t24entry (unot 16 OVERFLOW_MASK)) 8 + Z.land addr 255 in
    let end_ := start + Z.shiftl 1 (32 - i) in
    let! long := each (fun j tbl => set tbl j v) (seqZ start (end_ - start)) (tbl_long t) in
    Ret (mkLookup (tbl24 t) long (current_tbl_long t) (raw_entries t)).

Section construct.
Context {HO : HashOrder Z}.

(** [for (k, v) in &self.raw_entries[i]] *)
Definition add_length (body : Z -> Z * Z -> IPLookup -> outcome IPLookup) (i : Z) (t : IPLookup) : outcome IPLookup :=
  let! m := vindex (raw_entries t) i in each (body i) (entries m) t.

Definition construct_table (t : IPLookup) : outcome IPLookup :=
  let! t := each (add_length add_short) (seqZ 0 25) t in
  each (add_length add_long) (seqZ 25 8) t.

End construct.

Definition lookup_entry (t : IPLookup) (ip : Z) : outcome Z :=
  let! t24entry := get (tbl24 t) (Z.shiftr ip 8) in
  if 0 <? Z.land t24entry OVERFLOW_MASK then
    let index := Z.shiftl (Z.land t24entry (unot 16 OVERFLOW_MASK)) 8 + Z.land ip 255 in
    get (tbl_long t) index
  else Ret t24entry.

(** ** Bits *)

Lemma shiftr_8 x : Z.shiftr x 8 = x / 256.
Proof. by rewrite Z.shiftr_div_pow2. Qed.

Lemma land_255 x : Z.land x 255 = x mod 256.
Proof. change 255 with (Z.ones 8). by rewrite Z.land_ones. Qed.

(** Entries of the first table: a gate below the mask, or the mask and a block *)
Lemma entry_gate e : 0 <= e < 32768 -> Z.land e OVERFLOW_MASK = 0.
Proof.
  intros He. unfold OVERFLOW_MASK. apply Z.bits_inj'. intros n Hn. rewrite Z.land_spec, Z.bits_0.
  change 32768 with (2 ^ 15). rewrite testbit_pow2_dec by lia. destruct (Z.eqb_spec n 15) as [->|]; [|by rewrite andb_false_r].
  by rewrite (uint_testbit_high 15 e) by (unfold uint; lia).
Qed.

Lemma entry_block b : 0 <= b < 32768 -> Z.lor b OVERFLOW_MASK = 32768 + b.
Proof.
  intros Hb. unfold OVERFLOW_MASK. rewrite Z.lor_comm. change 32768 with (Z.shiftl 1 15) at 1.
  by rewrite lor_shiftl_add by (unfold uint; lia).
Qed.

Lemma block_masked b : 0 <= b < 32768 -> Z.land (32768 + b) OVERFLOW_MASK = 32768.
Proof.
  intros Hb. rewrite <-entry_block by done. rewrite Z.land_lor_distr_l, entry_gate by done. by vm_compute.
Qed.

Lemma block_number b : 0 <= b < 32768 -> Z.land (32768 + b) (unot 16 OVERFLOW_MASK) = b.
Proof.
  intros Hb. change (unot 16 OVERFLOW_MASK) with (Z.ones 15). rewrite Z.land_ones by lia.
  replace (32768 + b) with (b + 1 * 2 ^ 15) by lia. rewrite Z.mod_add, Z.mod_small by lia. done.
Qed.

(** ** Prefixes *)

(** The address is in the prefix [k] of length [i]. *)
Definition within (i k ip : Z) : Prop := ip / 2 ^ (32 - i) = k / 2 ^ (32 - i).
#[export] Instance within_dec i k ip : Decision (within i k ip).
Proof. unfold within. apply _. Defined.

Definition prefix_ok (e : Z * (Z * Z)) : Prop :=
  let '(i, (k, v)) := e in
  0 <= i <= 32 /\ 0 <= k < 2 ^ 32 /\ k mod 2 ^ (32 - i) = 0 /\ 0 <= v < 32768.

(** The gate of the last prefix of the list that the address is in *)
Definition override (ip : Z) (acc : Z) (e : Z * (Z * Z)) : Z :=
  let '(i, (k, v)) := e in if decide (within i k ip) then v else acc.
Definition last_match (ps : list (Z * (Z * Z))) (ip : Z) : Z := foldl (override ip) 0 ps.

Lemma last_match_snoc ps e ip : last_match (ps ++ [e]) ip = override ip (last_match ps ip) e.
Proof. unfold last_match. by rewrite foldl_app. Qed.

(** In terms of its /24 and its last byte: a short prefix covers whole /24s, a long one a
    range of one of them. *)
Lemma within_short i k a low :
  0 <= i <= 24 -> k mod 2 ^ (32 - i) = 0 -> 0 <= low < 256 ->
  within i k (a * 256 + low) <-> k / 256 <= a < k / 256 + 2 ^ (24 - i).
Proof.
  intros Hi Hk Hl. unfold within. assert (Hp : 2 ^ (32 - i) = 2 ^ (24 - i) * 256).
  { change 256 with (2 ^ 8). rewrite <-Z.pow_add_r by lia. f_equal. lia. }
  rewrite Hp in *. set (p := 2 ^ (24 - i)) in *. assert (0 < p) by (apply Z.pow_pos_nonneg; lia).
  pose proof (Z.div_mod k (p * 256) ltac:(lia)) as Hd. set (q := k / (p * 256)) in *.
  assert (k / 256 = q * p) as -> by (symmetry; apply Z.div_unique_exact; lia).
  rewrite (Z.mul_comm p), <-Z.div_div, Z.div_add_l, (Z.div_small low), Z.add_0_r by lia. split.
  - intros Hq. pose proof (Z.div_mod a p ltac:(lia)). pose proof (Z.mod_pos_bound a p ltac:(lia)). nia.
  - intros Ha. symmetry. apply (Z.div_unique a p q (a - p * q)); lia.
Qed.

Lemma within_long i k a low :
  24 < i <= 32 -> k mod 2 ^ (32 - i) = 0 -> 0 <= low < 256 ->
  within i k (a * 256 + low) <-> a = k / 256 /\ k mod 256 <= low < k mod 256 + 2 ^ (32 - i).
Proof.
  intros Hi Hk Hl. unfold within. set (p := 2 ^ (32 - i)) in *. assert (0 < p) by (apply Z.pow_pos_nonneg; lia).
  assert (Hp : 256 = p * 2 ^ (i - 24)).
  { unfold p. rewrite <-Z.pow_add_r by lia. by replace (32 - i + (i - 24)) with 8 by lia. }
  set (r := 2 ^ (i - 24)) in *. assert (0 < r) by (apply Z.pow_pos_nonneg; lia).
  pose proof (Z.div_mod k p ltac:(lia)) as Hd. set (q := k / p) in *.
  pose proof (Z.div_mod k 256 ltac:(lia)) as Hk256. pose proof (Z.mod_pos_bound k 256 ltac:(lia)).
  set (ka := k / 256) in *. set (kl := k mod 256) in *.
  pose proof (Z.div_mod (a * 256 + low) p ltac:(lia)) as Hx. pose proof (Z.mod_pos_bound (a * 256 + low) p ltac:(lia)).
  set (x := (a * 256 + low) / p) in *.
  rewrite Hk in Hd. clearbody q ka kl x r p. clear Hk. assert (Hkl : exists l, kl = p * l).
  { exists (q - ka * r). replace (p * (q - ka * r)) with (p * q - ka * (p * r)) by ring. rewrite <-Hp. lia. }
  destruct Hkl as [l Hkl].
  assert (Hlr : kl + p <= 256).
  { assert (l < r) by nia. assert (p * (l + 1) <= p * r) by (apply Z.mul_le_mono_nonneg_l; lia). lia. }
  split.
  - intros Hxq. rewrite Hxq in Hx. assert (Hr : k <= a * 256 + low < k + p) by lia. clear Hx Hd Hkl.
    assert (a = ka) by lia. subst a. split; [done|]. lia.
  - intros [-> Hlow]. assert (p * q < p * (x + 1)) by lia. assert (p * x < p * (q + 1)) by lia. nia.
Qed.

Lemma long_fits i k : 24 < i <= 32 -> k mod 2 ^ (32 - i) = 0 -> k mod 256 + 2 ^ (32 - i) <= 256.
Proof.
  intros Hi Hk. assert (Hp : 256 = 2 ^ (32 - i) * 2 ^ (i - 24)).
  { rewrite <-Z.pow_add_r by lia. by replace (32 - i + (i - 24)) with 8 by lia. }
  assert (0 < 2 ^ (32 - i)) by (apply Z.pow_pos_nonneg; lia). set (p := 2 ^ (32 - i)) in *. set (r := 2 ^ (i - 24)) in *.
  assert (Hd : (p | k mod 256)).
  { rewrite Z.mod_eq by lia. apply Z.divide_sub_r; [apply Z.mod_divide; lia|]. exists (r * (k / 256)). rewrite Hp at 1. ring. }
  destruct Hd as [q Hq]. pose proof (Z.mod_pos_bound k 256 ltac:(lia)). assert (q < r) by nia. nia.
Qed.

(** ** The table so far *)

Definition is_long (e : Z * (Z * Z)) : bool := 24 <? e.1.

(** The entry of the /24 [a] is its gate, or a block of gates of its own. *)
Definition entry_ok (ps : list (Z * (Z * Z))) (t : IPLookup) (nb a : Z) : Prop :=
  (0 <= at_ (tbl24 t) a < 32768 /\ forall low, 0 <= low < 256 -> last_match ps (a * 256 + low) = at_ (tbl24 t) a) \/
  (exists b, at_ (tbl24 t) a = 32768 + b /\ 0 <= b < nb /\
     forall low, 0 <= low < 256 -> at_ (tbl_long t) (b * 256 + low) = last_match ps (a * 256 + low)).

Record built (ps : list (Z * (Z * Z))) (nb : Z) (t : IPLookup) : Prop := {
  built_len24 : vec_len (tbl24 t) = TBL24_SIZE;
  built_len_long : vec_len (tbl_long t) = TBL24_SIZE;
  built_current : current_tbl_long t = nb * 256;
  built_blocks : 0 <= nb <= zlen (filter is_long ps);
  built_entries a : 0 <= a < 2 ^ 24 -> entry_ok ps t nb a;
  built_apart a a' b : 0 <= a < 2 ^ 24 -> 0 <= a' < 2 ^ 24 -> 0 <= b ->
    at_ (tbl24 t) a = 32768 + b -> at_ (tbl24 t) a' = 32768 + b -> a = a'
}.

Lemma built_init raw : built [] 0 (mkLookup (zeros TBL24_SIZE) (zeros TBL24_SIZE) 0 raw).
Proof.
  assert (H0 : forall a, at_ (zeros TBL24_SIZE) a = 0) by (intros; unfold at_; simpl; by rewrite lookup_empty).
  split; cbn [tbl24 tbl_long current_tbl_long]; try done.
  - intros a Ha. left. cbn [tbl24]. by rewrite H0.
  - intros a a' b Ha Ha' Hb. rewrite H0. lia.
Qed.

Lemma lookup_built ps nb t ip :
  built ps nb t -> nb <= 32768 -> 0 <= ip < 2 ^ 32 -> lookup_entry t ip = Ret (last_match ps ip).
Proof.
  intros Hb Hnb Hip. pose proof Hb as [H24 Hlong _ [Hn _] He _]. unfold lookup_entry. rewrite shiftr_8, land_255.
  assert (Ha : 0 <= ip / 256 < 2 ^ 24).
  { split; [apply Z.div_pos; lia|]. apply Z.div_lt_upper_bound; lia. }
  pose proof (Z.mod_pos_bound ip 256 ltac:(lia)) as Hlow. pose proof (Z.div_mod ip 256 ltac:(lia)) as Hdm.
  rewrite get_ok by (rewrite H24; unfold TBL24_SIZE; lia). cbn [obind].
  replace (last_match ps ip) with (last_match ps (ip / 256 * 256 + ip mod 256)) by (f_equal; lia).
  destruct (He _ Ha) as [[Hg Hm]|(b & Hb24 & Hbn & Hm)].
  - rewrite entry_gate by done. simpl. by rewrite Hm.
  - rewrite Hb24, block_masked, block_number by lia. simpl. rewrite Z.shiftl_mul_pow2 by lia. change (2 ^ 8) with 256.
    rewrite get_ok by (rewrite Hlong; unfold TBL24_SIZE; lia). by rewrite Hm.
Qed.

Lemma filter_snoc_long ps e : filter is_long (ps ++ [e]) = filter is_long ps ++ if is_long e then [e] else [].
Proof. rewrite filter_app. f_equal. rewrite filter_cons. destruct (is_long e); simpl; done. Qed.

Lemma add_short_ok ps t i k v :
  built ps 0 t -> prefix_ok (i, (k, v)) -> i <= 24 ->
  exists t', add_short i (k, v) t = Ret t' /\ built (ps ++ [(i, (k, v))]) 0 t' /\ raw_entries t' = raw_entries t.
Proof.
  intros [H24 Hlong Hcur Hnb He Hap] (Hi & Hk & Hal & Hv) Hi24. unfold add_short.
  rewrite shiftr_8, Z.shiftl_mul_pow2, Z.mul_1_l by lia.
  assert (Hp : 0 < 2 ^ (24 - i)) by (apply Z.pow_pos_nonneg; lia).
  assert (Hk24 : 0 <= k / 256 /\ k / 256 + 2 ^ (24 - i) <= 2 ^ 24).
  { assert (Hp32 : 2 ^ (32 - i) = 2 ^ (24 - i) * 256) by (change 256 with (2 ^ 8); rewrite <-Z.pow_add_r by lia; f_equal; lia).
    assert (Hpp : 2 ^ 32 = 2 ^ (32 - i) * 2 ^ i) by (rewrite <-Z.pow_add_r by lia; f_equal; lia).
    split; [apply Z.div_pos; lia|]. pose proof (Z.div_mod k (2 ^ (32 - i)) ltac:(lia)) as Hd. rewrite Hal, Z.add_0_r in Hd.
    assert (Hq : k / 256 = k / 2 ^ (32 - i) * 2 ^ (24 - i)) by (symmetry; apply Z.div_unique_exact; lia).
    assert (0 < 2 ^ i) by (apply Z.pow_pos_nonneg; lia). assert (k / 2 ^ (32 - i) < 2 ^ i) by (apply Z.div_lt_upper_bound; lia).
    assert (Hpq : 2 ^ 24 = 2 ^ (24 - i) * 2 ^ i) by (rewrite <-Z.pow_add_r by lia; f_equal; lia). rewrite Hq, Hpq. nia. }
  replace (k / 256 + 2 ^ (24 - i) - k / 256) with (2 ^ (24 - i)) by lia.
  destruct (each_set (fun _ => v) (k / 256) (2 ^ (24 - i)) (tbl24 t)) as (tbl & Hw & Hl & Hat);
    [lia..|rewrite H24; unfold TBL24_SIZE; lia|].
  rewrite Hw. eexists. split; [done|]. split; [|done]. split; simpl; try done.
  - congruence.
  - rewrite filter_snoc_long. unfold is_long. simpl. rewrite (proj2 (Z.ltb_ge _ _)), app_nil_r by lia. done.
  - intros a Ha. left. destruct (He a Ha) as [[Hg Hm]|(b & _ & Hb & _)]; [|lia]. simpl. rewrite Hat.
    split; [case_decide; lia|]. intros low Hlow. rewrite last_match_snoc. simpl. rewrite Hm by done.
    apply decide_ext. apply within_short; done || lia.
  - intros a a' b Ha Ha' Hb. rewrite !Hat. destruct (He a Ha) as [[Hg _]|(b' & _ & Hb' & _)]; [|lia]. case_decide; lia.
Qed.

(** A long prefix of a /24 that has no block yet: a new one *)
Lemma new_block ps nb t i k v long tbl :
  built ps nb t -> prefix_ok (i, (k, v)) -> 24 < i -> nb < 32768 -> 0 <= at_ (tbl24 t) (k / 256) < 32768 ->
  written (fun j => if (j <? nb * 256 + k mod 256) || (nb * 256 + k mod 256 + 2 ^ (32 - i) <=? j)
                    then at_ (tbl24 t) (k / 256) else v) (nb * 256) 256 (tbl_long t) long ->
  written (fun _ => 32768 + nb) (k / 256) 1 (tbl24 t) tbl ->
  built (ps ++ [(i, (k, v))]) (nb + 1) (mkLookup tbl long (nb * 256 + 256) (raw_entries t)).
Proof.
  intros [H24 Hlong Hcur Hnb He Hap] (Hi & Hk & Hal & Hv) Hi24 Hsm Hdir [Hl Hal1] [Hl24 Hat].
  assert (Hka : 0 <= k / 256 < 2 ^ 24) by (split; [apply Z.div_pos; lia|apply Z.div_lt_upper_bound; lia]).
  split; cbn [tbl24 tbl_long current_tbl_long].
  - congruence.
  - congruence.
  - lia.
  - assert (Hlg : is_long (i, (k, v)) = true) by (by apply Z.ltb_lt). rewrite filter_snoc_long, Hlg, length_app. simpl. lia.
  - intros a Ha. unfold entry_ok. cbn [tbl24 tbl_long]. rewrite Hat. destruct (decide (a = k / 256)) as [->|Hne].
    + right. exists nb. rewrite decide_True by lia. split; [done|]. split; [lia|]. intros low Hlow.
      rewrite last_match_snoc, Hal1, decide_True by lia. unfold override.
      destruct (He _ Hka) as [[_ Hm]|(b & Hb & Hbb & _)]; [|lia]. rewrite Hm by done.
      pose proof (within_long i k (k / 256) low ltac:(lia) Hal Hlow) as Hwi.
      destruct (decide (within i k (k / 256 * 256 + low))) as [Hw|Hw]; [apply Hwi in Hw as [_ Hw]|];
        destruct (Z.ltb_spec (nb * 256 + low) (nb * 256 + k mod 256)),
          (Z.leb_spec (nb * 256 + k mod 256 + 2 ^ (32 - i)) (nb * 256 + low)); simpl; try done; try lia.
      destruct Hw. apply Hwi. split; [done|]. lia.
    + rewrite decide_False by lia.
      assert (Hov : forall low, 0 <= low < 256 -> override (a * 256 + low) (last_match ps (a * 256 + low)) (i, (k, v)) =
                                last_match ps (a * 256 + low)).
      { intros low Hlow. unfold override. apply decide_False. rewrite (within_long i k a low) by (done || lia). tauto. }
      destruct (He a Ha) as [[Hg Hm]|(b & Hb & Hbb & Hm)].
      * left. split; [done|]. intros low Hlow. rewrite last_match_snoc, Hov by done. by apply Hm.
      * right. exists b. split; [done|]. split; [lia|]. intros low Hlow.
        rewrite last_match_snoc, Hov, Hal1, decide_False by lia. by apply Hm.
  - intros a a' b Ha Ha' Hb. rewrite !Hat.
    assert (Hold : forall x, 0 <= x < 2 ^ 24 -> x <> k / 256 -> at_ (tbl24 t) x <> 32768 + nb).
    { intros x Hx Hne Heq. destruct (He x Hx) as [[Hg _]|(b' & Hb' & Hbb & _)]; lia. }
    destruct (decide (k / 256 <= a < k / 256 + 1)), (decide (k / 256 <= a' < k / 256 + 1)); intros E1 E2; try lia.
    + destruct (Hold a'); [done|lia|lia].
    + destruct (Hold a); [done|lia|lia].
    + by apply (Hap a a' b).
Qed.

(** A long prefix of a /24 that has a block *)
Lemma in_block ps nb t i k v b long :
  built ps nb t -> prefix_ok (i, (k, v)) -> 24 < i -> at_ (tbl24 t) (k / 256) = 32768 + b -> 0 <= b < nb ->
  written (fun _ => v) (b * 256 + k mod 256) (2 ^ (32 - i)) (tbl_long t) long ->
  built (ps ++ [(i, (k, v))]) nb (mkLookup (tbl24 t) long (current_tbl_long t) (raw_entries t)).
Proof.
  intros [H24 Hlong Hcur Hnb He Hap] (Hi & Hk & Hal & Hv) Hi24 Hblk Hb [Hl Hat].
  assert (Hka : 0 <= k / 256 < 2 ^ 24) by (split; [apply Z.div_pos; lia|apply Z.div_lt_upper_bound; lia]).
  pose proof (long_fits i k ltac:(lia) Hal) as Hfit.
  split; cbn [tbl24 tbl_long current_tbl_long]; try done; try congruence.
  - assert (Hlg : is_long (i, (k, v)) = true) by (by apply Z.ltb_lt). rewrite filter_snoc_long, Hlg, length_app. simpl. lia.
  - intros a Ha. unfold entry_ok. cbn [tbl24 tbl_long]. destruct (decide (a = k / 256)) as [->|Hne].
    + right. exists b. split; [done|]. split; [done|]. intros low Hlow. rewrite last_match_snoc, Hat. unfold override.
      destruct (He _ Hka) as [[Hg _]|(b' & Hb' & _ & Hm)]; [lia|]. assert (b' = b) as -> by lia. rewrite <-Hm by done.
      apply decide_ext. rewrite (within_long i k (k / 256) low) by (done || lia). lia.
    + assert (Hov : forall low, 0 <= low < 256 -> override (a * 256 + low) (last_match ps (a * 256 + low)) (i, (k, v)) =
                                last_match ps (a * 256 + low)).
      { intros low Hlow. unfold override. apply decide_False. rewrite (within_long i k a low) by (done || lia). tauto. }
      destruct (He a Ha) as [[Hg Hm]|(b' & Hb' & Hbb & Hm)].
      * left. split; [done|]. intros low Hlow. rewrite last_match_snoc, Hov by done. by apply Hm.
      * right. exists b'. split; [done|]. split; [done|]. intros low Hlow. rewrite last_match_snoc, Hov, Hat by done.
        assert (b' <> b). { intros ->. destruct Hne. apply (Hap a (k / 256) b); done || lia. }
        rewrite decide_False; [by apply Hm|]. pose proof (Z.mod_pos_bound k 256 ltac:(lia)). nia.
Qed.

Lemma add_long_ok ps nb t i k v :
  built ps nb t -> prefix_ok (i, (k, v)) -> 24 < i -> nb < 32768 ->
  exists nb' t', add_long i (k, v) t = Ret t' /\ built (ps ++ [(i, (k, v))]) nb' t' /\ raw_entries t' = raw_entries t.
Proof.
  intros Hb Hok Hi Hnb. pose proof Hb as [H24 Hlong Hcur [Hn0 _] He _]. pose proof Hok as (Hi32 & Hk & Hal & Hv).
  assert (Hka : 0 <= k / 256 < 2 ^ 24) by (split; [apply Z.div_pos; lia|apply Z.div_lt_upper_bound; lia]).
  pose proof (Z.mod_pos_bound k 256 ltac:(lia)) as Hkl. assert (Hp : 0 < 2 ^ (32 - i)) by (apply Z.pow_pos_nonneg; lia).
  assert (Hp' : 2 ^ (32 - i) <= 2 ^ 7) by (apply Z.pow_le_mono_r; lia).
  unfold add_long. rewrite shiftr_8, land_255, get_ok by (rewrite H24; unfold TBL24_SIZE; lia). cbn [obind].
  rewrite Z.shiftl_mul_pow2, Z.mul_1_l by lia. destruct (He _ Hka) as [[Hg Hm]|(b & Hblk & Hbb & Hm)].
  - rewrite entry_gate by done. simpl Z.eqb. cbv iota. rewrite Hcur.
    destruct (each_set (fun j => if (j <? nb * 256 + k mod 256) || (nb * 256 + k mod 256 + 2 ^ (32 - i) <=? j)
      then at_ (tbl24 t) (k / 256) else v) (nb * 256) 256 (tbl_long t)) as (long & Hw & Hwr);
      [lia..|rewrite Hlong; unfold TBL24_SIZE; lia|]. rewrite Hw. cbn [obind].
    assert (Hblock : Z.lor (wrap 16 (Z.shiftr (nb * 256) 8)) OVERFLOW_MASK = 32768 + nb).
    { rewrite shiftr_8, Z.div_mul, wrap_small by (unfold uint; lia). apply entry_block. lia. }
    rewrite Hblock. destruct (set_ok (tbl24 t) (k / 256) (32768 + nb)) as (tbl & Hs & Hws);
      [rewrite H24; unfold TBL24_SIZE; lia|]. rewrite Hs. cbn [obind].
    exists (nb + 1). eexists. split; [done|]. split; [|done]. by eapply new_block.
  - rewrite Hblk, block_masked, block_number by lia. simpl Z.eqb. cbv iota.
    rewrite Z.shiftl_mul_pow2 by lia. change (2 ^ 8) with 256. pose proof (long_fits i k ltac:(lia) Hal).
    replace (b * 256 + k mod 256 + 2 ^ (32 - i) - (b * 256 + k mod 256)) with (2 ^ (32 - i)) by lia.
    destruct (each_set (fun _ => v) (b * 256 + k mod 256) (2 ^ (32 - i)) (tbl_long t)) as (long & Hw & Hwr);
      [lia..|rewrite Hlong; unfold TBL24_SIZE; lia|].
    rewrite Hw. cbn [obind]. exists nb. eexists. split; [done|]. split; [|done]. by eapply in_block.
Qed.

(** ** Building it *)

Section table.
Context {HO : HashOrder Z}.

(** The prefixes of the given lengths, in the order in which the code visits them *)
Definition of_length (raw : list (gmap Z Z)) (i : Z) : list (Z * (Z * Z)) :=
  (fun kv => (i, kv)) <$> entries (default ∅ (raw !! Z.to_nat i)).
Definition listed (raw : list (gmap Z Z)) (lens : list Z) : list (Z * (Z * Z)) := lens ≫= of_length raw.

Lemma elem_of_listed raw lens i k v :
  (i, (k, v)) ∈ listed raw lens <-> i ∈ lens /\ default ∅ (raw !! Z.to_nat i) !! k = Some v.
Proof.
  unfold listed, of_length. rewrite list_elem_of_bind. setoid_rewrite list_elem_of_fmap. split.
  - intros (i' & ([k' v'] & [= -> -> ->] & Hkv%elem_of_entries) & Hi). done.
  - intros [Hi Hkv]. exists i. split; [|done]. exists (k, v). by rewrite elem_of_entries.
Qed.

Lemma NoDup_listed raw lens : NoDup lens -> NoDup (listed raw lens).
Proof.
  intros Hl. unfold listed. apply NoDup_bind; [| |done].
  - unfold of_length. intros i i' y _ _ (kv & -> & _)%list_elem_of_fmap (kv' & [= -> _] & _)%list_elem_of_fmap. done.
  - intros i _. unfold of_length. apply NoDup_fmap_2; [by intros ?? [=]|]. eapply NoDup_fmap_1, NoDup_entries.
Qed.

(** Visiting the lengths one after the other keeps an invariant over the prefixes seen. *)
Lemma each_length body (Inv : list (Z * (Z * Z)) -> IPLookup -> Prop) raw lens past0 t :
  (forall past i kv rest t, past0 ++ listed raw lens = past ++ (i, kv) :: rest -> i ∈ lens -> Inv past t ->
     raw_entries t = raw ->
     exists t', body i kv t = Ret t' /\ Inv (past ++ [(i, kv)]) t' /\ raw_entries t' = raw) ->
  Forall (fun i => 0 <= i < zlen raw) lens -> Inv past0 t -> raw_entries t = raw ->
  exists t', each (add_length body) lens t = Ret t' /\ Inv (past0 ++ listed raw lens) t' /\ raw_entries t' = raw.
Proof.
  revert past0 t. induction lens as [|i lens IH]; intros past0 t Hstep Hlens H0 Hraw.
  { exists t. simpl. rewrite app_nil_r. done. }
  apply Forall_cons in Hlens as [Hi Hlens]. cbn [each]. unfold add_length at 1. rewrite Hraw.
  destruct (lookup_lt_is_Some_2 raw (Z.to_nat i)) as [m Hm]; [lia|].
  rewrite (proj2 (vindex_Ret raw i m)) by (split; [lia|done]). cbn [obind].
  assert (Hls : listed raw (i :: lens) = ((fun kv => (i, kv)) <$> entries m) ++ listed raw lens).
  { unfold listed. simpl. unfold of_length at 1. by rewrite Hm. }
  rewrite Hls in *. destruct (each_inv (body i)
    (fun past t => Inv (past0 ++ ((fun kv => (i, kv)) <$> past)) t /\ raw_entries t = raw) (entries m) t) as (t1 & He & Ht1 & Hr1).
  - simpl. by rewrite app_nil_r.
  - intros past kv rest t1 Hent [Ht1 Hr1]. destruct (Hstep (past0 ++ ((fun kv => (i, kv)) <$> past)) i kv
      (((fun kv => (i, kv)) <$> rest) ++ listed raw lens) t1) as (t2 & Hb & Ht2 & Hr2); try done; [|left|].
    + rewrite Hent, fmap_app, fmap_cons, <-!app_assoc. done.
    + exists t2. split; [done|]. split; [|done]. by rewrite fmap_app, app_assoc.
  - rewrite He. cbn [obind]. rewrite app_assoc. apply IH; try done. intros past i' kv rest t2 Heq Hin.
    apply (Hstep past i' kv rest); [by rewrite app_assoc|by right].
Qed.

Lemma construct_ok raw :
  length raw = RAW_SIZE -> Forall prefix_ok (listed raw (seqZ 0 33)) ->
  zlen (filter is_long (listed raw (seqZ 0 33))) <= 32768 ->
  exists t, construct_table (mkLookup (zeros TBL24_SIZE) (zeros TBL24_SIZE) 0 raw) = Ret t /\
    forall ip, 0 <= ip < 2 ^ 32 -> lookup_entry t ip = Ret (last_match (listed raw (seqZ 0 33)) ip).
Proof.
  intros Hlen Hok Hlong.
  assert (Hsplit : listed raw (seqZ 0 33) = listed raw (seqZ 0 25) ++ listed raw (seqZ 25 8)).
  { unfold listed. change 33 with (25 + 8). rewrite seqZ_app by lia. by rewrite bind_app. }
  rewrite Hsplit in *. apply Forall_app in Hok as [Hok1 Hok2]. unfold construct_table.
  destruct (each_length add_short (fun ps t => built ps 0 t) raw (seqZ 0 25) []
    (mkLookup (zeros TBL24_SIZE) (zeros TBL24_SIZE) 0 raw)) as (t1 & H1 & Hb1 & Hr1).
  - intros past i [k v] rest t Heq Hi%elem_of_seqZ Hb Hr. rewrite <-Hr. apply add_short_ok; [done| |lia].
    apply (proj1 (Forall_forall _ _) Hok1). rewrite app_nil_l in Heq. rewrite Heq. apply elem_of_app. right. left.
  - apply Forall_forall. intros i Hi%elem_of_seqZ. rewrite Hlen. unfold RAW_SIZE. lia.
  - apply built_init.
  - done.
  - rewrite H1. cbn [obind]. rewrite app_nil_l in Hb1.
    destruct (each_length add_long (fun ps t => exists nb, built ps nb t) raw (seqZ 25 8) (listed raw (seqZ 0 25)) t1)
      as (t2 & H2 & (nb & Hb2) & _).
    + intros past i [k v] rest t Heq Hi%elem_of_seqZ (nb & Hb) Hr.
      assert (Hin : (i, (k, v)) ∈ listed raw (seqZ 25 8)).
      { assert (Hi2 : (i, (k, v)) ∈ listed raw (seqZ 0 25) ++ listed raw (seqZ 25 8)) by (rewrite Heq; apply elem_of_app; right; left).
        apply elem_of_app in Hi2 as [Hi2|?]; [|done]. apply elem_of_listed in Hi2 as [Hi2%elem_of_seqZ _]. lia. }
      rewrite Heq, filter_app, length_app, filter_cons, decide_True in Hlong by (apply Is_true_true, Z.ltb_lt; simpl; lia).
      simpl in Hlong. pose proof (built_blocks _ _ _ Hb).
      destruct (add_long_ok past nb t i k v Hb) as (nb' & t' & Ha & Hb' & Hr'); [|lia..|].
      { by apply (proj1 (Forall_forall _ _) Hok2). }
      exists t'. split; [done|]. split; [eauto|congruence].
    + apply Forall_forall. intros i Hi%elem_of_seqZ. rewrite Hlen. unfold RAW_SIZE. lia.
    + eauto.
    + done.
    + exists t2. split; [done|]. intros ip Hip. eapply lookup_built; [done| |done].
      pose proof (built_blocks _ _ _ Hb2). lia.
Qed.

(** ** Routes and the longest prefix *)

(** A route is a prefix length with an address and a gate, inserted in this order. *)
Definition add_route (r : Z * (Z * Z)) : IPLookup -> outcome IPLookup := insert r.2.1 r.1 r.2.2.

(** The best route so far is replaced by one that is at least as long. *)
Definition better (ip : Z) (best : option (Z * Z)) (r : Z * (Z * Z)) : option (Z * Z) :=
  let '(len, (k, v)) := r in
  if decide (within len k ip) then
    match best with Some (len', _) => if len' <=? len then Some (len, v) else best | None => Some (len, v) end
  else best.
Definition longest (routes : list (Z * (Z * Z))) (ip : Z) : option (Z * Z) := foldl (better ip) None routes.

(** The start of the prefix of length [i] that the address is in *)
Definition network (i ip : Z) : Z := ip - ip mod 2 ^ (32 - i).

Lemma within_network i k v ip : prefix_ok (i, (k, v)) -> within i k ip <-> k = network i ip.
Proof.
  intros (Hi & Hk & Hal & _). unfold within, network. assert (0 < 2 ^ (32 - i)) by (apply Z.pow_pos_nonneg; lia).
  set (p := 2 ^ (32 - i)) in *. pose proof (Z.div_mod k p ltac:(lia)). pose proof (Z.div_mod ip p ltac:(lia)).
  split; [intros E; rewrite E in *; lia|]. intros E. apply (Z.mul_reg_l _ _ p); lia.
Qed.

(** The best entry of the maps up to length [n - 1] *)
Fixpoint best_entry (raw : list (gmap Z Z)) (n : nat) (ip : Z) : option (Z * Z) :=
  match n with
  | O => None
  | S n =>
      match default ∅ (raw !! n) !! network (Z.of_nat n) ip with
      | Some v => Some (Z.of_nat n, v)
      | None => best_entry raw n ip
      end
  end.

Lemma best_entry_bound raw n ip len v : best_entry raw n ip = Some (len, v) -> 0 <= len < Z.of_nat n.
Proof.
  induction n as [|n IH]; simpl; [done|]. destruct (_ !! _); [intros [= <- <-]; lia|]. intros H%IH. lia.
Qed.

Lemma best_entry_insert raw n len k v ip m :
  prefix_ok (len, (k, v)) -> raw !! Z.to_nat len = Some m ->
  best_entry (<[Z.to_nat len := <[k := v]> m]> raw) n ip =
  if decide (len < Z.of_nat n) then better ip (best_entry raw n ip) (len, (k, v)) else best_entry raw n ip.
Proof.
  intros Hok Hm. pose proof Hok as (Hlen & _). pose proof (within_network len k v ip Hok) as Hw.
  pose proof (lookup_lt_Some _ _ _ Hm). induction n as [|n IH]; [by rewrite decide_False by lia|].
  cbn [best_entry]. rewrite IH. destruct (decide (n = Z.to_nat len)) as [->|Hne].
  - rewrite list_lookup_insert_eq, Hm by done. simpl default. rewrite Z2Nat.id by lia.
    rewrite decide_False, decide_True by lia. unfold better. destruct (decide (within len k ip)) as [Hin|Hin].
    + rewrite (proj1 Hw Hin), lookup_insert_eq. destruct (m !! network len ip); [by rewrite Z.leb_refl|].
      destruct (best_entry raw (Z.to_nat len) ip) as [[l' g']|] eqn:Hb; [|done].
      apply best_entry_bound in Hb. by rewrite (proj2 (Z.leb_le _ _)) by lia.
    + by rewrite lookup_insert_ne by tauto.
  - rewrite list_lookup_insert_ne by done. destruct (default ∅ (raw !! n) !! network (Z.of_nat n) ip) as [g|] eqn:Hg.
    + unfold better. repeat case_decide; try done; try lia. by rewrite (proj2 (Z.leb_gt _ _)) by lia.
    + repeat case_decide; try done; lia.
Qed.

(** What the maps hold after the routes were inserted *)
Lemma add_routes_ok routes :
  Forall prefix_ok routes ->
  exists raw, each add_route routes new = Ret (mkLookup (zeros TBL24_SIZE) (zeros TBL24_SIZE) 0 raw) /\
    length raw = RAW_SIZE /\
    (forall i k v, default ∅ (raw !! Z.to_nat i) !! k = Some v -> 0 <= i -> (i, (k, v)) ∈ routes) /\
    (forall ip, best_entry raw 33 ip = longest routes ip).
Proof.
  intros Hok. destruct (each_inv add_route (fun past t => exists raw,
    t = mkLookup (zeros TBL24_SIZE) (zeros TBL24_SIZE) 0 raw /\ length raw = RAW_SIZE /\
    (forall i k v, default ∅ (raw !! Z.to_nat i) !! k = Some v -> 0 <= i -> (i, (k, v)) ∈ past) /\
    (forall ip, best_entry raw 33 ip = longest past ip)) routes new) as (t & He & raw & -> & Hraw); [| |by eauto].
  - exists (replicate RAW_SIZE ∅). split; [done|]. split; [by rewrite length_replicate|].
    assert (Hempty : forall i, default ∅ (replicate RAW_SIZE (∅ : gmap Z Z) !! i) = ∅).
    { intros i. destruct (replicate _ _ !! i) eqn:E; [|done]. by apply lookup_replicate in E as [-> _]. }
    split; [intros i k v; by rewrite Hempty, lookup_empty|]. intros ip.
    assert (Hn : forall n, best_entry (replicate RAW_SIZE ∅) n ip = None); [|apply Hn].
    induction n as [|n IH]; [done|]. cbn [best_entry]. by rewrite Hempty, lookup_empty.
  - intros past [len [k v]] rest t Hr (raw & -> & Hlen & Hin & Hbest).
    pose proof (proj1 (Forall_forall _ _) Hok (len, (k, v)) ltac:(rewrite Hr; apply elem_of_app; right; left)) as Hp.
    pose proof Hp as (Hl32 & _). unfold RAW_SIZE in Hlen.
    destruct (lookup_lt_is_Some_2 raw (Z.to_nat len)) as [m Hm]; [lia|]. unfold add_route, insert. simpl.
    rewrite (proj2 (vindex_Ret raw len m)) by (split; [lia|done]). cbn [obind]. rewrite vset_Ret by lia. cbn [obind].
    eexists. split; [done|]. exists (<[Z.to_nat len := <[k := v]> m]> raw). split; [done|].
    split; [by rewrite length_insert|]. split.
    + intros i k' v' Hkv Hi. apply elem_of_app. destruct (decide (Z.to_nat i = Z.to_nat len)) as [Heq|Hne].
      * assert (i = len) as -> by lia. rewrite list_lookup_insert_eq in Hkv by lia. simpl in Hkv.
        destruct (decide (k = k')) as [<-|]; [rewrite lookup_insert_eq in Hkv; injection Hkv as <-; right; left|].
        rewrite lookup_insert_ne in Hkv by done. left. apply Hin; [by rewrite Hm|done].
      * rewrite list_lookup_insert_ne in Hkv by done. left. by apply Hin.
    + intros ip. etransitivity; [exact (best_entry_insert raw 33 len k v ip m Hp Hm)|]. rewrite decide_True by lia.
      unfold longest. by rewrite Hbest, foldl_app.
Qed.

(** Prefixes of one length do not overlap: at most one of them decides. *)
Lemma override_length i ip (l : list (Z * Z)) acc :
  NoDup l.*1 -> Forall (fun kv => prefix_ok (i, kv)) l ->
  (forall v, (network i ip, v) ∈ l -> foldl (override ip) acc ((fun kv => (i, kv)) <$> l) = v) /\
  ((forall v, (network i ip, v) ∉ l) -> foldl (override ip) acc ((fun kv => (i, kv)) <$> l) = acc).
Proof.
  intros Hnd Hok. revert acc. induction Hok as [|[k v] l Hkv Hok IH]; intros acc.
  { split; [|done]. intros v Hv. by apply not_elem_of_nil in Hv. }
  simpl in Hnd. apply NoDup_cons in Hnd as [Hk Hnd]. pose proof (within_network i k v ip Hkv) as Hw. simpl. split.
  - intros v' [[= <- <-]|Hv']%elem_of_cons; [|by apply IH]. rewrite decide_True by (by apply Hw).
    apply IH; [done|]. intros v'' Hv''. apply Hk. apply list_elem_of_fmap. by exists (network i ip, v'').
  - intros Hno. rewrite decide_False; [apply IH; [done|]; intros v' Hv'; apply (Hno v'); by right|].
    intros Hin%Hw. apply (Hno v). rewrite <-Hin. left.
Qed.

Lemma last_match_best raw n ip :
  Forall prefix_ok (listed raw (seqZ 0 (Z.of_nat n))) ->
  last_match (listed raw (seqZ 0 (Z.of_nat n))) ip = default 0 (snd <$> best_entry raw n ip).
Proof.
  induction n as [|n IH]; intros Hok; [done|].
  assert (Hs : listed raw (seqZ 0 (Z.of_nat (S n))) =
    listed raw (seqZ 0 (Z.of_nat n)) ++ ((fun kv => (Z.of_nat n, kv)) <$> entries (default ∅ (raw !! n)))).
  { unfold listed. replace (Z.of_nat (S n)) with (Z.of_nat n + 1) by lia. rewrite seqZ_app, bind_app by lia. f_equal.
    rewrite Z.add_0_l. change (seqZ (Z.of_nat n) 1) with [0 + Z.of_nat n]. simpl. unfold of_length.
    by rewrite app_nil_r, Z.add_0_l, Nat2Z.id. }
  rewrite Hs in *. apply Forall_app in Hok as [Hok1 Hok2]. unfold last_match in *. rewrite foldl_app, IH by done.
  rewrite Forall_fmap in Hok2. cbn [best_entry].
  destruct (override_length (Z.of_nat n) ip (entries (default ∅ (raw !! n))) (default 0 (snd <$> best_entry raw n ip))
    (NoDup_entries _) Hok2) as [Hyes Hno].
  destruct (default ∅ (raw !! n) !! network (Z.of_nat n) ip) as [g|] eqn:Hg.
  - apply Hyes. by apply elem_of_entries.
  - apply Hno. intros v Hv%elem_of_entries. congruence.
Qed.

Lemma routes_found routes :
  Forall prefix_ok routes -> zlen (filter is_long routes) <= 32768 ->
  exists t0 t, each add_route routes new = Ret t0 /\ construct_table t0 = Ret t /\
    forall ip, 0 <= ip < 2 ^ 32 -> lookup_entry t ip = Ret (default 0 (snd <$> longest routes ip)).
Proof.
  intros Hok Hlong. destruct (add_routes_ok routes Hok) as (raw & Hadd & Hlen & Hin & Hbest).
  assert (Hl : forall e, e ∈ listed raw (seqZ 0 33) -> e ∈ routes).
  { intros [i [k v]] [Hi%elem_of_seqZ Hkv]%elem_of_listed. apply Hin; [done|lia]. }
  assert (Hoks : Forall prefix_ok (listed raw (seqZ 0 33))).
  { rewrite Forall_forall in *. auto. }
  destruct (construct_ok raw Hlen Hoks) as (t & Hc & Hlk).
  { etransitivity; [|exact Hlong]. apply inj_le, submseteq_length, NoDup_submseteq; [apply NoDup_filter, NoDup_listed, NoDup_seqZ|].
    intros e [He Hel]%list_elem_of_filter. apply list_elem_of_filter. auto. }
  eexists _, t. split; [done|]. split; [done|]. intros ip Hip. rewrite Hlk by done.
  change 33 with (Z.of_nat 33). rewrite last_match_best by done. by rewrite Hbest.
Qed.

(** Routes to single hosts, all with one gate *)
Lemma longest_hosts hosts gate ip :
  0 <= ip < 2 ^ 32 -> Forall (fun k => 0 <= k < 2 ^ 32) hosts ->
  default 0 (snd <$> longest ((fun k => (32, (k, gate))) <$> hosts) ip) = if decide (ip ∈ hosts) then gate else 0.
Proof.
  intros Hip Hk. assert (Hw : forall k, 0 <= k < 2 ^ 32 -> within 32 k ip <-> k = ip).
  { intros k Hkr. unfold within. change (2 ^ (32 - 32)) with 1. rewrite !Z.div_1_r. done. }
  assert (Hsome : forall l, foldl (better ip) (Some (32, gate)) ((fun k => (32, (k, gate))) <$> l) = Some (32, gate)).
  { induction l as [|k l IH]; [done|]. simpl. by destruct (decide _). }
  unfold longest. induction Hk as [|k hosts Hkr _ IH]; [done|]. rewrite fmap_cons. cbn [foldl].
  assert (Hb : better ip None (32, (k, gate)) = if decide (within 32 k ip) then Some (32, gate) else None) by done.
  rewrite Hb. destruct (decide (within 32 k ip)) as [Hn|Hn].
  - apply Hw in Hn as ->; [|done]. rewrite Hsome, decide_True by (by left). done.
  - rewrite IH. rewrite Hw in Hn by done. destruct (decide (ip ∈ hosts)).
    + by rewrite decide_True by (by right).
    + by rewrite decide_False by (by intros [->|?]%elem_of_cons).
Qed.

(** C11: The table finds the longest prefix. Insert routes whose address is the first of its
    prefix and whose gate leaves the top bit free, at most 32768 of them longer than a /24.
    Then the table is built without a panic, in whatever order the hash maps list the routes,
    and every address is looked up to the gate of the longest route it is in, the last one
    inserted if a prefix was given twice, and to gate 0 if it is in none. *)
Theorem lpm_longest_prefix routes :
  Forall prefix_ok routes -> zlen (filter is_long routes) <= 32768 ->
  exists t0 t, each add_route routes new = Ret t0 /\ construct_table t0 = Ret t /\
    forall ip, 0 <= ip < 2 ^ 32 -> lookup_entry t ip = Ret (default 0 (snd <$> longest routes ip)).
Proof. exact (routes_found routes). Qed.

End table.

End Lpm.

Module LpmSample.
Import Lpm.

#[local] Instance listed_order {K} `{Countable K} : HashOrder K :=
  {| keys A m := (map_to_list m).*1; keys_permutation A m := reflexivity _ |}.

(** 10.1.0.0/16, 10.1.2.0/24, 10.1.2.128/25 and 10.1.2.130/32 *)
Definition routes : list (Z * (Z * Z)) :=
  [(32, (167838338, 4)); (16, (167837696, 1)); (24, (167838208, 2)); (25, (167838336, 3))].

Lemma lpm_longest_prefix_witness :
  exists t0 t, each add_route routes new = Ret t0 /\ construct_table t0 = Ret t /\
    lookup_entry t 167838338 = Ret 4 /\ lookup_entry t 167838339 = Ret 3 /\ lookup_entry t 167838209 = Ret 2 /\
    lookup_entry t 167837697 = Ret 1 /\ lookup_entry t 1 = Ret 0.
Proof.
  destruct (lpm_longest_prefix routes) as (t0 & t & H0 & Ht & Hl).
  - repeat (apply Forall_cons; split; [vm_compute; intuition congruence|]). constructor.
  - vm_compute. discriminate.
  - exists t0, t. split; [exact H0|]. split; [exact Ht|].
    repeat split; (rewrite Hl by lia; vm_compute; reflexivity).
Defined.

(** A prefix with host bits set is not cut to its network: 10.1.128.0/16 also catches the
    first half of 10.2.0.0/16, and misses the first half of its own. *)
Lemma unaligned_route_spills :
  exists t0 t, insert_ipv4 10 1 128 0 16 1 new = Ret t0 /\ construct_table t0 = Ret t /\
    lookup_entry t (10 * 2 ^ 24 + 1 * 2 ^ 16 + 1) = Ret 0 /\ lookup_entry t (10 * 2 ^ 24 + 2 * 2 ^ 16 + 1) = Ret 1.
Proof. do 2 eexists. split; [reflexivity|]. split; [vm_compute; reflexivity|]. split; vm_compute; reflexivity. Qed.

(** A gate with the top bit set is taken for a block of the second table. *)
Lemma wide_gate_lost :
  exists t0 t, insert_ipv4 10 1 2 0 24 32768 new = Ret t0 /\ construct_table t0 = Ret t /\
    lookup_entry t (10 * 2 ^ 24 + 1 * 2 ^ 16 + 2 * 2 ^ 8 + 1) = Ret 0.
Proof. do 2 eexists. split; [reflexivity|]. split; vm_compute; reflexivity. Qed.

End LpmSample.
