(* ===== verification/NatNf.v ===== *)
(** * Network address translation ([test/nat/src/nf.rs])

    The function rewrites the source of every flow from behind it to its own address and a
    port of its own, and the destination of replies back. Its specification keeps the list of
    the flows it has seen, in order: the [i]-th flow leaves from port [1024 + i]. *)

From S2P Require Import Prelude Flows.

(** ** Payloads that carry a flow *)

Section payloads.
Context `{BE : BigEndian} {BEL : BigEndianLaws BE} (ipv4_cksum : list Z -> Z).

(** An IPv4 header without a length below 20 bytes, and ports behind it *)
Definition ipv4_ok (bytes : list Z) : Prop :=
  bytes_ok bytes /\ exists b0, vindex bytes 0 = Ret b0 /\ 20 <= port_start_of b0 /\ port_start_of b0 + 4 <= zlen bytes.

(** The flow of a payload *)
Definition carries (bytes : list Z) (f : Flow) : Prop := ipv4_ok bytes /\ ipv4_extract_flow bytes = Ret (Some f).

Lemma read_slice_u32_ok bytes a : bytes_ok bytes -> 0 <= a -> a + 4 <= zlen bytes ->
  exists v, read_slice bytes a (a + 4) read_u32 = Ret v /\ uint 32 v.
Proof using BEL.
  intros Hb H0 Hl. unfold read_slice. rewrite vslice_Ret by lia. cbn [obind]. rewrite read_u32_spec.
  rewrite (proj2 (Nat.ltb_ge _ _)) by (rewrite length_take, length_drop; lia). eexists. split; [done|].
  unfold be_val. eapply uint_weaken; [apply le_val_uint|].
  - apply Forall_rev. by apply bytes_ok_take, bytes_ok_take, bytes_ok_drop.
  - rewrite length_rev, !length_take, length_drop. lia.
Qed.

Lemma read_slice_u16_ok bytes a : bytes_ok bytes -> 0 <= a -> a + 2 <= zlen bytes ->
  exists v, read_slice bytes a (a + 2) read_u16 = Ret v /\ uint 16 v.
Proof using BEL.
  intros Hb H0 Hl. unfold read_slice. rewrite vslice_Ret by lia. cbn [obind]. rewrite read_u16_spec.
  rewrite (proj2 (Nat.ltb_ge _ _)) by (rewrite length_take, length_drop; lia). eexists. split; [done|].
  unfold be_val. eapply uint_weaken; [apply le_val_uint|].
  - apply Forall_rev. by apply bytes_ok_take, bytes_ok_take, bytes_ok_drop.
  - rewrite length_rev, !length_take, length_drop. lia.
Qed.

(** Every such payload has a flow, whose fields fit. *)
Lemma carries_some bytes : ipv4_ok bytes -> exists f, carries bytes f /\ flow_ok f.
Proof using BEL.
  intros Hok. pose proof Hok as (Hb & b0 & Hb0 & Hps & Hl).
  destruct (vindex_lt bytes 9) as [proto Hp]; [lia|].
  destruct (read_slice_u32_ok bytes 12) as (sip & Hsip & ?); [done|lia..|].
  destruct (read_slice_u32_ok bytes 16) as (dip & Hdip & ?); [done|lia..|].
  destruct (read_slice_u16_ok bytes (port_start_of b0)) as (sp & Hsp & ?); [done|lia..|].
  destruct (read_slice_u16_ok bytes (port_start_of b0 + 2)) as (dp & Hdp & ?); [done|lia..|].
  exists (mkFlow sip dip sp dp proto). split.
  - split; [done|]. unfold ipv4_extract_flow. rewrite Hb0, Hp. cbn [obind].
    change 16 with (12 + 4) at 1. rewrite Hsip. cbn [obind]. change 20 with (16 + 4). rewrite Hdip. cbn [obind].
    rewrite Hsp. cbn [obind]. by rewrite Hdp.
  - unfold flow_ok. simpl. pose proof (vindex_byte bytes 9 proto Hb Hp). by split_and!.
Qed.

Lemma carries_flow_ok bytes f : carries bytes f -> flow_ok f.
Proof using BEL.
  intros [Hok He]. destruct (carries_some bytes Hok) as (g & [_ Hg] & Hf). rewrite He in Hg. by injection Hg as <-.
Qed.

(** Stamping a flow of the same protocol *)
Lemma stamp_carries bytes f g :
  carries bytes f -> flow_ok g -> flow_proto g = flow_proto f ->
  exists bytes', ipv4_stamp_flow ipv4_cksum g bytes = Ret bytes' /\ carries bytes' g /\ length bytes' = length bytes.
Proof using BEL.
  intros [(Hb & b0 & Hb0 & Hps & Hl) He] Hg Hproto.
  set (d := be_bytes 2 (ipv4_cksum (stamped g (port_start_of b0) bytes))).
  destruct (extract_stamped bytes b0 g Hb0 Hps Hl d) as (proto & Hp & Hx); [apply length_be_bytes|done|].
  assert (proto = flow_proto f) as ->.
  { unfold ipv4_extract_flow in He. rewrite Hb0, Hp in He. cbn [obind] in He.
    repeat (apply obind_Ret_inv in He as (? & _ & He)). by injection He as <-. }
  pose proof (length_stamped bytes b0 g Hps Hl) as Hls.
  exists (splice (stamped g (port_start_of b0) bytes) 10 d). split; [by apply stamp_eq|].
  assert (Hlen : length (splice (stamped g (port_start_of b0) bytes) 10 d) = length bytes).
  { rewrite length_splice; unfold d; rewrite ?length_be_bytes; lia. }
  split; [split|done].
  - split.
    + unfold stamped, d. by repeat (apply bytes_ok_splice; [|apply be_bytes_ok]).
    + exists b0. rewrite Hlen. split; [|done]. unfold d. rewrite vindex_splice_disjoint by (rewrite ?length_be_bytes; lia).
      rewrite stamped_vindex by lia. done.
  - rewrite Hx. destruct g. simpl in *. by rewrite Hproto.
Qed.

(** A write through a slice keeps the length of the bytes around it. *)
Lemma write_slice_shape bytes a b f bytes' :
  0 <= a -> (forall s s', f s = Ret s' -> bytes_ok s -> length s' = length s /\ bytes_ok s') ->
  write_slice bytes a b f = Ret bytes' -> bytes_ok bytes -> length bytes' = length bytes /\ bytes_ok bytes'.
Proof.
  intros Ha Hf Hw Hb. unfold write_slice in Hw. apply obind_Ret_inv in Hw as (s & Hs & (s' & Hs' & [= <-])%obind_Ret_inv).
  apply vslice_Ret_inv in Hs as (Hr & ->). destruct (Hf _ _ Hs') as [Hl Hb']; [by apply bytes_ok_take, bytes_ok_drop|].
  rewrite length_take, length_drop in Hl. split; [apply length_splice; lia|by apply bytes_ok_splice].
Qed.

Lemma write_u16_shape v s s' : write_u16 s v = Ret s' -> bytes_ok s -> length s' = length s /\ bytes_ok s'.
Proof using BEL.
  rewrite write_u16_spec. destruct (Nat.ltb_spec (length s) 2); [done|]. intros He Hb.
  assert (s' = be_bytes 2 v ++ drop 2 s) as -> by congruence.
  split; [rewrite length_app, length_be_bytes, length_drop; lia|apply bytes_ok_app; [apply be_bytes_ok|by apply bytes_ok_drop]].
Qed.

Lemma write_u32_shape v s s' : write_u32 s v = Ret s' -> bytes_ok s -> length s' = length s /\ bytes_ok s'.
Proof using BEL.
  rewrite write_u32_spec. destruct (Nat.ltb_spec (length s) 4); [done|]. intros He Hb.
  assert (s' = be_bytes 4 v ++ drop 4 s) as -> by congruence.
  split; [rewrite length_app, length_be_bytes, length_drop; lia|apply bytes_ok_app; [apply be_bytes_ok|by apply bytes_ok_drop]].
Qed.

Lemma stamp_shape f bytes bytes' :
  bytes_ok bytes -> ipv4_stamp_flow ipv4_cksum f bytes = Ret bytes' -> length bytes' = length bytes /\ bytes_ok bytes'.
Proof using BEL.
  intros Hb Hs. unfold ipv4_stamp_flow in Hs. apply obind_Ret_inv in Hs as (b0 & Hb0 & Hs).
  assert (0 <= port_start_of b0).
  { unfold port_start_of, IHL_TO_BYTE_FACTOR. pose proof (Z.land_nonneg b0 15). lia. }
  apply obind_Ret_inv in Hs as (b1 & H1 & Hs). apply write_slice_shape in H1 as [L1 B1]; [|lia|apply write_u32_shape|done].
  apply obind_Ret_inv in Hs as (b2 & H2 & Hs). apply write_slice_shape in H2 as [L2 B2]; [|lia|apply write_u32_shape|done].
  apply obind_Ret_inv in Hs as (b3 & H3 & Hs). apply write_slice_shape in H3 as [L3 B3]; [|lia|apply write_u16_shape|done].
  apply obind_Ret_inv in Hs as (b4 & H4 & Hs). apply write_slice_shape in H4 as [L4 B4]; [|lia|apply write_u16_shape|done].
  apply obind_Ret_inv in Hs as (b5 & H5 & Hs). apply write_slice_shape in H5 as [L5 B5]; [|lia|apply write_u16_shape|done].
  apply write_slice_shape in Hs as [L6 B6]; [|lia|apply write_u16_shape|done]. split; [congruence|done].
Qed.

End payloads.

(** ** The network function *)

Module NatFn.

Definition MIN_PORT : Z := 1024.
Definition MAX_PORT : Z := 65535.

Record FlowUsed : Type := mkFlowUsed { flow : Flow; time : Z; used : bool }.

Definition FlowUsed_default : FlowUsed := mkFlowUsed Flow_default 0 false.

(** The variables that the closure of [nat] owns *)
Record Nat : Type := mkNat { port_hash : gmap Flow Flow; flow_vec : list FlowUsed; next_port : Z }.

(** [(MIN_PORT..65535).map(|_| Default::default()).collect()]: one entry for every port of the range *)
Definition init : Nat := mkNat ∅ (replicate (Z.to_nat (65535 - MIN_PORT)) FlowUsed_default) 1024.

Section closure.
Context {P : Profile} `{BE : BigEndian} (ipv4_cksum : list Z -> Z) (ip : Z).

(** What the closure does with the payload of a packet *)
Definition translate (s : Nat) (payload : list Z) : outcome (Nat * list Z) :=
  let! o := ipv4_extract_flow payload in
  match o with
  | None => Ret (s, payload)
  | Some flow =>
      match port_hash s !! flow with
      | Some t => let! payload := ipv4_stamp_flow ipv4_cksum t payload in Ret (s, payload)
      | None =>
          if next_port s <? MAX_PORT then
            let assigned_port := next_port s in
            let! next_port := uadd 16 (next_port s) 1 in
            let! u := vindex (flow_vec s) assigned_port in
            let! flow_vec := vset (flow_vec s) assigned_port (mkFlowUsed flow (time u) (used u)) in
            let! u := vindex flow_vec assigned_port in
            let! flow_vec := vset flow_vec assigned_port (mkFlowUsed (NatFn.flow u) (time u) true) in
            let outgoing_flow := mkFlow ip (flow_dst_ip flow) assigned_port (flow_dst_port flow) (flow_proto flow) in
            let rev_flow := reverse_flow outgoing_flow in
            let port_hash := <[rev_flow := reverse_flow flow]> (<[flow := outgoing_flow]> (port_hash s)) in
            let! payload := ipv4_stamp_flow ipv4_cksum outgoing_flow payload in
            Ret (mkNat port_hash flow_vec next_port, payload)
          else Ret (s, payload)
      end
  end.

Lemma translate_shape {BEL : BigEndianLaws BE} s payload s' payload' :
  bytes_ok payload -> translate s payload = Ret (s', payload') -> length payload' = length payload /\ bytes_ok payload'.
Proof.
  intros Hb Ht. unfold translate in Ht. apply obind_Ret_inv in Ht as (o & _ & Ht). destruct o as [f|]; [|by injection Ht as <- <-].
  destruct (port_hash s !! f) as [t|].
  - apply obind_Ret_inv in Ht as (p & Hp & [= <- <-]). by eapply stamp_shape.
  - destruct (_ <? _); [|by injection Ht as <- <-]. outcome_inv.
    by eapply stamp_shape.
Qed.

(** The packets of a batch, in order *)
Fixpoint translate_all (s : Nat) (payloads : list (list Z)) : outcome (Nat * list (list Z)) :=
  match payloads with
  | [] => Ret (s, [])
  | p :: ps =>
      let! '(s, p) := translate s p in
      let! '(s, ps) := translate_all s ps in
      Ret (s, p :: ps)
  end.

(** *** The specification *)

(** How the [i]-th flow leaves *)
Definition outgoing (i : nat) (f : Flow) : Flow :=
  mkFlow ip (flow_dst_ip f) (MIN_PORT + Z.of_nat i) (flow_dst_port f) (flow_proto f).

(** As many flows as [flow_vec], indexed by the port, has room for *)
Definition CAPACITY : Z := 63487.

(** A packet of flow [f] leaves with flow [g], when the flows [fs] have a port. *)
Inductive spec_step (fs : list Flow) : Flow -> list Flow -> Flow -> Prop :=
| step_known i f : fs !! i = Some f -> spec_step fs f fs (outgoing i f)
| step_fresh f : f ∉ fs -> flow_dst_ip f <> ip -> zlen fs < CAPACITY ->
    spec_step fs f (fs ++ [f]) (outgoing (length fs) f)
| step_reply i f : fs !! i = Some f -> spec_step fs (reverse_flow (outgoing i f)) fs (reverse_flow f).

Inductive spec_steps : list Flow -> list Flow -> list Flow -> list Flow -> Prop :=
| steps_nil fs : spec_steps fs [] fs []
| steps_cons fs f fs' g ins fs'' outs :
    spec_step fs f fs' g -> spec_steps fs' ins fs'' outs -> spec_steps fs (f :: ins) fs'' (g :: outs).

(** The state that represents the flows [fs] *)
Record represents (fs : list Flow) (s : Nat) : Prop := {
  rep_vec : zlen (flow_vec s) = MAX_PORT - MIN_PORT;
  rep_port : next_port s = MIN_PORT + zlen fs;
  rep_size : zlen fs <= CAPACITY;
  rep_flows : Forall (fun f => flow_ok f /\ flow_dst_ip f <> ip) fs;
  rep_known i f : fs !! i = Some f -> port_hash s !! f = Some (outgoing i f);
  rep_reply i f : fs !! i = Some f -> port_hash s !! reverse_flow (outgoing i f) = Some (reverse_flow f);
  rep_only f g : port_hash s !! f = Some g -> f ∈ fs \/ flow_dst_ip f = ip
}.

Lemma init_represents : represents [] init.
Proof. split; done. Qed.

Lemma outgoing_dst i f : flow_dst_ip (outgoing i f) = flow_dst_ip f.
Proof. done. Qed.

Lemma reply_dst i f : flow_dst_ip (reverse_flow (outgoing i f)) = ip.
Proof. done. Qed.

(** Different sessions get different replies: the port tells them apart. *)
Lemma reply_inj i j f g : reverse_flow (outgoing i f) = reverse_flow (outgoing j g) -> i = j.
Proof. unfold outgoing, reverse_flow. intros [=]. lia. Qed.

Lemma represents_lookup fs s i f :
  represents fs s -> fs !! i = Some f -> flow_ok f /\ flow_dst_ip f <> ip /\ Z.of_nat i < CAPACITY.
Proof.
  intros Hr Hf. destruct (Forall_lookup_1 _ _ _ _ (rep_flows _ _ Hr) Hf) as [? ?]. split; [done|]. split; [done|].
  pose proof (lookup_lt_Some _ _ _ Hf). pose proof (rep_size _ _ Hr). lia.
Qed.

(** The state after a new flow *)
Lemma represents_fresh fs s f v :
  represents fs s -> flow_ok f -> f ∉ fs -> flow_dst_ip f <> ip -> zlen fs < CAPACITY ->
  zlen v = MAX_PORT - MIN_PORT ->
  represents (fs ++ [f]) (mkNat (<[reverse_flow (outgoing (length fs) f) := reverse_flow f]>
    (<[f := outgoing (length fs) f]> (port_hash s))) v (next_port s + 1)).
Proof.
  intros [Hvec Hport Hsize Hfl Hkn Hre Hon] Hok Hnew Hdst Hcap Hv. split; cbn [flow_vec next_port port_hash]; try done.
  - rewrite length_app. simpl. lia.
  - rewrite length_app. simpl. lia.
  - apply Forall_app. split; [done|]. by constructor.
  - intros i g Hg. assert (Hgd : flow_dst_ip g <> ip).
    { apply lookup_app_Some in Hg as [Hg|[_ Hg]]; [by apply (Forall_lookup_1 _ _ _ _ Hfl Hg)|].
      apply list_lookup_singleton_Some in Hg as [_ <-]. done. }
    rewrite lookup_insert_ne by (intros <-; by rewrite reply_dst in Hgd).
    apply lookup_app_Some in Hg as [Hg|[Hi Hg]].
    + rewrite lookup_insert_ne by (intros <-; by apply Hnew, list_elem_of_lookup_2 with i). by apply Hkn.
    + apply list_lookup_singleton_Some in Hg as [Hi' <-]. rewrite lookup_insert_eq. do 2 f_equal. lia.
  - intros i g Hg. apply lookup_app_Some in Hg as [Hg|[Hi Hg]].
    + pose proof (lookup_lt_Some _ _ _ Hg). rewrite lookup_insert_ne by (intros He%reply_inj; lia).
      rewrite lookup_insert_ne by (intros He; by rewrite He in Hdst). by apply Hre.
    + apply list_lookup_singleton_Some in Hg as [Hi' <-]. replace i with (length fs) by lia. apply lookup_insert_eq.
  - intros g g' Hg. destruct (decide (g = reverse_flow (outgoing (length fs) f))) as [->|Hne]; [by right|].
    rewrite lookup_insert_ne in Hg by done. destruct (decide (g = f)) as [->|Hne']; [left; set_solver|].
    rewrite lookup_insert_ne in Hg by done. destruct (Hon _ _ Hg); [left; set_solver|by right].
Qed.

Context {BEL : BigEndianLaws BE} (Hip : uint 32 ip).

Lemma outgoing_ok i f : flow_ok f -> Z.of_nat i < CAPACITY -> flow_ok (outgoing i f).
Proof using Hip.
  unfold flow_ok, outgoing, CAPACITY, MIN_PORT. simpl. intros (?&?&?&?&?) Hi.
  assert (uint 16 (1024 + Z.of_nat i)) by (unfold uint; lia). by split_and!.
Qed.

(** A flow with an entry is stamped with it. *)
Lemma translate_hit s payload f g :
  carries payload f -> port_hash s !! f = Some g -> flow_ok g -> flow_proto g = flow_proto f ->
  exists payload', translate s payload = Ret (s, payload') /\ carries payload' g /\ length payload' = length payload.
Proof using BEL.
  intros Hc Hh Hok Hp. destruct (stamp_carries ipv4_cksum payload f g Hc Hok Hp) as (p' & Hs & Hc' & Hl).
  exists p'. split; [|done]. unfold translate. rewrite (proj2 Hc). cbn [obind]. rewrite Hh, Hs. done.
Qed.

Lemma translate_fresh fs s payload f :
  represents fs s -> carries payload f -> f ∉ fs -> flow_dst_ip f <> ip -> zlen fs < CAPACITY ->
  exists s' payload', translate s payload = Ret (s', payload') /\ represents (fs ++ [f]) s' /\
    carries payload' (outgoing (length fs) f) /\ length payload' = length payload.
Proof using BEL Hip.
  intros Hr Hc Hnew Hdst Hcap. pose proof (carries_flow_ok _ _ Hc) as Hok.
  destruct (stamp_carries ipv4_cksum payload f (outgoing (length fs) f) Hc) as (p' & Hs & Hc' & Hl); [by apply outgoing_ok|done|].
  pose proof Hr as [Hvec Hport Hsize Hfl Hkn Hre Hon]. unfold CAPACITY, MIN_PORT, MAX_PORT in *.
  assert (Hmiss : port_hash s !! f = None).
  { destruct (port_hash s !! f) as [g|] eqn:He; [|done]. by destruct (Hon _ _ He). }
  destruct (vindex_lt (flow_vec s) (next_port s)) as [u Hu]; [lia|].
  set (v1 := <[Z.to_nat (next_port s) := mkFlowUsed f (time u) (used u)]> (flow_vec s)).
  assert (Hl1 : length v1 = length (flow_vec s)) by apply length_insert.
  destruct (vindex_lt v1 (next_port s)) as [u' Hu']; [lia|].
  set (v2 := <[Z.to_nat (next_port s) := mkFlowUsed (flow u') (time u') true]> v1).
  assert (Hl2 : length v2 = length v1) by apply length_insert.
  eexists _, p'. split; [|split; [by apply (represents_fresh fs s f v2); unfold CAPACITY, MIN_PORT, MAX_PORT; try done; lia|done]].
  unfold translate. rewrite (proj2 Hc). cbn [obind]. rewrite Hmiss. unfold MAX_PORT.
  rewrite (proj2 (Z.ltb_lt _ _)) by lia. rewrite uadd_small by (unfold uint; lia). cbn [obind]. rewrite Hu. cbn [obind].
  rewrite vset_Ret by lia. cbn [obind]. fold v1. rewrite Hu'. cbn [obind]. rewrite vset_Ret by lia. cbn [obind]. fold v2.
  assert (Hout : mkFlow ip (flow_dst_ip f) (next_port s) (flow_dst_port f) (flow_proto f) = outgoing (length fs) f).
  { unfold outgoing, MIN_PORT. f_equal. lia. }
  rewrite Hout, Hs. done.
Qed.

(** One packet *)
Lemma translate_refines fs s payload f fs' g :
  represents fs s -> carries payload f -> spec_step fs f fs' g ->
  exists s' payload', translate s payload = Ret (s', payload') /\ represents fs' s' /\
    carries payload' g /\ length payload' = length payload.
Proof using BEL Hip.
  intros Hr Hc Hst. destruct Hst as [i f Hf|f Hnew Hdst Hcap|i f Hf].
  - destruct (represents_lookup fs s i f Hr Hf) as (Hok & Hd & Hi).
    destruct (translate_hit s payload f (outgoing i f)) as (p' & Ht & Hcl); [done|by apply (rep_known _ _ Hr)|by apply outgoing_ok|done|].
    eauto.
  - by apply translate_fresh.
  - destruct (represents_lookup fs s i f Hr Hf) as (Hok & Hd & Hi).
    destruct (translate_hit s payload (reverse_flow (outgoing i f)) (reverse_flow f)) as (p' & Ht & Hcl);
      [done|by apply (rep_reply _ _ Hr)| |done|eauto].
    unfold flow_ok, reverse_flow in *. simpl. tauto.
Qed.

Lemma translate_all_refines fs s payloads ins fs' outs :
  represents fs s -> Forall2 carries payloads ins -> spec_steps fs ins fs' outs ->
  exists s' payloads', translate_all s payloads = Ret (s', payloads') /\ represents fs' s' /\
    Forall2 carries payloads' outs /\ (length <$> payloads') = (length <$> payloads).
Proof using BEL Hip.
  intros Hr Hc Hst. revert s payloads Hr Hc. induction Hst as [fs|fs f fs1 g ins fs2 outs Hst _ IH]; intros s payloads Hr Hc.
  - apply Forall2_nil_inv_r in Hc as ->. exists s, []. done.
  - apply Forall2_cons_inv_r in Hc as (p & ps & Hp & Hps & ->).
    destruct (translate_refines fs s p f fs1 g Hr Hp Hst) as (s1 & p1 & H1 & Hr1 & Hp1 & Hl1).
    destruct (IH s1 ps Hr1 Hps) as (s2 & ps2 & H2 & Hr2 & Hps2 & Hl2).
    exists s2, (p1 :: ps2). simpl. rewrite H1. cbn [obind]. rewrite H2. split; [done|]. split; [done|].
    split; [by constructor|].
    f_equal; done.
Qed.

(** The flow after the last that [flow_vec] has room for panics, though ports are left. *)
Lemma translate_full fs s payload f :
  represents fs s -> zlen fs = CAPACITY -> carries payload f -> f ∉ fs -> flow_dst_ip f <> ip ->
  next_port s < MAX_PORT /\ translate s payload = Panic.
Proof using.
  intros [Hvec Hport Hsize Hfl Hkn Hre Hon] Hfull Hc Hnew Hdst. unfold CAPACITY, MIN_PORT, MAX_PORT in *.
  split; [lia|]. unfold translate. rewrite (proj2 Hc). cbn [obind].
  assert (Hmiss : port_hash s !! f = None).
  { destruct (port_hash s !! f) as [g|] eqn:He; [|done]. by destruct (Hon _ _ He). }
  rewrite Hmiss. unfold MAX_PORT. rewrite (proj2 (Z.ltb_lt _ _)) by lia. rewrite uadd_small by (unfold uint; lia). cbn [obind].
  unfold vindex. rewrite lookup_ge_None_2 by lia. by destruct (0 <=? _).
Qed.

(** network address translation implements its specification. Started with no sessions
    and fed any sequence of IPv4 packets whose flows the specification serves -- the flows of
    clients, new or known, not addressed to the translator, of which there are at most 63487,
    and the replies to them -- it never panics; the [i]-th client flow leaves from the
    translator's address and port [1024 + i] every time, a reply to it leaves as the reverse
    of the client's flow, and no packet changes its length or protocol. *)
Lemma nat_translates payloads ins sessions outs :
  Forall2 carries payloads ins -> spec_steps [] ins sessions outs ->
  exists s payloads', translate_all init payloads = Ret (s, payloads') /\ represents sessions s /\
    Forall2 carries payloads' outs /\ (length <$> payloads') = (length <$> payloads).
Proof using BEL Hip. intros. eapply (translate_all_refines []); [apply init_represents|done..]. Qed.

End closure.
End NatFn.

(** A client behind 192.0.2.1 asks a server, the server replies, and a second client asks. *)
Module NatSample.
Import NatFn.

Definition ip : Z := 3221225985.
Definition client : Flow := mkFlow 167772161 134744072 5000 53 17.
Definition client' : Flow := mkFlow 167772162 134744072 5000 53 17.

(** A minimal IPv4 header with ports *)
Definition packet (f : Flow) : list Z :=
  [69; 0; 0; 24; 0; 0; 0; 0; 64; flow_proto f; 0; 0] ++ be_bytes 4 (flow_src_ip f) ++ be_bytes 4 (flow_dst_ip f) ++
  be_bytes 2 (flow_src_port f) ++ be_bytes 2 (flow_dst_port f).

Definition reply : Flow := reverse_flow (outgoing ip 0 client).

Definition run : outcome (list (option Flow)) :=
  let! '(_, out) := @translate_all release byteorder (fun _ => 0) ip init (packet <$> [client; reply; client'; client]) in
  collect (fun p => @ipv4_extract_flow byteorder p) out.

Lemma run_flows :
  run = Ret (Some <$> [mkFlow ip 134744072 1024 53 17; reverse_flow client; mkFlow ip 134744072 1025 53 17;
                       mkFlow ip 134744072 1024 53 17]).
Proof. vm_compute. reflexivity. Qed.

Lemma nat_translates_witness :
  exists s payloads', @translate_all release byteorder (fun _ => 0) ip init (packet <$> [client; reply; client'; client]) =
      Ret (s, payloads') /\ represents ip [client; client'] s /\
    Forall2 (@carries byteorder) payloads'
      [outgoing ip 0 client; reverse_flow client; outgoing ip 1 client'; outgoing ip 0 client] /\
    (length <$> payloads') = (length <$> (packet <$> [client; reply; client'; client])).
Proof.
  apply (@nat_translates release byteorder (fun _ => 0) ip byteorder_laws ltac:(unfold uint, ip; lia))
    with (ins := [client; reply; client'; client]).
  - repeat apply Forall2_cons_2; [..|constructor]; (split; [split; [by apply (bool_decide_unpack _)|by exists 69]|by vm_compute]).
  - econstructor; [apply (step_fresh ip []); [set_solver|done|unfold CAPACITY; simpl; lia]|]. simpl.
    econstructor; [by apply (step_reply ip [client] 0 client)|].
    econstructor; [apply (step_fresh ip [client]); [by apply (bool_decide_unpack _)|done|unfold CAPACITY; simpl; lia]|]. simpl.
    econstructor; [by apply (step_known ip [client; client'] 0 client)|]. constructor.
Defined.

(** A packet to the translator's own address that answers no session is not dropped: it is
    taken for the flow of a new client and gets a port. *)
Definition stray : Flow := mkFlow 134744072 ip 80 2000 6.

Lemma nat_translates_strays :
  (let! '(s, out) := @translate release byteorder (fun _ => 0) ip init (packet stray) in
   let! o := @ipv4_extract_flow byteorder out in Ret (next_port s, o)) =
  Ret (1025, Some (mkFlow ip ip 1024 2000 6)).
Proof. vm_compute. reflexivity. Qed.

End NatSample.
