(* ===== verification/Reconstruction.v ===== *)
(** * TCP payload reconstruction ([test/tcp_payload/src/nf.rs])

    Every flow has a reordering buffer of its own. A segment is inserted, what is then
    available is read out and appended to the flow's text, and a FIN prints the text. The
    specification knows of every flow the next sequence number and the text so far. *)

From S2P Require Import Prelude Utils Flows Headers TcpHeader RingBuffer ReorderedBuffer.

Module Reconstruct.
Import Reorder.

Definition BUFFER_SIZE : Z := 2048.
Definition READ_SIZE : Z := 256.

(** What is printed *)
Inductive line : Type :=
| Payload (text : list Z)
| EmptyPayload (f : Flow)
| Untracked
| Resetting
| TooBig.

(** What the closure captures, and the lines it has printed *)
Record Recon : Type := mkRecon {
  rb_map : gmap Flow ReorderedBuffer;
  payload_cache : gmap Flow (list Z);
  printed : list line
}.

Section operations.
Context {P : Profile} (fuel : nat).

(** [while to_read > so_far], at most [n] times *)
Fixpoint read_loop (n : nat) (rb : ReorderedBuffer) (read_buf : list Z) (so_far to_read : Z) (flow : Flow)
    (cache : gmap Flow (list Z)) : outcome (ReorderedBuffer * gmap Flow (list Z)) :=
  if so_far <? to_read then
    match n with
    | O => NoFuel
    | S n =>
        let payload := default [] (cache !! flow) in
        let! '(k, read_buf, rb) := read_data fuel rb read_buf in
        let! so_far := uadd 64 so_far k in
        let! new := vslice read_buf 0 k in
        read_loop n rb read_buf so_far to_read flow (<[flow := payload ++ new]> cache)
    end
  else Ret (rb, cache).

Definition read_payload (rb : ReorderedBuffer) (to_read : Z) (flow : Flow) (payload_cache : gmap Flow (list Z)) :
    outcome (ReorderedBuffer * gmap Flow (list Z)) :=
  read_loop fuel rb (replicate (Z.to_nat READ_SIZE) 0) 0 to_read flow payload_cache.

(** The closure on a segment of a flow it has a buffer for *)
Definition occupied (b : ReorderedBuffer) (flow : Flow) (hdr : Tcp.TcpHeader) (payload : list Z) (s : Recon) : outcome Recon :=
  let seq := Tcp.seq_num hdr in
  let! '(result, b) := add_data fuel b seq payload in
  let! '(b, cache, out) :=
    match result with
    | Inserted _ available =>
        let! '(b, cache) := read_payload b available flow (payload_cache s) in Ret (b, cache, printed s)
    | OutOfMemory written _ =>
        if written =? 0 then
          let! b := reset fuel b in
          let! '(_, b) := Reorder.seq b seq payload in
          Ret (b, payload_cache s, printed s ++ [Resetting])
        else Ret (b, payload_cache s, printed s)
    end in
  let map := <[flow := b]> (rb_map s) in
  if Tcp.rst_flag hdr then Ret (mkRecon (delete flow map) cache out)
  else if Tcp.fin_flag hdr then
    match cache !! flow with
    | Some text => Ret (mkRecon (delete flow map) (delete flow cache) (out ++ [Payload text]))
    | None => Ret (mkRecon (delete flow map) cache (out ++ [EmptyPayload flow]))
    end
  else Ret (mkRecon map cache out).

(** ... and on one of a flow it has none for *)
Definition vacant (flow : Flow) (hdr : Tcp.TcpHeader) (payload : list Z) (s : Recon) : outcome Recon :=
  let! r := Reorder.new BUFFER_SIZE in
  match r with
  | Err _ => Ret s
  | Ok b =>
      let! '(seq, out) :=
        if Tcp.syn_flag hdr then let! seq := uadd 32 (Tcp.seq_num hdr) 1 in Ret (seq, printed s)
        else Ret (Tcp.seq_num hdr, printed s ++ [Untracked]) in
      let! '(result, b) := Reorder.seq b seq payload in
      match result with
      | Inserted _ available =>
          let! '(b, cache) := read_payload b available flow (payload_cache s) in
          Ret (mkRecon (<[flow := b]> (rb_map s)) cache out)
      | OutOfMemory _ _ => Ret (mkRecon (<[flow := b]> (rb_map s)) (payload_cache s) (out ++ [TooBig]))
      end
  end.

Definition on_segment (flow : Flow) (hdr : Tcp.TcpHeader) (payload : list Z) (s : Recon) : outcome Recon :=
  match rb_map s !! flow with
  | Some b => occupied b flow hdr payload s
  | None => vacant flow hdr payload s
  end.

Definition on_segments : list (Flow * Tcp.TcpHeader * list Z) -> Recon -> outcome Recon :=
  each (fun sg s => on_segment sg.1.1 sg.1.2 sg.2 s).

End operations.

(** ** The specification *)

(** The next sequence number of every open flow, and the text of every flow that has one *)
Record Streams : Type := mkStreams { tails : gmap Flow Z; texts : gmap Flow (list Z) }.

Definition append (f : Flow) (d : list Z) (t : gmap Flow (list Z)) : gmap Flow (list Z) :=
  if decide (d = []) then t else <[f := default [] (t !! f) ++ d]> t.

Definition dump (f : Flow) (t : gmap Flow (list Z)) : line :=
  match t !! f with Some text => Payload text | None => EmptyPayload f end.

(** A segment of an open flow adds what is beyond the next number; RST forgets the flow but
    not its text, FIN prints the text and forgets both. Any segment opens a flow. *)
Definition arrive (st : Streams) (f : Flow) (hdr : Tcp.TcpHeader) (d : list Z) : Streams * list line :=
  match tails st !! f with
  | Some t =>
      let fresh := drop (Z.to_nat (t - Tcp.seq_num hdr)) d in
      let texts := append f fresh (texts st) in
      if Tcp.rst_flag hdr then (mkStreams (delete f (tails st)) texts, [])
      else if Tcp.fin_flag hdr then (mkStreams (delete f (tails st)) (delete f texts), [dump f texts])
      else (mkStreams (<[f := wrapping_add 32 t (zlen fresh)]> (tails st)) texts, [])
  | None =>
      let s := if Tcp.syn_flag hdr then Tcp.seq_num hdr + 1 else Tcp.seq_num hdr in
      (mkStreams (<[f := wrapping_add 32 s (zlen d)]> (tails st)) (append f d (texts st)),
       if Tcp.syn_flag hdr then [] else [Untracked])
  end.

Definition CAPACITY : Z := 2047.

(** Data at the next expected number [t], or before it without reaching across the
    wrap-around of the sequence numbers *)
Definition gap_free (q : Z) (d : list Z) (t : Z) : Prop := q = t \/ (0 <= q < t /\ q + zlen d < 2 ^ 32).

(** Segments that fit in a buffer: a flow is opened by a SYN, the data of an open flow has no
    gap before it, and a SYN that is sent again carries none *)
Definition acceptable (st : Streams) (f : Flow) (hdr : Tcp.TcpHeader) (d : list Z) : Prop :=
  zlen d <= CAPACITY /\
  match tails st !! f with
  | Some t => gap_free (Tcp.seq_num hdr) d t /\ (Tcp.syn_flag hdr = true -> d = [])
  | None => Tcp.syn_flag hdr = true /\ 0 <= Tcp.seq_num hdr < 2 ^ 32 - 1
  end.

Fixpoint arrive_all (st : Streams) (segs : list (Flow * Tcp.TcpHeader * list Z)) : Streams * list line :=
  match segs with
  | [] => (st, [])
  | (f, hdr, d) :: segs =>
      let (st, out) := arrive st f hdr d in
      let (st, outs) := arrive_all st segs in (st, out ++ outs)
  end.

Fixpoint all_acceptable (st : Streams) (segs : list (Flow * Tcp.TcpHeader * list Z)) : Prop :=
  match segs with
  | [] => True
  | (f, hdr, d) :: segs => acceptable st f hdr d /\ all_acceptable (arrive st f hdr d).1 segs
  end.

(** An empty buffer that expects sequence number [t], connected or after a retransmission that
    ended exactly there *)
Definition expects (b : ReorderedBuffer) (t : Z) : Prop :=
  ((CInv b /\ abs b = ([], t) /\ Segments.idle (segment_list b)) \/ lapsed b t) /\ cap b = CAPACITY.

Record tracks (st : Streams) (s : Recon) : Prop := {
  tracks_tails f : match tails st !! f, rb_map s !! f with
    | Some t, Some b => expects b t
    | None, None => True
    | _, _ => False
    end;
  tracks_texts : payload_cache s = texts st
}.

Lemma tracks_start : tracks (mkStreams ∅ ∅) (mkRecon ∅ ∅ []).
Proof. split; [|done]. intros f. simpl. by rewrite !lookup_empty. Qed.

(** One connection in the specification: a SYN, contiguous segments and a FIN print the bytes
    of all of them. *)
Fixpoint contiguous (f : Flow) (q : Z) (segs : list (Tcp.TcpHeader * list Z)) : Prop :=
  match segs with
  | [] => True
  | (hdr, d) :: segs =>
      Tcp.seq_num hdr = q /\ Tcp.rst_flag hdr = false /\ (Tcp.fin_flag hdr = false <-> segs <> []) /\
      contiguous f (wrapping_add 32 q (zlen d)) segs
  end.

Lemma append_append f a b t : append f b (append f a t) = append f (a ++ b) t.
Proof.
  unfold append. destruct (decide (a = [])) as [->|Ha]; [done|]. rewrite (decide_False (P := a ++ b = [])) by (by destruct a).
  case_decide as Hb; [subst; by rewrite app_nil_r|].
  rewrite lookup_insert_eq, insert_insert_eq. simpl. by rewrite app_assoc.
Qed.

Lemma connection_printed f segs t st :
  segs <> [] -> tails st !! f = Some t -> contiguous f t segs ->
  (arrive_all st ((fun x => (f, x.1, x.2)) <$> segs)).2 = [dump f (append f (concat (segs.*2)) (texts st))].
Proof.
  revert t st. induction segs as [|[hdr d] segs IH]; intros t st Hne Ht Hc; [done|].
  destruct Hc as (Hq & Hr & Hf & Hc). rewrite !fmap_cons. cbn [arrive_all fst snd concat].
  unfold arrive. rewrite Ht, Hr, Hq, Z.sub_diag. change (drop (Z.to_nat 0) d) with d.
  destruct (Tcp.fin_flag hdr) eqn:Hfin.
  - assert (segs = []) as -> by (destruct segs; [done|discriminate (proj2 Hf ltac:(done))]). simpl. by rewrite app_nil_r.
  - destruct segs as [|sg segs]; [by destruct (proj1 Hf eq_refl)|].
    rewrite <-append_append. set (st1 := mkStreams _ (append f d (texts st))).
    assert (Ht1 : tails st1 !! f = Some (wrapping_add 32 t (zlen d))) by apply lookup_insert_eq.
    specialize (IH _ st1 ltac:(done) Ht1 Hc). destruct (arrive_all st1 _) as [st2 outs]. exact IH.
Qed.

Section refinement.
Context {P : Profile} (fuel : nat).

(** Reading everything there is *)
Lemma read_loop_ok n b q t buf so_far flow cache :
  CInv b -> abs b = (q, t) -> length buf = Z.to_nat READ_SIZE -> 0 <= so_far -> so_far + zlen q < 2 ^ 64 ->
  (length q <= n)%nat ->
  exists b', read_loop fuel n b buf so_far (so_far + zlen q) flow cache = Ret (b', append flow q cache) /\
    CInv b' /\ abs b' = ([], t) /\ cap b' = cap b /\ segment_list b' = segment_list b.
Proof.
  revert b q buf so_far cache. induction n as [|n IH]; intros b q buf so_far cache HC Ha Hbuf H0 Hb Hn.
  all: destruct q as [|x q].
  1, 3: exists b; simpl length; rewrite Z.add_0_r; unfold append; rewrite decide_True by done; cbn [read_loop];
    rewrite Z.ltb_irrefl; done.
  { simpl in Hn. lia. }
  cbn [read_loop]. rewrite (proj2 (Z.ltb_lt _ _)) by (simpl; lia).
  destruct (read_data_in_order fuel b buf HC) as (b1 & Hr & HC1 & Hcap1 & Hsl1 & Ha1).
  rewrite Ha in Hr, Ha1. unfold stream_step in Hr, Ha1. cbn [fst snd] in Hr, Ha1.
  set (k := Z.min (zlen (x :: q)) (zlen buf)) in *.
  assert (Hk : 1 <= k <= zlen (x :: q)) by (unfold k; rewrite Hbuf; unfold READ_SIZE; simpl; lia).
  cbn [buffer_step] in Hr. destruct (read_data fuel b buf) as [[[n1 buf1] b2]| | |]; [|done..]. cbn [obind] in Hr.
  injection Hr as -> -> ->. cbn [obind].
  rewrite uadd_small by (unfold uint; lia). cbn [obind].
  assert (Hbl : length (take (Z.to_nat k) (x :: q) ++ drop (Z.to_nat k) buf) = length buf).
  { rewrite length_app, length_take, length_drop. unfold k in *. lia. }
  rewrite vslice_to by (rewrite Hbl; unfold k; lia). cbn [obind].
  rewrite take_app_length' by (rewrite length_take; lia).
  destruct (IH b1 (drop (Z.to_nat k) (x :: q)) (take (Z.to_nat k) (x :: q) ++ drop (Z.to_nat k) buf) (so_far + k)
    (<[flow := default [] (cache !! flow) ++ take (Z.to_nat k) (x :: q)]> cache)) as (b' & Hr' & HC' & Ha' & Hcap' & Hsl');
    [done|done|by rewrite Hbl|lia|rewrite length_drop; lia|rewrite length_drop; simpl in *; lia|].
  exists b'. replace (so_far + k + zlen (drop (Z.to_nat k) (x :: q))) with (so_far + zlen (x :: q)) in Hr' by (rewrite length_drop; lia).
  rewrite Hr'. split; [|split; [done|split; [done|split; congruence]]]. f_equal. f_equal.
  unfold append at 2. rewrite decide_False by done. unfold append. case_decide as Hd.
  - f_equal. f_equal. rewrite <-(take_drop (Z.to_nat k) (x :: q)) at 2. by rewrite Hd, app_nil_r.
  - rewrite lookup_insert_eq. simpl default. rewrite insert_insert_eq, <-app_assoc, take_drop. done.
Qed.

Lemma read_payload_ok b q t flow cache :
  CInv b -> abs b = (q, t) -> zlen q < 2 ^ 64 -> (length q <= fuel)%nat ->
  exists b', read_payload fuel b (zlen q) flow cache = Ret (b', append flow q cache) /\
    CInv b' /\ abs b' = ([], t) /\ cap b' = cap b /\ segment_list b' = segment_list b.
Proof.
  intros HC Ha Hq Hf. apply (read_loop_ok fuel b q t _ 0 flow cache HC Ha); [by rewrite length_replicate|lia|lia|done].
Qed.

(** The buffer of a new flow *)
Lemma new_flow_ok q d :
  uint 32 q -> zlen d <= CAPACITY ->
  exists b b1, Reorder.new BUFFER_SIZE = Ret (Ok b) /\ Reorder.seq b q d = Ret (Inserted (zlen d) (zlen d), b1) /\
    CInv b1 /\ abs b1 = (d, wrapping_add 32 q (zlen d)) /\ cap b1 = CAPACITY /\ Segments.idle (segment_list b1).
Proof.
  intros Hq Hd. destruct (new_fresh BUFFER_SIZE) as (b & Hn & Hf & Hs & Hc); [by unfold BUFFER_SIZE|].
  assert (Hcap : cap b = CAPACITY) by (rewrite Hc, Hs; done).
  destruct (seq_fresh b q d Hf Hq) as (b1 & Hr & HC1 & Hcap1 & Hid & Ha). exists b, b1.
  rewrite Hcap, Z.min_l, ?Nat2Z.id, ?firstn_all, ?Z.eqb_refl in * by lia. by split_and!.
Qed.

Context (Hfuel : (Z.to_nat CAPACITY <= fuel)%nat).

(** What a buffer does with a segment of its flow *)
Lemma expects_add b t q d :
  expects b t -> zlen d <= CAPACITY -> gap_free q d t ->
  let new := drop (Z.to_nat (t - q)) d in
  exists b', add_data fuel b q d = Ret (Inserted (zlen new) (zlen new), b') /\ cap b' = CAPACITY /\
    ((CInv b' /\ abs b' = (new, wrapping_add 32 t (zlen new)) /\ Segments.idle (segment_list b')) \/
     (new = [] /\ lapsed b' t)).
Proof using Hfuel.
  intros [[(HC & Ha & Hid)|Hl] Hcap] Hd Hq new; unfold CAPACITY in *; (destruct fuel as [|fuel']; [lia|]).
  - assert (Hnew : zlen new <= zlen d) by (unfold new; rewrite length_drop; lia).
    assert (Htail : tail_seq b = t) by (unfold abs in Ha; by injection Ha).
    destruct (decide (q <> t /\ q + zlen d = t)) as [[Hne He]|Hord].
    + destruct Hq as [|[Hq Hw]]; [done|]. destruct (retransmission_lapses fuel' b t d HC Hid Ha) as (b1 & Hadd & Hl & Hc1); [lia|].
      replace (t - zlen d) with q in Hadd by lia. exists b1.
      assert (Hnil : new = []) by (apply drop_ge; lia). rewrite Hnil. split; [done|]. split; [congruence|by right].
    + destruct (add_data_in_order (S fuel') b q d HC) as (b1 & Hs & HC1 & Hcap1 & Hsl1 & Ha1).
      { rewrite Htail. split; [lia|]. destruct Hq as [->|[Hq Hw]]; [by left|]. right. split; [done|]. split; [done|]. intros He. apply Hord. split; lia. }
      rewrite Ha, Hcap in Hs, Ha1. unfold stream_step in Hs, Ha1. cbn [fst snd] in Hs, Ha1. fold new in Hs, Ha1.
      assert (Hmin : Z.min (zlen new) (2047 - zlen (@nil Z)) = zlen new) by (simpl; lia).
      rewrite Hmin, Z.eqb_refl in Hs. rewrite Hmin, Nat2Z.id, firstn_all in Ha1. simpl app in Ha1.
      change (zlen (@nil Z) + zlen new) with (zlen new) in Hs.
      cbn [buffer_step] in Hs. destruct (add_data (S fuel') b q d) as [[r b1']| | |]; [|done..].
      cbn [obind] in Hs. injection Hs as -> ->. exists b1. split; [done|]. split; [congruence|]. left. by rewrite Hsl1.
  - destruct (lapsed_add fuel' b t q d Hl) as [(Hq' & Hnil & Hadd)|(b1 & Hadd & HC1 & Hid1 & Hc1 & Ha1)];
      [destruct Hq as [->|[? _]]; [by left|by right]|lia|unfold Segments.U16_MAX; lia|..].
    + exists b. fold new in Hnil. rewrite Hnil. split; [done|]. split; [done|]. by right.
    + exists b1. split; [done|]. split; [congruence|]. by left.
Qed.

(** A segment of a tracked flow *)
Lemma occupied_ok st s f hdr d b t :
  tracks st s -> tails st !! f = Some t -> rb_map s !! f = Some b ->
  zlen d <= CAPACITY -> gap_free (Tcp.seq_num hdr) d t ->
  exists s', occupied fuel b f hdr d s = Ret s' /\ tracks (arrive st f hdr d).1 s' /\
    printed s' = printed s ++ (arrive st f hdr d).2.
Proof using Hfuel.
  intros [Htl Htx] Ht Hb Hd Hq.
  pose proof (Htl f) as He. rewrite Ht, Hb in He.
  destruct (expects_add b t (Tcp.seq_num hdr) d He Hd Hq) as (b1 & Hadd & Hcap1 & Hb1).
  set (fresh := drop (Z.to_nat (t - Tcp.seq_num hdr)) d) in *.
  assert (Hfr : zlen fresh <= zlen d) by (unfold fresh; rewrite length_drop; lia).
  assert (exists b2, read_payload fuel b1 (zlen fresh) f (payload_cache s) = Ret (b2, append f fresh (payload_cache s)) /\
    expects b2 (wrapping_add 32 t (zlen fresh))) as (b2 & Hrd & He2).
  { destruct Hb1 as [(HC1 & Ha1 & Hid1)|[Hnil Hl]]; unfold CAPACITY in *.
    - destruct (read_payload_ok b1 fresh (wrapping_add 32 t (zlen fresh)) f (payload_cache s) HC1 Ha1) as (b2 & Hrd & HC2 & Ha2 & Hcap2 & Hsl2);
        [lia|lia|]. exists b2. split; [done|]. split; [left; by rewrite Hsl2|]. unfold CAPACITY. congruence.
    - exists b1. rewrite Hnil. unfold append. rewrite decide_True by done. split; [by destruct fuel|]. split; [|done]. right.
      simpl. unfold wrapping_add. rewrite Z.add_0_r, wrap_small; [done|by destruct Hl as (_&_&_&_&_&_&?)]. }
  unfold occupied. rewrite Hadd. cbn [obind]. rewrite Hrd. cbn [obind].
  assert (Hdel : forall g, match delete f (tails st) !! g, delete f (<[f := b2]> (rb_map s)) !! g with
    | Some t, Some b => expects b t | None, None => True | _, _ => False end).
  { intros g. rewrite delete_insert_eq. destruct (decide (f = g)) as [<-|]; [by rewrite !lookup_delete_eq|].
    rewrite !lookup_delete_ne by done. apply Htl. }
  unfold arrive. rewrite Ht. fold fresh. rewrite Htx.
  destruct (Tcp.rst_flag hdr); [|destruct (Tcp.fin_flag hdr)].
  - eexists. split; [done|]. split; [by split|]. by rewrite app_nil_r.
  - unfold dump. destruct (append f fresh (texts st) !! f) as [text|] eqn:Htext.
    + eexists. split; [done|]. split; [by split|done].
    + eexists. split; [done|]. split; [|done]. split; [done|]. simpl. by rewrite delete_id.
  - eexists. split; [done|]. split; [|by rewrite app_nil_r]. split; [|done]. intros g. simpl.
    destruct (decide (f = g)) as [<-|]; [by rewrite !lookup_insert_eq|rewrite !lookup_insert_ne by done; apply Htl].
Qed.

Lemma vacant_ok st s f hdr d :
  tracks st s -> tails st !! f = None -> rb_map s !! f = None ->
  zlen d <= CAPACITY -> 0 <= Tcp.seq_num hdr < 2 ^ 32 - 1 ->
  exists s', vacant fuel f hdr d s = Ret s' /\ tracks (arrive st f hdr d).1 s' /\
    printed s' = printed s ++ (arrive st f hdr d).2.
Proof using Hfuel.
  intros [Htl Htx] Ht Hb Hd Hq0.
  set (q := if Tcp.syn_flag hdr then Tcp.seq_num hdr + 1 else Tcp.seq_num hdr).
  assert (Hq : uint 32 q) by (unfold q, uint in *; destruct (Tcp.syn_flag hdr); lia).
  destruct (new_flow_ok q d Hq Hd) as (b & b1 & Hn & Hs & HC1 & Ha1 & Hcap1 & Hid1).
  destruct (read_payload_ok b1 d _ f (payload_cache s) HC1 Ha1) as (b2 & Hrd & HC2 & Ha2 & Hcap2 & Hsl2); [unfold CAPACITY in *; lia|lia|].
  unfold vacant. rewrite Hn. cbn [obind].
  assert (Hsyn : (if Tcp.syn_flag hdr then let! seq := uadd 32 (Tcp.seq_num hdr) 1 in Ret (seq, printed s)
      else Ret (Tcp.seq_num hdr, printed s ++ [Untracked])) =
    Ret (q, printed s ++ if Tcp.syn_flag hdr then [] else [Untracked])).
  { unfold q. destruct (Tcp.syn_flag hdr); [rewrite uadd_small by (unfold uint; lia); cbn [obind]; by rewrite app_nil_r|done]. }
  rewrite Hsyn. cbn [obind]. rewrite Hs. cbn [obind]. rewrite Hrd. cbn [obind].
  eexists. split; [done|]. unfold arrive. rewrite Ht. fold q. cbn [fst snd]. split; [|done].
  split; [|simpl; by rewrite Htx]. intros g. simpl.
  destruct (decide (f = g)) as [<-|]; [rewrite !lookup_insert_eq|rewrite !lookup_insert_ne by done; apply Htl].
  split; [left; by rewrite Hsl2|congruence].
Qed.

Lemma on_segments_ok segs st s :
  tracks st s -> all_acceptable st segs ->
  exists s', on_segments fuel segs s = Ret s' /\ tracks (arrive_all st segs).1 s' /\
    printed s' = printed s ++ (arrive_all st segs).2.
Proof using Hfuel.
  revert st s. induction segs as [|[[f hdr] d] segs IH]; intros st s Htr Hacc.
  { exists s. simpl. by rewrite app_nil_r. }
  destruct Hacc as [Ha Hacc].
  assert (exists s1, on_segment fuel f hdr d s = Ret s1 /\ tracks (arrive st f hdr d).1 s1 /\
    printed s1 = printed s ++ (arrive st f hdr d).2) as (s1 & H1 & Htr1 & Hp1).
  { unfold on_segment. pose proof (tracks_tails _ _ Htr f) as Hf.
    destruct (rb_map s !! f) as [b|] eqn:Hb, (tails st !! f) as [t|] eqn:Ht; try done.
    - unfold acceptable in Ha. rewrite Ht in Ha. destruct Ha as (? & ? & _). by eapply occupied_ok.
    - unfold acceptable in Ha. rewrite Ht in Ha. destruct Ha as (? & _ & ?). by apply vacant_ok. }
  destruct (IH _ s1 Htr1 Hacc) as (s2 & H2 & Htr2 & Hp2). exists s2. unfold on_segments in *. cbn [each fst snd].
  rewrite H1. cbn [obind]. rewrite H2. cbn [arrive_all]. destruct (arrive st f hdr d) as [st1 out]. cbn [fst snd] in *.
  destruct (arrive_all st1 segs) as [st2 outs]. cbn [fst snd] in *. split; [done|]. split; [done|].
  by rewrite Hp2, Hp1, app_assoc.
Qed.


End refinement.
End Reconstruct.

(** "hello", in a SYN, a segment, which is then sent again, a retransmission with more, and a FIN *)
Module ReconstructSample.
Import Reconstruct.

#[local] Existing Instance release.

Definition conn : Flow := mkFlow 167772161 134744072 5000 80 6.
Definition other : Flow := mkFlow 167772162 134744072 5000 80 6.

Definition header (q : Z) (fl : Z) : Tcp.TcpHeader :=
  let h := Tcp.set_seq_num Tcp.new q in
  let h := if Z.testbit fl 0 then Tcp.set_fin_flag h else h in
  let h := if Z.testbit fl 1 then Tcp.set_syn_flag h else h in
  if Z.testbit fl 2 then Tcp.set_rst_flag h else h.

Definition segments : list (Flow * Tcp.TcpHeader * list Z) :=
  [(conn, header 99 2, []); (conn, header 100 0, [104; 101]); (conn, header 100 0, [104; 101]); (other, header 7 2, [1]);
   (conn, header 101 0, [101; 108; 108]); (conn, header 104 1, [111])].

Lemma segments_acceptable : all_acceptable (mkStreams ∅ ∅) segments.
Proof. vm_compute. intuition congruence. Qed.


(** A segment of an untracked flow without a SYN is reported as skipped, but it opens the flow
    and its bytes are kept. *)
Lemma untracked_opens :
  exists s, on_segments 2047 [(conn, header 100 0, [104])] (mkRecon ∅ ∅ []) = Ret s /\ printed s = [Untracked] /\
    payload_cache s !! conn = Some [104] /\ is_Some (rb_map s !! conn).
Proof. eexists. split; [vm_compute; reflexivity|]. split; [done|]. split; [done|]. vm_compute. by eexists. Qed.

(** A SYN with the largest sequence number overflows the addition. *)
Lemma last_number_panics : @on_segments debug 2047 [(conn, header (2 ^ 32 - 1) 2, [])] (mkRecon ∅ ∅ []) = Panic.
Proof. vm_compute. reflexivity. Qed.

(** A RST leaves the text behind, and the next connection of the flow is printed with it. *)
Lemma reset_leaves_text :
  (arrive_all (mkStreams ∅ ∅) [(conn, header 9 2, [120]); (conn, header 11 4, []); (conn, header 50 2, []); (conn, header 51 1, [121])]).2 =
  [Payload [120; 121]].
Proof. vm_compute. reflexivity. Qed.

End ReconstructSample.
