(* ===== verification/Acl.v ===== *)
(** * The access control list ([test/acl-fw/src/nf.rs])

    A list of rules, of which the first that matches a flow decides, and the set of the flows
    that were let through. A rule may ask whether the flow, or its reverse, was let through
    before. The specification has no set: it looks back at the flows and the verdicts on them. *)

From S2P Require Import Prelude Flows.

Module Firewall.

Record Acl : Type := mkAcl {
  src_ip : option Ipv4Prefix;
  dst_ip : option Ipv4Prefix;
  src_port : option Z;
  dst_port : option Z;
  established : option bool;
  drop_ : bool  (* [drop] *)
}.

(** [o.is_none() || f(o.unwrap())] *)
Definition none_or {A} (o : option A) (f : A -> bool) : bool := match o with None => true | Some a => f a end.

Definition matches (acl : Acl) (flow : Flow) (connections : gset Flow) : bool :=
  if none_or (src_ip acl) (fun p => in_range p (flow_src_ip flow))
     && none_or (dst_ip acl) (fun p => in_range p (flow_dst_ip flow))
     && none_or (src_port acl) (fun p => flow_src_port flow =? p)
     && none_or (dst_port acl) (fun p => flow_dst_port flow =? p) then
    match established acl with
    | Some e =>
        let rev_flow := reverse_flow flow in
        eqb (bool_decide (flow ∈ connections) || bool_decide (rev_flow ∈ connections)) e
    | None => true
    end
  else false.

(** The closure of [acl_match] on the flow of a packet: the loop over the rules, which returns
    from the closure on the first match *)
Fixpoint acl_filter (acls : list Acl) (flow : Flow) (flow_cache : gset Flow) : bool * gset Flow :=
  match acls with
  | [] => (false, flow_cache)
  | acl :: acls =>
      if matches acl flow flow_cache then
        let flow_cache := if negb (drop_ acl) then {[flow]} ∪ flow_cache else flow_cache in
        (negb (drop_ acl), flow_cache)
      else acl_filter acls flow flow_cache
  end.

(** The packets that come, in order *)
Fixpoint acl_filter_all (acls : list Acl) (flows : list Flow) (flow_cache : gset Flow) : list bool * gset Flow :=
  match flows with
  | [] => ([], flow_cache)
  | f :: fs =>
      let (b, flow_cache) := acl_filter acls f flow_cache in
      let (bs, flow_cache) := acl_filter_all acls fs flow_cache in
      (b :: bs, flow_cache)
  end.

(** ** The specification *)

(** What a rule asks of the flow alone *)
Definition covers (acl : Acl) (f : Flow) : Prop :=
  (forall p, src_ip acl = Some p -> in_range p (flow_src_ip f) = true) /\
  (forall p, dst_ip acl = Some p -> in_range p (flow_dst_ip f) = true) /\
  (forall p, src_port acl = Some p -> flow_src_port f = p) /\
  (forall p, dst_port acl = Some p -> flow_dst_port f = p).

(** A packet of the connection, in either direction, was let through. *)
Definition connected (past : list (Flow * bool)) (f : Flow) : Prop :=
  (f, true) ∈ past \/ (reverse_flow f, true) ∈ past.

Definition applies (past : list (Flow * bool)) (f : Flow) (acl : Acl) : Prop :=
  covers acl f /\ forall e, established acl = Some e -> (e = true <-> connected past f).

(** The first rule that applies has the say; without one the packet is dropped. *)
Definition decided (acls : list Acl) (past : list (Flow * bool)) (f : Flow) (b : bool) : Prop :=
  (exists before acl after, acls = before ++ acl :: after /\
     Forall (fun a => ~ applies past f a) before /\ applies past f acl /\ b = negb (drop_ acl)) \/
  (Forall (fun a => ~ applies past f a) acls /\ b = false).

(** The verdicts on a sequence of flows, each with those before it as its past *)
Definition decided_all (acls : list Acl) (trace : list (Flow * bool)) : Prop :=
  forall past f b rest, trace = past ++ (f, b) :: rest -> decided acls past f b.

(** ** The set of flows is what the past let through *)

Definition remembers (past : list (Flow * bool)) (cache : gset Flow) : Prop := forall f, f ∈ cache <-> (f, true) ∈ past.

Lemma none_or_true {A} (o : option A) (f : A -> bool) : none_or o f = true <-> forall a, o = Some a -> f a = true.
Proof. destruct o; simpl; naive_solver. Qed.

Lemma covers_iff acl f :
  none_or (src_ip acl) (fun p => in_range p (flow_src_ip f))
  && none_or (dst_ip acl) (fun p => in_range p (flow_dst_ip f))
  && none_or (src_port acl) (fun p => flow_src_port f =? p)
  && none_or (dst_port acl) (fun p => flow_dst_port f =? p) = true <-> covers acl f.
Proof.
  rewrite !andb_true_iff, !none_or_true. unfold covers.
  setoid_rewrite (Z.eqb_eq (flow_src_port f)). setoid_rewrite (Z.eqb_eq (flow_dst_port f)). tauto.
Qed.

Lemma matches_iff past cache acl f : remembers past cache -> matches acl f cache = true <-> applies past f acl.
Proof.
  intros Hr. unfold matches, applies. rewrite <-covers_iff. destruct (_ && _); [|split; [done|by intros []]].
  assert (Hc : bool_decide (f ∈ cache) || bool_decide (reverse_flow f ∈ cache) = true <-> connected past f).
  { rewrite orb_true_iff, !bool_decide_eq_true. unfold connected. by rewrite !(Hr _). }
  destruct (established acl) as [e|]; [|naive_solver]. rewrite eqb_true_iff.
  destruct (_ || _), e; naive_solver.
Qed.

Lemma acl_filter_decided acls past cache f :
  remembers past cache ->
  exists b cache', acl_filter acls f cache = (b, cache') /\ decided acls past f b /\ remembers (past ++ [(f, b)]) cache'.
Proof.
  intros Hr. assert (Hstay : remembers (past ++ [(f, false)]) cache).
  { intros g. rewrite (Hr g), elem_of_app, list_elem_of_singleton. naive_solver. }
  induction acls as [|acl acls IH]; simpl.
  { exists false, cache. split; [done|]. split; [|done]. right. by split; [constructor|]. }
  destruct (matches acl f cache) eqn:Hm.
  - apply (matches_iff past) in Hm; [|done]. eexists _, _. split; [done|]. split.
    + left. exists [], acl, acls. split_and!; try done.
    + destruct (drop_ acl); simpl; [done|]. intros g.
      rewrite elem_of_union, elem_of_singleton, elem_of_app, list_elem_of_singleton, (Hr g). naive_solver.
  - assert (~ applies past f acl) as Hno by (rewrite <-(matches_iff past cache) by done; by rewrite Hm).
    destruct IH as (b & cache' & -> & Hd & Hr'). exists b, cache'. split; [done|]. split; [|done].
    destruct Hd as [(before & a & after & -> & Hb & Ha & ->)|[Hn ->]].
    + left. exists (acl :: before), a, after. split_and!; try done. by constructor.
    + right. split; [|done]. by constructor.
Qed.

Lemma acl_filter_all_decided acls flows past cache :
  remembers past cache -> decided_all acls past ->
  exists bs cache', acl_filter_all acls flows cache = (bs, cache') /\ length bs = length flows /\
    decided_all acls (past ++ zip flows bs) /\ remembers (past ++ zip flows bs) cache'.
Proof.
  revert past cache. induction flows as [|f flows IH]; intros past cache Hr Hd; simpl.
  { exists [], cache. rewrite app_nil_r. done. }
  destruct (acl_filter_decided acls past cache f Hr) as (b & c1 & -> & Hb & Hr1).
  destruct (IH (past ++ [(f, b)]) c1 Hr1) as (bs & c2 & -> & Hl & Hd2 & Hr2).
  { intros past' g b' rest Heq. destruct rest as [|x rest] using rev_ind.
    - apply app_inj_tail in Heq as [<- [= <- <-]]. done.
    - change (past' ++ (g, b') :: rest ++ [x]) with (past' ++ ((g, b') :: rest) ++ [x]) in Heq.
      rewrite app_assoc in Heq. apply app_inj_tail in Heq as [-> _]. by apply (Hd past' g b' rest). }
  exists (b :: bs), c2. rewrite <-app_assoc in Hd2, Hr2. simpl in *. by rewrite Hl.
Qed.

(** the access control list decides by its first matching rule, over any sequence of
    packets. Each verdict is that of the first rule whose prefixes and ports cover the flow
    and whose [established] condition, if it has one, says correctly whether a packet of the
    flow or of its reverse was let through before; a flow that no rule covers is dropped. *)
Lemma acl_first_match_decides acls flows :
  exists bs cache, acl_filter_all acls flows ∅ = (bs, cache) /\ length bs = length flows /\
    decided_all acls (zip flows bs) /\ (forall f, f ∈ cache <-> (f, true) ∈ zip flows bs).
Proof.
  destruct (acl_filter_all_decided acls flows [] ∅) as (bs & cache & H & Hl & Hd & Hr).
  - intros f. set_solver.
  - intros past f b rest Heq. by destruct past.
  - exists bs, cache. done.
Qed.

(** ** Flows with exchanged ports

    The headers give the rules the flow of a packet with its ports exchanged. To rules that
    name no port this makes no difference. *)

Definition crossed (f : Flow) : Flow :=
  mkFlow (flow_src_ip f) (flow_dst_ip f) (flow_dst_port f) (flow_src_port f) (flow_proto f).
Definition crossed_all (past : list (Flow * bool)) : list (Flow * bool) := prod_map crossed id <$> past.

Definition portless (acl : Acl) : Prop := src_port acl = None /\ dst_port acl = None.

Lemma crossed_involutive f : crossed (crossed f) = f.
Proof. by destruct f. Qed.

#[global] Instance crossed_inj : Inj (=) (=) crossed.
Proof. intros f g E. by rewrite <-(crossed_involutive f), E, crossed_involutive. Qed.

Lemma elem_of_crossed past f b : (crossed f, b) ∈ crossed_all past <-> (f, b) ∈ past.
Proof.
  unfold crossed_all. rewrite list_elem_of_fmap. split.
  - intros ([g c] & Heq & H). pose proof (f_equal fst Heq : crossed f = crossed g) as E. pose proof (f_equal snd Heq : b = c) as ->.
    by apply (inj crossed) in E as ->.
  - intros H. by exists (f, b).
Qed.

Lemma connected_crossed past f : connected (crossed_all past) (crossed f) <-> connected past f.
Proof.
  unfold connected. change (reverse_flow (crossed f)) with (crossed (reverse_flow f)). by rewrite !elem_of_crossed.
Qed.

Lemma applies_crossed past f acl : portless acl -> applies (crossed_all past) (crossed f) acl <-> applies past f acl.
Proof.
  intros [Hs Hd]. unfold applies, covers. rewrite Hs, Hd. setoid_rewrite connected_crossed. simpl. naive_solver.
Qed.

Lemma decided_crossed acls past f b :
  Forall portless acls -> decided acls (crossed_all past) (crossed f) b <-> decided acls past f b.
Proof.
  intros Hp. assert (Hno : forall l, Forall portless l ->
    Forall (fun a => ~ applies (crossed_all past) (crossed f) a) l <-> Forall (fun a => ~ applies past f a) l).
  { intros l Hl. rewrite !Forall_forall. rewrite Forall_forall in Hl. by split; intros H a Ha; specialize (H a Ha); rewrite applies_crossed in * by auto. }
  unfold decided. rewrite Hno by done. split; (intros [(before & acl & after & -> & Hb & Ha & ->)|?]; [left|by right]);
    apply Forall_app in Hp as [Hp1 [Hp2 _]%Forall_cons]; exists before, acl, after; (split; [done|]);
    (split; [by apply Hno|]); (split; [by apply applies_crossed|done]).
Qed.

Lemma decided_all_crossed acls trace :
  Forall portless acls -> decided_all acls (crossed_all trace) <-> decided_all acls trace.
Proof.
  intros Hp. unfold decided_all. split; intros H past f b rest Ht.
  - apply decided_crossed; [done|]. apply (H _ _ _ (crossed_all rest)). rewrite Ht. unfold crossed_all. by rewrite fmap_app, fmap_cons.
  - unfold crossed_all in Ht. apply fmap_app_inv in Ht as (past' & t & -> & Ht & ->).
    symmetry in Ht. apply fmap_cons_inv in Ht as ([g c] & rest' & Hg & -> & ->).
    pose proof (f_equal fst Hg : f = crossed g) as ->. pose proof (f_equal snd Hg : b = c) as ->.
    apply decided_crossed; [done|]. by apply (H past' g c rest').
Qed.

(** ** A stateful firewall: out of the prefix freely, into it only in reply *)

Definition allow_out (inside : Ipv4Prefix) : Acl := mkAcl (Some inside) None None None None false.
Definition allow_replies : Acl := mkAcl None None None None (Some true) false.

(** A packet from outside the prefix that is let through answers one let through before, and
    the first packet of its connection came from the inside. *)
Lemma replies_only inside flows f :
  (f, true) ∈ zip flows (acl_filter_all [allow_out inside; allow_replies] flows ∅).1 ->
  exists g, (g, true) ∈ zip flows (acl_filter_all [allow_out inside; allow_replies] flows ∅).1 /\
    (g = f \/ g = reverse_flow f) /\ in_range inside (flow_src_ip g) = true.
Proof.
  destruct (acl_filter_all_decided [allow_out inside; allow_replies] flows [] ∅) as (bs & cache & -> & Hl & Hd & _).
  { intros g. set_solver. }
  { intros past g b rest Heq. by destruct past. }
  simpl. revert Hd. simpl. generalize (zip flows bs) as trace. clear. intros trace Hd Hin.
  cut (forall n past f rest, length past = n -> trace = past ++ (f, true) :: rest ->
    exists g, (g, true) ∈ trace /\ (g = f \/ g = reverse_flow f) /\ in_range inside (flow_src_ip g) = true).
  { intros Hc. apply list_elem_of_split in Hin as (past & rest & ->). by apply (Hc (length past) past f rest). }
  clear f Hin. intros n. induction n as [n IH] using lt_wf_ind. intros past f rest Hn Ht.
  destruct (Hd past f true rest Ht) as [(before & acl & after & Heq & Hb & [Hcov Hest] & Hnd)|[_ ?]]; [|done].
  destruct before as [|a before].
  { injection Heq as <- _. exists f. split; [rewrite Ht; apply elem_of_app; right; left|]. split; [by left|]. by apply (proj1 Hcov). }
  destruct before as [|a' [|? ?]]; injection Heq as <- ?; [|done..].
  assert (acl = allow_replies) as -> by congruence.
  assert (exists g, (g, true) ∈ past /\ (g = f \/ g = reverse_flow f)) as (g & Hg & Hgf).
  { destruct (proj1 (Hest true eq_refl) eq_refl); eauto. }
  apply list_elem_of_split in Hg as (p1 & p2 & ->).
  destruct (IH (length p1)) with (past := p1) (f := g) (rest := p2 ++ (f, true) :: rest) as (x & Hx & Hxg & Hrange).
  - rewrite length_app in Hn. simpl in Hn. lia.
  - done.
  - rewrite Ht. by rewrite <-app_assoc.
  - exists x. split; [done|]. split; [|done]. destruct Hgf as [->| ->]; [done|].
    rewrite reverse_flow_involutive in Hxg. tauto.
Qed.

End Firewall.
