(* ===== verification/Functions.v ===== *)
(** * Network functions over frames

    What an operator chain does to the frames of the mbufs of its batch. A chain sees the
    header of every packet at a position that is a function of the frame ([FrameView]); a
    closure that works through that view does to the frame what a function on byte lists does
    ([FrameFn]), or decides by the frame ([FrameTest]). From these a batch operator is a fold
    over the list of frames. *)

From S2P Require Import Prelude Headers Packet Batch Operators Pipelines Forwarding.
Import Mbuf Pkt.

(** ** Replacing the frame of a mbuf *)

Definition with_frame (m : MBuf) (fr : list Z) : MBuf := with_bytes m (splice (bytes m) (data_off m) fr).

Lemma splice_nested (l d : list Z) off n o :
  0 <= off -> 0 <= n -> 0 <= o -> off + n <= zlen l -> o + zlen d <= n ->
  splice l off (splice (take (Z.to_nat n) (drop (Z.to_nat off) l)) o d) = splice l (off + o) d.
Proof.
  intros. set (f := take (Z.to_nat n) (drop (Z.to_nat off) l)).
  assert (Hf : zlen f = n) by (unfold f; rewrite length_take, length_drop; lia).
  assert (Hs : zlen (splice f o d) = n) by (rewrite length_splice; lia).
  apply list_eq. intros i. rewrite (splice_lookup l off), (splice_lookup l (off + o)) by lia.
  case_decide.
  - rewrite (splice_lookup f) by lia. case_decide; case_decide; try lia; [f_equal; lia|].
    unfold f. rewrite lookup_take_lt, lookup_drop by lia. f_equal. lia.
  - case_decide; [lia|done].
Qed.

Lemma with_frame_splice m o d :
  mbuf_wf m -> 0 <= o -> o + zlen d <= data_len_ m ->
  with_frame m (splice (frame m) o d) = with_bytes m (splice (bytes m) (data_off m + o) d).
Proof.
  intros (?&?&?&?&?&?&?&_) ??. unfold with_frame, frame. by rewrite splice_nested by lia.
Qed.

Lemma frame_with_frame m fr :
  mbuf_wf m -> length fr = length (frame m) -> frame (with_frame m fr) = fr.
Proof.
  intros Hwf Hl. pose proof (length_frame m Hwf). unfold with_frame.
  replace (data_off m) with (data_off m + 0) by lia. rewrite frame_splice by (done || lia).
  unfold splice. simpl. rewrite drop_ge by lia. by rewrite app_nil_r.
Qed.

Lemma with_frame_wf m fr : mbuf_wf m -> length fr = length (frame m) -> bytes_ok fr -> mbuf_wf (with_frame m fr).
Proof.
  intros Hwf Hl Hb. pose proof (length_frame m Hwf). pose proof Hwf as (?&?&?&?&?&?&?&?&?&?&_).
  apply mbuf_wf_bytes; [done|rewrite length_splice; lia|by apply bytes_ok_splice].
Qed.

(** A write inside the data *)
Lemma write_frame p (h : Heap) m o d :
  h !! p = Some m -> mbuf_wf m -> 0 <= o -> o + zlen d <= data_len_ m ->
  write_at p (data_address m o) d h = Ret (tt, <[p := with_frame m (splice (frame m) o d)]> h).
Proof.
  intros Hp Hwf ??. pose proof Hwf as (?&?&?&?&?&?&?&_). rewrite with_frame_splice by done.
  eapply on_mbuf_ok; [done|]. unfold data_address. replace (_ - _) with (data_off m + o) by lia.
  by rewrite area_write_ok by lia.
Qed.

(** A write of the whole payload, of the length it has *)
Lemma write_payload {P : Profile} {T M : Type} {ET : EndOffset T} {PT : Packed T} (h : Heap) (pkt : Packet T M) m f :
  pkt_ok h pkt m -> hdr_fits pkt m -> length (f (payload_of pkt m)) = length (payload_of pkt m) ->
  get_mut_payload pkt f h =
  Ret (tt, <[mbuf pkt := with_frame m (take (Z.to_nat (payload_pos pkt m)) (frame m) ++ f (payload_of pkt m))]> h).
Proof.
  intros Hok Hf Hl. pose proof Hok as (Hp & Hwf & Hh & Ho & Hs). pose proof Hf as [Hpo Hfit].
  pose proof (length_frame m Hwf). pose proof (length_payload_of _ _ Hwf Hf Ho) as Hlp. unfold get_mut_payload.
  rewrite (sbind_Ret _ _ _ _ _ (payload_size_ok _ _ _ Hok Hf)), (sbind_Ret _ _ _ _ _ (payload_ok _ _ _ Hok)).
  assert (0 <= payload_pos pkt m) by (unfold payload_pos; lia).
  erewrite sbind_Ret by (apply read_at_ok; (done || lia)). rewrite take_ge by (unfold payload_of in *; lia).
  fold (payload_of pkt m). rewrite write_frame by (done || lia). do 4 f_equal.
  unfold splice. rewrite (drop_ge (frame m)) by lia. by rewrite app_nil_r.
Qed.

Lemma resized_zero pb :
  PacketBatch.batch_ok pb ->
  PacketBatch.batch_ok (PacketBatch.resized pb 0) /\ PacketBatch.array (PacketBatch.resized pb 0) = [] /\
  length (PacketBatch.spare (PacketBatch.resized pb 0)) = (length (PacketBatch.array pb) + length (PacketBatch.spare pb))%nat.
Proof.
  intros [Hs Hc]. unfold PacketBatch.resized, PacketBatch.batch_ok, PacketBatch.vec_capacity in *. simpl.
  rewrite drop_0, length_app. split_and!; try done. lia.
Qed.

(** ** Where a chain of operators sees its header *)

Definition packet_at {T M} (p : Z) (m : MBuf) (pos : Z) : Packet T M := mkPacket p (data_address m pos) pos.

Class FrameView (Net V T M : Type) {P : Profile} {Z_ : Zcsi} {PT : Packed T} {IV : BatchIterator Net V T M} {AV : Act Net V}
    {LV : BatchLaws Net V T M} : Type := {
  position : list Z -> Z;
  parses : list Z -> Prop;
  parses_bounds fr : parses fr -> 0 <= position fr /\ position fr + Z.of_nat (size_of T) <= zlen fr;
  view_at v w i p m :
    PacketBatch.array (view v) !! i = Some p -> heap w !! p = Some m -> mbuf_wf m -> parses (frame m) ->
    next_payload (Z.of_nat i) (v, w) = Ret (Some (packet_at p m (position (frame m))), (v, w))
}.
#[global] Arguments position {Net} V {T M _ _ _ _ _ _ _}.
#[global] Arguments parses {Net} V {T M _ _ _ _ _ _ _}.

(** The size that parsing compares with covers the struct. *)
Class HeaderSize (T : Type) {E : EndOffset T} {PT : Packed T} : Prop := header_size : Z.of_nat (size_of T) <= size T.

#[global] Instance Receive_view {P : Profile} {Z_ : Zcsi} {Net R : Type} {Rx : PacketRx Net R} : FrameView Net (Receive.ReceiveBatch R) NullHeader EmptyMetadata.
Proof.
  refine {| position _ := 0; parses _ := True |}.
  - intros fr _. change (size_of NullHeader) with 0%nat. lia.
  - intros [pb q n] w i p m Hi Hp _ _. apply on_field_id; [apply _|]. by apply next_received.
Defined.

Section views.
Context {P : Profile} {Z_ : Zcsi} {F : Fuel} {Net V C T M : Type} {PT : Packed T} {ET : EndOffset T}.
Context {IV : BatchIterator Net V T M} {AV : Act Net V} {LV : BatchLaws Net V T M} {FV : FrameView Net V T M}.

Lemma packet_at_ok (h : Heap) p m : h !! p = Some m -> mbuf_wf m -> parses V (frame m) ->
  pkt_ok h (packet_at p m (position V (frame m)) : Packet T M) m.
Proof.
  intros Hp Hwf Hps. destruct (parses_bounds _ Hps). pose proof (length_frame m Hwf).
  split; [done|]. split; [done|]. split; [done|]. simpl. lia.
Qed.

#[global] Instance Transform_view {Fn : FnMut C (Packet T M) (Packet T M)} : FrameView Net (Transform.TransformBatch V C) T M.
Proof using FV.
  refine {| position := position V; parses := parses V |}; [apply parses_bounds|].
  intros [v c a] w i p m Hi Hp Hwf Hps. apply on_field_id; [apply _|]. by apply view_at.
Defined.

#[global] Instance Filter_view {Fn : FnRef C (Packet T M) bool} : FrameView Net (Filter.FilterBatch V C) T M.
Proof using FV.
  refine {| position := position V; parses := parses V |}; [apply parses_bounds|].
  intros [v c a r] w i p m Hi Hp Hwf Hps. apply on_field_id; [apply _|]. by apply view_at.
Defined.

#[global] Instance ResetParsing_view : FrameView Net (ResetParsing.ResetParsingBatch V) NullHeader EmptyMetadata.
Proof using FV.
  refine {| position _ := 0; parses := parses V |}.
  - intros fr _. change (size_of NullHeader) with 0%nat. lia.
  - intros [v] w i p m Hi Hp Hwf Hps. simpl. erewrite sbind_Ret by (apply on_field_id; [apply _|by apply view_at]).
    cbn beta iota. unfold reset, data_base, on_heap, sbind, zoom, peek. simpl. rewrite Hp. by destruct w.
Defined.

#[global] Instance Composition_view : FrameView Net (Composition.CompositionBatch V) NullHeader EmptyMetadata.
Proof using FV.
  refine {| position _ := 0; parses := parses V |}.
  - intros fr _. change (size_of NullHeader) with 0%nat. lia.
  - intros [v] w i p m Hi Hp Hwf Hps. apply on_field_id; [apply _|].
    by apply (view_at (FrameView := ResetParsing_view) v w i p m).
Defined.

(** The header that the chain sees, and the next one behind it *)
Definition header_in (fr : list Z) : T := decode (take (size_of T) (drop (Z.to_nat (position V fr)) fr)).
Definition behind (fr : list Z) : Z := position V fr + Headers.offset (header_in fr).

#[global] Instance Parsed_view {T2 : Type} {E2 : EndOffset T2} {P2 : Packed T2} {HS : HeaderSize T2} :
  FrameView Net (Parsed.ParsedBatch T2 V) T2 M.
Proof using FV.
  refine {| position := behind;
            parses fr := parses V fr /\ 0 <= Headers.offset (header_in fr) /\ size T2 < zlen fr - behind fr |}.
  - intros fr (Hps & Ho & Hsz). destruct (parses_bounds _ Hps). pose proof (header_size (T := T2)). unfold behind in *. lia.
  - intros [v] w i p m Hi Hp Hwf (Hps & Ho & Hsz). pose proof (packet_at_ok (heap w) p m Hp Hwf Hps) as Hok.
    pose proof (length_frame m Hwf) as Hl.
    assert (Hf : hdr_fits (packet_at p m (position V (frame m)) : Packet T M) m).
    { split; [exact Ho|]. unfold payload_pos. simpl. fold (header_in (frame m)). unfold behind, hdr_of in *. simpl. fold (header_in (frame m)). pose proof (header_size (T := T2)). lia. }
    destruct (parse_header_ok (T2 := T2) (heap w) _ m Hok Hf header_size) as [Hparse _].
    { rewrite length_payload_of by (done || apply (parses_bounds _ Hps)). unfold payload_pos, hdr_of. simpl.
      unfold behind, header_in in Hsz. lia. }
    simpl. erewrite sbind_Ret by (apply on_field_id; [apply _|by apply view_at]). cbn beta iota.
    unfold sbind, on_heap, zoom. simpl. rewrite Hparse. simpl. destruct w. done.
Defined.

End views.

(** ** Closures that work on frames *)

(** What the closure does with a packet whose header is at this position of the frame *)
Class FrameFn (C T M : Type) {PT : Packed T} {Fn : FnMut C (Packet T M) (Packet T M)} : Type := {
  step : Z -> C -> list Z -> outcome (C * list Z);
  step_ok pos c fr c' fr' : bytes_ok fr -> step pos c fr = Ret (c', fr') -> length fr' = length fr /\ bytes_ok fr';
  call_step (h : Heap) p m pos c c' fr' :
    pkt_ok h (packet_at p m pos : Packet T M) m -> refcnt_ m = 1 -> step pos c (frame m) = Ret (c', fr') ->
    exists q, call_mut (packet_at p m pos : Packet T M) (c, h) = Ret (q, (c', <[p := with_frame m fr']> h))
}.
#[global] Arguments step {C} T M {_ _ _}.

Class FrameTest (C T M : Type) {PT : Packed T} {Fn : FnRef C (Packet T M) bool} : Type := {
  test : Z -> C -> list Z -> outcome (bool * C);
  call_test (h : Heap) p m pos c b c' :
    pkt_ok h (packet_at p m pos : Packet T M) m -> test pos c (frame m) = Ret (b, c') ->
    call_ref (packet_at p m pos : Packet T M) h c = Ret (b, c')
}.
#[global] Arguments test {C} T M {_ _ _}.

(** The mbufs [l] are in the heap, each held once, with these frames. *)
Definition holds (h : Heap) (l : list Z) (frs : list (list Z)) : Prop :=
  Forall2 (fun p fr => exists m, h !! p = Some m /\ mbuf_wf m /\ refcnt_ m = 1 /\ frame m = fr) l frs.

(** The heap with other frames in the mbufs [l] *)
Fixpoint reframed (l : list Z) (frs : list (list Z)) (h : Heap) : Heap :=
  match l, frs with
  | p :: l, fr :: frs => reframed l frs (alter (fun m => with_frame m fr) p h)
  | _, _ => h
  end.

Lemma reframed_other l frs h p : p ∉ l -> reframed l frs h !! p = h !! p.
Proof.
  revert frs h. induction l as [|x l IH]; intros [|fr frs] h Hp; try done. simpl.
  apply not_elem_of_cons in Hp as [Hx Hp]. rewrite IH by done. by apply lookup_alter_ne.
Qed.

Lemma holds_other h l frs p f : p ∉ l -> holds h l frs -> holds (alter f p h) l frs.
Proof.
  intros Hp Hh. induction Hh as [|x fr l frs (m & Hm & Hr) Hh IH]; [constructor|].
  apply not_elem_of_cons in Hp as [Hx Hp]. constructor; [|by apply IH]. exists m. by rewrite lookup_alter_ne.
Qed.

(** A frame of the same length *)
Definition same_shape (fr fr' : list Z) : Prop := length fr' = length fr /\ bytes_ok fr'.

Lemma reframed_holds h l frs frs' :
  NoDup l -> holds h l frs -> Forall2 same_shape frs frs' -> holds (reframed l frs' h) l frs'.
Proof.
  revert h frs frs'. induction l as [|p l IH]; intros h frs frs' Hnd Hh Hs.
  - apply Forall2_nil_inv_l in Hh as ->. apply Forall2_nil_inv_l in Hs as ->. constructor.
  - apply Forall2_cons_inv_l in Hh as (fr & frs1 & (m & Hm & Hwf & Hrc & <-) & Hh & ->).
    apply Forall2_cons_inv_l in Hs as (fr' & frs2 & [Hl Hb] & Hs & ->). apply NoDup_cons in Hnd as [Hp Hnd]. simpl.
    constructor.
    + rewrite reframed_other, lookup_alter_eq, Hm by done. exists (with_frame m fr'). split; [done|].
      split; [by apply with_frame_wf|]. split; [done|]. by apply frame_with_frame.
    + apply (IH _ frs1); [done| |done]. by apply holds_other.
Qed.

Lemma holds_lookup h l frs i p fr :
  holds h l frs -> l !! i = Some p -> frs !! i = Some fr -> exists m, h !! p = Some m /\ mbuf_wf m /\ refcnt_ m = 1 /\ frame m = fr.
Proof. intros Hh Hp Hf. exact (Forall2_lookup_lr _ _ _ _ _ _ Hh Hp Hf). Qed.

Section batches.
Context {P : Profile} {Z_ : Zcsi} {F : Fuel} {Net V C T M : Type} {PT : Packed T} {ET : EndOffset T}.
Context {IV : BatchIterator Net V T M} {AV : Act Net V} {LV : BatchLaws Net V T M} {FV : FrameView Net V T M}.

Section transforming.
Context {Fn : FnMut C (Packet T M) (Packet T M)} {FF : FrameFn C T M}.

(** The closure on the frames in turn *)
Fixpoint steps (c : C) (frs : list (list Z)) : outcome (C * list (list Z)) :=
  match frs with
  | [] => Ret (c, [])
  | fr :: frs =>
      let! '(c, fr') := step T M (position V fr) c fr in
      let! '(c, frs') := steps c frs in
      Ret (c, fr' :: frs')
  end.

Lemma steps_shapes frs c c' frs' : Forall bytes_ok frs -> steps c frs = Ret (c', frs') -> Forall2 same_shape frs frs'.
Proof.
  revert c frs'. induction frs as [|fr frs IH]; intros c frs' Hb; simpl; [intros [= _ <-]; constructor|].
  apply Forall_cons in Hb as [Hb Hbs].
  intros ([c1 fr'] & Hs & ([c2 frs2] & Hss & [= <- <-])%obind_Ret_inv)%obind_Ret_inv.
  constructor; [by apply (step_ok _ _ _ _ _ Hb Hs)|by apply (IH c1)].
Qed.

Lemma holds_bytes_ok h l frs : holds h l frs -> Forall bytes_ok frs.
Proof. induction 1 as [|p fr l frs (m & _ & Hwf & _ & <-) _ IH]; constructor; [by apply frame_bytes_ok|done]. Qed.

Lemma visit_frames past todo v c a (w : World Net) frs c' frs' :
  PacketBatch.array (view v) = past ++ todo -> NoDup todo ->
  holds (heap w) todo frs -> Forall (parses V) frs -> steps c frs = Ret (c', frs') ->
  visit (length todo) (zlen past) (Transform.mkTransform v c a, w) =
  Ret (tt, (Transform.mkTransform v c' a, mkWorld (reframed todo frs' (heap w)) (net w))).
Proof using FV FF.
  revert past c w frs frs'. induction todo as [|p todo IH]; intros past c w frs frs' Ha Hnd Hh Hps Hs.
  - apply Forall2_nil_inv_l in Hh as ->. injection Hs as <- <-. simpl. by destruct w.
  - apply Forall2_cons_inv_l in Hh as (fr & frs1 & (m & Hm & Hwf & Hrc & <-) & Hh & ->).
    apply Forall_cons in Hps as [Hp Hps]. apply NoDup_cons in Hnd as [Hnin Hnd]. simpl in Hs.
    apply obind_Ret_inv in Hs as ([c1 fr1] & Hst & ([c2 frs2] & Hss & [= -> <-])%obind_Ret_inv).
    destruct (call_step (heap w) p m (position V (frame m)) c c1 fr1) as (q & Hcall); [by apply packet_at_ok|done|done|].
    simpl length. cbn [visit].
    erewrite sbind_Ret; [|apply on_field_id; [apply _|]; apply view_at; [cbn [Transform.parent]; rewrite Ha; by rewrite list_lookup_middle|done..]].
    erewrite sbind_Ret by done. erewrite sbind_Ret; [|unfold on_closure; apply zoom_Ret; exact Hcall].
    unfold Transform.set_transformer. cbn [Transform.parent Transform.applied fst snd].
    replace (zlen past + 1) with (zlen (past ++ [p])) by (rewrite length_app; simpl; lia).
    assert (Halt : alter (fun m => with_frame m fr1) p (heap w) = <[p := with_frame m fr1]> (heap w)).
    { apply map_eq. intros x. destruct (decide (p = x)) as [<-|]; [by rewrite lookup_alter_eq, lookup_insert_eq, Hm|].
      by rewrite lookup_alter_ne, lookup_insert_ne. }
    rewrite (IH _ _ _ frs1 frs2); [simpl; by rewrite Halt|by rewrite <-app_assoc|done| |done|done].
    simpl. rewrite <-Halt. by apply holds_other.
Qed.

(** A transform over frames: after the parent acted, the mbufs hold what the closure made of
    their frames, one after the other. *)
Lemma transform_frames (v v1 : V) c (w w1 : World Net) frs c' frs' :
  act (v, w) = Ret (tt, (v1, w1)) -> PacketBatch.batch_ok (view v1) ->
  (length (PacketBatch.array (view v1)) <= loop_fuel)%nat -> NoDup (PacketBatch.array (view v1)) ->
  holds (heap w1) (PacketBatch.array (view v1)) frs -> Forall (parses V) frs -> steps c frs = Ret (c', frs') ->
  act (Transform.mkTransform v c false, w) =
  Ret (tt, (Transform.mkTransform v1 c' true, mkWorld (reframed (PacketBatch.array (view v1)) frs' (heap w1)) (net w1))).
Proof using FV FF.
  intros Hact [_ Hc] Hf Hnd Hh Hps Hs. unfold PacketBatch.vec_capacity in Hc.
  simpl. unfold Transform.act_. erewrite sbind_Ret by done. cbn [fst Transform.applied negb].
  erewrite sbind_Ret by (by apply on_field_Ret). unfold for_each. rewrite sbind_assoc.
  erewrite sbind_Ret; [|apply on_field_id; [apply _|]].
  2: { unfold PayloadEnumerator_new. by erewrite sbind_Ret by apply start_zero. }
  unfold sbind at 1. rewrite (enumerate_visits (length (PacketBatch.array (view v1)))) by (simpl; lia).
  pose proof (visit_frames [] _ v1 c false w1 frs c' frs' eq_refl Hnd Hh Hps Hs) as Hv.
  change (zlen (@nil Z)) with 0 in Hv. unfold Transform.set_parent. cbn [Transform.transformer Transform.applied]. by rewrite Hv.
Qed.

End transforming.

Section filtering.
Context {Fn : FnRef C (Packet T M) bool} {FT : FrameTest C T M}.

(** The verdicts on the frames in turn *)
Fixpoint tests (c : C) (frs : list (list Z)) : outcome (list bool * C) :=
  match frs with
  | [] => Ret ([], c)
  | fr :: frs =>
      let! '(b, c) := test T M (position V fr) c fr in
      let! '(bs, c) := tests c frs in
      Ret (b :: bs, c)
  end.

(** The packets that the chain yields for these mbufs *)
Lemma packets_of_frames v (w : World Net) frs :
  holds (heap w) (PacketBatch.array (view v)) frs -> Forall (parses V) frs ->
  exists ps, packets_of v w ps /\ mbuf <$> ps = PacketBatch.array (view v) /\
    forall c bs c', tests c frs = Ret (bs, c') -> verdicts ps (heap w) c = Ret (bs, c').
Proof using FV FT.
  intros Hh Hps. cut (forall todo past frs, PacketBatch.array (view v) = past ++ todo -> holds (heap w) todo frs ->
    Forall (parses V) frs -> exists ps, length ps = length todo /\ mbuf <$> ps = todo /\
    (forall i p, ps !! i = Some p -> next_payload (Z.of_nat (length past + i)) (v, w) = Ret (Some p, (v, w))) /\
    forall c bs c', tests c frs = Ret (bs, c') -> verdicts ps (heap w) c = Ret (bs, c')).
  { intros Hc. destruct (Hc (PacketBatch.array (view v)) [] frs) as (ps & Hl & Hm & Hn & Hv); [done..|].
    exists ps. by split. }
  clear frs Hh Hps. induction todo as [|p todo IH]; intros past frs Ha Hh Hps.
  - apply Forall2_nil_inv_l in Hh as ->. exists []. done.
  - apply Forall2_cons_inv_l in Hh as (fr & frs1 & (m & Hm & Hwf & Hrc & <-) & Hh & ->).
    apply Forall_cons in Hps as [Hp Hps].
    destruct (IH (past ++ [p]) frs1) as (ps & Hl & Hmb & Hn & Hv); [by rewrite <-app_assoc|done..|].
    exists (packet_at p m (position V (frame m)) :: ps). split; [simpl; lia|]. split; [by rewrite fmap_cons, Hmb|]. split.
    + intros [|i] q Hq.
      * injection Hq as <-. rewrite Nat.add_0_r. apply view_at; [rewrite Ha; by rewrite list_lookup_middle|done..].
      * rewrite <-(Hn i q Hq). do 2 f_equal. rewrite length_app. simpl. lia.
    + intros c bs c' Ht. simpl in Ht. apply obind_Ret_inv in Ht as ([b c1] & Hb & ([bs1 c2] & Hbs & [= <- <-])%obind_Ret_inv).
      simpl. erewrite call_test; [|by apply packet_at_ok|exact Hb]. simpl. by rewrite (Hv _ _ _ Hbs).
Qed.

End filtering.

End batches.

Lemma send_executes {P : Profile} {Z_ : Zcsi} {Net R V : Type} {Tx : PacketTx Net R} {AV : Act Net V}
    (sb : Send.SendBatch R V) (w : World Net) : execute (sb, w) = act (sb, w).
Proof. done. Qed.

(** ** A network function between two ports

    [parent.parse::<T2>().transform(closure).send(port)] over a receive batch, as [macswap] and
    [delay] are run, or with [compose()] before the send, as [nat] is. *)

Section network_function.
Context {P : Profile} {Z_ : Zcsi} {F : Fuel} {Net Rx Tx C T2 : Type}.
Context {RxI : PacketRx Net Rx} {TxI : PacketTx Net Tx} {E2 : EndOffset T2} {P2 : Packed T2} {HS : HeaderSize T2}.

Abbreviation received_frames := (Parsed.ParsedBatch T2 (Receive.ReceiveBatch Rx)).

Lemma parsed_act pb rx rcv (w w1 : World Net) n pkts :
  PacketBatch.batch_ok pb -> PacketBatch.array pb = [] ->
  recv rx (PacketBatch.spare pb) w = Ret ((Ok n, pkts), w1) ->
  length pkts = length (PacketBatch.spare pb) -> 0 <= n <= zlen pkts -> uint 64 rcv -> rcv + n < 2 ^ 64 ->
  act (Parsed.mkParsedBatch (T2 := T2) (Receive.mkReceive pb rx rcv), w) =
    Ret (tt, (Parsed.mkParsedBatch (Receive.mkReceive (PacketBatch.received_batch pb (Ok n) pkts) rx (rcv + n)), w1)) /\
  PacketBatch.batch_ok (PacketBatch.received_batch pb (Ok n) pkts).
Proof.
  intros Hok Hnil Hrecv Hl Hn Hr0 Hr1. split.
  - etransitivity; [apply on_field_Ret, (receive_act_ok _ _ _ _ w1 (heap w) n pkts)|]; rewrite ?Hnil; try done.
    by destruct w.
  - destruct Hok as [Hs Hc]. split; [done|]. unfold PacketBatch.vec_capacity in *. simpl.
    rewrite Hnil in Hc. rewrite length_take, length_drop. simpl in Hc. lia.
Qed.

Context {Fn : FnMut C (Packet T2 EmptyMetadata) (Packet T2 EmptyMetadata)} {FF : FrameFn C T2 EmptyMetadata}.

Abbreviation changed := (Transform.TransformBatch received_frames C).

Definition transformer (pb : PacketBatch.PacketBatch) (rx : Rx) (received : Z) (c : C) (applied : bool) : changed :=
  Transform.mkTransform (Parsed.mkParsedBatch (Receive.mkReceive pb rx received)) c applied.

(** *** The transform inside operators that pass everything on *)

Section wrapped.
Context {V' T' M' : Type} {IV' : BatchIterator Net V' T' M'} {AV' : Act Net V'} {LV' : BatchLaws Net V' T' M'} (K : changed -> V').

Class PassesOn : Prop := {
  on_act v (w : World Net) v1 w1 : act (v, w) = Ret (tt, (v1, w1)) -> act (K v, w) = Ret (tt, (K v1, w1));
  on_done v (w : World Net) v1 w1 : done (v, w) = Ret (tt, (v1, w1)) -> done (K v, w) = Ret (tt, (K v1, w1));
  on_view v : view (K v) = view v;
  on_update pb v : update pb (K v) = K (update pb v)
}.
Context {PO : PassesOn}.

Definition wrapped (pb : PacketBatch.PacketBatch) (rx : Rx) (received : Z) (c : C) (tx : Tx) (sent : Z) : Send.SendBatch Tx V' :=
  Send.mkSend tx (K (transformer pb rx received c false)) sent.

(** One execution: the frames that arrive leave as the closure makes them. *)
Lemma wrapped_execute pb rx rcv c tx snt (w w1 w3 : World Net) n pkts frs c' frs' k h4 :
  let mbufs := take (Z.to_nat n) pkts in
  let done_heap := reframed mbufs frs' (heap w1) in
  PacketBatch.batch_ok pb -> PacketBatch.array pb = [] -> (length pkts <= loop_fuel)%nat ->
  recv rx (PacketBatch.spare pb) w = Ret ((Ok n, pkts), w1) ->
  length pkts = length (PacketBatch.spare pb) -> 0 <= n <= zlen pkts ->
  uint 64 rcv -> rcv + n < 2 ^ 64 -> uint 64 snt -> snt + n < 2 ^ 64 ->
  NoDup mbufs -> holds (heap w1) mbufs frs -> Forall (parses received_frames) frs ->
  steps (V := received_frames) c frs = Ret (c', frs') ->
  sent_by tx mbufs (mkWorld done_heap (net w1)) k w3 ->
  PacketBatch.freed (drop (Z.to_nat k) mbufs) (heap w3) h4 ->
  exists pb',
    execute (wrapped pb rx rcv c tx snt, w) =
      Ret (tt, (wrapped pb' rx (rcv + n) c' tx (snt + k), mkWorld h4 (net w3))) /\
    PacketBatch.array pb' = [] /\ PacketBatch.batch_ok pb' /\
    length (PacketBatch.spare pb') = length (PacketBatch.spare pb) /\
    holds done_heap mbufs frs'.
Proof using HS PO.
  intros mbufs done_heap Hok Hnil Hfu Hrecv Hl Hn Hr0 Hr1 Hs0 Hs1 Hnd Hh Hps Hst Hk Hf4.
  destruct (parsed_act pb rx rcv w w1 n pkts Hok Hnil Hrecv Hl Hn Hr0 Hr1) as [Hact Hokr].
  assert (Hlm : zlen mbufs = n) by (unfold mbufs; rewrite length_take; lia).
  pose proof (transform_frames (V := received_frames) _ _ c w w1 frs c' frs' Hact Hokr
    ltac:(simpl; fold mbufs; lia) Hnd Hh Hps Hst) as Htr.
  pose proof (sent_by_range _ _ _ _ _ Hk) as Hkr. pose proof Hokr as [Hsc Hcap].
  set (batch := fun gap => PacketBatch.mkBatch (drop (Z.to_nat k) mbufs) (gap ++ drop (Z.to_nat n) pkts) [] (PacketBatch.parent_tasks pb)).
  assert (Hb : forall gap, zlen gap = k -> PacketBatch.batch_ok (batch gap) /\
    PacketBatch.vec_capacity (batch gap) = zlen (PacketBatch.spare pb)).
  { intros gap Hg. assert (Hv : PacketBatch.vec_capacity (batch gap) = zlen (PacketBatch.spare pb)).
    { unfold PacketBatch.vec_capacity, batch. simpl. rewrite length_app, !length_drop. lia. }
    split; [|done]. split; [done|]. rewrite Hv. destruct Hok as [_ Hc]. unfold PacketBatch.vec_capacity in Hc.
    rewrite Hnil in Hc. exact Hc. }
  destruct (send_act_ok (wrapped pb rx rcv c tx snt)
    (K (transformer (PacketBatch.received_batch pb (Ok n) pkts) rx (rcv + n) c' true))
    (fun gap => K (transformer (PacketBatch.resized (batch gap) 0) rx (rcv + n) c' false))
    w (mkWorld done_heap (net w1)) w3 (mkWorld h4 (net w3)) k) as (gap & Hg & Hsend).
  - exact (on_act _ _ _ _ Htr).
  - rewrite on_view. exact Hokr.
  - rewrite on_view. exact Hk.
  - done.
  - destruct Hr0; split; lia.
  - simpl. lia.
  - intros gap Hg. destruct (Hb gap Hg) as [Hbok _]. rewrite on_view, on_update. apply on_done. simpl.
    unfold Transform.done_. erewrite sbind_Ret by done. etransitivity; [apply on_field_Ret, on_field_Ret, receive_done_ok|].
    + destruct Hok as [Hsp _]. unfold batch in Hbok. simpl. rewrite Hsp. exact Hbok.
    + exact Hf4.
    + simpl. destruct Hok as [Hsp _]. by rewrite Hsp.
  - destruct (Hb gap Hg) as [[_ Hcb] Hvb]. exists (PacketBatch.resized (batch gap) 0).
    split; [exact (eq_trans (send_executes (wrapped pb rx rcv c tx snt) w) Hsend)|]. split; [done|].
    assert (Hlr : length (PacketBatch.spare (PacketBatch.resized (batch gap) 0)) = length (PacketBatch.spare pb)).
    { unfold PacketBatch.vec_capacity in Hvb. unfold PacketBatch.resized. cbn [PacketBatch.spare].
      rewrite drop_0, length_app. lia. }
    split; [|split; [done|]].
    + split; [done|]. unfold PacketBatch.vec_capacity in *. rewrite Hlr. unfold PacketBatch.resized. simpl. lia.
    + apply (reframed_holds _ _ frs); [done..|]. apply (steps_shapes (V := received_frames) frs c c' frs'); [exact (holds_bytes_ok _ _ _ Hh)|exact Hst].
Qed.

End wrapped.

(** *** Bare, or composed *)

#[global] Instance bare_passes : PassesOn (fun v => v).
Proof. by split. Qed.

Definition composed (v : changed) : Composition.CompositionBatch changed := Composition.mkComposition (ResetParsing.mkReset v).

#[global] Instance composed_passes : PassesOn composed.
Proof. split; try done; intros v w v1 w1 Hv; (etransitivity; [apply on_field_Ret, on_field_Ret, Hv|done]). Qed.

Definition network_function : Type := Send.SendBatch Tx (Composition.CompositionBatch changed).

Definition running (pb : PacketBatch.PacketBatch) (rx : Rx) (received : Z) (c : C) (tx : Tx) (sent : Z) : network_function :=
  wrapped composed pb rx received c tx sent.

End network_function.

(** ** A network function that also drops

    [parent.parse::<T2>().transform(f).parse::<T3>().filter(g).compose().send(port)]: how
    [acl_match] is run. *)

Section filtering_function.
Context {P : Profile} {Z_ : Zcsi} {F : Fuel} {Net Rx Tx C D T2 T3 : Type}.
Context {RxI : PacketRx Net Rx} {TxI : PacketTx Net Tx}.
Context {E2 : EndOffset T2} {P2 : Packed T2} {HS2 : HeaderSize T2} {E3 : EndOffset T3} {P3 : Packed T3} {HS3 : HeaderSize T3}.
Context {Fn : FnMut C (Packet T2 EmptyMetadata) (Packet T2 EmptyMetadata)} {FF : FrameFn C T2 EmptyMetadata}.
Context {Gn : FnRef D (Packet T3 EmptyMetadata) bool} {FT : FrameTest D T3 EmptyMetadata}.

Abbreviation received_frames := (Parsed.ParsedBatch T2 (Receive.ReceiveBatch Rx)).
Abbreviation changed_frames := (Parsed.ParsedBatch T3 (Transform.TransformBatch received_frames C)).

Definition filtering_function : Type := Send.SendBatch Tx (Composition.CompositionBatch (Filter.FilterBatch changed_frames D)).

Definition filtering (pb : PacketBatch.PacketBatch) (rx : Rx) (received : Z) (c : C) (d : D) (cap : Z) (tx : Tx) (sent : Z)
    : filtering_function :=
  Send.mkSend tx (Composition.mkComposition (ResetParsing.mkReset (Filter.mkFilter (Parsed.mkParsedBatch
    (Transform.mkTransform (Parsed.mkParsedBatch (Receive.mkReceive pb rx received)) c false)) d cap []))) sent.

Lemma filtering_function_execute pb rx rcv c d cap tx snt (w w1 w3 : World Net) n pkts frs c' frs' bs d' h2 k h4 :
  let mbufs := take (Z.to_nat n) pkts in
  let changed := reframed mbufs frs' (heap w1) in
  PacketBatch.batch_ok pb -> PacketBatch.array pb = [] -> (length pkts <= loop_fuel)%nat ->
  recv rx (PacketBatch.spare pb) w = Ret ((Ok n, pkts), w1) ->
  length pkts = length (PacketBatch.spare pb) -> 0 <= n <= zlen pkts ->
  uint 64 rcv -> rcv + n < 2 ^ 64 -> uint 64 snt -> snt + n < 2 ^ 64 ->
  NoDup mbufs -> holds (heap w1) mbufs frs -> Forall (parses received_frames) frs ->
  steps (V := received_frames) c frs = Ret (c', frs') -> Forall (parses changed_frames) frs' ->
  tests (V := changed_frames) d frs' = Ret (bs, d') ->
  PacketBatch.freed (reject bs mbufs) changed h2 ->
  sent_by tx (keep bs mbufs) (mkWorld h2 (net w1)) k w3 ->
  PacketBatch.freed (drop (Z.to_nat k) (keep bs mbufs)) (heap w3) h4 ->
  exists pb',
    execute (filtering pb rx rcv c d cap tx snt, w) =
      Ret (tt, (filtering pb' rx (rcv + n) c' d' cap tx (snt + k), mkWorld h4 (net w3))) /\
    PacketBatch.array pb' = [] /\ PacketBatch.batch_ok pb' /\
    length (PacketBatch.spare pb') = length (PacketBatch.spare pb) /\
    holds changed mbufs frs' /\ length bs = length mbufs.
Proof using HS2 HS3 FF FT.
  intros mbufs changed Hok Hnil Hfu Hrecv Hl Hn Hr0 Hr1 Hs0 Hs1 Hnd Hh Hps Hst Hps' Hts Hf2 Hk Hf4.
  destruct (parsed_act (T2 := T2) pb rx rcv w w1 n pkts Hok Hnil Hrecv Hl Hn Hr0 Hr1) as [Hact Hokr].
  assert (Hlm : zlen mbufs = n) by (unfold mbufs; rewrite length_take; lia).
  pose proof (transform_frames (V := received_frames) _ _ c w w1 frs c' frs' Hact Hokr
    ltac:(simpl; fold mbufs; lia) Hnd Hh Hps Hst) as Htr.
  assert (Hh' : holds changed mbufs frs').
  { apply (reframed_holds _ _ frs); [done..|].
    apply (steps_shapes (V := received_frames) frs c c' frs' (holds_bytes_ok _ _ _ Hh) Hst). }
  set (v1 := Parsed.mkParsedBatch (T2 := T3) (Transform.mkTransform (Parsed.mkParsedBatch (T2 := T2)
    (Receive.mkReceive (PacketBatch.received_batch pb (Ok n) pkts) rx (rcv + n))) c' true)).
  assert (Hact1 : act (Parsed.mkParsedBatch (T2 := T3) (Transform.mkTransform (Parsed.mkParsedBatch (T2 := T2)
    (Receive.mkReceive pb rx rcv)) c false), w) = Ret (tt, (v1, mkWorld changed (net w1)))).
  { etransitivity; [apply on_field_Ret, Htr|done]. }
  destruct (packets_of_frames (V := changed_frames) v1 (mkWorld changed (net w1)) frs') as (ps & Hpk & Hmb & Hv);
    [exact Hh'|exact Hps'|].
  specialize (Hv d bs d' Hts). assert (Hlb : length bs = length mbufs).
  { rewrite (verdicts_length _ _ _ _ _ Hv). destruct Hpk as [-> _]. done. }
  destruct (filter_act_ok (Filter.mkFilter _ d cap []) v1 w (mkWorld changed (net w1)) ps bs d' h2 eq_refl Hact1)
    as (gap1 & Hg1 & Hfil); [exact Hokr|done| |done|exact Hf2|].
  { destruct Hpk as [-> _]. simpl. fold mbufs. lia. }
  pose proof (Permutation_length (keep_reject_permutation bs mbufs Hlb)) as Hpl. rewrite length_app in Hpl.
  pose proof (sent_by_range _ _ _ _ _ Hk) as Hkr.
  destruct (send_act_ok (filtering pb rx rcv c d cap tx snt) _
    (fun gap => Composition.mkComposition (ResetParsing.mkReset (Filter.mkFilter (Parsed.mkParsedBatch
       (Transform.mkTransform (Parsed.mkParsedBatch (Receive.mkReceive (PacketBatch.mkBatch []
       (drop (Z.to_nat k) (keep bs mbufs) ++ gap ++ gap1 ++ drop (Z.to_nat n) pkts) []
       (PacketBatch.parent_tasks pb)) rx (rcv + n))) c' false)) d' cap [])))
    w (mkWorld h2 (net w1)) w3 (mkWorld h4 (net w3)) k ltac:(etransitivity; [apply on_field_Ret, on_field_Ret, Hfil|reflexivity]))
    as (gap2 & Hg2 & Hsend).
  - exact (proj1 (filtered_ok pb n pkts bs gap1 Hok Hnil Hl Hn Hlb Hg1)).
  - exact Hk.
  - done.
  - destruct Hr0. split; lia.
  - simpl. lia.
  - intros gap Hg. etransitivity; [apply on_field_Ret, on_field_Ret, on_field_Ret, on_field_Ret|].
    { simpl. unfold Transform.done_. erewrite sbind_Ret by done. apply on_field_Ret, on_field_Ret, receive_done_ok; [|exact Hf4].
      exact (proj1 (sent_ok pb n pkts bs gap1 gap k Hok Hnil Hl Hn Hlb Hg1 Hkr Hg)). }
    simpl. unfold PacketBatch.resized. simpl. by rewrite drop_0.
  - exists (PacketBatch.mkBatch [] (drop (Z.to_nat k) (keep bs mbufs) ++ gap2 ++ gap1 ++ drop (Z.to_nat n) pkts) []
      (PacketBatch.parent_tasks pb)).
    split; [exact (eq_trans (send_executes (filtering pb rx rcv c d cap tx snt) w) Hsend)|]. split; [done|].
    destruct (sent_ok pb n pkts bs gap1 gap2 k) as [[_ Hcap] Hv']; try done.
    assert (Hsp : length (drop (Z.to_nat k) (keep bs mbufs) ++ gap2 ++ gap1 ++ drop (Z.to_nat n) pkts) =
                  length (PacketBatch.spare pb)).
    { unfold PacketBatch.vec_capacity in Hv'. rewrite Hnil in Hv'. simpl in Hv'. fold mbufs in Hv'.
      rewrite !length_app in *. lia. }
    split; [|split; [exact Hsp|by split]]. split; [done|]. destruct Hok as [_ Hc]. unfold PacketBatch.vec_capacity in *.
    cbn [PacketBatch.array PacketBatch.spare]. rewrite Hsp, Hnil in *. exact Hc.
Qed.

End filtering_function.
