(* ===== verification/NfPipelines.v ===== *)
(** * Network functions as the framework runs them

    The closures of the functions under [test/], as work on frames, and what a whole
    execution of a function between two ports does. *)

From S2P Require Import Prelude Flows Headers IpHeader Packet Batch Operators Pipelines Forwarding Functions NatNf Acl.
Import Mbuf Pkt.

#[export] Instance Mac_HeaderSize {P : Profile} : HeaderSize Mac.MacHeader.
Proof. unfold HeaderSize. simpl. unfold Mac.HDR_SIZE. lia. Qed.

Section ethernet.
Context {P : Profile}.

(** Where the Ethernet header at [pos] says that it ends *)
Definition mac_end (pos : Z) (fr : list Z) : Z :=
  pos + Mac.MacHeader_offset (decode (take 14 (drop (Z.to_nat pos) fr))).

Lemma mac_end_range pos fr : pos + 14 <= mac_end pos fr.
Proof.
  unfold mac_end, Mac.MacHeader_offset, Mac.HDR_SIZE_802_1AD, Mac.HDR_SIZE_802_1Q, Mac.HDR_SIZE.
  repeat case_match; lia.
Qed.

End ethernet.

(** ** Exchanging the addresses of the Ethernet header *)

Module Swapping.

Section swap.
Context {P : Profile}.
Implicit Types pkt : Packet Mac.MacHeader EmptyMetadata.

(** [pkt.get_mut_header().swap_addresses()] *)
Definition swap_header pkt : St Heap unit :=
  let* hdr := get_header pkt in
  let* hdr := slift (Mac.swap_addresses hdr) in
  get_mut_header pkt (fun _ => hdr).

(** The closures: with the assertion on the reference count ([macswap], [delay], [maglev]) and
    without ([chain_nf], [acl_match], [lpm]) *)
Inductive Checked : Type := checked.
Inductive Unchecked : Type := unchecked.

#[global] Instance checked_fn : FnMut Checked (Packet Mac.MacHeader EmptyMetadata) (Packet Mac.MacHeader EmptyMetadata) :=
  fun pkt => zoom snd (fun h s => (s.1, h))
    (let* r := pkt_refcnt pkt in
     let* _ := slift (assert_ (r =? 1) (Ret tt)) in
     let* _ := swap_header pkt in
     sret pkt).

#[global] Instance unchecked_fn : FnMut Unchecked (Packet Mac.MacHeader EmptyMetadata) (Packet Mac.MacHeader EmptyMetadata) :=
  fun pkt => zoom snd (fun h s => (s.1, h)) (let* _ := swap_header pkt in sret pkt).

(** The frame with the addresses of the Ethernet header at [pos] exchanged *)
Definition swapped (pos : Z) (fr : list Z) : list Z :=
  splice fr pos (take 6 (drop (Z.to_nat pos + 6) fr) ++ take 6 (drop (Z.to_nat pos) fr) ++ take 2 (drop (Z.to_nat pos + 12) fr)).

Lemma swapped_length pos fr : 0 <= pos -> pos + 14 <= zlen fr -> length (swapped pos fr) = length fr.
Proof. intros. unfold swapped. apply length_splice; [done|]. rewrite !length_app, !length_take, !length_drop. lia. Qed.

Lemma swapped_bytes_ok pos fr : bytes_ok fr -> bytes_ok (swapped pos fr).
Proof. intros. unfold swapped. apply bytes_ok_splice; [done|]. by repeat apply bytes_ok_app; apply bytes_ok_take, bytes_ok_drop. Qed.

(** On a whole frame: source, destination, and the rest as it was *)
Lemma swapped_frame fr : 14 <= zlen fr -> swapped 0 fr = take 6 (drop 6 fr) ++ take 6 fr ++ drop 12 fr.
Proof.
  intros Hl. unfold swapped, splice. simpl. rewrite !length_app, !length_take, !length_drop, <-!app_assoc, drop_0.
  do 2 f_equal. replace (_ + _)%nat with 14%nat by lia. rewrite <-(take_drop 2 (drop 12 fr)) at 2. by rewrite drop_drop.
Qed.

Lemma swapped_twice fr : 14 <= zlen fr -> swapped 0 (swapped 0 fr) = fr.
Proof.
  intros Hl. pose proof (swapped_length 0 fr) as Hs. rewrite (swapped_frame (swapped 0 fr)), swapped_frame by lia.
  assert (Ha : length (take 6 (drop 6 fr)) = 6%nat) by (rewrite length_take, length_drop; lia).
  assert (Hb : length (take 6 fr) = 6%nat) by (rewrite length_take; lia).
  rewrite (take_app_length' _ _ 6) by done. rewrite (drop_app_length' _ _ 6) by done. rewrite (take_app_length' _ _ 6) by done.
  change 12%nat with (6 + 6)%nat. rewrite <-!drop_drop, (drop_app_length' _ _ 6), (drop_app_length' _ _ 6) by done.
  by rewrite !take_drop.
Qed.

Lemma swap_header_ok (h : Heap) p m pos :
  pkt_ok h (packet_at p m pos : Packet Mac.MacHeader EmptyMetadata) m ->
  swap_header (packet_at p m pos) h = Ret (tt, <[p := with_frame m (swapped pos (frame m))]> h).
Proof.
  intros Hok. pose proof Hok as (Hp & Hwf & Hh & Ho & Hs). simpl in Ho, Hs. pose proof (length_frame m Hwf) as Hl.
  unfold swap_header. erewrite sbind_Ret by (by apply get_header_ok).
  set (l := take 14 (drop (Z.to_nat pos) (frame m))).
  assert (Hlb : bytes_ok l) by (by apply bytes_ok_take, bytes_ok_drop, frame_bytes_ok).
  assert (Hll : length l = 14%nat) by (unfold l; rewrite length_take, length_drop; lia).
  assert (Hw : wf (Mac.mkMacHeader (Mac.mkMac (take 6 l)) (Mac.mkMac (take 6 (drop 6 l))) (field l 12 2))).
  { exact (decode_wf (P := Mac.MacHeader_Packed) l Hlb ltac:(simpl; lia)). }
  destruct (Mac.swap_addresses_correct _ Hw) as (h' & Hsw & Hw' & Hd & Hsr & He & _).
  change (hdr_of (packet_at p m pos) m) with (Mac.mkMacHeader (Mac.mkMac (take 6 l)) (Mac.mkMac (take 6 (drop 6 l))) (field l 12 2)).
  erewrite sbind_Ret by (by apply slift_Ret). unfold get_mut_header. erewrite sbind_Ret by (by apply get_header_ok).
  assert (Henc : encode h' = take 6 (drop (Z.to_nat pos + 6) (frame m)) ++ take 6 (drop (Z.to_nat pos) (frame m)) ++
    take 2 (drop (Z.to_nat pos + 12) (frame m))).
  { destruct h' as [d s e]. simpl in *. subst d s. simpl. unfold Mac.etype in He. simpl in He.
    assert (e = field l 12 2) as ->.
    { pose proof (proj2 (proj2 Hw)). pose proof (proj2 (proj2 Hw')). apply (f_equal swap16) in He.
      by rewrite !swap16_swap16 in He. }
    rewrite (le_bytes_field l 12 2) by (done || lia). unfold l.
    rewrite !skipn_firstn_comm, !take_take, !drop_drop. done. }
  simpl header. rewrite Henc. apply write_frame; [done..|]. rewrite !length_app, !length_take, !length_drop. lia.
Qed.

#[global] Instance unchecked_frames : FrameFn Unchecked Mac.MacHeader EmptyMetadata.
Proof.
  refine {| step pos c fr := if (0 <=? pos) && (pos + 14 <=? zlen fr) then Ret (c, swapped pos fr) else Undef |}.
  - intros pos c fr c' fr' Hb. destruct (Z.leb_spec 0 pos), (Z.leb_spec (pos + 14) (zlen fr)); try done.
    intros [= _ <-]. split; [by apply swapped_length|by apply swapped_bytes_ok].
  - intros h p m pos c c' fr' Hok _. destruct (_ && _); [|done]. intros [= <- <-]. eexists.
    unfold call_mut, unchecked_fn, zoom. erewrite sbind_Ret by (by apply swap_header_ok). done.
Defined.

#[global] Instance checked_frames : FrameFn Checked Mac.MacHeader EmptyMetadata.
Proof.
  refine {| step pos c fr := if (0 <=? pos) && (pos + 14 <=? zlen fr) then Ret (c, swapped pos fr) else Undef |}.
  - intros pos c fr c' fr' Hb. destruct (Z.leb_spec 0 pos), (Z.leb_spec (pos + 14) (zlen fr)); try done.
    intros [= _ <-]. split; [by apply swapped_length|by apply swapped_bytes_ok].
  - intros h p m pos c c' fr' Hok Hr. destruct (_ && _); [|done]. intros [= <- <-]. eexists.
    unfold call_mut, checked_fn, zoom. erewrite sbind_Ret; [|unfold pkt_refcnt; eapply peek_ok; [apply Hok|unfold refcnt; by rewrite Hr]].
    erewrite sbind_Ret by done. erewrite sbind_Ret by (by apply swap_header_ok). done.
Defined.

End swap.

End Swapping.

(** ** Network address translation *)

Module Natting.
Import NatFn.

Section nat.
Context {P : Profile} {BE : BigEndian} {BEL : BigEndianLaws BE} (ipv4_cksum : list Z -> Z).

(** What the closure of [nat] captures *)
Record NatClosure : Type := mkNatClosure { nat_ip : Z; nat_state : Nat }.

#[local] Instance nat_fn : FnMut NatClosure (Packet Mac.MacHeader EmptyMetadata) (Packet Mac.MacHeader EmptyMetadata) :=
  fun pkt '(c, h) =>
    let! '(payload, h) := get_payload pkt h in
    let! '(s, payload') := translate ipv4_cksum (nat_ip c) (nat_state c) payload in
    let! '(_, h) := get_mut_payload pkt (fun _ => payload') h in
    Ret (pkt, (mkNatClosure (nat_ip c) s, h)).

#[local] Instance nat_frames : FrameFn NatClosure Mac.MacHeader EmptyMetadata.
Proof using BEL.
  refine {| step pos c fr :=
    if (0 <=? pos) && (mac_end pos fr <=? zlen fr) then
      let! '(s, payload) := translate ipv4_cksum (nat_ip c) (nat_state c) (drop (Z.to_nat (mac_end pos fr)) fr) in
      Ret (mkNatClosure (nat_ip c) s, take (Z.to_nat (mac_end pos fr)) fr ++ payload)
    else Undef |}.
  - intros pos c fr c' fr' Hb. destruct (Z.leb_spec 0 pos), (Z.leb_spec (mac_end pos fr) (zlen fr)); try done.
    simpl andb. cbn iota. intros ([s p'] & Ht & [= _ <-])%obind_Ret_inv.
    destruct (translate_shape ipv4_cksum _ _ _ _ _ (bytes_ok_drop _ _ Hb) Ht) as [Hl Hp']. split.
    + rewrite length_app, length_take, Hl, length_drop. lia.
    + apply bytes_ok_app; [by apply bytes_ok_take|done].
  - intros h p m pos c c' fr' Hok _. destruct (Z.leb_spec 0 pos), (Z.leb_spec (mac_end pos (frame m)) (zlen (frame m))); try done.
    simpl andb. cbn iota. intros ([s p'] & Ht & [= <- <-])%obind_Ret_inv.
    pose proof (length_frame m (proj1 (proj2 Hok))) as Hlf. pose proof (mac_end_range pos (frame m)).
    assert (Hf : hdr_fits (packet_at p m pos : Packet Mac.MacHeader EmptyMetadata) m).
    { unfold hdr_fits, payload_pos. unfold mac_end in *. unfold hdr_of. simpl in *. lia. }
    eexists. unfold call_mut, nat_fn. rewrite (get_payload_ok _ _ _ Hok Hf). cbn [obind].
    change (payload_of (packet_at p m pos) m) with (drop (Z.to_nat (mac_end pos (frame m))) (frame m)).
    rewrite Ht. cbn [obind]. rewrite (write_payload _ _ _ _ Hok Hf); [done|].
    refine (proj1 (translate_shape ipv4_cksum _ _ _ _ _ _ Ht)). by apply bytes_ok_drop, frame_bytes_ok, Hok.
Defined.

(** *** Between two ports *)

Section ports.
Context {Z_ : Zcsi} {F : Fuel} {Net Rx Tx : Type} {RxI : PacketRx Net Rx} {TxI : PacketTx Net Tx}.
Context (ip : Z) (Hip : uint 32 ip).

Abbreviation received_frames := (Parsed.ParsedBatch Mac.MacHeader (Receive.ReceiveBatch Rx)).

(** [nat(ReceiveBatch::new(port), sched, &ip).send(port)] *)
Definition nat (parent : Receive.ReceiveBatch Rx) :
    Composition.CompositionBatch (Transform.TransformBatch received_frames NatClosure) :=
  Build.compose (Build.transform (Build.parse Mac.MacHeader parent) (mkNatClosure ip init)).

Lemma nat_running pb rx (tx : Tx) : Build.send (nat (Receive.mkReceive pb rx 0)) tx = running pb rx 0 (mkNatClosure ip init) tx 0.
Proof. done. Qed.

(** The frame that arrives: room for the header behind Ethernet, and a flow in it *)
Definition frame_flow (fr : list Z) (f : Flow) : Prop :=
  mac_end 0 fr <= zlen fr /\ carries (drop (Z.to_nat (mac_end 0 fr)) fr) f.

(** The frame that leaves for it: as long, with the same Ethernet header, and the new flow *)
Definition forwarded (fr : list Z) (g : Flow) (fr' : list Z) : Prop :=
  length fr' = length fr /\ take (Z.to_nat (mac_end 0 fr)) fr' = take (Z.to_nat (mac_end 0 fr)) fr /\
  carries (drop (Z.to_nat (mac_end 0 fr)) fr') g.

Lemma frame_flow_parses fr f : frame_flow fr f -> parses received_frames fr.
Proof using.
  intros [Hl [(_ & b0 & _ & Hb & Hlen) _]]. rewrite length_drop in Hlen. pose proof (mac_end_range 0 fr).
  split; [done|]. split; [done|]. change (behind (V := Receive.ReceiveBatch Rx) fr) with 0. simpl. unfold Mac.HDR_SIZE. lia.
Qed.

Lemma nat_steps fs s frs ins fs' outs :
  represents ip fs s -> Forall2 frame_flow frs ins -> spec_steps ip fs ins fs' outs ->
  exists s' frs', steps (V := received_frames) (mkNatClosure ip s) frs = Ret (mkNatClosure ip s', frs') /\
    represents ip fs' s' /\ Forall3 forwarded frs outs frs'.
Proof using Hip BEL.
  intros Hr Hf Hst. revert s frs Hr Hf. induction Hst as [fs|fs f fs1 g ins fs2 outs Hst _ IH]; intros s frs Hr Hf.
  - apply Forall2_nil_inv_r in Hf as ->. exists s, []. split_and!; try done. constructor.
  - apply Forall2_cons_inv_r in Hf as (fr & frs1 & [Hlen Hc] & Hfs & ->).
    destruct (translate_refines ipv4_cksum ip Hip fs s _ f fs1 g Hr Hc Hst) as (s1 & p1 & Ht & Hr1 & Hc1 & Hl1).
    destruct (IH s1 frs1 Hr1 Hfs) as (s2 & frs2 & Hs2 & Hr2 & Hf2). pose proof (mac_end_range 0 fr) as Hme.
    exists s2, ((take (Z.to_nat (mac_end 0 fr)) fr ++ p1) :: frs2). split; [|split; [done|]].
    + assert (Hstep : step Mac.MacHeader EmptyMetadata 0 (mkNatClosure ip s) fr =
        Ret (mkNatClosure ip s1, take (Z.to_nat (mac_end 0 fr)) fr ++ p1)).
      { cbv beta iota delta [step nat_frames]. change (0 <=? 0) with true. rewrite (proj2 (Z.leb_le _ _)) by done.
        cbn [andb nat_ip nat_state]. by rewrite Ht. }
      cbn [steps]. change (position received_frames fr) with 0. rewrite Hstep. cbn [obind]. by rewrite Hs2.
    + constructor; [|done]. unfold forwarded. split_and!.
      * rewrite length_app, length_take, Hl1, length_drop. lia.
      * rewrite take_app_length' by (rewrite length_take; lia). done.
      * rewrite drop_app_length' by (rewrite length_take; lia). done.
Qed.

(** C4: network address translation between two ports. Let the receiving port deliver frames
    that hold packets of the flows [ins], which the specification answers with [outs], and let
    the function's tables stand for the sessions [fs]. One execution of the pipeline then
    offers the sending port the same mbufs in the same order, each with the Ethernet header it
    came with, of the same length, and with the answering flow, counts what came and went,
    frees what the port did not take, and leaves tables that stand for the sessions after the
    batch. *)
Theorem nat_forwards pb rx rcv s tx snt (w w1 : World Net) n pkts frs fs ins fs' outs :
  let mbufs := take (Z.to_nat n) pkts in
  PacketBatch.batch_ok pb -> PacketBatch.array pb = [] -> (length pkts <= loop_fuel)%nat ->
  recv rx (PacketBatch.spare pb) w = Ret ((Ok n, pkts), w1) ->
  length pkts = length (PacketBatch.spare pb) -> 0 <= n <= zlen pkts ->
  uint 64 rcv -> rcv + n < 2 ^ 64 -> uint 64 snt -> snt + n < 2 ^ 64 ->
  NoDup mbufs -> holds (heap w1) mbufs frs ->
  Forall2 frame_flow frs ins -> represents ip fs s -> spec_steps ip fs ins fs' outs ->
  exists s' frs', represents ip fs' s' /\ Forall3 forwarded frs outs frs' /\
    let offered := mkWorld (reframed mbufs frs' (heap w1)) (net w1) in
    holds (heap offered) mbufs frs' /\
    forall k w3 h4, sent_by tx mbufs offered k w3 -> PacketBatch.freed (drop (Z.to_nat k) mbufs) (heap w3) h4 ->
    exists pb',
      execute (running pb rx rcv (mkNatClosure ip s) tx snt, w) =
        Ret (tt, (running pb' rx (rcv + n) (mkNatClosure ip s') tx (snt + k), mkWorld h4 (net w3))) /\
      PacketBatch.array pb' = [] /\ PacketBatch.batch_ok pb' /\
      length (PacketBatch.spare pb') = length (PacketBatch.spare pb).
Proof using Hip BEL.
  intros mbufs Hok Hnil Hfu Hrecv Hl Hn Hr0 Hr1 Hs0 Hs1 Hnd Hh Hf Hrep Hst.
  destruct (nat_steps fs s frs ins fs' outs Hrep Hf Hst) as (s' & frs' & Hsteps & Hrep' & Hfw).
  exists s', frs'. split; [done|]. split; [done|]. intros offered.
  assert (Hps : Forall (parses received_frames) frs).
  { clear -Hf. induction Hf as [|fr f frs ins Hf _ IH]; constructor; [by eapply frame_flow_parses|done]. }
  split.
  - apply (reframed_holds _ _ frs); [done..|].
    apply (steps_shapes (V := received_frames) frs _ _ frs' (holds_bytes_ok _ _ _ Hh) Hsteps).
  - intros k w3 h4 Hk Hf4. destruct (wrapped_execute composed pb rx rcv (mkNatClosure ip s) tx snt w w1 w3 n pkts frs
      (mkNatClosure ip s') frs' k h4) as (pb' & He & Ha & Hb & Hsp & _); try done. by exists pb'.
Qed.

End ports.

End nat.
End Natting.

(** ** The access control list *)

#[export] Instance Ip_HeaderSize {P : Profile} : HeaderSize Ip.IpHeader.
Proof. unfold HeaderSize. simpl. lia. Qed.

Module Filtering.
Import Firewall Swapping.

Section acl.
Context {P : Profile} {BE : BigEndian} {BEL : BigEndianLaws BE}.

(** The memory of the mbuf from the packet's header on *)
Definition memory_at (pkt : Packet Ip.IpHeader EmptyMetadata) (h : Heap) : outcome (list Z) :=
  match h !! mbuf pkt with
  | Some m => Ret (drop (Z.to_nat (header pkt - buf_addr m)) (bytes m))
  | None => Undef
  end.

(** What the second closure of [acl_match] captures *)
Record AclClosure : Type := mkAclClosure { acls : list Acl; flow_cache : gset Flow }.

#[global] Instance acl_fn : FnRef AclClosure (Packet Ip.IpHeader EmptyMetadata) bool := fun pkt h c =>
  let! '(hdr, _) := get_header pkt h in
  let! mem := memory_at pkt h in
  let! o := Ip.flow hdr mem in
  let! flow := unwrap o in
  let '(b, cache) := acl_filter (acls c) flow (flow_cache c) in
  Ret (b, mkAclClosure (acls c) cache).

Lemma memory_at_frame (h : Heap) p m pos :
  pkt_ok h (packet_at p m pos : Packet Ip.IpHeader EmptyMetadata) m ->
  exists rest, memory_at (packet_at p m pos) h = Ret (drop (Z.to_nat pos) (frame m) ++ rest).
Proof.
  intros (Hp & Hwf & _ & H0 & Hs). pose proof Hwf as (?&?&?&?&?&?&?&_). simpl in Hp, H0, Hs.
  exists (drop (Z.to_nat (data_off m + data_len_ m)) (bytes m)). unfold memory_at. simpl mbuf. rewrite Hp. f_equal.
  simpl header. unfold data_address. replace (_ - _) with (data_off m + pos) by lia. unfold frame.
  rewrite skipn_firstn_comm, drop_drop. replace (Z.to_nat (data_off m + pos)) with (Z.to_nat (data_off m) + Z.to_nat pos)%nat by lia.
  rewrite <-(take_drop (Z.to_nat (data_len_ m) - Z.to_nat pos) (drop (Z.to_nat (data_off m) + Z.to_nat pos) (bytes m))) at 1.
  rewrite drop_drop. do 2 f_equal. lia.
Qed.

(** Memory behind the frame does not matter to a flow that the frame holds. *)
Lemma flow_prefix hdr l rest o : Ip.flow hdr l = Ret o -> Ip.flow hdr (l ++ rest) = Ret o.
Proof.
  unfold Ip.flow. destruct (_ || _); [|done]. destruct (Ip.IpHeader_payload_size hdr) as [ps| | |]; simpl; try done.
  destruct (4 <=? ps); [|done]. intros (s & Hs & H)%obind_Ret_inv. apply vslice_Ret_inv in Hs as [Hr ->].
  rewrite vslice_Ret by (rewrite ?length_app; lia). cbn [obind]. rewrite drop_app_le by lia.
  rewrite take_app_le by (rewrite length_drop; lia). exact H.
Qed.

#[global] Instance acl_frames : FrameTest AclClosure Ip.IpHeader EmptyMetadata.
Proof.
  refine {| test pos c fr :=
    let! o := Ip.flow (decode (take 20 (drop (Z.to_nat pos) fr))) (drop (Z.to_nat pos) fr) in
    let! flow := unwrap o in
    let '(b, cache) := acl_filter (acls c) flow (flow_cache c) in
    Ret (b, mkAclClosure (acls c) cache) |}.
  intros h p m pos c b c' Hok (o & Ho & H)%obind_Ret_inv. pose proof Hok as (Hp & Hwf & Hh & Hpos & Hs).
  pose proof Hwf as (?&?&?&?&?&?&?&_). simpl in Hp, Hpos, Hs.
  unfold call_ref, acl_fn. rewrite (get_header_ok _ _ _ Hok). cbn [obind].
  change (hdr_of (packet_at p m pos) m) with (decode (take 20 (drop (Z.to_nat pos) (frame m))) : Ip.IpHeader).
  destruct (memory_at_frame h p m pos Hok) as [rest ->]. cbn [obind]. rewrite (flow_prefix _ _ _ _ Ho). exact H.
Defined.

(** *** Between two ports *)

Section ports.
Context {Z_ : Zcsi} {F : Fuel} {Net Rx Tx : Type} {RxI : PacketRx Net Rx} {TxI : PacketTx Net Tx}.

Abbreviation received_frames := (Parsed.ParsedBatch Mac.MacHeader (Receive.ReceiveBatch Rx)).
Abbreviation changed_frames := (Parsed.ParsedBatch Ip.IpHeader (Transform.TransformBatch received_frames Unchecked)).

Definition acl_match (parent : Receive.ReceiveBatch Rx) (rules : list Acl) :
    outcome (Composition.CompositionBatch (Filter.FilterBatch changed_frames AclClosure)) :=
  let swapping := Build.transform (Build.parse Mac.MacHeader parent) unchecked in
  let! filtered := Build.filter (Build.parse Ip.IpHeader swapping) (mkAclClosure rules ∅) in
  Ret (Build.compose filtered).

(** A frame with a packet of flow [f], as the header's [flow] reads it, behind Ethernet *)
Definition ip_frame (fr : list Z) (f : Flow) : Prop :=
  let mem := drop (Z.to_nat (mac_end 0 fr)) fr in
  20 < zlen mem /\ Ip.flow (decode (take 20 mem)) mem = Ret (Some f).

Lemma swapped_behind fr e : 14 <= zlen fr -> (14 <= e)%nat -> drop e (swapped 0 fr) = drop e fr.
Proof.
  intros Hl He. rewrite swapped_frame by done. replace e with (6 + (6 + (e - 12)))%nat by lia.
  rewrite <-drop_drop, (drop_app_length' _ _ 6) by (rewrite length_take, length_drop; lia).
  rewrite <-drop_drop, (drop_app_length' _ _ 6) by (rewrite length_take; lia). rewrite drop_drop.
  done.
Qed.

Lemma swapped_mac_end fr : 14 <= zlen fr -> mac_end 0 (swapped 0 fr) = mac_end 0 fr.
Proof.
  intros Hl. unfold mac_end. rewrite !drop_0. f_equal. unfold Mac.MacHeader_offset.
  assert (He : Mac.etype_ (decode (take 14 (swapped 0 fr))) = Mac.etype_ (decode (take 14 fr))); [|by rewrite He].
  simpl. unfold field. f_equal. rewrite !skipn_firstn_comm. f_equal. f_equal. simpl. rewrite swapped_frame by done.
  change 12%nat with (6 + 6)%nat at 1. rewrite <-drop_drop, (drop_app_length' _ _ 6) by (rewrite length_take, length_drop; lia).
  by rewrite (drop_app_length' _ _ 6) by (rewrite length_take; lia).
Qed.

Lemma ip_frame_length fr f : ip_frame fr f -> mac_end 0 fr + 20 < zlen fr.
Proof. intros [Hl _]. rewrite length_drop in Hl. pose proof (mac_end_range 0 fr). lia. Qed.

Lemma ip_frame_parses fr f : ip_frame fr f -> parses received_frames fr /\ parses changed_frames (swapped 0 fr).
Proof using.
  intros Hf%ip_frame_length. pose proof (mac_end_range 0 fr) as Hm.
  assert (Hp : forall x, 14 < zlen x -> parses received_frames x).
  { intros x Hx. split; [done|]. split; [done|]. change (behind (V := Receive.ReceiveBatch Rx) x) with 0. simpl. unfold Mac.HDR_SIZE. lia. }
  split; [apply Hp; lia|]. pose proof (swapped_length 0 fr) as Hl. split; [apply Hp; lia|].
  change (behind (V := Transform.TransformBatch received_frames Unchecked) (swapped 0 fr)) with (mac_end 0 (swapped 0 fr)).
  pose proof (mac_end_range 0 (swapped 0 fr)).
  change (Headers.offset (header_in (V := Transform.TransformBatch received_frames Unchecked) (swapped 0 fr)))
    with (mac_end 0 (swapped 0 fr)).
  rewrite swapped_mac_end by lia. simpl. lia.
Qed.

Lemma swap_steps frs flows :
  Forall2 ip_frame frs flows -> steps (V := received_frames) unchecked frs = Ret (unchecked, swapped 0 <$> frs).
Proof using.
  induction 1 as [|fr f frs flows Hf _ IH]; [done|]. cbn [steps]. change (position received_frames fr) with 0.
  pose proof (ip_frame_length _ _ Hf). pose proof (mac_end_range 0 fr).
  assert (Hs : step Mac.MacHeader EmptyMetadata 0 unchecked fr = Ret (unchecked, swapped 0 fr)).
  { cbv beta iota delta [step unchecked_frames]. change (0 <=? 0) with true. by rewrite (proj2 (Z.leb_le _ _)) by lia. }
  rewrite Hs. cbn [obind]. by rewrite IH.
Qed.

Lemma acl_tests rules cache frs flows bs cache' :
  Forall2 ip_frame frs flows -> acl_filter_all rules flows cache = (bs, cache') ->
  tests (V := changed_frames) (mkAclClosure rules cache) (swapped 0 <$> frs) = Ret (bs, mkAclClosure rules cache').
Proof using.
  intros Hf. revert cache bs. induction Hf as [|fr f frs flows Hf _ IH]; intros cache bs; simpl acl_filter_all.
  { by intros [= <- <-]. }
  destruct (acl_filter rules f cache) as [b c1] eqn:H1. destruct (acl_filter_all rules flows c1) as [bs1 c2] eqn:H2.
  intros [= <- <-]. rewrite fmap_cons. cbn [tests].
  pose proof (ip_frame_length _ _ Hf). pose proof (mac_end_range 0 fr).
  change (position changed_frames (swapped 0 fr)) with (mac_end 0 (swapped 0 fr)). rewrite swapped_mac_end by lia.
  assert (Ht : test Ip.IpHeader EmptyMetadata (mac_end 0 fr) (mkAclClosure rules cache) (swapped 0 fr) =
    Ret (b, mkAclClosure rules c1)).
  { cbv beta iota delta [test acl_frames]. rewrite swapped_behind by lia. destruct Hf as [_ Hf]. rewrite Hf. cbn [obind unwrap].
    cbn [acls flow_cache]. by rewrite H1. }
  rewrite Ht. cbn [obind]. by rewrite (IH _ _ H2).
Qed.

(** The same for any rules, which are applied to the flows as [IpHeader::flow] reads them *)
Lemma acl_forwards_seen pb rx rcv rules cache cap tx snt (w w1 : World Net) n pkts frs flows past :
  let mbufs := take (Z.to_nat n) pkts in
  PacketBatch.batch_ok pb -> PacketBatch.array pb = [] -> (length pkts <= loop_fuel)%nat ->
  recv rx (PacketBatch.spare pb) w = Ret ((Ok n, pkts), w1) ->
  length pkts = length (PacketBatch.spare pb) -> 0 <= n <= zlen pkts ->
  uint 64 rcv -> rcv + n < 2 ^ 64 -> uint 64 snt -> snt + n < 2 ^ 64 ->
  NoDup mbufs -> holds (heap w1) mbufs frs -> Forall2 ip_frame frs flows ->
  remembers past cache -> decided_all rules past ->
  exists bs cache', length bs = length mbufs /\
    decided_all rules (past ++ zip flows bs) /\ remembers (past ++ zip flows bs) cache' /\
    let changed := reframed mbufs (swapped 0 <$> frs) (heap w1) in
    holds changed mbufs (swapped 0 <$> frs) /\
    forall h2 k w3 h4, PacketBatch.freed (reject bs mbufs) changed h2 ->
    sent_by tx (keep bs mbufs) (mkWorld h2 (net w1)) k w3 ->
    PacketBatch.freed (drop (Z.to_nat k) (keep bs mbufs)) (heap w3) h4 ->
    exists pb',
      execute (filtering pb rx rcv unchecked (mkAclClosure rules cache) cap tx snt, w) =
        Ret (tt, (filtering pb' rx (rcv + n) unchecked (mkAclClosure rules cache') cap tx (snt + k), mkWorld h4 (net w3))) /\
      PacketBatch.array pb' = [] /\ PacketBatch.batch_ok pb' /\
      length (PacketBatch.spare pb') = length (PacketBatch.spare pb).
Proof.
  intros mbufs Hok Hnil Hfu Hrecv Hl Hn Hr0 Hr1 Hs0 Hs1 Hnd Hh Hf Hrem Hdec.
  destruct (acl_filter_all_decided rules flows past cache Hrem Hdec) as (bs & cache' & Hrun & Hlb & Hd & Hr).
  exists bs, cache'. pose proof (Forall2_length _ _ _ Hh) as Hlh. pose proof (Forall2_length _ _ _ Hf) as Hlf.
  pose proof (swap_steps _ _ Hf) as Hst. pose proof (acl_tests rules cache frs flows bs cache' Hf Hrun) as Hts.
  split; [congruence|]. split; [done|]. split; [done|]. intros changed.
  assert (Hps : Forall (parses received_frames) frs /\ Forall (parses changed_frames) (swapped 0 <$> frs)).
  { clear -Hf. induction Hf as [|fr f frs flows Hf _ [IH1 IH2]]; [split; constructor|].
    destruct (ip_frame_parses fr f Hf). split; constructor; done. }
  split.
  - apply (reframed_holds _ _ frs); [done..|].
    apply (steps_shapes (V := received_frames) frs _ _ _ (holds_bytes_ok _ _ _ Hh) Hst).
  - intros h2 k w3 h4 Hf2 Hk Hf4. destruct (filtering_function_execute pb rx rcv unchecked (mkAclClosure rules cache) cap tx snt
      w w1 w3 n pkts frs unchecked (swapped 0 <$> frs) bs (mkAclClosure rules cache') h2 k h4)
      as (pb' & He & Ha & Hb & Hsp & _); try done; try apply Hps. by exists pb'.
Qed.

(** A TCP or UDP packet with its ports, behind Ethernet, and its flow *)
Definition carries_flow (fr : list Z) (f : Flow) : Prop :=
  let mem := drop (Z.to_nat (mac_end 0 fr)) fr in
  let hdr : Ip.IpHeader := decode mem in
  20 < zlen mem /\ (Ip.protocol hdr = 6 \/ Ip.protocol hdr = 17) /\
  Ip.ihl hdr * 4 + 4 <= Ip.length hdr /\ Ip.ihl hdr * 4 + 4 <= zlen mem /\ ipv4_extract_flow mem = Ret (Some f).

Lemma decode_ip_take (l : list Z) : (20 <= length l)%nat -> (decode (take 20 l) : Ip.IpHeader) = decode l.
Proof using.
  intros Hl. do 20 (destruct l as [|? l]; [simpl in Hl; lia|]). done.
Qed.

Lemma carries_flow_seen fr f : performance = false -> bytes_ok fr -> carries_flow fr f -> ip_frame fr (crossed f).
Proof using BEL.
  intros Hperf Hb (Hl & Hp & H1 & H2 & He). unfold ip_frame. cbv zeta in *.
  set (mem := drop (Z.to_nat (mac_end 0 fr)) fr) in *. split; [done|].
  assert (Hm : bytes_ok mem) by (by apply bytes_ok_drop). rewrite decode_ip_take by lia.
  destruct (Ip.flow_ports_exchanged mem Hperf Hm ltac:(lia) Hp H1 H2) as (g & Hg & Hx).
  rewrite Hg. rewrite He in Hx. injection Hx as ->. by destruct g.
Qed.

(** A packet of another protocol has no flow, and the closure unwraps what it gets. *)
Lemma flowless_panics (h : Heap) p m pos c :
  pkt_ok h (packet_at p m pos : Packet Ip.IpHeader EmptyMetadata) m ->
  let hdr : Ip.IpHeader := decode (take 20 (drop (Z.to_nat pos) (frame m))) in
  Ip.protocol hdr <> 6 -> Ip.protocol hdr <> 17 ->
  acl_fn (packet_at p m pos) h c = Panic.
Proof using.
  intros Hok hdr H6 H17. unfold acl_fn. rewrite (get_header_ok _ _ _ Hok). cbn [obind].
  change (hdr_of (packet_at p m pos) m) with hdr. destruct (memory_at_frame h p m pos Hok) as [rest ->]. cbn [obind].
  unfold Ip.flow. by rewrite (proj2 (Z.eqb_neq _ _) H6), (proj2 (Z.eqb_neq _ _) H17).
Qed.

(** What the set of flows holds: the flows let through, with exchanged ports *)
Definition recalls (past : list (Flow * bool)) (cache : gset Flow) : Prop := remembers (crossed_all past) cache.

(** C8: the access control list between two ports, in builds without the feature
    [performance]. Let every received frame be a TCP or UDP packet that holds its ports (the
    closure panics on any other), and let no rule name a port (the closure compares the ports
    of a rule with the opposite ones of the packet). Whatever else the rules say and the flows
    let through before, one execution offers the sending port exactly the mbufs of the packets
    that the first matching rule accepts, in order and with their Ethernet addresses
    exchanged, frees the others and what the port does not take, and remembers the accepted
    flows for the batches to come. *)
Theorem acl_forwards pb rx rcv rules cache cap tx snt (w w1 : World Net) n pkts frs flows past :
  let mbufs := take (Z.to_nat n) pkts in
  performance = false -> Forall portless rules ->
  PacketBatch.batch_ok pb -> PacketBatch.array pb = [] -> (length pkts <= loop_fuel)%nat ->
  recv rx (PacketBatch.spare pb) w = Ret ((Ok n, pkts), w1) ->
  length pkts = length (PacketBatch.spare pb) -> 0 <= n <= zlen pkts ->
  uint 64 rcv -> rcv + n < 2 ^ 64 -> uint 64 snt -> snt + n < 2 ^ 64 ->
  NoDup mbufs -> holds (heap w1) mbufs frs -> Forall2 carries_flow frs flows ->
  recalls past cache -> decided_all rules past ->
  exists bs cache', length bs = length mbufs /\
    decided_all rules (past ++ zip flows bs) /\ recalls (past ++ zip flows bs) cache' /\
    let changed := reframed mbufs (swapped 0 <$> frs) (heap w1) in
    holds changed mbufs (swapped 0 <$> frs) /\
    forall h2 k w3 h4, PacketBatch.freed (reject bs mbufs) changed h2 ->
    sent_by tx (keep bs mbufs) (mkWorld h2 (net w1)) k w3 ->
    PacketBatch.freed (drop (Z.to_nat k) (keep bs mbufs)) (heap w3) h4 ->
    exists pb',
      execute (filtering pb rx rcv unchecked (mkAclClosure rules cache) cap tx snt, w) =
        Ret (tt, (filtering pb' rx (rcv + n) unchecked (mkAclClosure rules cache') cap tx (snt + k), mkWorld h4 (net w3))) /\
      PacketBatch.array pb' = [] /\ PacketBatch.batch_ok pb' /\
      length (PacketBatch.spare pb') = length (PacketBatch.spare pb).
Proof using BEL.
  intros mbufs Hperf Hports Hok Hnil Hfu Hrecv Hl Hn Hr0 Hr1 Hs0 Hs1 Hnd Hh Hf Hrem Hdec.
  assert (Hseen : Forall2 ip_frame frs (crossed <$> flows)).
  { pose proof (holds_bytes_ok _ _ _ Hh) as Hb. clear -Hf Hb Hperf BEL. induction Hf as [|fr f frs flows Hf _ IH]; [constructor|].
    apply Forall_cons in Hb as [Hb Hbs]. constructor; [by apply carries_flow_seen|by apply IH]. }
  apply (decided_all_crossed _ _ Hports) in Hdec.
  destruct (acl_forwards_seen pb rx rcv rules cache cap tx snt w w1 n pkts frs (crossed <$> flows) (crossed_all past))
    as (bs & cache' & Hlb & Hd & Hr & Hrest); try done.
  exists bs, cache'. split; [done|].
  assert (Hz : crossed_all past ++ zip (crossed <$> flows) bs = crossed_all (past ++ zip flows bs)).
  { unfold crossed_all. rewrite fmap_app. f_equal. clear. revert bs. induction flows as [|f flows IH]; intros [|b bs]; try done.
    simpl. by rewrite IH. }
  rewrite Hz in Hd, Hr. split; [by apply decided_all_crossed|]. done.
Qed.

End ports.

End acl.
End Filtering.

(** ** A request and its reply, in one batch *)

Module NattingSample.
Import Sample NatSample Natting NatFn.

#[local] Existing Instance release.
#[local] Existing Instance zcsi.
#[local] Existing Instance rx.
#[local] Existing Instance tx.
#[local] Existing Instance byteorder.
#[local] Existing Instance byteorder_laws.
#[local] Instance fuel : Fuel := 8%nat.
#[local] Instance nat0 : FnMut NatClosure (Packet Mac.MacHeader EmptyMetadata) (Packet Mac.MacHeader EmptyMetadata) :=
  nat_fn (fun _ => 0).

(** A mbuf that holds just this frame *)
Definition frame_mbuf (addr : Z) (fr : list Z) : MBuf :=
  mkMBuf addr 0 1 (zlen fr) (zlen fr) (zlen fr) fr (replicate 128 0).

Definition ethernet : list Z := [2; 0; 0; 0; 0; 1; 2; 0; 0; 0; 0; 2; 8; 0].
Definition frames2 : list (list Z) := [ethernet ++ packet client; ethernet ++ packet reply].
Definition heap2 : Heap := <[1 := frame_mbuf 4096 (ethernet ++ packet client)]> (<[2 := frame_mbuf 8192 (ethernet ++ packet reply)]> ∅).
Definition empty4 : PacketBatch.PacketBatch := PacketBatch.mkBatch [] [0; 0; 0; 0] [] [].
Definition arriving : World wire := mkWorld heap2 (mkWire [1; 2] []).
Definition arrived2 : World wire := mkWorld heap2 (mkWire [] []).

Lemma nat_forwards_witness :
  exists s' frs', represents ip [client] s' /\
    Forall3 forwarded frames2 [outgoing ip 0 client; reverse_flow client] frs' /\
    let offered := mkWorld (reframed [1; 2] frs' heap2) (mkWire [] []) in
    holds (heap offered) [1; 2] frs' /\
    forall k w3 h4, sent_by tt [1; 2] offered k w3 -> PacketBatch.freed (drop (Z.to_nat k) [1; 2]) (heap w3) h4 ->
    exists pb',
      execute (running empty4 tt 0 (mkNatClosure ip init) tt 0, arriving) =
        Ret (tt, (running pb' tt 2 (mkNatClosure ip s') tt k, mkWorld h4 (net w3))) /\
      PacketBatch.array pb' = [] /\ PacketBatch.batch_ok pb' /\ length (PacketBatch.spare pb') = 4%nat.
Proof.
  refine (@nat_forwards _ _ _ (fun _ => 0) _ _ _ _ _ rx tx ip _ empty4 tt 0 init tt 0 arriving arrived2 2 [1; 2; 0; 0] frames2 []
    [client; reply] [client] [outgoing ip 0 client; reverse_flow client] _ _ _ _ _ _ _ _ _ _ _ _ _ _ _).
  - unfold uint, ip. lia.
  - by split; vm_compute.
  - done.
  - vm_compute. lia.
  - reflexivity.
  - done.
  - simpl. lia.
  - unfold uint. lia.
  - lia.
  - unfold uint. lia.
  - lia.
  - by apply (bool_decide_unpack _).
  - repeat apply Forall2_cons_2; [..|constructor]; eexists;
      (split; [reflexivity|split; [by apply (bool_decide_unpack _)|split; reflexivity]]).
  - repeat apply Forall2_cons_2; [..|constructor]; (split; [vm_compute; discriminate|]);
      (split; [split; [by apply (bool_decide_unpack _)|by exists 69]|by vm_compute]).
  - apply init_represents.
  - econstructor; [apply (step_fresh ip []); [set_solver|done|unfold CAPACITY; simpl; lia]|]. simpl.
    econstructor; [by apply (step_reply ip [client] 0 client)|]. constructor.
Defined.

End NattingSample.

(** ** Three packets at a stateful firewall: out of 10.0.0.0/8, the reply, and a stranger's *)

Module FilteringSample.
Import Sample NatSample NattingSample Filtering Firewall Swapping.

#[local] Existing Instance release.
#[local] Existing Instance zcsi.
#[local] Existing Instance rx.
#[local] Existing Instance tx.
#[local] Existing Instance byteorder.
#[local] Existing Instance byteorder_laws.
#[local] Instance fuel : Fuel := 8%nat.

Definition rules : list Acl := [allow_out (mkIpv4Prefix 167772160 8 4278190080); allow_replies].
Definition stranger : Flow := mkFlow 16909060 167772161 443 5000 17.
Definition sent3 : list Flow := [client; reverse_flow client; stranger].

Definition frames3 : list (list Z) := (fun f => ethernet ++ packet f) <$> sent3.
Definition heap3 : Heap :=
  <[1 := frame_mbuf 4096 (ethernet ++ packet client)]> (<[2 := frame_mbuf 8192 (ethernet ++ packet (reverse_flow client))]>
  (<[3 := frame_mbuf 12288 (ethernet ++ packet stranger)]> ∅)).

Lemma rules_verdicts : (acl_filter_all rules (crossed <$> sent3) ∅).1 = [true; true; false].
Proof. vm_compute. reflexivity. Qed.

(** A rule for source port 443 does not match the packet from there, but the one sent there. *)
Lemma port_rule_crossed :
  matches (mkAcl None None (Some 443) None None false) (crossed stranger) ∅ = false /\
  matches (mkAcl None None (Some 443) None None false) (crossed (reverse_flow stranger)) ∅ = true.
Proof. by vm_compute. Qed.

Lemma acl_forwards_witness :
  exists bs cache', length bs = 3%nat /\
    decided_all rules ([] ++ zip sent3 bs) /\ recalls ([] ++ zip sent3 bs) cache' /\
    let changed := reframed [1; 2; 3] (swapped 0 <$> frames3) heap3 in
    holds changed [1; 2; 3] (swapped 0 <$> frames3) /\
    forall h2 k w3 h4, PacketBatch.freed (reject bs [1; 2; 3]) changed h2 ->
    sent_by tt (keep bs [1; 2; 3]) (mkWorld h2 (mkWire [] [])) k w3 ->
    PacketBatch.freed (drop (Z.to_nat k) (keep bs [1; 2; 3])) (heap w3) h4 ->
    exists pb',
      execute (filtering empty4 tt 0 unchecked (mkAclClosure rules ∅) 4 tt 0, mkWorld heap3 (mkWire [1; 2; 3] [])) =
        Ret (tt, (filtering pb' tt 3 unchecked (mkAclClosure rules cache') 4 tt k, mkWorld h4 (net w3))) /\
      PacketBatch.array pb' = [] /\ PacketBatch.batch_ok pb' /\ length (PacketBatch.spare pb') = 4%nat.
Proof.
  refine (acl_forwards (RxI := rx) (TxI := tx) empty4 tt 0 rules ∅ 4 tt 0 (mkWorld heap3 (mkWire [1; 2; 3] []))
    (mkWorld heap3 (mkWire [] [])) 3 [1; 2; 3; 0] frames3 sent3 [] _ _ _ _ _ _ _ _ _ _ _ _ _ _ _ _ _).
  - reflexivity.
  - repeat constructor.
  - by split; vm_compute.
  - done.
  - vm_compute. lia.
  - reflexivity.
  - done.
  - simpl. lia.
  - unfold uint. lia.
  - lia.
  - unfold uint. lia.
  - lia.
  - by apply (bool_decide_unpack _).
  - repeat apply Forall2_cons_2; [..|constructor]; eexists;
      (split; [reflexivity|split; [by apply (bool_decide_unpack _)|split; reflexivity]]).
  - repeat apply Forall2_cons_2; [..|constructor]; (split; [vm_compute; reflexivity|split; [right; by vm_compute|split; [by vm_compute|split; by vm_compute]]]).
  - intros f. set_solver.
  - intros past f b rest Heq. by destruct past.
Defined.

End FilteringSample.
