(* ===== verification/Stages.v ===== *)
(** * Batches that have acted

    What one operator does to the frames of a batch, said so that operators compose: [acted]
    takes a batch before [act] to the batch after it and the frames its mbufs then hold.
    Receiving starts it; parsing, transforming, filtering and the exchange of the Ethernet
    addresses go from one such fact to the next. *)

From S2P Require Import Prelude Headers IpHeader Packet Batch Operators Pipelines Groups Forwarding Functions NfPipelines.
Import Mbuf Pkt.

(** [act] takes [v] to [v1], which holds mbufs with these frames. *)
Definition acted {P : Profile} {Z_ : Zcsi} {F : Fuel} {Net V T M : Type} {IV : BatchIterator Net V T M} {AV : Act Net V}
    {LV : BatchLaws Net V T M} (v : V) (w : World Net) (v1 : V) (w1 : World Net) (frs : list (list Z)) : Prop :=
  act (v, w) = Ret (tt, (v1, w1)) /\ PacketBatch.batch_ok (view v1) /\ NoDup (PacketBatch.array (view v1)) /\
  (length (PacketBatch.array (view v1)) <= loop_fuel)%nat /\ holds (heap w1) (PacketBatch.array (view v1)) frs.

Section acting.
Context {P : Profile} {Z_ : Zcsi} {F : Fuel} {Net V C T M : Type} {PT : Packed T} {ET : EndOffset T}.
Context {IV : BatchIterator Net V T M} {AV : Act Net V} {LV : BatchLaws Net V T M} {FV : FrameView Net V T M}.

Lemma transform_acted {Fn : FnMut C (Packet T M) (Packet T M)} {FF : FrameFn C T M} v w v1 w1 frs c c' frs' :
  acted v w v1 w1 frs -> Forall (parses V) frs -> steps (V := V) c frs = Ret (c', frs') ->
  acted (Transform.mkTransform v c false) w (Transform.mkTransform v1 c' true)
    (mkWorld (reframed (PacketBatch.array (view v1)) frs' (heap w1)) (net w1)) frs'.
Proof using FV.
  intros (Hact & Hok & Hnd & Hf & Hh) Hps Hst. split; [by apply (transform_frames v v1 c w w1 frs)|]. split_and!; try done.
  apply (reframed_holds _ _ frs); [done..|]. exact (steps_shapes frs c c' frs' (holds_bytes_ok _ _ _ Hh) Hst).
Qed.

Lemma parse_acted {T2} {PT2 : Packed T2} {ET2 : EndOffset T2} v w v1 w1 frs :
  acted v w v1 w1 frs -> acted (Parsed.mkParsedBatch (T2 := T2) v) w (Parsed.mkParsedBatch v1) w1 frs.
Proof. intros [Hact Hr]. split; [|done]. etransitivity; [apply on_field_Ret, Hact|done]. Qed.

(** The allocator takes back what the application holds alone. *)
Class FreesHeld : Prop := frees_held (l : list Z) (h : Heap) :
  l <> [] -> NoDup l -> (forall p, p ∈ l -> exists m, h !! p = Some m /\ mbuf_wf m /\ refcnt_ m = 1) ->
  mbuf_free_bulk l h = Ret (0, without l h).
Context {FH : FreesHeld}.

Lemma holds_elem h l frs p : holds h l frs -> p ∈ l -> exists m, h !! p = Some m /\ mbuf_wf m /\ refcnt_ m = 1.
Proof.
  intros Hh [i Hi]%list_elem_of_lookup. destruct (Forall2_lookup_l _ _ _ _ _ Hh Hi) as (fr & _ & m & Hm & Hwf & Hr & _). eauto.
Qed.

Lemma freed_held h l frs l' :
  holds h l frs -> NoDup l' -> (forall p, p ∈ l' -> p ∈ l) -> PacketBatch.freed l' h (without l' h).
Proof using FH.
  intros Hh Hnd Hs. destruct l' as [|p l']; [done|]. apply frees_held; [done|done|]. intros x Hx. eapply holds_elem; eauto.
Qed.

Lemma holds_without h l frs l' : holds h l frs -> (forall p, p ∈ l -> p ∉ l') -> holds (without l' h) l frs.
Proof.
  intros Hh Hd. apply Forall2_same_length_lookup_2; [by eapply Forall2_length|]. intros i p fr Hp Hfr.
  destruct (holds_lookup _ _ _ _ _ _ Hh Hp Hfr) as (m & Hm & Hr). exists m.
  rewrite lookup_without, decide_False; [done|]. apply Hd. by eapply list_elem_of_lookup_2.
Qed.

Lemma keep_fmap {A B} (f : A -> B) bs (l : list A) : keep bs (f <$> l) = f <$> keep bs l.
Proof. revert l. induction bs as [|[] bs IH]; intros [|x l]; try done; simpl; by rewrite IH. Qed.

Lemma elem_of_keep {A} bs (l : list A) x : x ∈ keep bs l -> x ∈ l.
Proof.
  revert l. induction bs as [|b bs IH]; intros [|y l] Hx; try (by apply not_elem_of_nil in Hx). simpl in Hx.
  destruct b; [apply elem_of_cons in Hx as [->|Hx]; [by left|]|]; right; by apply IH.
Qed.

Lemma keep_length {A} bs (l : list A) : (length (keep bs l) <= length l)%nat.
Proof. revert l. induction bs as [|[] bs IH]; intros [|x l]; simpl; try lia; specialize (IH l); lia. Qed.

Lemma holds_keep h l frs bs : length bs = length l -> holds h l frs -> holds h (keep bs l) (keep bs frs).
Proof.
  intros Hl Hh. revert bs Hl. induction Hh as [|p fr l frs Hp _ IH]; intros [|b bs] Hl; try done; [constructor|].
  assert (Hk : holds h (keep bs l) (keep bs frs)) by (apply IH; simpl in Hl; lia). destruct b; [by constructor|exact Hk].
Qed.

(** A filter over frames keeps the mbufs of the frames it accepts and frees the others. *)
Lemma filter_acted {Fn : FnRef C (Packet T M) bool} {FT : FrameTest C T M} v w v1 w1 frs c cap bs c' :
  acted v w v1 w1 frs -> Forall (parses V) frs -> tests (V := V) c frs = Ret (bs, c') ->
  let mbufs := PacketBatch.array (view v1) in
  let w2 := mkWorld (without (reject bs mbufs) (heap w1)) (net w1) in
  exists pb, acted (Filter.mkFilter v c cap []) w (Filter.mkFilter (update pb v1) c' cap []) w2 (keep bs frs) /\
    PacketBatch.array pb = keep bs mbufs /\ PacketBatch.vec_capacity pb = PacketBatch.vec_capacity (view v1) /\
    length bs = length mbufs.
Proof using FV FH.
  intros (Hact & Hok & Hnd & Hf & Hh) Hps Hts mbufs w2.
  destruct (packets_of_frames v1 w1 frs Hh Hps) as (ps & Hpk & Hmb & Hv). specialize (Hv c bs c' Hts).
  assert (Hlb : length bs = length mbufs) by (rewrite (verdicts_length _ _ _ _ _ Hv); by destruct Hpk as [-> _]).
  pose proof (keep_reject_permutation bs mbufs Hlb) as Hperm. pose proof Hnd as Hnd'. fold mbufs in Hnd'.
  rewrite <-Hperm in Hnd'. apply NoDup_app in Hnd' as (Hk1 & Hdis & Hk2).
  assert (Hsub : forall p, p ∈ reject bs mbufs -> p ∈ mbufs) by (intros p Hp; rewrite <-Hperm; apply elem_of_app; auto).
  destruct (filter_act_ok (Filter.mkFilter v c cap []) v1 w w1 ps bs c' (heap w2) eq_refl Hact Hok Hpk) as (gap & Hg & Hfil).
  { destruct Hpk as [-> _]. exact Hf. }
  { done. }
  { by apply (freed_held _ mbufs frs). }
  pose proof (Permutation_length Hperm) as Hpl. rewrite length_app in Hpl. fold mbufs in Hg, Hfil, Hf.
  eexists. split; [split; [exact Hfil|]|split; [done|split; [|done]]].
  - change (view (Filter.mkFilter ?p c' cap [])) with (view p).
    rewrite (get_set (get := view) (set := update)). cbn [PacketBatch.array]. split_and!; [|done|lia|].
    + destruct Hok as [Hs Hc]. split; [done|]. unfold PacketBatch.vec_capacity in *. cbn [PacketBatch.array PacketBatch.spare].
      fold mbufs in Hc. rewrite length_app. lia.
    + apply holds_without; [by apply holds_keep|done].
  - unfold PacketBatch.vec_capacity. cbn [PacketBatch.array PacketBatch.spare]. fold mbufs. rewrite length_app. lia.
Qed.

End acting.

(** ** Receiving *)

Section receiving.
Context {P : Profile} {Z_ : Zcsi} {F : Fuel} {Net Rx : Type} {RxI : PacketRx Net Rx}.

Lemma receive_acted pb (rx : Rx) rcv (w w1 : World Net) n pkts frs :
  PacketBatch.batch_ok pb -> PacketBatch.array pb = [] -> (length pkts <= loop_fuel)%nat ->
  recv rx (PacketBatch.spare pb) w = Ret ((Ok n, pkts), w1) ->
  length pkts = length (PacketBatch.spare pb) -> 0 <= n <= zlen pkts -> uint 64 rcv -> rcv + n < 2 ^ 64 ->
  NoDup (take (Z.to_nat n) pkts) -> holds (heap w1) (take (Z.to_nat n) pkts) frs ->
  acted (Receive.mkReceive pb rx rcv) w (Receive.mkReceive (PacketBatch.received_batch pb (Ok n) pkts) rx (rcv + n)) w1 frs.
Proof.
  intros Hok Hnil Hfu Hrecv Hl Hn Hr0 Hr1 Hnd Hh.
  destruct (parsed_act (T2 := Mac.MacHeader) pb rx rcv w w1 n pkts Hok Hnil Hrecv Hl Hn Hr0 Hr1) as [_ Hokr]. split.
  - etransitivity; [apply (receive_act_ok _ _ _ _ w1 (heap w) n pkts)|]; rewrite ?Hnil; try done. by destruct w.
  - split; [exact Hokr|]. split; [exact Hnd|]. split; [|exact Hh]. simpl. rewrite length_take. lia.
Qed.

(** What is left of a batch after [j] packets were sent has the capacity of the batch. *)
Lemma unsent_batch pb l j gap cap :
  PacketBatch.batch_ok pb -> PacketBatch.array pb = l -> PacketBatch.vec_capacity pb = cap -> 0 <= j <= zlen l -> zlen gap = j ->
  let rest := PacketBatch.mkBatch (drop (Z.to_nat j) l) (gap ++ PacketBatch.spare pb)
    (PacketBatch.scratch pb) (PacketBatch.parent_tasks pb) in
  PacketBatch.batch_ok rest /\ PacketBatch.vec_capacity rest = cap.
Proof.
  intros [Hsc Hc] <- <- Hj Hg rest. assert (Hv : PacketBatch.vec_capacity rest = PacketBatch.vec_capacity pb).
  { unfold PacketBatch.vec_capacity, rest. cbn [PacketBatch.array PacketBatch.spare]. rewrite length_app, length_drop. lia. }
  split; [|done]. split; [done|]. by rewrite Hv.
Qed.

(** A received batch shows whole frames, whatever they hold. *)
Lemma receive_front fr : position (Net := Net) (Receive.ReceiveBatch Rx) fr = 0.
Proof using. done. Qed.
Lemma receive_accepts fr : parses (Net := Net) (Receive.ReceiveBatch Rx) fr.
Proof using. done. Qed.

End receiving.

(** ** Operators over a received batch

    [wrap] puts operators over the received batch, before [act] or between [act] and [done]. *)

Section wrapping.
Context {P : Profile} {Z_ : Zcsi} {F : Fuel} {Net Rx V T M : Type} {RxI : PacketRx Net Rx}.
Context {IV : BatchIterator Net V T M} {AV : Act Net V} {LV : BatchLaws Net V T M}.
Context (wrap : bool -> Receive.ReceiveBatch Rx -> V).

Class Wraps : Prop := {
  wrap_view b r : view (wrap b r) = view r;
  wrap_update b pb r : update pb (wrap b r) = wrap b (update pb r);
  wrap_done r (w : World Net) r' w' : done (r, w) = Ret (tt, (r', w')) -> done (wrap true r, w) = Ret (tt, (wrap false r', w'))
}.
Context {W : Wraps}.

(** A pipeline that ends in a port: what the operators leave is offered to the port, and
    what the port does not take is freed. *)
Lemma forward_acted {Tx : Type} {TxI : PacketTx Net Tx} pb pb1 rx rcv rcv' (tx : Tx) snt (w w2 : World Net) frs :
  acted (wrap false (Receive.mkReceive pb rx rcv)) w (wrap true (Receive.mkReceive pb1 rx rcv')) w2 frs ->
  PacketBatch.vec_capacity pb1 = zlen (PacketBatch.spare pb) ->
  uint 64 snt -> snt + zlen (PacketBatch.array pb1) < 2 ^ 64 ->
  forall j w3 h4, sent_by tx (PacketBatch.array pb1) w2 j w3 ->
  PacketBatch.freed (drop (Z.to_nat j) (PacketBatch.array pb1)) (heap w3) h4 ->
  exists pb',
    execute (Send.mkSend tx (wrap false (Receive.mkReceive pb rx rcv)) snt, w) =
      Ret (tt, (Send.mkSend tx (wrap false (Receive.mkReceive pb' rx rcv')) (snt + j), mkWorld h4 (net w3))) /\
    PacketBatch.array pb' = [] /\ PacketBatch.batch_ok pb' /\
    length (PacketBatch.spare pb') = length (PacketBatch.spare pb).
Proof using W.
  intros (Hact & Hok & _ & _ & _) Hcap Hs0 Hs1 j w3 h4 Hj Hf4. pose proof (sent_by_range _ _ _ _ _ Hj) as Hjr.
  rewrite wrap_view in Hok. simpl in Hok.
  set (batch := fun gap => PacketBatch.mkBatch (drop (Z.to_nat j) (PacketBatch.array pb1)) (gap ++ PacketBatch.spare pb1)
    (PacketBatch.scratch pb1) (PacketBatch.parent_tasks pb1)).
  assert (Hb : forall gap, zlen gap = j -> PacketBatch.batch_ok (batch gap) /\
    PacketBatch.vec_capacity (batch gap) = zlen (PacketBatch.spare pb)) by (intros gap Hg; by apply unsent_batch).
  destruct (send_act_ok (Send.mkSend tx (wrap false (Receive.mkReceive pb rx rcv)) snt) _
    (fun gap => wrap false (Receive.mkReceive (PacketBatch.resized (batch gap) 0) rx rcv'))
    w w2 w3 (mkWorld h4 (net w3)) j Hact) as (gap & Hg & Hsend); rewrite ?wrap_view; try done.
  - unfold uint in *. lia.
  - simpl. lia.
  - intros gap Hg. destruct (Hb gap Hg) as [Hbok _]. rewrite wrap_update. apply wrap_done.
    exact (receive_done_ok _ _ _ w3 h4 Hbok Hf4).
  - destruct (Hb gap Hg) as [Hbok Hvb]. destruct (resized_zero _ Hbok) as (Hok0 & Hn0 & Hl0).
    exists (PacketBatch.resized (batch gap) 0). split; [exact (eq_trans (send_executes _ w) Hsend)|]. split; [done|]. split; [done|].
    unfold PacketBatch.vec_capacity in Hvb. lia.
Qed.

End wrapping.

(** ** Metadata

    Writing metadata changes the free-form areas of the mbufs and nothing else. *)

Definition retagged (h h' : Heap) : Prop := Group.same_frames h h' /\
  forall x m m' s, h !! x = Some m -> h' !! x = Some m' -> 0 <= s < FREEFORM_METADATA_SLOT ->
    read_metadata_slot m' s = read_metadata_slot m s.

Definition tagged {M} {PM : Packed M} (h : Heap) (p : Z) (v : M) : Prop :=
  exists m, h !! p = Some m /\ metadata_as M m FREEFORM_METADATA_SLOT = Ret v.

Lemma retagged_refl h : retagged h h.
Proof. split; [apply Group.same_frames_refl|]. intros x m m' s Hm Hm'. by simplify_eq. Qed.

Lemma retagged_insert h h1 x m m' :
  retagged h h1 -> h1 !! x = Some m -> m' = with_meta m (meta m') -> mbuf_wf m' ->
  (forall s, 0 <= s < FREEFORM_METADATA_SLOT -> read_metadata_slot m' s = read_metadata_slot m s) -> retagged h (<[x := m']> h1).
Proof.
  intros [Hs Hr] Hx Hm Hwf Hk. split; [eapply Group.same_frames_trans; [exact Hs|by eapply Group.same_frames_insert]|].
  intros y m0 m1 s H0 H1 Hi. destruct (decide (x = y)) as [<-|Hne]; [|rewrite lookup_insert_ne in H1 by done; by eapply Hr].
  rewrite lookup_insert_eq in H1. injection H1 as <-. rewrite Hk by done. by eapply Hr.
Qed.

Section tagging.
Context {P : Profile} {Z_ : Zcsi} {F : Fuel} {Net V C T M M2 : Type} {PT : Packed T} {ET : EndOffset T}.
Context {IV : BatchIterator Net V T M} {AV : Act Net V} {LV : BatchLaws Net V T M}.
Context {PM : Packed M2} {PML : PackedLaws M2 PM} {Fn : FnRef C (Packet T M) M2}.

(** A batch of packets that come out alike however the packets are tagged gets the answers of
    the closure as metadata. *)
Lemma metadata_acted (v v1 : V) (w w1 : World Net) ps mds c :
  act (v, w) = Ret (tt, (v1, w1)) -> mbuf <$> ps = PacketBatch.array (view v1) -> NoDup (mbuf <$> ps) ->
  (length ps <= loop_fuel)%nat -> zlen ps < 2 ^ 31 ->
  (forall i p w', retagged (heap w1) (heap w') -> ps !! i = Some p ->
    next_payload (Z.of_nat i) (v1, w') = Ret (Some p, (v1, w'))) ->
  Forall (fun p => exists m, heap w1 !! mbuf p = Some m /\ mbuf_wf m) ps ->
  Forall2 (fun p md => wf md /\ forall h, retagged (heap w1) h -> call_ref p h c = Ret (md, c)) ps mds ->
  Z.of_nat (size_of M2) < FREEFORM_METADATA_SIZE ->
  exists h2, act (AddMetadata.mkAddMetadata v c false, w) = Ret (tt, (AddMetadata.mkAddMetadata v1 c true, mkWorld h2 (net w1))) /\
    retagged (heap w1) h2 /\ Forall2 (fun p md => tagged h2 (mbuf p) md) ps mds.
Proof using LV PML ET PT.
  intros Hact Hmb Hnd Hf Hsz Hen Hwf Hmd Hsize. pose proof (Forall2_length _ _ _ Hmd) as Hlen.
  assert (Hln : length (PacketBatch.array (view v1)) = length ps) by (by rewrite <-Hmb, length_fmap).
  destruct (for_each_inv AddMetadata.parent AddMetadata.set_parent (fun d =>
      let* metadata := on_closure_ref AddMetadata.generator AddMetadata.set_generator (call_ref (packet d)) in
      let* r := on_heap (write_metadata (packet d) (metadata : M2)) in slift (unwrap_ok r)) (length ps)
    (fun k b w' => b = AddMetadata.mkAddMetadata v1 c false /\ net w' = net w1 /\ retagged (heap w1) (heap w') /\
      forall i p md, (i < k)%nat -> ps !! i = Some p -> mds !! i = Some md -> tagged (heap w') (mbuf p) md))
    with (b := AddMetadata.mkAddMetadata v1 c false) (w := w1) as (b' & w2 & Hrun & -> & Hnet & Hre & Htag).
  - by intros k b w' (-> & _).
  - intros k b w' Hk (-> & Hnet & Hre & Htag). destruct (lookup_lt_is_Some_2 ps k Hk) as [p Hp].
    destruct (lookup_lt_is_Some_2 mds k) as [md Hm]; [lia|]. destruct (Forall2_lookup_lr _ _ _ _ _ _ Hmd Hp Hm) as [Hw Hcall].
    destruct (Forall_lookup_1 _ _ _ _ Hwf Hp) as (m & Hpm & Hmwf).
    destruct (Group.same_frames_lookup _ _ _ _ (proj1 Hre) Hpm Hmwf) as (m1 & Hm1 & Hwf1 & _).
    destruct (write_metadata_ok (heap w') p m1 md Hm1 Hwf1 Hw Hsize) as (m2 & Hwr & He & Hwf2 & Has & Hsl).
    exists p, (AddMetadata.mkAddMetadata v1 c false), (mkWorld (<[mbuf p := m2]> (heap w')) (net w')).
    split; [by apply Hen|]. split; [|split; [done|split; [done|split; [by eapply retagged_insert|]]]].
    + cbn [packet]. erewrite sbind_Ret; [|unfold on_closure_ref; simpl; by rewrite Hcall].
      erewrite sbind_Ret by (unfold on_heap; by apply zoom_Ret). done.
    + intros i p' md' Hi Hp' Hmd'. simpl. unfold tagged. destruct (decide (i = k)) as [->|Hne].
      * simplify_eq. exists m2. by rewrite lookup_insert_eq.
      * rewrite lookup_insert_ne; [apply (Htag i); (done || lia)|]. intros Heq. apply Hne.
        apply (NoDup_lookup _ _ _ (mbuf p') Hnd); rewrite list_lookup_fmap; [by rewrite Hp'|by rewrite Hp, <-Heq].
  - done.
  - lia.
  - split; [done|]. split; [done|]. split; [apply retagged_refl|]. intros; lia.
  - exists (heap w2). split; [|split; [done|]].
    + simpl. unfold AddMetadata.act_. erewrite sbind_Ret by done. cbn [fst AddMetadata.applied negb].
      erewrite sbind_Ret by (by apply on_field_Ret). erewrite sbind_Ret by exact Hrun. rewrite <-Hnet. by destruct w2.
    + apply Forall2_same_length_lookup_2; [done|]. intros i p md Hp Hm. apply (Htag i); try done. by eapply lookup_lt_Some.
Qed.

(** Their metadata is there behind them. *)
Lemma read_tagged {T1} (h : Heap) (pkt : Packet T1 M2) v :
  tagged h (mbuf pkt) v -> Z.of_nat (size_of M2) < FREEFORM_METADATA_SIZE -> read_metadata pkt h = Ret (v, h).
Proof.
  intros (m & Hm & Ha) Hs. unfold read_metadata. rewrite (proj2 (Z.ltb_lt _ _)) by done. by eapply peek_ok.
Qed.

End tagging.

(** ** Closures that only look at the packets *)

Section looking.
Context {P : Profile} {Z_ : Zcsi} {F : Fuel} {Net V C T M : Type}.
Context {IV : BatchIterator Net V T M} {AV : Act Net V} {LV : BatchLaws Net V T M} {Fn : FnMut C (Packet T M) (Packet T M)}.

Lemma transform_reads {X} (v v1 : V) (w w1 : World Net) ps (f : X -> C -> outcome C) xs c c' :
  act (v, w) = Ret (tt, (v1, w1)) -> length ps = length (PacketBatch.array (view v1)) ->
  (length ps <= loop_fuel)%nat -> zlen ps < 2 ^ 31 ->
  (forall i p, ps !! i = Some p -> next_payload (Z.of_nat i) (v1, w1) = Ret (Some p, (v1, w1))) ->
  Forall2 (fun p x => forall c, call_mut p (c, heap w1) = let! c' := f x c in Ret (p, (c', heap w1))) ps xs ->
  each f xs c = Ret c' ->
  act (Transform.mkTransform v c false, w) = Ret (tt, (Transform.mkTransform v1 c' true, w1)).
Proof using LV.
  intros Hact Hlen Hf Hsz Hen Hcall Hall. pose proof (Forall2_length _ _ _ Hcall) as Hlx.
  destruct (for_each_inv Transform.parent Transform.set_parent (fun d =>
      let* _ := on_closure Transform.transformer Transform.set_transformer (call_mut (packet d)) in sret tt) (length ps)
    (fun k b w' => exists ck, b = Transform.mkTransform v1 ck false /\ w' = w1 /\ each f (drop k xs) ck = Ret c'))
    with (b := Transform.mkTransform v1 c false) (w := w1) as (b' & w2 & Hrun & ck & -> & -> & Hck).
  - intros k b w' (ck & -> & _). simpl. lia.
  - intros k b w' Hk (ck & -> & -> & Hck). destruct (lookup_lt_is_Some_2 ps k Hk) as [p Hp].
    destruct (lookup_lt_is_Some_2 xs k) as [x Hx]; [lia|]. pose proof (Forall2_lookup_lr _ _ _ _ _ _ Hcall Hp Hx ck) as Hc.
    rewrite (drop_S _ _ _ Hx) in Hck. cbn [each] in Hck. apply obind_Ret_inv in Hck as (c1 & Hc1 & Hck).
    exists p, (Transform.mkTransform v1 c1 false), w1. split; [by apply Hen|]. split; [|by exists c1].
    cbn [packet]. rewrite (sbind_Ret _ _ _ p (Transform.mkTransform v1 c1 false, w1)); [done|]. unfold on_closure, zoom. simpl.
    rewrite Hc, Hc1. simpl. by destruct w1.
  - done.
  - lia.
  - exists c. by rewrite drop_0.
  - rewrite Hlx, drop_all in Hck. injection Hck as ->. simpl. unfold Transform.act_. erewrite sbind_Ret by done.
    cbn [fst Transform.applied negb]. erewrite sbind_Ret by (by apply on_field_Ret). by erewrite sbind_Ret by exact Hrun.
Qed.

End looking.

(** ** The exchange of the Ethernet addresses *)

(** Fields of the Internet header at [pos], as the accessors read them *)
Lemma nth_take_drop (l : list Z) a n i : (i < n)%nat -> nth i (take n (drop a l)) 0 = nth (a + i) l 0.
Proof. intros. by rewrite !nth_lookup, lookup_take_lt, lookup_drop by done. Qed.

Lemma ip_field_at f fr pos :
  f <> Ip.Csum -> f <> Ip.FragmentOffset -> 0 <= pos -> pos + 20 <= zlen fr -> bytes_ok fr ->
  Ip.ip_get f (decode (take 20 (drop (Z.to_nat pos) fr))) = Ip.view (take 20 (drop (Z.to_nat pos) fr)) f.
Proof.
  intros Hc Hf Hp Hl Hb. rewrite Ip.ip_getters_read_wire by done.
  rewrite (encode_decode (T := Ip.IpHeader)); [|by apply bytes_ok_take, bytes_ok_drop|].
  - change (size_of Ip.IpHeader) with 20%nat. by rewrite take_take.
  - rewrite length_take, length_drop. change (size_of Ip.IpHeader) with 20%nat. lia.
Qed.

(** Room for the Internet header behind the Ethernet header, and more *)
Definition roomy {P : Profile} (fr : list Z) : Prop := mac_end 0 fr + 20 < zlen fr.

Lemma swapped_roomy {P : Profile} fr : roomy fr -> roomy (Swapping.swapped 0 fr).
Proof.
  unfold roomy. intros. pose proof (mac_end_range 0 fr). rewrite Filtering.swapped_mac_end, Swapping.swapped_length by lia. done.
Qed.

Section exchanging.
Import Swapping.
Context {P : Profile} {Z_ : Zcsi} {F : Fuel} {Net V C : Type} {IV : BatchIterator Net V NullHeader EmptyMetadata} {AV : Act Net V}.
Context {LV : BatchLaws Net V NullHeader EmptyMetadata} {FV : FrameView Net V NullHeader EmptyMetadata}.
Context {Fn : FnMut C (Packet Mac.MacHeader EmptyMetadata) (Packet Mac.MacHeader EmptyMetadata)}.
Context {FF : FrameFn C Mac.MacHeader EmptyMetadata}.

(** A closure that exchanges the addresses of every frame *)
Class Exchanges (c : C) : Prop :=
  exchanges fr : 14 <= zlen fr -> step Mac.MacHeader EmptyMetadata 0 c fr = Ret (c, swapped 0 fr).

(** The batch in front shows frames from their start. *)
Context (front : forall fr, position V fr = 0).

Lemma mac_position fr : position (Parsed.ParsedBatch Mac.MacHeader V) fr = 0.
Proof using front. change (position V fr + 0 = 0). by rewrite front. Qed.

Lemma mac_parses_length fr : parses (Parsed.ParsedBatch Mac.MacHeader V) fr -> 14 < zlen fr.
Proof using front.
  intros (_ & _ & Hs). change (size Mac.MacHeader < zlen fr - (position V fr + 0)) in Hs. rewrite front in Hs.
  simpl in Hs. unfold Mac.HDR_SIZE in Hs. lia.
Qed.

Lemma exchange_acted c {Hc : Exchanges c} v w v1 w1 frs :
  acted v w v1 w1 frs -> Forall (parses (Parsed.ParsedBatch Mac.MacHeader V)) frs ->
  acted (Transform.mkTransform (Parsed.mkParsedBatch v) c false) w (Transform.mkTransform (Parsed.mkParsedBatch v1) c true)
    (mkWorld (reframed (PacketBatch.array (view v1)) (swapped 0 <$> frs) (heap w1)) (net w1)) (swapped 0 <$> frs).
Proof using front.
  intros Hacted Hps. apply (parse_acted (T2 := Mac.MacHeader)) in Hacted.
  assert (Hst : steps (V := Parsed.ParsedBatch Mac.MacHeader V) c frs = Ret (c, swapped 0 <$> frs)).
  { clear Hacted. induction Hps as [|fr frs Hp _ IH]; [done|]. cbn [steps]. apply mac_parses_length in Hp.
    rewrite mac_position, (exchanges (c := c)) by lia. cbn [obind]. by rewrite IH. }
  by apply (transform_acted _ _ _ _ _ c c (swapped 0 <$> frs)) in Hacted.
Qed.

(** Behind it, the Internet header *)
Abbreviation exchanged := (Transform.TransformBatch (Parsed.ParsedBatch Mac.MacHeader V) C).

(** It shows all frames with room for the Internet header. *)
Context (accepts : forall fr, roomy fr -> parses V fr).

Lemma ip_position fr : position (Parsed.ParsedBatch Ip.IpHeader exchanged) fr = mac_end 0 fr.
Proof using front.
  change (position exchanged fr + Headers.offset (header_in (V := exchanged) fr) = mac_end 0 fr). unfold header_in.
  change (position exchanged fr) with (position (Parsed.ParsedBatch Mac.MacHeader V) fr). by rewrite mac_position.
Qed.

Lemma mac_parses fr : roomy fr -> parses (Parsed.ParsedBatch Mac.MacHeader V) fr.
Proof using front accepts.
  intros Hr. split; [by apply accepts|]. split; [done|]. change (size Mac.MacHeader < zlen fr - (position V fr + 0)).
  rewrite front. pose proof (mac_end_range 0 fr). unfold roomy in Hr. simpl. unfold Mac.HDR_SIZE. lia.
Qed.

Lemma ip_parses fr : roomy fr -> parses (Parsed.ParsedBatch Ip.IpHeader exchanged) fr.
Proof using front accepts.
  intros Hr. pose proof (ip_position fr) as Hip. pose proof (mac_end_range 0 fr) as Hm.
  change (behind (V := exchanged) fr = mac_end 0 fr) in Hip.
  split; [by apply mac_parses|]. split.
  - unfold behind in Hip. change (position exchanged fr) with (position (Parsed.ParsedBatch Mac.MacHeader V) fr) in Hip.
    rewrite mac_position in Hip. lia.
  - rewrite Hip. unfold roomy in Hr. simpl. lia.
Qed.

End exchanging.

#[export] Instance unchecked_exchanges {P : Profile} : Exchanges Swapping.unchecked.
Proof. intros fr Hl. cbv beta iota delta [step Swapping.unchecked_frames]. change (0 <=? 0) with true. by rewrite (proj2 (Z.leb_le _ _)) by lia. Qed.

#[export] Instance checked_exchanges {P : Profile} : Exchanges Swapping.checked.
Proof. intros fr Hl. cbv beta iota delta [step Swapping.checked_frames]. change (0 <=? 0) with true. by rewrite (proj2 (Z.leb_le _ _)) by lia. Qed.
