(* ===== verification/NfGroups.v ===== *)
(** * Network functions that spread packets over groups

    [GroupBy] over frames: the group of a packet is a function of its frame, and the queue of
    a group gets the mbufs of its frames in order. The load balancer and the routing table
    are instances. *)

From S2P Require Import Prelude Flows Headers IpHeader Packet Mpsc Batch Operators Pipelines Groups Forwarding Maglev NatNf.
From S2P Require Import Functions NfPipelines Stages.
Import Mbuf Pkt Group.

(** A mbuf that carries the position [pos] of its frame for the consumer *)
Definition parked (h : Heap) (p pos : Z) : Prop := exists m, h !! p = Some m /\
  read_metadata_slot m HEADER_SLOT = Ret (data_address m pos) /\ read_metadata_slot m OFFSET_SLOT = Ret pos.

Section grouping.
Context {P : Profile} {Z_ : Zcsi} {F : Fuel} {Net V C T M : Type} {Q : HasQueues Net} {PT : Packed T} {ET : EndOffset T}.
Context {IV : BatchIterator Net V T M} {AV : Act Net V} {LV : BatchLaws Net V T M} {FV : FrameView Net V T M}.
Context {Fn : FnRef C (Packet T M) Z}.

(** The group of a frame, and what the closure keeps in its state *)
Context (answer : list Z -> Z) (keeps : C -> Prop).

Definition answers (fr : list Z) : Prop := forall (h : Heap) p m c,
  h !! p = Some m -> mbuf_wf m -> frame m = fr -> keeps c ->
  exists c', call_ref (packet_at p m (position V fr) : Packet T M) h c = Ret (answer fr, c') /\ keeps c'.

(** The mbufs that go to a queue *)
Definition for_queue (prods : list MpscProducer) (id : Z) (mbufs : list Z) (frs : list (list Z)) : list Z :=
  (filter (fun x => producer_queue <$> prods !! Z.to_nat (answer x.2) = Some id) (zip mbufs frs)).*1.

(** Behind distinct queues: the mbufs whose group has the number of the queue *)
Lemma for_queue_group prods i pr mbufs frs :
  NoDup (producer_queue <$> prods) -> prods !! i = Some pr -> Forall (fun fr => 0 <= answer fr < zlen prods) frs ->
  for_queue prods (producer_queue pr) mbufs frs = (filter (fun x => answer x.2 = Z.of_nat i) (zip mbufs frs)).*1.
Proof.
  intros Hnd Hpr Hr. unfold for_queue. f_equal. revert mbufs. induction Hr as [|fr frs Hf _ IH]; intros [|p mbufs]; try done.
  cbn [zip_with zip]. assert (Hiff : producer_queue <$> prods !! Z.to_nat (answer fr) = Some (producer_queue pr) <-> answer fr = Z.of_nat i).
  { rewrite <-list_lookup_fmap. split; [intros He|intros ->; by rewrite list_lookup_fmap, Nat2Z.id, Hpr].
    assert (Z.to_nat (answer fr) = i); [|lia]. apply (NoDup_lookup _ _ _ _ Hnd He). by rewrite list_lookup_fmap, Hpr. }
  destruct (decide (answer fr = Z.of_nat i)) as [Ha|Ha].
  - rewrite !filter_cons_True by (done || by apply Hiff). f_equal. apply IH.
  - rewrite !filter_cons_False by (done || by rewrite Hiff). apply IH.
Qed.

(** The queue of the frame's group exists and works. *)
Definition served (w : World Net) (prods : list MpscProducer) (fr : list Z) : Prop :=
  0 <= answer fr /\ exists pr q, prods !! Z.to_nat (answer fr) = Some pr /\
    queues (net w) !! producer_queue pr = Some q /\ queue_ok q.

(** The packets of the batch *)
Definition packet_of (h : Heap) (p : Z) (fr : list Z) : Packet T M :=
  match h !! p with Some m => packet_at p m (position V fr) | None => mkPacket p 0 0 end.

Definition group_of (h : Heap) (pkt : Packet T M) : Z :=
  match h !! mbuf pkt with Some m => answer (frame m) | None => 0 end.

Lemma packet_of_mbuf h p fr : mbuf (packet_of h p fr) = p.
Proof. unfold packet_of. by destruct (h !! p). Qed.

Lemma packets_mbufs h mbufs frs : length frs = length mbufs -> mbuf <$> zip_with (packet_of h) mbufs frs = mbufs.
Proof.
  revert frs. induction mbufs as [|p mbufs IH]; intros [|fr frs] Hl; try done. simpl.
  rewrite packet_of_mbuf. f_equal. apply IH. simpl in Hl. lia.
Qed.

Lemma destined_frames h prods id mbufs frs :
  holds h mbufs frs -> destined (group_of h) prods id (zip_with (packet_of h) mbufs frs) = for_queue prods id mbufs frs.
Proof.
  unfold destined, for_queue. induction 1 as [|p fr mbufs frs (m & Hm & _ & _ & <-) _ IH]; [done|].
  assert (Ht : target (group_of h) prods (packet_of h p (frame m)) = producer_queue <$> prods !! Z.to_nat (answer (frame m))).
  { unfold target, group_of. by rewrite packet_of_mbuf, Hm. }
  cbn [zip_with zip]. destruct (decide (producer_queue <$> prods !! Z.to_nat (answer (frame m)) = Some id)) as [Hd|Hd].
  - rewrite !filter_cons_True by (done || by rewrite Ht). by rewrite !fmap_cons, packet_of_mbuf, IH.
  - rewrite !filter_cons_False by (done || by rewrite Ht). exact IH.
Qed.

Lemma enumerates_frames v (w : World Net) frs :
  holds (heap w) (PacketBatch.array (view v)) frs -> Forall (parses V) frs ->
  enumerates v w (zip_with (packet_of (heap w)) (PacketBatch.array (view v)) frs).
Proof using FV.
  intros Hh Hps. split; [rewrite length_zip_with, (Forall2_length _ _ _ Hh); lia|].
  intros i pkt w' Hs (p & fr & -> & Hp & Hfr)%lookup_zip_with_Some.
  destruct (holds_lookup _ _ _ _ _ _ Hh Hp Hfr) as (m & Hm & Hwf & _ & <-).
  destruct (same_frames_lookup _ _ _ _ Hs Hm Hwf) as (m' & Hm' & Hwf' & He). unfold packet_of. rewrite Hm.
  assert (Hfe : frame m' = frame m) by (by rewrite He). assert (Hae : forall o, data_address m' o = data_address m o) by (by rewrite He).
  pose proof (Forall_lookup_1 _ _ _ _ Hps Hfr) as Hpm. rewrite <-Hfe in Hpm.
  rewrite (view_at v w' i p m') by done. unfold packet_at. by rewrite Hfe, Hae.
Qed.

Lemma group_frames (v v1 : V) (w w1 : World Net) prods c frs :
  act (v, w) = Ret (tt, (v1, w1)) ->
  let mbufs := PacketBatch.array (view v1) in
  NoDup mbufs -> (length mbufs <= loop_fuel)%nat -> zlen mbufs < 2 ^ 31 ->
  holds (heap w1) mbufs frs -> Forall (parses V) frs -> Forall answers frs -> Forall (served w1 prods) frs -> keeps c ->
  exists w2 c',
    execute (mkProducerTask v prods c, w) =
      on_field parent set_parent done
        (mkProducerTask (update (PacketBatch.resized (view v1) 0) v1) prods c', w2) /\ keeps c' /\
    same_frames (heap w1) (heap w2) /\
    (forall id q0, queues (net w1) !! id = Some q0 -> queue_ok q0 ->
      exists q, queues (net w2) !! id = Some q /\ received q0 (for_queue prods id mbufs frs) q) /\
    Forall2 (fun p fr => parked (heap w2) p (position V fr)) mbufs frs /\ net w2 = set_queues (queues (net w2)) (net w1).
Proof using FV.
  intros Hact mbufs Hnd Hfu Hsz Hh Hps Han Hsv Hk. pose proof (Forall2_length _ _ _ Hh) as Hlen.
  set (ps := zip_with (packet_of (heap w1)) mbufs frs).
  assert (Hlp : length ps = length mbufs) by (unfold ps; rewrite length_zip_with; lia).
  assert (Hmb : mbuf <$> ps = mbufs) by (apply packets_mbufs; lia).
  assert (Hall : forall pkt, pkt ∈ ps -> exists i p fr m, mbufs !! i = Some p /\ frs !! i = Some fr /\ heap w1 !! p = Some m /\
    mbuf_wf m /\ frame m = fr /\ pkt = packet_at p m (position V fr)).
  { intros pkt [i Hi]%list_elem_of_lookup_1. apply lookup_zip_with_Some in Hi as (p & fr & -> & Hp & Hfr).
    destruct (holds_lookup _ _ _ _ _ _ Hh Hp Hfr) as (m & Hm & Hwf & _ & Hf). exists i, p, fr, m.
    unfold packet_of. by rewrite Hm. }
  destruct (execute_delivers (group_of (heap w1)) prods keeps (mkProducerTask v prods c) v1 w w1 ps)
    as (w2 & c' & He & Hk' & Hs & Hq & Hsd & Hnet); try done; try lia.
  - by apply enumerates_frames.
  - apply Forall_forall. intros pkt (i & p & fr & m & Hp & Hfr & Hm & Hwf & <- & ->)%Hall.
    pose proof (Forall_lookup_1 _ _ _ _ Hps Hfr) as Hpm. destruct (parses_bounds _ Hpm). pose proof (length_frame m Hwf).
    pose proof Hwf as (?&?&?&?&?&?&?&_). split; [by exists m|]. simpl. unfold data_address, uint. lia.
  - apply Forall_forall. intros pkt (i & p & fr & m & Hp & Hfr & Hm & Hwf & <- & ->)%Hall.
    destruct (Forall_lookup_1 _ _ _ _ Hsv Hfr) as (H0 & pr & q & Hpr & Hq & Hqok).
    unfold deliverable, target, group_of. simpl mbuf. rewrite Hm. split; [done|]. exists (producer_queue pr), q. by rewrite Hpr.
  - by rewrite Hmb.
  - apply Forall_forall. intros pkt (i & p & fr & m & Hp & Hfr & Hm & Hwf & <- & ->)%Hall. intros h c1 Hsf Hk1.
    destruct (same_frames_lookup _ _ _ _ Hsf Hm Hwf) as (m' & Hm' & Hwf' & Heq).
    assert (Hfe : frame m' = frame m) by (by rewrite Heq).
    assert (Hae : packet_at p m (position V (frame m)) = packet_at p m' (position V (frame m)) :> Packet T M) by (by rewrite Heq).
    unfold group_of. simpl mbuf. rewrite Hm, Hae. by apply (Forall_lookup_1 _ _ _ _ Han Hfr h p m' c1).
  - exists w2, c'. split; [exact He|]. split; [done|]. split; [done|].
    split; [intros id q0 Hq0 Hqok; rewrite <-(destined_frames (heap w1)) by done; by apply Hq|]. split; [|exact Hnet].
    apply Forall2_same_length_lookup_2; [lia|]. intros i p fr Hp Hfr.
    destruct (holds_lookup _ _ _ _ _ _ Hh Hp Hfr) as (m & Hm & Hwf & _ & _).
    destruct (same_frames_lookup _ _ _ _ Hs Hm Hwf) as (m' & Hm' & _ & Heq).
    destruct (Forall_lookup_1 _ _ i (packet_of (heap w1) p fr) Hsd) as (m2 & Hm2 & Hsh & Hso).
    { unfold ps. apply lookup_zip_with_Some. eauto. }
    rewrite packet_of_mbuf, Hm' in Hm2. injection Hm2 as <-. exists m'. split; [done|].
    unfold packet_of in Hsh, Hso. rewrite Hm in Hsh, Hso. rewrite Heq at 2. done.
Qed.

End grouping.

(** *** A task behind a port *)

Section spreading.
Context {P : Profile} {Z_ : Zcsi} {F : Fuel} {Net Rx V C T M : Type} {Q : HasQueues Net} {PT : Packed T} {ET : EndOffset T}.
Context {RxI : PacketRx Net Rx}.
Context {IV : BatchIterator Net V T M} {AV : Act Net V} {LV : BatchLaws Net V T M} {FV : FrameView Net V T M}.
Context {Fn : FnRef C (Packet T M) Z}.
Context (wrap : bool -> Receive.ReceiveBatch Rx -> V).

Context {W : Wraps wrap}.

(** The task between two runs *)
Definition spreading (pb : PacketBatch.PacketBatch) (rx : Rx) (received : Z) (prods : list MpscProducer) (c : C) : GroupByProducer V C :=
  mkProducerTask (wrap false (Receive.mkReceive pb rx received)) prods c.

Lemma spread_frames (answer : list Z -> Z) (keeps : C -> Prop) pb rx rcv c prods (w w1 : World Net) n pkts frs :
  PacketBatch.batch_ok pb -> PacketBatch.array pb = [] -> length pkts = length (PacketBatch.spare pb) ->
  acted (wrap false (Receive.mkReceive pb rx rcv)) w
    (wrap true (Receive.mkReceive (PacketBatch.received_batch pb (Ok n) pkts) rx (rcv + n))) w1 frs ->
  Forall (parses V) frs -> Forall (answers (Net := Net) (V := V) answer keeps) frs -> Forall (served answer w1 prods) frs -> keeps c ->
  exists pb' c' w2,
    execute (spreading pb rx rcv prods c, w) = Ret (tt, (spreading pb' rx (rcv + n) prods c', w2)) /\
    PacketBatch.array pb' = [] /\ PacketBatch.batch_ok pb' /\
    length (PacketBatch.spare pb') = length (PacketBatch.spare pb) /\ keeps c' /\
    same_frames (heap w1) (heap w2) /\
    (forall id q0, queues (net w1) !! id = Some q0 -> queue_ok q0 ->
      exists q, queues (net w2) !! id = Some q /\ received q0 (for_queue answer prods id (take (Z.to_nat n) pkts) frs) q) /\
    Forall2 (fun p fr => parked (heap w2) p (position V fr)) (take (Z.to_nat n) pkts) frs /\
    net w2 = set_queues (queues (net w2)) (net w1).
Proof using FV W.
  destruct W as [Hview Hupdate Hdone]. intros Hok Hnil Hl (Hact & Hokr & Hnd & Hf & Hh) Hps Han Hsv Hc. rewrite Hview in Hokr, Hnd, Hf, Hh.
  destruct (group_frames answer keeps _ _ w w1 prods c frs Hact) as (w2 & c' & He & Hc' & Hs & Hq & Hpk & Hnet); rewrite ?Hview; try done.
  { destruct Hokr as [_ Hcap]. unfold PacketBatch.vec_capacity in Hcap. lia. }
  set (pb1 := PacketBatch.received_batch pb (Ok n) pkts) in *. simpl in Hokr.
  destruct (resized_zero pb1 Hokr) as (Hok1 & Ha1 & Hs1). destruct (resized_zero _ Hok1) as (Hok2 & Ha2 & Hs2).
  exists (PacketBatch.resized (PacketBatch.resized pb1 0) 0), c', w2. split_and!; try done.
  - etransitivity; [exact He|]. rewrite Hview, Hupdate. etransitivity; [apply on_field_Ret, Hdone|].
    { apply (receive_done_ok _ _ _ w2 (heap w2) Hok1). by rewrite Ha1. }
    by destruct w2.
  - rewrite Hs2, Ha1, Hs1. simpl. rewrite length_take, length_drop. lia.
  - intros id q0 Hq0 Hqo. destruct (Hq id q0 Hq0 Hqo) as (q & Hq' & Hr). rewrite Hview in Hr. eauto.
  - by rewrite Hview in Hpk.
Qed.

End spreading.

(** The mbufs of a group, when the frames have changed since *)
Lemma filter_frames (f g : list Z -> Z) i (k : list Z -> list Z) (mbufs : list Z) frs :
  Forall (fun fr => g (k fr) = f fr) frs ->
  (filter (fun x => g x.2 = i) (zip mbufs (k <$> frs))).*1 = (filter (fun x => f x.2 = i) (zip mbufs frs)).*1.
Proof.
  intros Hr. revert mbufs. induction Hr as [|fr frs Hf _ IH]; intros [|p mbufs]; try done.
  rewrite fmap_cons. cbn [zip_with zip]. destruct (decide (f fr = i)) as [Hg|Hg].
  - rewrite !filter_cons_True by (simpl; congruence). by rewrite !fmap_cons, IH.
  - rewrite !filter_cons_False by (simpl; congruence). apply IH.
Qed.

(** *** Exchanged addresses and the Internet header behind them, over a received batch *)

Section exchanged.
Context {P : Profile} {Z_ : Zcsi} {F : Fuel} {Net Rx : Type} {RxI : PacketRx Net Rx}.

Definition exchanged_ip (applied : bool) (r : Receive.ReceiveBatch Rx) :
    Parsed.ParsedBatch Ip.IpHeader (Transform.TransformBatch (Parsed.ParsedBatch Mac.MacHeader (Receive.ReceiveBatch Rx)) Swapping.Unchecked) :=
  Parsed.mkParsedBatch (Transform.mkTransform (Parsed.mkParsedBatch r) Swapping.unchecked applied).

#[global] Instance exchanged_ip_wraps : Wraps (Net := Net) (T := Ip.IpHeader) exchanged_ip.
Proof using.
  split; try done. intros r w r' w' Hd.
  etransitivity; [apply on_field_Ret; simpl; unfold Transform.done_; erewrite sbind_Ret by done; apply on_field_Ret, on_field_Ret; exact Hd|].
  done.
Qed.

End exchanged.

(** ** The consumer of a queue *)

Section consumer.
Context {P : Profile} {F : Fuel} {Net : Type} {Q : HasQueues Net}.

(** Receiving from a queue takes the oldest mbufs. *)
Lemma queue_recv id slots q (w : World Net) :
  queues (net w) !! id = Some q -> queue_ok q -> zlen (Mpsc.contents q) <= zlen slots -> zlen slots < 2 ^ 31 ->
  exists q', recv (mkConsumer id) slots w =
      Ret ((Ok (zlen (Mpsc.contents q)), Mpsc.contents q ++ drop (length (Mpsc.contents q)) slots),
           mkWorld (heap w) (set_queues (<[id := q']> (queues (net w))) (net w))) /\
    queue_ok q' /\ Mpsc.contents q' = [] /\ Mpsc.mask q' = Mpsc.mask q.
Proof.
  intros Hq [HI Hn] Hl Hs. destruct (Mpsc.dequeue_spec q slots HI) as (q' & Hd & HI' & Hm & Hn' & Hc).
  rewrite Z.min_r, Nat2Z.id, firstn_all, drop_all in * by lia. exists q'. split; [|split; [split; [done|lia]|done]].
  unfold recv, MpscConsumer_PacketRx, on_queue. simpl. rewrite Hq. unfold Mpsc.MpscConsumer_recv. rewrite Hd. simpl.
  by rewrite wrap_small by (unfold uint; lia).
Qed.

End consumer.

(** ** The load balancer *)

Module Balancing.
Import Maglev Swapping.

Section maglev.
Context {P : Profile} {BE : BigEndian} {BEL : BigEndianLaws BE} (fnv_hash : list Z -> Z).

#[local] Instance chooser_fn : FnRef Chooser (Packet Mac.MacHeader EmptyMetadata) Z := fun pkt h c =>
  let! '(payload, _) := get_payload pkt h in choose fnv_hash c payload.

(** The backend that the table has for the flow of a frame *)
Definition backend (m : Maglev) (fr : list Z) : Z :=
  match ipv4_flow_hash fnv_hash (drop (Z.to_nat (mac_end 0 fr)) fr) 0 with
  | Ret hash => match lookup m hash with Ret b => b | _ => 0 end
  | _ => 0
  end.

Section ports.
Context {Z_ : Zcsi} {F : Fuel} {Net Rx : Type} {RxI : PacketRx Net Rx} {Q : HasQueues Net}.

Abbreviation received_frames := (Parsed.ParsedBatch Mac.MacHeader (Receive.ReceiveBatch Rx)).
Abbreviation swapped_frames := (Transform.TransformBatch received_frames Checked).

(** [maglev(parent, s, backends)]: the task that it hands to the scheduler, and the merged
    consumers that it returns *)
Definition maglev {Sched : Type} (add_task : GroupByProducer swapped_frames Chooser -> St (Sched * World Net) (result Z))
    (fuel : nat) (h1 h2 : string -> Z) (parent : Receive.ReceiveBatch Rx) (backends : list string) :
    St (Sched * World Net) (Composition.CompositionBatch (Merge.MergeBatch
      (Restore.RestoreHeader Mac.MacHeader EmptyMetadata (Receive.ReceiveBatch MpscConsumer)))) :=
  let ct := zlen backends in
  let* lut := slift (Maglev.new fuel h1 h2 backends 65537) in
  let* consumers := split_by add_task (Build.transform (Build.parse Mac.MacHeader parent) checked) ct (mkChooser lut ∅) in
  sret (Build.compose (Build.merge consumers)).

(** A frame whose flow has this hash *)
Definition flow_frame (fr : list Z) (hash : Z) : Prop :=
  mac_end 0 fr <= zlen fr /\ ipv4_flow_hash fnv_hash (drop (Z.to_nat (mac_end 0 fr)) fr) 0 = Ret hash /\
  20 <= zlen (drop (Z.to_nat (mac_end 0 fr)) fr).

Lemma flow_frame_swapped fr hash : flow_frame fr hash -> flow_frame (swapped 0 fr) hash.
Proof.
  intros (Hl & Hh & H20). pose proof (mac_end_range 0 fr). pose proof (swapped_length 0 fr).
  unfold flow_frame. rewrite Filtering.swapped_mac_end, Filtering.swapped_behind by lia. split; [lia|done].
Qed.

Lemma flow_frame_parses fr hash : flow_frame fr hash -> parses received_frames fr.
Proof using.
  intros (Hl & _ & H20). rewrite length_drop in H20. pose proof (mac_end_range 0 fr).
  split; [done|]. split; [done|]. change (behind (V := Receive.ReceiveBatch Rx) fr) with 0. simpl. unfold Mac.HDR_SIZE. lia.
Qed.

Lemma chooser_answers m fr hash out :
  flow_frame fr hash -> lookup m hash = Ret out ->
  answers (Net := Net) (V := swapped_frames) (backend m) (coherent m) fr.
Proof using.
  intros (Hl & Hh & _) Hm h p mb c Hp Hwf <- Hc. change (position swapped_frames (frame mb)) with 0.
  assert (Hok : pkt_ok h (packet_at p mb 0 : Packet Mac.MacHeader EmptyMetadata) mb).
  { pose proof (mac_end_range 0 (frame mb)). pose proof (length_frame mb Hwf). split; [done|]. split; [done|]. split; [done|]. simpl. lia. }
  assert (Hf : hdr_fits (packet_at p mb 0 : Packet Mac.MacHeader EmptyMetadata) mb).
  { pose proof (mac_end_range 0 (frame mb)). pose proof (length_frame mb Hwf).
    unfold hdr_fits, payload_pos. unfold mac_end in *. unfold hdr_of. simpl in *. lia. }
  unfold call_ref, chooser_fn. rewrite (get_payload_ok _ _ _ Hok Hf). cbn [obind].
  change (payload_of (packet_at p mb 0) mb) with (drop (Z.to_nat (mac_end 0 (frame mb))) (frame mb)).
  destruct (choose_coherent fnv_hash m c _ hash out Hc Hh Hm) as (c' & Hch & Hc').
  exists c'. split; [|done]. rewrite Hch. unfold backend. by rewrite Hh, Hm.
Qed.

Lemma backend_of m fr hash b : flow_frame fr hash -> lookup m hash = Ret b -> backend m (swapped 0 fr) = b.
Proof using. intros Hf Hb. unfold backend. pose proof (flow_frame_swapped _ _ Hf) as (_ & Hh & _). by rewrite Hh, Hb. Qed.

(** The mbufs of the packets whose slot belongs to backend [i] *)
Definition chosen (m : Maglev) (i : Z) (mbufs hashes : list Z) : list Z :=
  (filter (fun x => lut m !! Z.to_nat (x.2 mod 65537) = Some i) (zip mbufs hashes)).*1.

Lemma for_queue_chosen m prods i pr mbufs frs hashes :
  Forall2 flow_frame frs hashes -> length mbufs = length frs ->
  Forall (fun hash => exists b, lookup m hash = Ret b /\ 0 <= b < zlen prods /\ lut m !! Z.to_nat (hash mod 65537) = Some b) hashes ->
  NoDup (producer_queue <$> prods) -> prods !! i = Some pr ->
  for_queue (backend m) prods (producer_queue pr) mbufs (swapped 0 <$> frs) = chosen m (Z.of_nat i) mbufs hashes.
Proof using.
  intros Hf Hl Hb Hnd Hpr. assert (Hr : Forall (fun fr => 0 <= backend m fr < zlen prods) (swapped 0 <$> frs)).
  { clear Hl. induction Hf as [|fr hash frs hashes Hf _ IH]; [constructor|].
    apply Forall_cons in Hb as [(b & Hlk & Hbr & _) Hb]. constructor; [by rewrite (backend_of m fr hash b)|by apply IH]. }
  rewrite (for_queue_group _ prods i pr) by done. clear Hr. revert mbufs Hl Hb.
  induction Hf as [|fr hash frs hashes Hf _ IH]; intros [|p mbufs] Hl Hb; try done.
  apply Forall_cons in Hb as [(b & Hlk & Hbr & Hlut) Hb]. specialize (IH mbufs ltac:(simpl in Hl; lia) Hb).
  pose proof (backend_of m fr hash b Hf Hlk) as Hback. unfold chosen in *. rewrite fmap_cons. cbn [zip_with].
  destruct (decide (b = Z.of_nat i)) as [->|Hne].
  - rewrite !filter_cons_True by (simpl; congruence). by rewrite !fmap_cons, IH.
  - rewrite !filter_cons_False by (simpl; congruence). done.
Qed.

Definition exchanging (applied : bool) (r : Receive.ReceiveBatch Rx) : swapped_frames :=
  Transform.mkTransform (Parsed.mkParsedBatch r) checked applied.

#[local] Instance exchanging_wraps : Wraps (Net := Net) (T := Mac.MacHeader) exchanging.
Proof.
  split; try done. intros r w r' w' Hd. etransitivity; [unfold done, Transform.TransformBatch_Act, Transform.done_|].
  { erewrite sbind_Ret by done. apply on_field_Ret, on_field_Ret. exact Hd. }
  done.
Qed.

(** The task between two runs *)
Definition balancing (pb : PacketBatch.PacketBatch) (rx : Rx) (received : Z) (prods : list MpscProducer) (c : Chooser) :
    GroupByProducer swapped_frames Chooser := spreading exchanging pb rx received prods c.

(** With a table, [maglev] sets the queues up and hands the task to a scheduler that takes it. *)
Lemma maglev_built {Sched} add_task put id (sch : Sched) fuel h1 h2 backends m pb rx (w : World Net) :
  Maglev.new fuel h1 h2 backends 65537 = Ret m -> hands_over add_task put id sch ->
  exists prods groups w', maglev add_task fuel h1 h2 (Receive.mkReceive pb rx 0) backends (sch, w) =
      Ret (Build.compose (Build.merge groups), (put (balancing pb rx 0 prods (mkChooser m ∅)) sch, w')) /\
    zlen prods = zlen backends /\ Forall2 reads groups prods /\ heap w' = heap w /\ new_queues w w' prods.
Proof using.
  intros Hnew Ha. destruct (split_by_built (T := Mac.MacHeader) (M := EmptyMetadata) add_task put id
    (exchanging false (Receive.mkReceive pb rx 0)) (zlen backends) (mkChooser m ∅) sch w ltac:(lia) Ha)
    as (ps & gs & w' & Hs & Hrest).
  exists ps, gs, w'. split; [|exact Hrest]. unfold maglev. erewrite sbind_Ret by (by apply slift_Ret).
  by erewrite sbind_Ret by exact Hs.
Qed.

(** C16: the load balancer spreads flows. With a table of 65537 slots built for at least one
    backend, [maglev] hands the scheduler a task with a new queue per backend and returns the
    merged other ends of the queues; one run of the task hands every received packet,
    with its Ethernet addresses exchanged, to the queue of the backend that owns the slot of
    the packet's flow hash, in the order of arrival; the cache of earlier answers changes
    nothing, so that all packets of a flow reach the same backend for ever. *)
Theorem maglev_spreads fuel h1 h2 backends m pb rx rcv c prods (w w1 : World Net) n pkts frs hashes :
  let mbufs := take (Z.to_nat n) pkts in
  0 < zlen backends <= EMPTY -> (forall s, 0 <= h1 s) -> (Z.to_nat 65537 <= fuel)%nat ->
  Maglev.new fuel h1 h2 backends 65537 = Ret m ->
  PacketBatch.batch_ok pb -> PacketBatch.array pb = [] -> (length pkts <= loop_fuel)%nat ->
  recv rx (PacketBatch.spare pb) w = Ret ((Ok n, pkts), w1) ->
  length pkts = length (PacketBatch.spare pb) -> 0 <= n <= zlen pkts -> uint 64 rcv -> rcv + n < 2 ^ 64 ->
  NoDup mbufs -> holds (heap w1) mbufs frs -> Forall2 flow_frame frs hashes -> Forall (Z.le 0) hashes ->
  coherent m c -> zlen prods = zlen backends -> NoDup (producer_queue <$> prods) ->
  (forall pr, pr ∈ prods -> exists q, queues (net w1) !! producer_queue pr = Some q /\ queue_ok q) ->
  (forall (Sched : Type) add_task put id (sch : Sched) pb0 (w0 : World Net), hands_over add_task put id sch ->
    exists ps groups w', maglev add_task fuel h1 h2 (Receive.mkReceive pb0 rx 0) backends (sch, w0) =
        Ret (Build.compose (Build.merge groups), (put (balancing pb0 rx 0 ps (mkChooser m ∅)) sch, w')) /\
      zlen ps = zlen backends /\ Forall2 reads groups ps /\ heap w' = heap w0 /\ new_queues w0 w' ps) /\
  exists pb' c' w2,
    execute (balancing pb rx rcv prods c, w) = Ret (tt, (balancing pb' rx (rcv + n) prods c', w2)) /\
    PacketBatch.array pb' = [] /\ PacketBatch.batch_ok pb' /\
    length (PacketBatch.spare pb') = length (PacketBatch.spare pb) /\ coherent m c' /\
    same_frames (reframed mbufs (swapped 0 <$> frs) (heap w1)) (heap w2) /\
    forall i pr q0, prods !! i = Some pr -> queues (net w1) !! producer_queue pr = Some q0 -> queue_ok q0 ->
      exists q, queues (net w2) !! producer_queue pr = Some q /\ received q0 (chosen m (Z.of_nat i) mbufs hashes) q.
Proof using.
  intros mbufs Hbk Hh1 Hfu Hnew Hok Hnil Hfl Hrecv Hl Hn Hr0 Hr1 Hnd Hh Hf Hpos Hc Hlp Hndp Hqs.
  split; [intros; by eapply maglev_built|].
  destruct (new_balanced h1 h2 fuel backends 65537 prime_65537 ltac:(lia) Hbk Hh1 Hfu) as (m' & Hm' & _ & _ & _ & Hlook).
  rewrite Hnew in Hm'. injection Hm' as <-.
  assert (Hps : Forall (parses received_frames) frs /\ Forall (parses received_frames) (swapped 0 <$> frs)).
  { clear -Hf. induction Hf as [|fr f frs hashes Hf _ [IH1 IH2]]; [split; constructor|].
    split; constructor; try done; [by eapply flow_frame_parses|]. eapply flow_frame_parses. by apply flow_frame_swapped. }
  pose proof (receive_acted pb rx rcv w w1 n pkts frs Hok Hnil Hfl Hrecv Hl Hn Hr0 Hr1 Hnd Hh) as Hacted.
  apply (exchange_acted receive_front checked) in Hacted; [|exact (proj1 Hps)].
  assert (Hlk : Forall (fun hash => exists b, lookup m hash = Ret b /\ 0 <= b < zlen prods /\
    lut m !! Z.to_nat (hash mod 65537) = Some b) hashes).
  { rewrite Hlp. eapply Forall_impl; [exact Hpos|]. simpl. exact Hlook. }
  destruct (spread_frames exchanging (backend m) (coherent m) pb rx rcv c prods w _ n pkts _ Hok Hnil Hl Hacted)
    as (pb' & c' & w2 & He & Ha & Hob & Hsp & Hc' & Hs & Hq & _).
  - exact (proj2 Hps).
  - clear -Hf Hlk. induction Hf as [|fr hash frs hashes Hf _ IH]; [constructor|].
    apply Forall_cons in Hlk as [(b & Hb & _) Hlk]. constructor; [|by apply IH].
    eapply chooser_answers; [by apply flow_frame_swapped|done].
  - clear -Hf Hlk Hqs. induction Hf as [|fr hash frs hashes Hf _ IH]; [constructor|].
    apply Forall_cons in Hlk as [(b & Hb & Hr & _) Hlk]. constructor; [|by apply IH].
    unfold served. rewrite (backend_of _ _ _ _ Hf Hb). split; [lia|].
    destruct (lookup_lt_is_Some_2 prods (Z.to_nat b)) as [pr Hpr]; [lia|].
    destruct (Hqs pr) as (q & Hq & Hqo); [by eapply list_elem_of_lookup_2|]. by exists pr, q.
  - exact Hc.
  - exists pb', c', w2. split_and!; try done. intros i pr q0 Hpr Hq0 Hqo. pose proof (Forall2_length _ _ _ Hh).
    rewrite <-(for_queue_chosen m prods i pr mbufs frs hashes) by (done || lia). by apply Hq.
Qed.

End ports.
End maglev.
End Balancing.

(** ** Two packets and three backends *)

Module BalancingSample.
Import Sample NatSample NattingSample GroupSample MaglevSample Maglev Balancing Swapping.

#[local] Existing Instance release.
#[local] Existing Instance zcsi.
#[local] Existing Instance byteorder.
#[local] Existing Instance byteorder_laws.
#[local] Instance fuel : Fuel := 8%nat.

(** The wire that packets arrive on, and the queues *)
Definition site : Type := wire * gmap Z Mpsc.MpscQueue.

#[local] Instance site_queues : HasQueues site.
Proof. refine {| queues := snd; set_queues := fun q s => (s.1, q) |}. split; [done|by intros []|done]. Defined.

#[local] Instance site_rx : PacketRx site unit := fun u slots w =>
  let! '(r, w') := Sample.rx u slots (mkWorld (heap w) (net w).1) in Ret (r, mkWorld (heap w') (net w', (net w).2)).

#[local] Instance site_tx : PacketTx site unit := fun u l w =>
  let! '(r, w') := Sample.tx u l (mkWorld (heap w) (net w).1) in Ret (r, mkWorld (heap w') (net w', (net w).2)).

Definition queue32 : Mpsc.MpscQueue :=
  Mpsc.mkMpscQueue 32 31 (Mpsc.mkQueueMetadata 0 0) (Mpsc.mkQueueMetadata 0 0) (replicate 32 0) 1.

Lemma queue32_ok : queue_ok queue32.
Proof.
  split; [|done]. split; [|done].
  refine (conj (ex_intro _ 5 _) (conj _ (conj _ (conj _ (conj _ _))))); vm_compute; done.
Qed.

Definition batch32 : PacketBatch.PacketBatch := PacketBatch.mkBatch [] (replicate 32 0) [] [].
Definition sum (l : list Z) : Z := foldr Z.add 0 l.
#[local] Instance sum_chooser : FnRef Chooser (Packet Mac.MacHeader EmptyMetadata) Z := chooser_fn sum.

Definition prods3 : list MpscProducer := [mkProducer 10; mkProducer 11; mkProducer 12].
Definition queues3 : gmap Z Mpsc.MpscQueue := <[10 := small_queue]> (<[11 := small_queue]> (<[12 := small_queue]> ∅)).
Definition hashes2 : list Z := (fun f => sum (flow_as_u8 f)) <$> [client; reply].

Lemma maglev_spreads_witness :
  exists m pb' c' w2, Maglev.new (Z.to_nat 65537) h1 h2 backends 65537 = Ret m /\
    execute (balancing empty4 tt 0 prods3 (mkChooser m ∅), mkWorld heap2 (mkWire [1; 2] [], queues3)) =
      Ret (tt, (balancing pb' tt 2 prods3 c', w2)) /\
    PacketBatch.array pb' = [] /\
    same_frames (reframed [1; 2] (swapped 0 <$> frames2) heap2) (heap w2) /\
    forall i pr q0, prods3 !! i = Some pr -> queues3 !! producer_queue pr = Some q0 -> queue_ok q0 ->
      exists q, queues (net w2) !! producer_queue pr = Some q /\ received q0 (chosen m (Z.of_nat i) [1; 2] hashes2) q.
Proof.
  destruct (new_balanced h1 h2 (Z.to_nat 65537) backends 65537 prime_65537) as (m & Hm & _);
    [lia|split; vm_compute; done|intros s; unfold h1; lia|reflexivity|].
  destruct (maglev_spreads (Net := site) (RxI := site_rx) sum (Z.to_nat 65537) h1 h2 backends m empty4 tt 0 (mkChooser m ∅) prods3
    (mkWorld heap2 (mkWire [1; 2] [], queues3)) (mkWorld heap2 (mkWire [] [], queues3)) 2 [1; 2; 0; 0] frames2 hashes2)
    as (_ & pb' & c' & w2 & He & Ha & _ & _ & _ & Hs & Hq).
  - split; vm_compute; done.
  - intros s. unfold h1. lia.
  - reflexivity.
  - exact Hm.
  - by split; vm_compute.
  - done.
  - vm_compute. lia.
  - reflexivity.
  - done.
  - simpl. lia.
  - unfold uint. lia.
  - lia.
  - by apply (bool_decide_unpack _).
  - repeat apply Forall2_cons_2; [..|constructor]; eexists;
      (split; [reflexivity|split; [by apply (bool_decide_unpack _)|split; reflexivity]]).
  - repeat apply Forall2_cons_2; [..|constructor]; (split; [vm_compute; discriminate|split; [by vm_compute|vm_compute; discriminate]]).
  - repeat constructor; vm_compute; discriminate.
  - split; [done|]. intros hash out Hout. cbn [cache] in Hout. by rewrite lookup_empty in Hout.
  - done.
  - by apply (bool_decide_unpack _).
  - intros pr Hpr. exists small_queue. split; [|exact small_queue_ok].
    apply elem_of_cons in Hpr as [->|Hpr]; [done|]. apply elem_of_cons in Hpr as [->|Hpr]; [done|].
    apply list_elem_of_singleton in Hpr as ->. done.
  - exists m, pb', c', w2. split; [exact Hm|]. split; [exact He|]. split; [exact Ha|]. split; [exact Hs|exact Hq].
Defined.

End BalancingSample.
