(* ===== verification/Payloads.v ===== *)
(** * Payload reconstruction, from port to port ([test/tcp_payload/src/nf.rs])

    [reconstruction] exchanges the Ethernet addresses and splits the packets into TCP and
    others. The TCP packets come out of their queue, get their flow as metadata, are parsed
    and go through the closure of [Reconstruction]; then both groups are merged. The task that
    splits and the merged pipeline meet only in the queues and the metadata of the mbufs. *)

From S2P Require Import Prelude Flows Headers IpHeader TcpHeader ReorderedBuffer Packet Mpsc Batch Operators Pipelines Groups.
From S2P Require Import Forwarding Reconstruction NatNf Functions NfPipelines Stages NfGroups.
Import Mbuf Pkt Group.

(** ** Boxes

    A vector of boxed batches holds batches of different types; a method runs on whichever
    type is in the box. *)

Section boxes.
Context {P : Profile} {Z_ : Zcsi} {Net A B T M : Type} {IA : BatchIterator Net A T M} {IB : BatchIterator Net B T M}.
Context {AA : Act Net A} {AB : Act Net B}.

Definition boxed {X} (ma : St (A * World Net) X) (mb : St (B * World Net) X) : St ((A + B) * World Net) X := fun s =>
  match s.1 with
  | inl a => let! '(x, (a, w)) := ma (a, s.2) in Ret (x, (inl a, w))
  | inr b => let! '(x, (b, w)) := mb (b, s.2) in Ret (x, (inr b, w))
  end.

#[global] Instance Boxed_BatchIterator : BatchIterator Net (A + B) T M := {|
  start := boxed start start;
  next_payload idx := boxed (next_payload idx) (next_payload idx)
|}.

#[global] Instance Boxed_Act : Act Net (A + B) := {|
  act := boxed act act;
  done := boxed done done;
  send_q port := boxed (send_q port) (send_q port);
  capacity b := match b with inl a => capacity a | inr b => capacity b end;
  drop_packets idxes := boxed (drop_packets idxes) (drop_packets idxes);
  clear_packets := boxed clear_packets clear_packets;
  get_packet_batch X m := boxed (get_packet_batch m) (get_packet_batch m);
  get_task_dependencies b := match b with inl a => get_task_dependencies a | inr b => get_task_dependencies b end
|}.

Context {LA : BatchLaws Net A T M} {LB : BatchLaws Net B T M}.

Definition boxed_view (b : A + B) : PacketBatch.PacketBatch := match b with inl a => view a | inr b => view b end.
Definition boxed_update (pb : PacketBatch.PacketBatch) (b : A + B) : A + B :=
  match b with inl a => inl (update pb a) | inr b => inr (update pb b) end.

#[global] Instance boxed_lens : Lens boxed_view boxed_update.
Proof using.
  split; intros; repeat match goal with b : (A + B)%type |- _ => destruct b end; simpl; f_equal;
    first [apply (set_get (get := view) (set := update)) | apply (get_set (get := view) (set := update)) |
           apply (set_set (get := view) (set := update))].
Qed.

Lemma boxed_field {X} (m : St (PacketBatch.PacketBatch * World Net) X) ma mb s :
  (forall t, ma t = on_field view update m t) -> (forall t, mb t = on_field view update m t) ->
  boxed ma mb s = on_field boxed_view boxed_update m s.
Proof using.
  intros Ha Hb. destruct s as [[a|b] w]; unfold boxed; simpl; rewrite ?Ha, ?Hb; unfold on_field, zoom; simpl;
    by destruct (m _) as [[x [v' w']]| | |].
Qed.

#[global] Instance Boxed_laws : BatchLaws Net (A + B) T M.
Proof using LA LB.
  refine {| view := boxed_view; update := boxed_update |}.
  - intros X m s. by apply boxed_field; intros; apply borrows.
  - intros idxes s. by apply boxed_field; intros; apply drops.
  - intros port s. by apply boxed_field; intros; apply sends.
  - intros s. by apply boxed_field; intros; apply clears.
  - intros [[a|b] w]; simpl; unfold boxed; simpl; by rewrite start_zero.
  - intros idx [a|b] w Hi; simpl in *; unfold boxed; simpl; by rewrite next_past.
  - intros idx [a|b] w o s Hi; simpl in *; unfold boxed; simpl; intros ([o' [b' w']] & Hn & [= <- <-])%obind_Ret_inv;
      destruct (next_within _ _ _ _ _ Hi Hn) as ([= -> ->] & Hp); by split.
Defined.

End boxes.

(** ** A port behind a merge

    One execution serves the batch whose turn it is, offers the port what that batch holds
    and moves on to the next. *)

Section merging.
Context {P : Profile} {Z_ : Zcsi} {F : Fuel} {Net V T M Tx : Type} {IV : BatchIterator Net V T M} {AV : Act Net V}.
Context {LV : BatchLaws Net V T M} {TxI : PacketTx Net Tx}.

Definition merged (tx : Tx) (ps : list V) (i : Z) (snt : Z) : Send.SendBatch Tx (Composition.CompositionBatch (Merge.MergeBatch V)) :=
  Send.mkSend tx (Composition.mkComposition (ResetParsing.mkReset (Merge.mkMerge ps i))) snt.

Lemma vindex_nat {X} (l : list X) i x : l !! i = Some x -> vindex l (Z.of_nat i) = Ret x.
Proof using. intros Hi. apply vindex_Ret. split; [lia|]. by rewrite Nat2Z.id. Qed.

Lemma merged_field {X} (m : St (V * World Net) X) (ps : list V) i p (w : World Net) x p' w' :
  ps !! i = Some p -> m (p, w) = Ret (x, (p', w')) ->
  on_field Composition.parent Composition.set_parent (on_field ResetParsing.parent ResetParsing.set_parent (Merge.on_which m))
    (Composition.mkComposition (ResetParsing.mkReset (Merge.mkMerge ps (Z.of_nat i))), w) =
  Ret (x, (Composition.mkComposition (ResetParsing.mkReset (Merge.mkMerge (<[i := p']> ps) (Z.of_nat i))), w')).
Proof using.
  intros Hp Hm.
  assert (Hw : Merge.on_which m (Merge.mkMerge ps (Z.of_nat i), w) = Ret (x, (Merge.mkMerge (<[i := p']> ps) (Z.of_nat i), w'))).
  { unfold Merge.on_which. cbn [fst snd Merge.parents Merge.which]. rewrite (vindex_nat _ _ _ Hp). cbn [obind]. rewrite Hm.
    cbn [obind]. by rewrite Nat2Z.id. }
  etransitivity; [apply on_field_Ret, on_field_Ret; exact Hw|done].
Qed.

Lemma merged_executes tx (ps : list V) i p p1 p2 snt (w w1 w2 w3 : World Net) n :
  ps !! i = Some p -> zlen ps < 2 ^ 64 -> act (p, w) = Ret (tt, (p1, w1)) -> PacketBatch.batch_ok (view p1) ->
  sent_by tx (PacketBatch.array (view p1)) w1 n w2 -> uint 64 snt -> uint 64 n -> snt + n < 2 ^ 64 ->
  (forall gap, zlen gap = n ->
     done (update (PacketBatch.mkBatch (drop (Z.to_nat n) (PacketBatch.array (view p1)))
             (gap ++ PacketBatch.spare (view p1)) (PacketBatch.scratch (view p1))
             (PacketBatch.parent_tasks (view p1))) p1, w2) = Ret (tt, (p2 gap, w3))) ->
  exists gap, zlen gap = n /\
    execute (merged tx ps (Z.of_nat i) snt, w) =
      Ret (tt, (merged tx (<[i := p2 gap]> ps) ((Z.of_nat i + 1) mod zlen ps) (snt + n), w3)).
Proof using LV.
  intros Hp Hl Hact Hok Hs [? ?] [? ?] Hc Hd. destruct (send_q_sent _ _ _ _ _ Hok Hs) as (gap & Hg & Hq).
  pose proof (lookup_lt_Some _ _ _ Hp) as Hlt. exists gap. split; [done|]. etransitivity; [apply send_executes|].
  simpl. unfold Send.act_. erewrite sbind_Ret by (apply on_field_Ret; simpl; exact (merged_field act ps i p w _ _ _ Hp Hact)).
  erewrite sbind_Ret by done. cbn [fst]. erewrite sbind_Ret.
  2: { apply on_field_Ret. simpl. eapply merged_field; [by apply list_lookup_insert_eq|].
       etransitivity; [apply borrows|]. apply on_field_Ret. exact Hq. }
  cbn beta iota. erewrite sbind_Ret by done. cbn [fst Send.sent Send.set_parent merged]. rewrite uadd_ok by lia.
  erewrite sbind_Ret by done. erewrite sbind_Ret by done. rewrite list_insert_insert_eq.
  etransitivity; [apply on_field_Ret; simpl; apply on_field_Ret, on_field_Ret|].
  - unfold Merge.done_. erewrite sbind_Ret.
    2: { unfold Merge.on_which. simpl. erewrite (vindex_nat _ i) by (by apply list_lookup_insert_eq).
         cbn [obind]. rewrite (Hd gap Hg). cbn [obind]. rewrite Nat2Z.id, list_insert_insert_eq. reflexivity. }
    erewrite sbind_Ret by done. cbn [fst Merge.which Merge.parents]. rewrite uadd_ok, length_insert by lia. erewrite sbind_Ret by done.
    instantiate (2 := Merge.mkMerge (<[i := p2 gap]> ps) ((Z.of_nat i + 1) mod zlen ps)). instantiate (1 := w3).
    destruct (Z.eqb_spec (Z.of_nat i + 1) (zlen ps)) as [He|]; [by rewrite He, Z.mod_same by lia|by rewrite Z.mod_small by lia].
  - done.
Qed.

End merging.

Module Payloads.
Import Reconstruct Swapping.

(** ** Flows as metadata: the packed struct of thirteen bytes *)

#[global] Instance Flow_Packed : Packed Flow := {|
  size_of := 13;
  encode f := enc_fields [(4, flow_src_ip f); (4, flow_dst_ip f); (2, flow_src_port f); (2, flow_dst_port f); (1, flow_proto f)]%nat;
  decode l :=
    match dec_fields [4; 4; 2; 2; 1]%nat l with
    | [a; b; c; d; e] => mkFlow a b c d e
    | _ => Flow_default
    end;
  wf := flow_ok
|}.

#[global] Instance Flow_PackedLaws : PackedLaws Flow Flow_Packed.
Proof.
  constructor.
  - intros. apply length_enc_fields.
  - intros. apply enc_fields_ok.
  - intros [a b c d e] rest (?&?&?&?&?). unfold decode, encode, Flow_Packed.
    rewrite (dec_enc_fields [(4, a); (4, b); (2, c); (2, d); (1, e)]%nat); [done|].
    repeat (constructor; [assumption|]). constructor.
  - intros l Hl Hs. pose proof (dec_fields_uint [4; 4; 2; 2; 1]%nat l Hl Hs) as Hu.
    repeat match goal with H : Forall2 _ (_ :: _) _ |- _ => inversion H; clear H; subst end.
    unfold wf, decode, Flow_Packed. simpl in *. done.
  - intros l Hl Hs. exact (enc_dec_fields [4; 4; 2; 2; 1]%nat l Hl Hs).
Qed.

(** ** The function *)

Inductive ByProtocol : Type := by_protocol.
Inductive FlowOf : Type := flow_of.

Abbreviation group := (Restore.RestoreHeader Ip.IpHeader EmptyMetadata (Receive.ReceiveBatch MpscConsumer)).
Abbreviation segments := (Transform.TransformBatch (Parsed.ParsedBatch Tcp.TcpHeader (AddMetadata.AddMetadataBatch group FlowOf)) Recon).
Abbreviation streams := (Composition.CompositionBatch segments + Composition.CompositionBatch group)%type.

Section closures.
Context {P : Profile} {BE : BigEndian} (fuel : nat).

Definition protocol_fn : FnRef ByProtocol (Packet Ip.IpHeader EmptyMetadata) Z := fun p h c =>
  let! '(hdr, _) := get_header p h in
  Ret (if Ip.protocol hdr =? 6 then 0 else 1, c).

Definition flow_fn : FnRef FlowOf (Packet Ip.IpHeader EmptyMetadata) Flow := fun p h c =>
  let! '(hdr, _) := get_header p h in
  let! mem := Filtering.memory_at p h in
  let! o := Ip.flow hdr mem in
  let! flow := unwrap o in
  Ret (flow, c).

Definition segment_fn : FnMut Recon (Packet Tcp.TcpHeader Flow) (Packet Tcp.TcpHeader Flow) := fun p '(s, h) =>
  let! '(flow, h) := read_metadata p h in
  let! '(hdr, h) := get_header p h in
  let! '(payload, h) := get_payload p h in
  let! s := on_segment fuel flow hdr payload s in
  Ret (p, (s, h)).

Context {Z_ : Zcsi} {F : Fuel} {Net Rx : Type} {RxI : PacketRx Net Rx} {Q : HasQueues Net}.
#[local] Existing Instance protocol_fn.
#[local] Existing Instance flow_fn.
#[local] Existing Instance segment_fn.

Abbreviation swapped_frames := (Transform.TransformBatch (Parsed.ParsedBatch Mac.MacHeader (Receive.ReceiveBatch Rx)) Unchecked).
Abbreviation split_frames := (Parsed.ParsedBatch Ip.IpHeader swapped_frames).

(** What becomes of the TCP group *)
Definition rebuild (g : group) (s : Recon) : Composition.CompositionBatch segments :=
  Build.compose (Build.transform (Build.parse Tcp.TcpHeader (Build.metadata g flow_of)) s).

(** [reconstruction(parent, sched)]: the task that it hands to the scheduler, and the merged
    consumers that it returns *)
Definition reconstruction {Sched : Type} (add_task : GroupByProducer split_frames ByProtocol -> St (Sched * World Net) (result Z))
    (parent : Receive.ReceiveBatch Rx) : St (Sched * World Net) (Composition.CompositionBatch (Merge.MergeBatch streams)) :=
  let* groups := split_by add_task
    (Build.parse Ip.IpHeader (Build.transform (Build.parse Mac.MacHeader parent) unchecked)) 2 by_protocol in
  match groups with
  | [g0; g1] =>
      let pipe := rebuild g0 (mkRecon ∅ ∅ []) in
      sret (Build.compose (Build.merge [inl pipe; inr (Build.compose g1)]))
  | _ => slift Panic
  end.

End closures.

(** ** Segments in frames *)

Section frames.
Context {P : Profile} {BE : BigEndian} {BEL : BigEndianLaws BE}.

(** The packet behind the Ethernet header *)
Definition ip_packet (fr : list Z) : list Z := drop (Z.to_nat (mac_end 0 fr)) fr.

Definition ip_of (b : list Z) : Ip.IpHeader := decode (take 20 b).
Definition tcp_of (b : list Z) : Tcp.TcpHeader := decode (take 20 (drop (Z.to_nat (Ip.IpHeader_offset (ip_of b))) b)).
Definition data_pos (b : list Z) : Z := Ip.IpHeader_offset (ip_of b) + Tcp.TcpHeader_offset (tcp_of b).

(** The flow, the header and the payload of a TCP packet with both headers and more inside *)
Definition read_segment (b : list Z) : option (Flow * Tcp.TcpHeader * list Z) :=
  if (Ip.protocol (ip_of b) =? 6) && (Ip.IpHeader_offset (ip_of b) + 20 <? zlen b) && (data_pos b <=? zlen b) then
    match Ip.flow (ip_of b) b with
    | Ret (Some f) => Some (f, tcp_of b, drop (Z.to_nat (data_pos b)) b)
    | _ => None
    end
  else None.

Lemma read_segment_inv b sg :
  read_segment b = Some sg ->
  Ip.protocol (ip_of b) = 6 /\ Ip.IpHeader_offset (ip_of b) + 20 < zlen b /\ data_pos b <= zlen b /\
  Ip.flow (ip_of b) b = Ret (Some sg.1.1) /\ sg = (sg.1.1, tcp_of b, drop (Z.to_nat (data_pos b)) b).
Proof using.
  unfold read_segment. destruct (Z.eqb_spec (Ip.protocol (ip_of b)) 6), (Z.ltb_spec (Ip.IpHeader_offset (ip_of b) + 20) (zlen b)),
    (Z.leb_spec (data_pos b) (zlen b)); try done. simpl.
  destruct (Ip.flow (ip_of b) b) as [[f|]| | |]; try done. by intros [= <-].
Qed.

Lemma ip_field_of f b :
  f <> Ip.Csum -> f <> Ip.FragmentOffset -> 20 <= zlen b -> bytes_ok b -> Ip.ip_get f (ip_of b) = Ip.view (take 20 b) f.
Proof using. intros Hc Hf Hl Hb. exact (ip_field_at f b 0 Hc Hf ltac:(lia) ltac:(lia) Hb). Qed.

Lemma ip_offset_range b : 20 <= zlen b -> bytes_ok b -> 0 <= Ip.IpHeader_offset (ip_of b).
Proof using.
  intros Hl Hb. unfold Ip.IpHeader_offset. destruct performance; [done|].
  change (Ip.ihl (ip_of b)) with (Ip.ip_get Ip.Ihl (ip_of b)). rewrite ip_field_of by done.
  pose proof (getf_uint (nth 0 (take 20 b) 0) 0 4 ltac:(lia)) as [? _]. simpl Ip.view. lia.
Qed.

Lemma tcp_offset_range h : 0 <= Tcp.TcpHeader_offset h.
Proof using. unfold Tcp.TcpHeader_offset, wrap. apply Z.mod_pos_bound. lia. Qed.

(** The fields of the flow of a packet fit the struct. *)
Lemma flow_range b f : 20 <= zlen b -> bytes_ok b -> Ip.flow (ip_of b) b = Ret (Some f) -> flow_ok f.
Proof using BEL.
  intros Hl Hb. assert (Hn : forall i, uint 8 (nth i (take 20 b) 0)).
  { intros i. rewrite nth_lookup. destruct (take 20 b !! i) as [x|] eqn:Hx; [|done].
    exact (Forall_lookup_1 _ _ _ _ (bytes_ok_take _ _ Hb) Hx). }
  assert (Hbe : forall l, Forall (uint 8) l -> uint (8 * zlen l) (be_val l)).
  { intros l Hu. unfold be_val. pose proof (le_val_uint (rev l)) as H. rewrite length_rev in H. apply H, Forall_rev, Hu. }
  unfold Ip.flow. destruct (_ || _); [|done]. intros (ps & _ & H)%obind_Ret_inv. destruct (4 <=? ps); [|done].
  apply obind_Ret_inv in H as (sl & Hsl & H). apply vslice_Ret_inv in Hsl as [Hr ->]. set (sl := take _ _) in H.
  assert (Hs : bytes_ok sl) by (by apply bytes_ok_take, bytes_ok_drop). assert (Hl4 : zlen sl = 4) by (unfold sl; rewrite length_take, length_drop; lia).
  apply obind_Ret_inv in H as (dp & Hdp & H). apply obind_Ret_inv in H as (sp & Hsp & [= <-]).
  destruct (read_slice_u16_ok sl 0) as (x & Hx & Hxu); [done|lia..|]. destruct (read_slice_u16_ok sl 2) as (y & Hy & Hyu); [done|lia..|].
  change (0 + 2) with 2 in Hx. change (2 + 2) with 4 in Hy.
  rewrite Hdp in Hx. rewrite Hsp in Hy. injection Hx as <-. injection Hy as <-.
  change (Ip.src (ip_of b)) with (Ip.ip_get Ip.Src (ip_of b)). change (Ip.dst (ip_of b)) with (Ip.ip_get Ip.Dst (ip_of b)).
  change (Ip.protocol (ip_of b)) with (Ip.ip_get Ip.Protocol (ip_of b)). rewrite !ip_field_of by done.
  refine (conj (Hbe [_; _; _; _] _) (conj (Hbe [_; _; _; _] _) (conj Hyu (conj Hxu (Hn 9%nat))))); repeat apply Forall_cons_2; (apply Forall_nil_2 || apply Hn).
Qed.

End frames.

(** ** The TCP group *)

Section consuming.
Context {P : Profile} {BE : BigEndian} {BEL : BigEndianLaws BE} (fuel : nat).
Context {Z_ : Zcsi} {F : Fuel} {Net : Type} {Q : HasQueues Net}.
#[local] Existing Instance flow_fn.
#[local] Instance on_segment_fn : FnMut Recon (Packet Tcp.TcpHeader Flow) (Packet Tcp.TcpHeader Flow) := segment_fn fuel.

(** The pipeline of the group between two executions, and between [act] and [done] *)
Definition tcp_pipe (acting : bool) (r : Receive.ReceiveBatch MpscConsumer) (s : Recon) : segments :=
  Transform.mkTransform (Parsed.mkParsedBatch (AddMetadata.mkAddMetadata (Restore.mkRestore r) flow_of acting)) s acting.

Lemma next_restored (r : Receive.ReceiveBatch MpscConsumer) (w : World Net) i p m pos :
  PacketBatch.array (Receive.parent r) !! i = Some p -> heap w !! p = Some m -> mbuf_wf m -> parked (heap w) p pos -> 0 <= pos ->
  next_payload (Z.of_nat i) (Restore.mkRestore r : group, w) = Ret (Some (packet_at p m pos), (Restore.mkRestore r, w)).
Proof using.
  intros Hi Hp Hwf (m' & Hm' & Hsh & Hso) Hpos. rewrite Hp in Hm'. injection Hm' as <-. pose proof Hwf as (?&?&?&?&?&?&?&_).
  destruct r as [pb q n]. simpl. erewrite sbind_Ret by (apply on_field_Ret; simpl; apply on_field_Ret; by eapply next_received).
  cbn beta iota. assert (Hs : restore_saved_header Ip.IpHeader EmptyMetadata (null_packet p m) (heap w) = Ret (Some (packet_at p m pos), heap w)).
  { apply saved_restores; [exists m; by split|done|]. simpl. unfold data_address. lia. }
  erewrite sbind_Ret by (unfold on_heap; apply zoom_Ret; exact Hs). erewrite sbind_Ret by done. simpl. by destruct w.
Qed.

(** A mbuf with a TCP segment *)
Record carries_segment (h : Heap) (p : Z) (m : MBuf) (sg : Flow * Tcp.TcpHeader * list Z) : Prop := {
  cs_mbuf : h !! p = Some m;
  cs_wf : mbuf_wf m;
  cs_room : roomy (frame m);
  cs_segment : read_segment (ip_packet (frame m)) = Some sg
}.

Section segment.
Context (h : Heap) (p : Z) (m : MBuf) (sg : Flow * Tcp.TcpHeader * list Z) (C : carries_segment h p m sg).

#[local] Abbreviation pos := (mac_end 0 (frame m)).
#[local] Abbreviation b := (ip_packet (frame m)).
#[local] Abbreviation ipo := (Ip.IpHeader_offset (ip_of b)).

Lemma segment_bounds :
  14 <= pos /\ zlen b = data_len_ m - pos /\ 20 < zlen b /\ bytes_ok b /\ 0 <= ipo /\ ipo + 20 < zlen b /\ data_pos b <= zlen b.
Proof using C.
  destruct C as [Hp Hwf Hr Hs]. pose proof (mac_end_range 0 (frame m)). pose proof (length_frame m Hwf). unfold roomy in Hr.
  assert (Hl : zlen b = data_len_ m - pos) by (unfold ip_packet; rewrite length_drop; lia).
  assert (Hb : bytes_ok b) by (by apply bytes_ok_drop, frame_bytes_ok).
  destruct (read_segment_inv _ _ Hs) as (_ & ? & ? & _). assert (0 <= ipo) by (apply ip_offset_range; [lia|done]).
  split_and!; (done || lia).
Qed.

Lemma ip_packet_ok {M} : pkt_ok h (packet_at p m pos : Packet Ip.IpHeader M) m /\ hdr_of (packet_at p m pos : Packet Ip.IpHeader M) m = ip_of b.
Proof using C.
  pose proof segment_bounds as (?&?&?&?&?&?&?). destruct C as [Hp Hwf Hr Hs]. split; [|done].
  split; [done|]. split; [done|]. split; [done|]. simpl. lia.
Qed.

Lemma flow_called : call_ref (packet_at p m pos : Packet Ip.IpHeader EmptyMetadata) h flow_of = Ret (sg.1.1, flow_of).
Proof using C.
  destruct (ip_packet_ok (M := EmptyMetadata)) as [Hok Hh]. destruct (read_segment_inv _ _ (cs_segment _ _ _ _ C)) as (_ & _ & _ & Hf & _).
  unfold call_ref, flow_fn. rewrite (get_header_ok _ _ _ Hok), Hh. cbn [obind].
  destruct (Filtering.memory_at_frame h p m pos Hok) as [rest ->]. cbn [obind]. by rewrite (Filtering.flow_prefix _ _ _ _ Hf).
Qed.

Lemma drop_packet n : drop n b = drop (Z.to_nat pos + n)%nat (frame m).
Proof using. apply drop_drop. Qed.

(** Behind the Internet header *)
Lemma tcp_packet_ok {M} :
  parse_header Tcp.TcpHeader (packet_at p m pos : Packet Ip.IpHeader M) h = Ret (packet_at p m (pos + ipo), h) /\
  let q := packet_at p m (pos + ipo) : Packet Tcp.TcpHeader M in
  pkt_ok h q m /\ hdr_fits q m /\ hdr_of q m = sg.1.2 /\ payload_of q m = sg.2.
Proof using C.
  destruct (ip_packet_ok (M := M)) as [Hok Hh]. pose proof segment_bounds as (?&?&?&?&?&?&?).
  destruct (read_segment_inv _ _ (cs_segment _ _ _ _ C)) as (_ & _ & _ & _ & Hsg).
  set (q0 := packet_at p m pos : Packet Ip.IpHeader M) in *.
  assert (Hpp : payload_pos q0 m = pos + ipo) by (unfold payload_pos; by rewrite Hh).
  assert (Hfit : hdr_fits q0 m) by (split; [by rewrite Hh|rewrite Hpp; lia]).
  assert (Hlp : zlen (payload_of q0 m) = data_len_ m - (pos + ipo)) by (rewrite length_payload_of, Hpp by (apply C || done || simpl; lia); done).
  destruct (parse_header_ok (T2 := Tcp.TcpHeader) h q0 m Hok Hfit) as [Hparse Hok2]; [simpl; lia|rewrite Hlp; simpl; lia|].
  unfold parsed in Hparse, Hok2. rewrite Hpp in Hparse, Hok2. split; [exact Hparse|]. set (q := packet_at p m (pos + ipo) : Packet Tcp.TcpHeader M).
  assert (Hd : drop (Z.to_nat (pos + ipo)) (frame m) = drop (Z.to_nat ipo) b).
  { rewrite drop_packet. f_equal. lia. }
  assert (Hhq : hdr_of q m = tcp_of b) by (unfold hdr_of, q; simpl offset_; by rewrite Hd).
  pose proof (tcp_offset_range (tcp_of b)). assert (Hpq : payload_pos q m = pos + data_pos b).
  { unfold payload_pos. rewrite Hhq. unfold data_pos, q. simpl. lia. }
  split; [exact Hok2|]. split; [split; [by rewrite Hhq|rewrite Hpq; lia]|]. rewrite Hsg. split; [exact Hhq|].
  assert (0 <= data_pos b) by (unfold data_pos; lia). cbn [snd]. unfold payload_of. rewrite Hpq, drop_packet. f_equal. lia.
Qed.

Lemma segment_called s : tagged h p sg.1.1 ->
  call_mut (packet_at p m (pos + ipo) : Packet Tcp.TcpHeader Flow) (s, h) =
  let! s' := on_segment fuel sg.1.1 sg.1.2 sg.2 s in Ret (packet_at p m (pos + ipo), (s', h)).
Proof using C.
  intros Ht. destruct (tcp_packet_ok (M := Flow)) as (_ & Hok & Hfit & Hhdr & Hpay). unfold call_mut, on_segment_fn, segment_fn.
  rewrite (read_tagged h _ sg.1.1); [|exact Ht|by vm_compute]. cbn [obind]. rewrite (get_header_ok _ _ _ Hok). cbn [obind].
  rewrite (get_payload_ok _ _ _ Hok Hfit). cbn [obind]. by rewrite Hhdr, Hpay.
Qed.

End segment.

Lemma segment_retagged h h' p m sg :
  carries_segment h p m sg -> retagged h h' -> exists m', carries_segment h' p m' sg /\ m' = with_meta m (meta m').
Proof using.
  intros [Hp Hwf Hr Hs] [Hsf _]. destruct (same_frames_lookup _ _ _ _ Hsf Hp Hwf) as (m' & Hm' & Hwf' & He).
  exists m'. split; [|done]. assert (Hf : frame m' = frame m) by (by rewrite He). split; rewrite ?Hf; done.
Qed.

Lemma parked_retagged h h' p pos m :
  h !! p = Some m -> mbuf_wf m -> parked h p pos -> retagged h h' -> parked h' p pos.
Proof using.
  intros Hm Hwf (m0 & Hm0 & Hsh & Hso) [Hsf Hr]. rewrite Hm in Hm0. injection Hm0 as <-.
  destruct (same_frames_lookup _ _ _ _ Hsf Hm Hwf) as (m' & Hm' & _ & He). exists m'. split; [done|].
  rewrite !(Hr p m m') by done. rewrite He. done.
Qed.

(** The mbufs that the group is about to work on, with their segments *)
Definition queued (h : Heap) (mbufs : list Z) (segs : list (Flow * Tcp.TcpHeader * list Z)) : Prop :=
  Forall2 (fun p sg => exists m, carries_segment h p m sg /\ parked h p (mac_end 0 (frame m))) mbufs segs.

(** The mbuf of a pointer that is in use *)
Definition mbuf_of (h : Heap) (p : Z) : MBuf := default (mkMBuf 0 0 0 0 0 0 [] []) (h !! p).
Definition ip_at (h : Heap) {M} (p : Z) : Packet Ip.IpHeader M := packet_at p (mbuf_of h p) (mac_end 0 (frame (mbuf_of h p))).
Definition tcp_at (h : Heap) {M} (p : Z) : Packet Tcp.TcpHeader M :=
  packet_at p (mbuf_of h p) (mac_end 0 (frame (mbuf_of h p)) + Ip.IpHeader_offset (ip_of (ip_packet (frame (mbuf_of h p))))).

Lemma queued_lookup h mbufs segs i p :
  queued h mbufs segs -> mbufs !! i = Some p ->
  exists sg, segs !! i = Some sg /\ carries_segment h p (mbuf_of h p) sg /\ parked h p (mac_end 0 (frame (mbuf_of h p))).
Proof using.
  intros Hq Hi. destruct (Forall2_lookup_l _ _ _ _ _ Hq Hi) as (sg & Hsg & m & Hc & Hpk). exists sg.
  assert (Hm : mbuf_of h p = m) by (unfold mbuf_of; by rewrite (cs_mbuf _ _ _ _ Hc)). by rewrite Hm.
Qed.

(** Wherever it is looked for among tagged packets, a packet is where it was. *)
Lemma queued_restored (r : Receive.ReceiveBatch MpscConsumer) (w w' : World Net) segs i p :
  queued (heap w) (PacketBatch.array (Receive.parent r)) segs -> PacketBatch.array (Receive.parent r) !! i = Some p ->
  retagged (heap w) (heap w') ->
  next_payload (Z.of_nat i) (Restore.mkRestore r : group, w') = Ret (Some (ip_at (heap w) p), (Restore.mkRestore r, w')).
Proof using.
  intros Hq Hi Hre. destruct (queued_lookup _ _ _ _ _ Hq Hi) as (sg & _ & Hc & Hpk). set (m := mbuf_of (heap w) p) in *.
  destruct (segment_retagged _ _ _ _ _ Hc Hre) as (m' & Hc' & He). pose proof (mac_end_range 0 (frame m)).
  rewrite (next_restored r w' i p m' (mac_end 0 (frame m)));
    [|done|apply Hc'|apply Hc'|eapply parked_retagged; [apply Hc|apply Hc|done..]|lia].
  unfold ip_at. fold m. unfold packet_at. by rewrite He.
Qed.

Section acting.
Context (r r1 : Receive.ReceiveBatch MpscConsumer) (w w1 : World Net) (segs : list (Flow * Tcp.TcpHeader * list Z)).
#[local] Abbreviation mbufs := (PacketBatch.array (Receive.parent r1)).
Context (Hact : act (r, w) = Ret (tt, (r1, w1))) (Hnd : NoDup mbufs) (Hfu : (length mbufs <= loop_fuel)%nat).
Context (Hsz : zlen mbufs < 2 ^ 31) (Hq : queued (heap w1) mbufs segs).

(** Every packet gets its flow as metadata. *)
Lemma tagging_acts :
  exists h2, act (AddMetadata.mkAddMetadata (Restore.mkRestore r : group) flow_of false, w) =
      Ret (tt, (AddMetadata.mkAddMetadata (Restore.mkRestore r1) flow_of true, mkWorld h2 (net w1))) /\
    retagged (heap w1) h2 /\ Forall2 (fun p sg => tagged h2 p sg.1.1) mbufs segs.
Proof using All.
  pose proof (Forall2_length _ _ _ Hq) as Hl.
  destruct (metadata_acted (Restore.mkRestore r : group) (Restore.mkRestore r1) w w1 (ip_at (heap w1) <$> mbufs)
    ((fun sg => sg.1.1) <$> segs) flow_of) as (h2 & Ha & Hre & Ht).
  - etransitivity; [apply on_field_Ret, Hact|done].
  - rewrite <-list_fmap_compose. apply list_fmap_id.
  - rewrite <-list_fmap_compose. by rewrite list_fmap_id.
  - by rewrite length_fmap.
  - by rewrite length_fmap.
  - intros i p w' Hre Hp. apply list_lookup_fmap_Some in Hp as (x & -> & Hx). by apply (queued_restored r1 w1 w' segs).
  - apply Forall_fmap, Forall_forall. intros p [i Hi]%list_elem_of_lookup.
    destruct (queued_lookup _ _ _ _ _ Hq Hi) as (sg & _ & Hc & _). exists (mbuf_of (heap w1) p). split; apply Hc.
  - apply Forall2_fmap_2, Forall2_same_length_lookup_2; [done|]. intros i p sg Hp Hsg.
    destruct (queued_lookup _ _ _ _ _ Hq Hp) as (sg' & Hsg' & Hc & _). rewrite Hsg in Hsg'. injection Hsg' as <-. split.
    + pose proof (segment_bounds _ _ _ _ Hc) as (_ & _ & ? & ? & _).
      destruct (read_segment_inv _ _ (cs_segment _ _ _ _ Hc)) as (_ & _ & _ & Hf & _). eapply flow_range; [|done|exact Hf]. lia.
    + intros h Hre. destruct (segment_retagged _ _ _ _ _ Hc Hre) as (m' & Hc' & He). pose proof (flow_called _ _ _ _ Hc') as Hcall.
      rewrite He in Hcall. exact Hcall.
  - by vm_compute.
  - exists h2. split; [exact Ha|]. split; [exact Hre|]. by rewrite Forall2_fmap in Ht.
Qed.

(** Then the closure sees the segments in order. *)
Lemma pipe_acts s s' :
  on_segments fuel segs s = Ret s' ->
  exists h2, act (tcp_pipe false r s, w) = Ret (tt, (tcp_pipe true r1 s', mkWorld h2 (net w1))) /\ retagged (heap w1) h2.
Proof using All.
  intros Hs. pose proof (Forall2_length _ _ _ Hq) as Hl. destruct tagging_acts as (h2 & Ha & Hre & Ht). exists h2. split; [|exact Hre].
  apply (transform_reads _ (Parsed.mkParsedBatch (AddMetadata.mkAddMetadata (Restore.mkRestore r1 : group) flow_of true))
    _ _ (tcp_at (heap w1) <$> mbufs) (fun sg c => on_segment fuel sg.1.1 sg.1.2 sg.2 c) segs).
  - etransitivity; [apply on_field_Ret, Ha|done].
  - by rewrite length_fmap.
  - by rewrite length_fmap.
  - by rewrite length_fmap.
  - intros i p Hp. apply list_lookup_fmap_Some in Hp as (x & -> & Hx).
    destruct (queued_lookup _ _ _ _ _ Hq Hx) as (sg & _ & Hc & _). destruct (segment_retagged _ _ _ _ _ Hc Hre) as (m' & Hc' & He).
    destruct (tcp_packet_ok _ _ _ _ Hc' (M := Flow)) as [Hparse _]. rewrite He in Hparse. simpl.
    erewrite sbind_Ret by (apply on_field_id; [apply _|]; simpl; erewrite sbind_Ret; [done|]; apply on_field_id; [apply _|];
      exact (queued_restored r1 w1 (mkWorld h2 (net w1)) segs i x Hq Hx Hre)).
    simpl. erewrite sbind_Ret by (unfold on_heap; apply zoom_Ret; exact Hparse). done.
  - apply Forall2_fmap_l, Forall2_same_length_lookup_2; [done|]. intros i p sg Hp Hsg c.
    destruct (queued_lookup _ _ _ _ _ Hq Hp) as (sg' & Hsg' & Hc & _). rewrite Hsg in Hsg'. injection Hsg' as <-.
    destruct (segment_retagged _ _ _ _ _ Hc Hre) as (m' & Hc' & He).
    pose proof (segment_called _ _ _ _ Hc' c (Forall2_lookup_lr _ _ _ _ _ _ Ht Hp Hsg)) as Hcall. rewrite He in Hcall. exact Hcall.
  - exact Hs.
Qed.

End acting.

(** The batch of the TCP packets in the merge *)
Definition stream (acting : bool) (s : Recon) (r : Receive.ReceiveBatch MpscConsumer) : streams :=
  inl (Composition.mkComposition (ResetParsing.mkReset (tcp_pipe acting r s))).

#[local] Instance stream_wraps s : Wraps (Net := Net) (T := NullHeader) (M := EmptyMetadata) (fun acting r => stream acting s r).
Proof using.
  split; try done. intros r w r' w' Hd. unfold stream. simpl. unfold boxed. simpl.
  erewrite (on_field_Ret Composition.parent); [|apply on_field_Ret; simpl; unfold Transform.done_; erewrite sbind_Ret by done;
    apply on_field_Ret; simpl; apply on_field_Ret; simpl; unfold AddMetadata.done_; erewrite sbind_Ret by done;
    apply on_field_Ret; simpl; apply on_field_Ret; exact Hd].
  done.
Qed.

Context {Tx : Type} {TxI : PacketTx Net Tx}.

(** One execution of the merged pipeline when it is the turn of the TCP packets *)
Lemma stream_executes tx other pb id rcv s s' snt q segs (w : World Net) :
  let mbufs := Mpsc.contents q in
  queues (net w) !! id = Some q -> queue_ok q -> NoDup mbufs -> queued (heap w) mbufs segs -> on_segments fuel segs s = Ret s' ->
  PacketBatch.batch_ok pb -> PacketBatch.array pb = [] -> zlen mbufs <= zlen (PacketBatch.spare pb) ->
  (length (PacketBatch.spare pb) <= loop_fuel)%nat ->
  uint 64 rcv -> rcv + zlen mbufs < 2 ^ 64 -> uint 64 snt -> snt + zlen mbufs < 2 ^ 64 ->
  exists q' h2, queue_ok q' /\ Mpsc.contents q' = [] /\ Mpsc.mask q' = Mpsc.mask q /\ retagged (heap w) h2 /\
    let w2 := mkWorld h2 (set_queues (<[id := q']> (queues (net w))) (net w)) in
    forall j w3 h4, sent_by tx mbufs w2 j w3 -> PacketBatch.freed (drop (Z.to_nat j) mbufs) (heap w3) h4 ->
    exists pb',
      execute (merged tx [stream false s (Receive.mkReceive pb (mkConsumer id) rcv); other] 0 snt, w) =
        Ret (tt, (merged tx [stream false s' (Receive.mkReceive pb' (mkConsumer id) (rcv + zlen mbufs)); other] 1 (snt + j), mkWorld h4 (net w3))) /\
      PacketBatch.array pb' = [] /\ PacketBatch.batch_ok pb' /\ length (PacketBatch.spare pb') = length (PacketBatch.spare pb).
Proof using BEL.
  intros mbufs Hid Hqok Hnd Hqd Hsegs Hok Hnil Hl Hf Hr0 Hr1 Hs0 Hs1. pose proof Hok as [_ Hcap].
  unfold PacketBatch.vec_capacity in Hcap. rewrite Hnil in Hcap. simpl in Hcap.
  destruct (queue_recv id (PacketBatch.spare pb) q w Hid Hqok) as (q' & Hrecv & Hqok' & Hqc & Hqm); [done|lia|]. fold mbufs in Hrecv.
  set (pkts := mbufs ++ drop (length mbufs) (PacketBatch.spare pb)) in *.
  assert (Hlp : length pkts = length (PacketBatch.spare pb)) by (unfold pkts; rewrite length_app, length_drop; lia).
  set (w1 := mkWorld (heap w) (set_queues (<[id := q']> (queues (net w))) (net w))) in *.
  set (pb1 := PacketBatch.received_batch pb (Ok (zlen mbufs)) pkts).
  assert (Hpb1 : PacketBatch.array pb1 = mbufs) by (unfold pb1, pkts; simpl; by rewrite Nat2Z.id, take_app_length).
  destruct (parsed_act (T2 := Mac.MacHeader) pb (mkConsumer id) rcv w w1 (zlen mbufs) pkts) as [_ Hokr]; try done; [lia|]. fold pb1 in Hokr.
  set (r := Receive.mkReceive pb (mkConsumer id) rcv). set (r1 := Receive.mkReceive pb1 (mkConsumer id) (rcv + zlen mbufs)).
  assert (Hact : act (r, w) = Ret (tt, (r1, w1))).
  { apply (receive_act_ok _ _ _ _ w1 (heap w)); rewrite ?Hnil; try done; lia. }
  assert (exists h2, act (tcp_pipe false r s, w) = Ret (tt, (tcp_pipe true r1 s', mkWorld h2 (net w1))) /\ retagged (heap w1) h2)
      as (h2 & Hpipe & Hre) by (apply (pipe_acts r r1 w w1 segs Hact); cbn [Receive.parent r1]; rewrite ?Hpb1; (done || lia)).
  exists q', h2. split; [done|]. split; [done|]. split; [done|]. split; [exact Hre|]. intros w2 j w3 h4 Hj Hf4.
  pose proof (sent_by_range _ _ _ _ _ Hj) as Hjr.
  assert (Hstream : act (stream false s r, w) = Ret (tt, (stream true s' r1, w2))).
  { simpl. unfold boxed. simpl. by erewrite (on_field_Ret Composition.parent) by (apply on_field_Ret; exact Hpipe). }
  set (rest := fun gap => PacketBatch.mkBatch (drop (Z.to_nat j) mbufs) (gap ++ PacketBatch.spare pb1)
    (PacketBatch.scratch pb1) (PacketBatch.parent_tasks pb1)).
  assert (Hrest : forall gap, zlen gap = j -> PacketBatch.batch_ok (rest gap) /\
    PacketBatch.vec_capacity (rest gap) = zlen (PacketBatch.spare pb)).
  { intros gap Hg. apply (unsent_batch pb1); try done. unfold PacketBatch.vec_capacity. rewrite Hpb1. unfold pb1. simpl.
    rewrite Nat2Z.id, length_drop. lia. }
  destruct (merged_executes tx [stream false s r; other] 0 (stream false s r) (stream true s' r1)
    (fun gap => stream false s' (Receive.mkReceive (PacketBatch.resized (rest gap) 0) (mkConsumer id) (rcv + zlen mbufs)))
    snt w w2 w3 (mkWorld h4 (net w3)) j) as (gap & Hg & He); try done.
  - change (PacketBatch.array (view (stream true s' r1))) with (PacketBatch.array pb1). by rewrite Hpb1.
  - unfold uint. lia.
  - lia.
  - intros gap Hg. change (view (stream true s' r1)) with pb1. rewrite Hpb1.
    change (update ?x (stream true s' r1)) with (stream true s' (Receive.mkReceive x (mkConsumer id) (rcv + zlen mbufs))).
    destruct (Hrest gap Hg) as [Hrok _]. apply (wrap_done (fun b r => stream b s' r)). exact (receive_done_ok _ _ _ w3 h4 Hrok Hf4).
  - destruct (Hrest gap Hg) as [Hrok Hrv]. destruct (resized_zero _ Hrok) as (Hok0 & Hn0 & Hl0).
    exists (PacketBatch.resized (rest gap) 0). split; [exact He|]. split; [done|]. split; [done|].
    unfold PacketBatch.vec_capacity in Hrv. lia.
Qed.

End consuming.

(** ** From port to port *)

Section ports.
Context {P : Profile} {BE : BigEndian} {BEL : BigEndianLaws BE} (fuel : nat).
Context {Z_ : Zcsi} {F : Fuel} {Net Rx Tx : Type} {Q : HasQueues Net} {RxI : PacketRx Net Rx} {TxI : PacketTx Net Tx}.
#[local] Existing Instance protocol_fn.
#[local] Existing Instance flow_fn.
#[local] Instance port_segment_fn : FnMut Recon (Packet Tcp.TcpHeader Flow) (Packet Tcp.TcpHeader Flow) := segment_fn fuel.

(** The group of a frame *)
Definition protocol_group (fr : list Z) : Z := if Ip.protocol (ip_of (ip_packet fr)) =? 6 then 0 else 1.

Definition in_group (i : Z) (mbufs : list Z) (frs : list (list Z)) : list Z :=
  (filter (fun x => protocol_group x.2 = i) (zip mbufs frs)).*1.

(** The segments of the frames that are TCP packets *)
Definition segments_of (frs : list (list Z)) : list (Flow * Tcp.TcpHeader * list Z) :=
  omap (fun fr => read_segment (ip_packet fr)) frs.

(** Frames with room for the Internet header, and a whole segment if the protocol is TCP *)
Definition whole (fr : list Z) : Prop := roomy fr /\ (protocol_group fr = 0 -> is_Some (read_segment (ip_packet fr))).

(** The task that splits the packets, between two runs *)
Definition splitting (pb : PacketBatch.PacketBatch) (rx : Rx) (received : Z) (prods : list MpscProducer) :=
  spreading exchanged_ip pb rx received prods by_protocol.

Lemma ip_packet_swapped fr : roomy fr -> ip_packet (swapped 0 fr) = ip_packet fr.
Proof using.
  intros Hr. pose proof (mac_end_range 0 fr). unfold roomy in Hr. unfold ip_packet.
  by rewrite Filtering.swapped_mac_end, Filtering.swapped_behind by lia.
Qed.

Lemma protocol_swapped fr : roomy fr -> protocol_group (swapped 0 fr) = protocol_group fr.
Proof using. intros Hr. unfold protocol_group. by rewrite ip_packet_swapped. Qed.

Lemma protocol_range fr : 0 <= protocol_group fr < 2.
Proof using. unfold protocol_group. case_match; lia. Qed.

Lemma protocol_answers fr :
  roomy fr -> answers (Net := Net) (V := Parsed.ParsedBatch Ip.IpHeader (Transform.TransformBatch
    (Parsed.ParsedBatch Mac.MacHeader (Receive.ReceiveBatch Rx)) Unchecked)) protocol_group (eq by_protocol) fr.
Proof using.
  intros Hr h p m c Hp Hwf <- <-. exists by_protocol. split; [|done]. rewrite (ip_position receive_front). set (pos := mac_end 0 (frame m)) in *.
  pose proof (mac_end_range 0 (frame m)) as Hm. fold pos in Hm. pose proof (length_frame m Hwf). unfold roomy in Hr. fold pos in Hr.
  assert (Hok : pkt_ok h (packet_at p m pos : Packet Ip.IpHeader EmptyMetadata) m) by (split_and!; simpl; (done || lia)).
  unfold call_ref, protocol_fn. by rewrite (get_header_ok _ _ _ Hok).
Qed.

(** What the task leaves in the queue of the TCP group *)
Lemma queued_frames h mbufs frs :
  holds h mbufs (swapped 0 <$> frs) -> Forall2 (fun p fr => parked h p (mac_end 0 fr)) mbufs (swapped 0 <$> frs) -> Forall whole frs ->
  queued h (in_group 0 mbufs frs) (segments_of frs).
Proof using.
  intros Hh Hpk Hw. unfold in_group, segments_of. revert mbufs Hh Hpk.
  induction Hw as [|fr frs [Hr Hs] _ IH]; intros mbufs Hh Hpk; inversion Hh as [|p fr' mbufs' frs' (m & Hm & Hwf & _ & Hf) Hh' Hp Hfr]; subst; [constructor|].
  rewrite fmap_cons in Hpk. apply Forall2_cons_1 in Hpk as [Hpp Hpk]. specialize (IH mbufs' Hh' Hpk). cbn [zip_with zip].
  destruct (decide (protocol_group fr = 0)) as [Hg|Hg].
  - destruct (Hs Hg) as [sg Hsg]. rewrite filter_cons_True by done. rewrite fmap_cons. simpl omap. rewrite Hsg. constructor; [|exact IH].
    exists m. rewrite Hf. split; [|exact Hpp]. split; rewrite ?Hf, ?ip_packet_swapped; (done || by apply swapped_roomy).
  - rewrite filter_cons_False by done. simpl omap. destruct (read_segment (ip_packet fr)) as [sg|] eqn:Hsg; [|exact IH].
    destruct (read_segment_inv _ _ Hsg) as (Hp6 & _). by destruct Hg; unfold protocol_group; rewrite Hp6.
Qed.

Lemma in_group_length i mbufs frs : (length (in_group i mbufs frs) <= length mbufs)%nat.
Proof using. unfold in_group. rewrite length_fmap. etransitivity; [apply length_filter|]. rewrite length_zip_with. lia. Qed.

Lemma in_group_NoDup i mbufs frs : NoDup mbufs -> NoDup (in_group i mbufs frs).
Proof using.
  unfold in_group. revert frs. induction mbufs as [|p mbufs IH]; intros [|fr frs] Hnd; try apply NoDup_nil_2.
  apply NoDup_cons in Hnd as [Hp Hnd]. cbn [zip_with zip]. rewrite filter_cons. case_decide; [|by apply IH]. rewrite fmap_cons.
  constructor; [|by apply IH]. intros ([x y] & Hx & [_ Hi]%list_elem_of_filter)%list_elem_of_fmap. simpl in Hx. subst x.
  apply Hp. apply list_elem_of_lookup in Hi as [k Hk]. apply lookup_zip_with_Some in Hk as (x1 & y1 & [= -> ->] & Hx1 & _).
  by eapply list_elem_of_lookup_2.
Qed.

Lemma holds_same_frames h h' mbufs frs : holds h mbufs frs -> same_frames h h' -> holds h' mbufs frs.
Proof using.
  intros Hh Hs. eapply Forall2_impl; [exact Hh|]. intros p fr (m & Hm & Hwf & Hr & Hf).
  destruct (same_frames_lookup _ _ _ _ Hs Hm Hwf) as (m' & Hm' & Hwf' & He). exists m'. split; [done|]. split; [done|]. by rewrite He.
Qed.

(** One run of the task that splits *)
Lemma split_packets pb rx rcv pr0 pr1 q0 q1 (w w1 : World Net) n pkts frs :
  let mbufs := take (Z.to_nat n) pkts in
  PacketBatch.batch_ok pb -> PacketBatch.array pb = [] -> (length pkts <= loop_fuel)%nat ->
  recv rx (PacketBatch.spare pb) w = Ret ((Ok n, pkts), w1) ->
  length pkts = length (PacketBatch.spare pb) -> 0 <= n <= zlen pkts -> uint 64 rcv -> rcv + n < 2 ^ 64 ->
  NoDup mbufs -> holds (heap w1) mbufs frs -> Forall whole frs -> producer_queue pr0 <> producer_queue pr1 ->
  queues (net w1) !! producer_queue pr0 = Some q0 -> queue_ok q0 ->
  queues (net w1) !! producer_queue pr1 = Some q1 -> queue_ok q1 ->
  exists pb' q0' q1' w2,
    execute (splitting pb rx rcv [pr0; pr1], w) = Ret (tt, (splitting pb' rx (rcv + n) [pr0; pr1], w2)) /\
    PacketBatch.array pb' = [] /\ PacketBatch.batch_ok pb' /\ length (PacketBatch.spare pb') = length (PacketBatch.spare pb) /\
    same_frames (reframed mbufs (swapped 0 <$> frs) (heap w1)) (heap w2) /\
    net w2 = set_queues (queues (net w2)) (net w1) /\
    queues (net w2) !! producer_queue pr0 = Some q0' /\ received q0 (in_group 0 mbufs frs) q0' /\
    queues (net w2) !! producer_queue pr1 = Some q1' /\ received q1 (in_group 1 mbufs frs) q1' /\
    queued (heap w2) (in_group 0 mbufs frs) (segments_of frs).
Proof using.
  intros mbufs Hok Hnil Hfl Hrecv Hl Hn Hr0 Hr1 Hnd Hh Hw Hne Hq0 Hqo0 Hq1 Hqo1.
  assert (Hroomy : Forall roomy frs) by (eapply Forall_impl; [exact Hw|]; by intros fr []).
  assert (Hroomy' : Forall roomy (swapped 0 <$> frs)) by (apply Forall_fmap; eapply Forall_impl; [exact Hroomy|apply swapped_roomy]).
  pose proof (receive_acted pb rx rcv w w1 n pkts frs Hok Hnil Hfl Hrecv Hl Hn Hr0 Hr1 Hnd Hh) as Hacted.
  apply (exchange_acted receive_front unchecked), (parse_acted (T2 := Ip.IpHeader)) in Hacted.
  2: { eapply Forall_impl; [exact Hroomy|]. intros fr. apply (mac_parses receive_front). intros; apply receive_accepts. }
  pose proof Hacted as (_ & _ & _ & _ & Hh1).
  destruct (spread_frames exchanged_ip protocol_group (eq by_protocol) pb rx rcv by_protocol [pr0; pr1] w _ n pkts _ Hok Hnil Hl Hacted)
    as (pb' & c' & w2 & He & Ha & Hob & Hsp & <- & Hs & Hq & Hpk & Hnet).
  - eapply Forall_impl; [exact Hroomy'|]. intros fr. apply (ip_parses receive_front). intros; apply receive_accepts.
  - eapply Forall_impl; [exact Hroomy'|]. intros fr Hfr. by apply protocol_answers.
  - apply Forall_forall. intros fr _. unfold served, protocol_group. case_match; (split; [lia|]); [exists pr0, q0|exists pr1, q1]; done.
  - done.
  - assert (Hgroup : forall i pr, [pr0; pr1] !! i = Some pr ->
      for_queue protocol_group [pr0; pr1] (producer_queue pr) mbufs (swapped 0 <$> frs) = in_group (Z.of_nat i) mbufs frs).
    { intros i pr Hpr. rewrite (for_queue_group protocol_group [pr0; pr1] i pr); [|simpl; apply NoDup_cons; split; [|apply NoDup_singleton];
        by intros ?%list_elem_of_singleton|done|apply Forall_forall; intros fr _; apply protocol_range].
      apply (filter_frames protocol_group protocol_group). eapply Forall_impl; [exact Hroomy|]. intros fr Hfr. by apply protocol_swapped. }
    destruct (Hq _ _ Hq0 Hqo0) as (q0' & Hq0' & Hrc0). destruct (Hq _ _ Hq1 Hqo1) as (q1' & Hq1' & Hrc1).
    exists pb', q0', q1', w2. split; [exact He|]. split; [exact Ha|]. split; [exact Hob|]. split; [exact Hsp|]. split; [exact Hs|].
    split; [exact Hnet|]. split; [exact Hq0'|]. split; [change 0 with (Z.of_nat 0); by rewrite <-(Hgroup 0%nat pr0 eq_refl)|].
    split; [exact Hq1'|]. split; [change 1 with (Z.of_nat 1); by rewrite <-(Hgroup 1%nat pr1 eq_refl)|].
    apply queued_frames; [exact (holds_same_frames _ _ _ _ Hh1 Hs)| |exact Hw]. eapply Forall2_impl; [exact Hpk|].
    intros p fr Hp. cbv beta in Hp. by rewrite (ip_position receive_front) in Hp.
Qed.

(** What [reconstruction] builds, with the port that [main] sends it to *)
Lemma reconstruction_built {Sched} add_task put id (sch : Sched) pb rx (tx : Tx) (w : World Net) :
  hands_over add_task put id sch ->
  exists pr0 pr1 r0 r1 c w', reconstruction add_task (Receive.mkReceive pb rx 0) (sch, w) =
      Ret (c, (put (splitting pb rx 0 [pr0; pr1]) sch, w')) /\
    Build.send c tx = merged tx [stream false (mkRecon ∅ ∅ []) r0; inr (Build.compose (Restore.mkRestore r1))] 0 0 /\
    Receive.queue r0 = mkConsumer (producer_queue pr0) /\ Receive.queue r1 = mkConsumer (producer_queue pr1) /\
    heap w' = heap w /\ new_queues w w' [pr0; pr1].
Proof using.
  intros Ha. destruct (split_by_built (T := Ip.IpHeader) (M := EmptyMetadata) add_task put id
    (exchanged_ip false (Receive.mkReceive pb rx 0)) 2 by_protocol sch w ltac:(lia) Ha) as (ps & gs & w' & Hs & Hl & Hr & Hh & Hn).
  destruct ps as [|pr0 [|pr1 [|? ?]]]; try (simpl in Hl; lia). clear Hl.
  apply Forall2_cons_inv_r in Hr as ([r0] & gs' & H0 & Hr & ->). apply Forall2_cons_inv_r in Hr as ([r1] & gs & H1 & Hr & ->).
  apply Forall2_nil_inv_r in Hr as ->. exists pr0, pr1, r0, r1. eexists _, w'.
  split; [unfold reconstruction; by erewrite sbind_Ret by exact Hs|]. done.
Qed.

Context (Hfuel : (Z.to_nat CAPACITY <= fuel)%nat).


End ports.
End Payloads.

(** ** A connection in one batch: a SYN with two bytes, a packet of another protocol, and a
    FIN with one more byte *)

Module PayloadsSample.
Import Sample NattingSample BalancingSample Reconstruct Swapping Payloads.

#[local] Existing Instance release.
#[local] Existing Instance zcsi.
#[local] Existing Instance byteorder.
#[local] Existing Instance byteorder_laws.
#[local] Existing Instance site_queues.
#[local] Existing Instance site_rx.
#[local] Existing Instance site_tx.
#[local] Existing Instance protocol_fn.
#[local] Existing Instance flow_fn.
#[local] Instance fuel : Fuel := 32%nat.
#[local] Instance sample_segment_fn : FnMut Recon (Packet Tcp.TcpHeader Flow) (Packet Tcp.TcpHeader Flow) := segment_fn 2047.

Definition ip_header (len proto : Z) : list Z := [69; 0; 0; len; 0; 0; 0; 0; 64; proto; 0; 0; 10; 0; 0; 1; 10; 0; 0; 2].
Definition tcp_header (q flags : Z) : list Z := [19; 136; 0; 80; 0; 0; 0; q; 0; 0; 0; 0; 80; flags; 16; 0; 0; 0; 0; 0].

Definition syn : list Z := ethernet ++ ip_header 42 6 ++ tcp_header 99 2 ++ [104; 101].
Definition udp : list Z := ethernet ++ ip_header 28 17 ++ [19; 136; 0; 53; 0; 8; 0; 0].
Definition fin : list Z := ethernet ++ ip_header 41 6 ++ tcp_header 102 1 ++ [121].
Definition arriving : list (list Z) := [syn; udp; fin].
Definition memory : Heap := <[1 := frame_mbuf 4096 syn]> (<[2 := frame_mbuf 8192 udp]> (<[3 := frame_mbuf 12288 fin]> ∅)).
Definition both : gmap Z Mpsc.MpscQueue := <[10 := queue32]> (<[11 := queue32]> ∅).
Definition before : World site := mkWorld memory (mkWire [1; 2; 3] [], both).
Definition after : World site := mkWorld memory (mkWire [] [], both).

(** The padding of a short frame is taken for payload. *)
Lemma padding_is_payload : snd <$> read_segment (ip_packet (fin ++ [0; 0; 0; 0; 0])) = Some [121; 0; 0; 0; 0; 0].
Proof. vm_compute. reflexivity. Qed.

Lemma connection_acceptable : all_acceptable (mkStreams ∅ ∅) (segments_of arriving).
Proof. vm_compute. intuition congruence. Qed.


End PayloadsSample.
