(* ===== verification/Routing.v ===== *)
(** * The routing function ([test/lpm/src/nf.rs], [test/lpm-embedded/src/nf.rs])

    [lpm] fills the lookup table with its list of hosts, exchanges the Ethernet addresses of
    every packet, looks the source address up and hands the packet to the group of the gate;
    the groups are merged again. *)

From S2P Require Import Prelude Flows Headers IpHeader Packet Mpsc Batch Operators Pipelines Groups Forwarding Lpm.
From S2P Require Import NatNf Functions NfPipelines Stages NfGroups.
Import Mbuf Pkt Group.

Module Routing.
Import Lpm Swapping.

(** The addresses of the calls of [insert_ipv4], in order; each is a /32 with gate 1. *)
Definition hosts : list (Z * Z * Z * Z) :=
  [(188, 19, 50, 135); (123, 19, 205, 58); (58, 218, 199, 165); (61, 90, 38, 155); (190, 179, 91, 29);
   (198, 23, 250, 66); (42, 103, 111, 67); (117, 197, 187, 144); (207, 198, 106, 183); (122, 90, 22, 43);
   (5, 167, 64, 38); (152, 166, 114, 31); (191, 81, 59, 58); (190, 175, 182, 182); (190, 237, 89, 70);
   (181, 21, 43, 134); (122, 171, 197, 247); (113, 212, 69, 195); (151, 74, 149, 41); (27, 28, 145, 139);
   (206, 169, 145, 35); (105, 103, 122, 43); (116, 45, 32, 133); (202, 109, 166, 177); (195, 53, 118, 92);
   (5, 167, 65, 10); (216, 151, 137, 247); (103, 56, 182, 207); (216, 151, 138, 92); (88, 250, 194, 52);
   (41, 232, 211, 169); (106, 215, 170, 250); (187, 3, 143, 162); (110, 85, 81, 79); (220, 111, 212, 68);
   (185, 151, 210, 156); (190, 179, 180, 225); (2, 92, 39, 245); (107, 191, 202, 53); (46, 161, 9, 22);
   (122, 117, 64, 197); (186, 133, 153, 160); (36, 255, 211, 72); (173, 234, 225, 96); (95, 68, 215, 116);
   (115, 84, 82, 217); (84, 164, 153, 138); (190, 50, 251, 94); (93, 105, 249, 221); (37, 21, 101, 156);
   (143, 0, 222, 235); (5, 167, 69, 45); (37, 191, 159, 133); (203, 134, 213, 65); (84, 211, 75, 56);
   (117, 248, 162, 119); (69, 178, 195, 20); (113, 189, 147, 99); (185, 84, 202, 52); (188, 143, 232, 190);
   (41, 221, 50, 102); (92, 82, 174, 27); (113, 55, 12, 76); (62, 211, 191, 202); (191, 82, 178, 107);
   (181, 23, 198, 10); (117, 196, 200, 35); (117, 198, 60, 179); (178, 136, 73, 133); (203, 130, 228, 60);
   (179, 41, 211, 34); (193, 92, 162, 10); (216, 151, 130, 236); (2, 185, 182, 1); (185, 148, 100, 45);
   (85, 105, 157, 175); (171, 80, 158, 237); (109, 165, 67, 16); (5, 167, 66, 53); (183, 165, 159, 231);
   (152, 232, 193, 27); (60, 184, 112, 190); (122, 163, 104, 12); (177, 213, 230, 190); (113, 146, 90, 33);
   (190, 49, 119, 180); (89, 187, 144, 19); (31, 168, 81, 84); (201, 254, 169, 36); (200, 71, 53, 112);
   (90, 189, 133, 179); (24, 219, 68, 17); (190, 178, 143, 49); (41, 105, 236, 253); (183, 60, 48, 25);
   (188, 143, 232, 254); (36, 97, 169, 81); (192, 99, 147, 251); (171, 233, 174, 141); (112, 227, 158, 252);
   (188, 143, 233, 59); (192, 209, 125, 92); (5, 167, 66, 37); (95, 215, 103, 88); (5, 167, 65, 50)].

Section routing.
Context {P : Profile} {HO : HashOrder Z}.

Definition lpm_table : outcome IPLookup :=
  let! t := each (fun '(a, b, c, d) => insert_ipv4 a b c d 32 1) hosts Lpm.new in
  construct_table t.

#[local] Instance gate_fn : FnRef IPLookup (Packet Ip.IpHeader EmptyMetadata) Z := fun pkt h lpm_table =>
  let! '(hdr, _) := get_header pkt h in
  let! gate := lookup_entry lpm_table (Ip.src hdr) in
  Ret (gate, lpm_table).

(** ** The table *)

Definition host_value (x : Z * Z * Z * Z) : Z := let '(a, b, c, d) := x in a * 2 ^ 24 + b * 2 ^ 16 + c * 2 ^ 8 + d.
Definition host_list : list Z := host_value <$> hosts.

(** Gate 1 for the listed hosts, gate 0 for everybody else *)
Definition gate_of (ip : Z) : Z := if decide (ip ∈ host_list) then 1 else 0.

Lemma gate_range ip : 0 <= gate_of ip < 3.
Proof. unfold gate_of. case_decide; lia. Qed.

Definition host_ok (k : Z) : bool := (0 <=? k) && (k <? 2 ^ 32).

Lemma hosts_ok : Forall (fun k => 0 <= k < 2 ^ 32) host_list.
Proof.
  assert (Hb : forallb host_ok host_list = true) by (vm_compute; reflexivity). apply Forall_forall. intros k Hk.
  rewrite forallb_forall in Hb. specialize (Hb k (proj1 (list_elem_of_In _ _) Hk)). unfold host_ok in Hb. lia.
Qed.

Lemma add_hosts l t :
  each (fun '(a, b, c, d) => insert_ipv4 a b c d 32 1) l t = each add_route ((fun k => (32, (k, 1))) <$> (host_value <$> l)) t.
Proof.
  revert t. induction l as [|[[[a b] c] d] l IH]; intros t; [done|]. simpl.
  change (add_route _ t) with (insert_ipv4 a b c d 32 1 t). destruct (insert_ipv4 a b c d 32 1 t) as [t'| | |]; [apply IH|done..].
Qed.

Lemma lpm_table_ok : exists t, lpm_table = Ret t /\ forall ip, 0 <= ip < 2 ^ 32 -> lookup_entry t ip = Ret (gate_of ip).
Proof.
  destruct (routes_found ((fun k => (32, (k, 1))) <$> host_list)) as (t0 & t & H0 & Ht & Hl).
  - apply Forall_fmap. eapply Forall_impl; [exact hosts_ok|]. intros k Hk. split; [lia|]. split; [exact Hk|].
    split; [apply Z.mod_1_r|lia].
  - etransitivity; [apply inj_le, length_filter|]. vm_compute. discriminate.
  - exists t. unfold lpm_table. rewrite add_hosts. fold host_list. rewrite H0. split; [exact Ht|].
    intros ip Hip. rewrite (Hl ip Hip), (longest_hosts host_list 1 ip Hip hosts_ok). unfold gate_of. reflexivity.
Qed.

#[local] Opaque gate_of.

(** ** Between a port and the groups *)

Section ports.
Context {Z_ : Zcsi} {F : Fuel} {Net Rx : Type} {RxI : PacketRx Net Rx} {Q : HasQueues Net}.

Abbreviation swapped_frames := (Transform.TransformBatch (Parsed.ParsedBatch Mac.MacHeader (Receive.ReceiveBatch Rx)) Unchecked).
Abbreviation routed_frames := (Parsed.ParsedBatch Ip.IpHeader swapped_frames).

(** [lpm(parent, s)]: the task that it hands to the scheduler, and the merged consumers that
    it returns *)
Definition lpm {Sched : Type} (add_task : GroupByProducer routed_frames IPLookup -> St (Sched * World Net) (result Z))
    (parent : Receive.ReceiveBatch Rx) :
    St (Sched * World Net) (Composition.CompositionBatch (Merge.MergeBatch
      (Restore.RestoreHeader Ip.IpHeader EmptyMetadata (Receive.ReceiveBatch MpscConsumer)))) :=
  let* lpm_table := slift lpm_table in
  let* groups := split_by add_task
    (Build.parse Ip.IpHeader (Build.transform (Build.parse Mac.MacHeader parent) unchecked)) 3 lpm_table in
  sret (Build.compose (Build.merge groups)).

Definition routing (pb : PacketBatch.PacketBatch) (rx : Rx) (received : Z) (prods : list MpscProducer) (t : IPLookup) :
    GroupByProducer routed_frames IPLookup := spreading exchanged_ip pb rx received prods t.

(** The source address of the packet behind the Ethernet header *)
Definition source_of (fr : list Z) : Z := Ip.view (take 20 (drop (Z.to_nat (mac_end 0 fr)) fr)) Ip.Src.

Lemma source_range fr : bytes_ok fr -> 0 <= source_of fr < 2 ^ 32.
Proof using.
  intros Hb. unfold source_of. set (l := take 20 _). assert (Hl : bytes_ok l) by (by apply bytes_ok_take, bytes_ok_drop).
  assert (Hn : forall i, uint 8 (nth i l 0)).
  { intros i. rewrite nth_lookup. destruct (l !! i) as [x|] eqn:Hx; [exact (Forall_lookup_1 _ _ _ _ Hl Hx)|done]. }
  exact (le_val_uint (rev [nth 12 l 0; nth 13 l 0; nth 14 l 0; nth 15 l 0]) ltac:(repeat constructor; apply Hn)).
Qed.

Lemma source_swapped fr : roomy fr -> source_of (swapped 0 fr) = source_of fr.
Proof using.
  intros Hr. pose proof (mac_end_range 0 fr). unfold roomy in Hr. unfold source_of.
  by rewrite Filtering.swapped_mac_end, Filtering.swapped_behind by lia.
Qed.

(** The closure looks the source address up. *)
Lemma gate_answers t fr :
  (forall ip, 0 <= ip < 2 ^ 32 -> lookup_entry t ip = Ret (gate_of ip)) -> roomy fr ->
  answers (Net := Net) (V := routed_frames) (fun fr => gate_of (source_of fr)) (eq t) fr.
Proof using.
  intros Ht Hr h p m c Hp Hwf <- <-. exists t. split; [|done]. rewrite (ip_position receive_front). set (pos := mac_end 0 (frame m)) in *.
  pose proof (mac_end_range 0 (frame m)) as Hm. fold pos in Hm. pose proof (length_frame m Hwf). pose proof (frame_bytes_ok m Hwf) as Hb.
  unfold roomy in Hr. fold pos in Hr.
  assert (Hok : pkt_ok h (packet_at p m pos : Packet Ip.IpHeader EmptyMetadata) m) by (split_and!; simpl; (done || lia)).
  unfold call_ref, gate_fn. rewrite (get_header_ok _ _ _ Hok). cbn [obind].
  change (hdr_of (packet_at p m pos) m) with (decode (take 20 (drop (Z.to_nat pos) (frame m))) : Ip.IpHeader).
  change (Ip.src ?x) with (Ip.ip_get Ip.Src x). rewrite ip_field_at by (done || lia).
  fold (source_of (frame m)). by rewrite Ht by (by apply source_range).
Qed.

(** The mbufs of the packets whose source has gate [i] *)
Definition with_gate (i : Z) (mbufs : list Z) (frs : list (list Z)) : list Z :=
  (filter (fun x => gate_of (source_of x.2) = i) (zip mbufs frs)).*1.

Lemma with_gate_swapped i mbufs frs :
  Forall roomy frs ->
  (filter (fun x => gate_of (source_of x.2) = i) (zip mbufs (swapped 0 <$> frs))).*1 = with_gate i mbufs frs.
Proof using.
  intros Hr. apply (filter_frames (fun fr => gate_of (source_of fr)) (fun fr => gate_of (source_of fr))).
  eapply Forall_impl; [exact Hr|]. intros fr Hfr. by rewrite source_swapped.
Qed.

Lemma lpm_built {Sched} add_task put id (sch : Sched) t pb rx (w : World Net) :
  lpm_table = Ret t -> hands_over add_task put id sch ->
  exists prods groups w', lpm add_task (Receive.mkReceive pb rx 0) (sch, w) =
      Ret (Build.compose (Build.merge groups), (put (routing pb rx 0 prods t) sch, w')) /\
    zlen prods = 3 /\ Forall2 reads groups prods /\ heap w' = heap w /\ new_queues w w' prods.
Proof using.
  intros Ht Ha. destruct (split_by_built (T := Ip.IpHeader) (M := EmptyMetadata) add_task put id
    (exchanged_ip false (Receive.mkReceive pb rx 0)) 3 t sch w ltac:(lia) Ha) as (ps & gs & w' & Hs & Hrest).
  exists ps, gs, w'. split; [|exact Hrest]. unfold lpm. erewrite sbind_Ret by (by apply slift_Ret).
  by erewrite sbind_Ret by exact Hs.
Qed.

(** C18: The routing function. [lpm] builds its table without a panic, in whatever order the
    hash maps list their entries, hands the scheduler a task with three new queues and
    returns the merged other ends. One run of the task over packets with room for an
    Internet header hands every packet, with its Ethernet addresses exchanged and otherwise
    unchanged, to the queue of group 1 if its source is one of the listed hosts and to that
    of group 0 if not, in order of arrival; group 2 gets nothing, and the task is ready for
    the next batch. *)
Theorem lpm_routes pb rx rcv prods (w w1 : World Net) n pkts frs :
  let mbufs := take (Z.to_nat n) pkts in
  PacketBatch.batch_ok pb -> PacketBatch.array pb = [] -> (length pkts <= loop_fuel)%nat ->
  recv rx (PacketBatch.spare pb) w = Ret ((Ok n, pkts), w1) ->
  length pkts = length (PacketBatch.spare pb) -> 0 <= n <= zlen pkts -> uint 64 rcv -> rcv + n < 2 ^ 64 ->
  NoDup mbufs -> holds (heap w1) mbufs frs -> Forall roomy frs -> zlen prods = 3 -> NoDup (producer_queue <$> prods) ->
  (forall pr, pr ∈ prods -> exists q, queues (net w1) !! producer_queue pr = Some q /\ queue_ok q) ->
  exists t, lpm_table = Ret t /\
    (forall (Sched : Type) add_task put id (sch : Sched) pb0 (w0 : World Net), hands_over add_task put id sch ->
      exists ps groups w', lpm add_task (Receive.mkReceive pb0 rx 0) (sch, w0) =
          Ret (Build.compose (Build.merge groups), (put (routing pb0 rx 0 ps t) sch, w')) /\
        zlen ps = 3 /\ Forall2 reads groups ps /\ heap w' = heap w0 /\ new_queues w0 w' ps) /\
    exists pb' w2,
      execute (routing pb rx rcv prods t, w) = Ret (tt, (routing pb' rx (rcv + n) prods t, w2)) /\
      PacketBatch.array pb' = [] /\ PacketBatch.batch_ok pb' /\
      length (PacketBatch.spare pb') = length (PacketBatch.spare pb) /\
      same_frames (reframed mbufs (swapped 0 <$> frs) (heap w1)) (heap w2) /\
      forall i pr q0, prods !! i = Some pr -> queues (net w1) !! producer_queue pr = Some q0 -> queue_ok q0 ->
        exists q, queues (net w2) !! producer_queue pr = Some q /\ received q0 (with_gate (Z.of_nat i) mbufs frs) q.
Proof using.
  intros mbufs Hok Hnil Hfl Hrecv Hl Hn Hr0 Hr1 Hnd Hh Hroomy Hlp Hndp Hqs. destruct lpm_table_ok as (t & Ht & Hgate).
  exists t. split; [exact Ht|]. split; [intros; by eapply lpm_built|].
  assert (Hroomy' : Forall roomy (swapped 0 <$> frs)) by (apply Forall_fmap; eapply Forall_impl; [exact Hroomy|apply swapped_roomy]).
  pose proof (receive_acted pb rx rcv w w1 n pkts frs Hok Hnil Hfl Hrecv Hl Hn Hr0 Hr1 Hnd Hh) as Hacted.
  apply (exchange_acted receive_front unchecked), (parse_acted (T2 := Ip.IpHeader)) in Hacted.
  2: { eapply Forall_impl; [exact Hroomy|]. intros fr. apply (mac_parses receive_front). intros; apply receive_accepts. }
  destruct (spread_frames exchanged_ip (fun fr => gate_of (source_of fr)) (eq t) pb rx rcv t prods w _ n pkts _ Hok Hnil Hl Hacted)
    as (pb' & c' & w2 & He & Ha & Hob & Hsp & <- & Hs & Hq & _).
  - eapply Forall_impl; [exact Hroomy'|]. intros fr. apply (ip_parses receive_front). intros; apply receive_accepts.
  - eapply Forall_impl; [exact Hroomy'|]. intros fr Hfr. exact (gate_answers t fr Hgate Hfr).
  - apply Forall_forall. intros fr _. pose proof (gate_range (source_of fr)). split; [lia|].
    destruct (lookup_lt_is_Some_2 prods (Z.to_nat (gate_of (source_of fr)))) as [pr Hpr]; [lia|].
    destruct (Hqs pr) as (q & Hq & Hqo); [by eapply list_elem_of_lookup_2|]. exists pr, q. split; [exact Hpr|]. split; [exact Hq|exact Hqo].
  - reflexivity.
  - exists pb', w2. split; [exact He|]. split; [exact Ha|]. split; [exact Hob|]. split; [exact Hsp|]. split; [exact Hs|].
    intros i pr q0 Hpr Hq0 Hqo. rewrite <-(with_gate_swapped _ _ _ Hroomy).
    rewrite <-(for_queue_group (fun fr => gate_of (source_of fr)) prods i pr); [exact (Hq _ _ Hq0 Hqo)|exact Hndp|exact Hpr|].
    apply Forall_forall. intros fr _. rewrite Hlp. apply gate_range.
Qed.

End ports.

End routing.
End Routing.

(** ** Two packets: the source of the first is listed, that of the second is not *)

Module RoutingSample.
Import Sample NattingSample GroupSample LpmSample BalancingSample Lpm Routing Swapping.

#[local] Existing Instance release.
#[local] Existing Instance zcsi.
#[local] Existing Instance listed_order.
#[local] Existing Instance site_queues.
#[local] Existing Instance site_rx.
#[local] Existing Instance gate_fn.
#[local] Instance fuel : Fuel := 8%nat.

Definition from (a b c d : Z) : list Z :=
  ethernet ++ [69; 0; 0; 22; 0; 0; 0; 0; 64; 17; 0; 0; a; b; c; d; 10; 0; 0; 2; 1; 2].
Definition arrived : list (list Z) := [from 5 167 64 38; from 10 0 0 1].
Definition heap_in : Heap := <[1 := frame_mbuf 4096 (from 5 167 64 38)]> (<[2 := frame_mbuf 8192 (from 10 0 0 1)]> ∅).

Lemma lpm_routes_witness :
  exists t pb' w2, lpm_table = Ret t /\
    execute (routing empty4 tt 0 prods3 t, mkWorld heap_in (mkWire [1; 2] [], queues3)) =
      Ret (tt, (routing pb' tt (0 + 2) prods3 t, w2)) /\
    (forall i pr q0, prods3 !! i = Some pr -> queues3 !! producer_queue pr = Some q0 -> queue_ok q0 ->
      exists q, queues (net w2) !! producer_queue pr = Some q /\ received q0 (with_gate (Z.of_nat i) [1; 2] arrived) q) /\
    with_gate 0 [1; 2] arrived = [2] /\ with_gate 1 [1; 2] arrived = [1] /\ with_gate 2 [1; 2] arrived = [].
Proof.
  destruct (lpm_routes (Net := site) (RxI := site_rx) empty4 tt 0 prods3 (mkWorld heap_in (mkWire [1; 2] [], queues3))
    (mkWorld heap_in (mkWire [] [], queues3)) 2 [1; 2; 0; 0] arrived) as (t & Ht & _ & pb' & w2 & He & _ & _ & _ & _ & Hq).
  - by split; vm_compute.
  - reflexivity.
  - vm_compute. lia.
  - reflexivity.
  - reflexivity.
  - simpl. lia.
  - unfold uint. lia.
  - lia.
  - by apply (bool_decide_unpack _).
  - repeat apply Forall2_cons_2; [..|constructor]; eexists;
      (split; [reflexivity|split; [by apply (bool_decide_unpack _)|split; reflexivity]]).
  - repeat apply Forall_cons_2; [..|constructor]; vm_compute; reflexivity.
  - reflexivity.
  - by apply (bool_decide_unpack _).
  - intros pr Hpr. exists small_queue. split; [|exact small_queue_ok].
    apply elem_of_cons in Hpr as [->|Hpr]; [done|]. apply elem_of_cons in Hpr as [->|Hpr]; [done|].
    apply list_elem_of_singleton in Hpr as ->. done.
  - exists t, pb', w2. split; [exact Ht|]. split; [exact He|]. split; [exact Hq|].
    split; [vm_compute; reflexivity|]. split; vm_compute; reflexivity.
Defined.

End RoutingSample.
