(* ===== verification/Generation.v ===== *)
(** * The packet generator ([test/packet_generation])

    A task that makes sixteen packets of an Ethernet and an Internet header per execution and
    hands them to a queue, and a pipeline that sends what the queue holds to a port. The two
    interact through the shared queue and the mbufs only. *)

From S2P Require Import Prelude Headers IpHeader RingBuffer Packet Mpsc Batch Operators Pipelines Groups Forwarding Functions NfPipelines Stages NfGroups.
Import Mbuf Pkt Group.

Module Generator.

Record PacketCreator : Type := mkCreator { mac : Mac.MacHeader; ip : Ip.IpHeader; producer : MpscProducer }.

(** [u32::from] of the address that a dotted string spells *)
Definition ipv4_addr (a b c d : Z) : Z := a * 2 ^ 24 + b * 2 ^ 16 + c * 2 ^ 8 + d.

Definition new (producer : MpscProducer) : PacketCreator :=
  let mac := Mac.MacHeader_new in
  let mac := Mac.mkMacHeader (Mac.MacAddress_new 104 5 202 0 0 172) (Mac.src mac) (Mac.etype_ mac) in
  let mac := Mac.mkMacHeader (Mac.dst mac) (Mac.MacAddress_new 104 5 202 0 0 1) (Mac.etype_ mac) in
  let mac := Mac.set_etype mac 2048 in
  let ip := Ip.new in
  let ip := Ip.set_src ip (ipv4_addr 10 0 0 1) in
  let ip := Ip.set_dst ip (ipv4_addr 10 0 0 5) in
  let ip := Ip.set_ttl ip 128 in
  let ip := Ip.set_version ip 4 in
  let ip := Ip.set_ihl ip 5 in
  let ip := Ip.set_length ip 20 in
  mkCreator mac ip producer.

Section operations.
Context {P : Profile} {Z_ : Zcsi}.

Definition initialize_packet (c : PacketCreator) (pkt : Packet NullHeader EmptyMetadata) : St Heap (Packet Ip.IpHeader EmptyMetadata) :=
  let* o := push_header pkt (mac c) in
  let* pkt := slift (unwrap o) in
  let* o := push_header pkt (ip c) in
  slift (unwrap o).

Definition create_packet (c : PacketCreator) : St Heap (Packet Ip.IpHeader EmptyMetadata) :=
  let* o := new_packet in
  let* pkt := slift (unwrap o) in
  initialize_packet c pkt.

Context {F : Fuel} {Net : Type} {Q : HasQueues Net}.

(** The loop of [execute]; whether the queue took the packet is ignored. *)
Fixpoint send_packets (n : nat) (c : PacketCreator) : St (World Net) unit :=
  match n with
  | O => sret tt
  | S n =>
      let* pkt := zoom heap (fun h w => mkWorld h (net w)) (create_packet c) in
      let* _ := enqueue_packet (producer c) pkt in
      send_packets n c
  end.

#[global] Instance PacketCreator_Executable : Executable Net PacketCreator := {|
  execute := let* c := sgets fst in zoom snd (fun w s => (s.1, w)) (send_packets 16 c);
  dependencies _ := []
|}.

(** [test] hands the two tasks to the scheduler; what it prints is left out. *)
Definition test {Sched Tx : Type} (add_creator : PacketCreator -> St (Sched * World Net) (result Z))
    (add_pipeline : Send.SendBatch Tx (Receive.ReceiveBatch MpscConsumer) -> St (Sched * World Net) (result Z)) (ports : list Tx) :
    St (Sched * World Net) unit :=
  if 1 <? zlen ports then slift Panic
  else
    let* '(producer, consumer) := zoom snd (fun w s => (s.1, w)) new_queue_pair in
    let* port := slift (vindex ports 0) in
    let pipeline := Build.send consumer port in
    let creator := new producer in
    let* r := add_creator creator in
    let* _ := slift (unwrap_ok r) in
    let* r := add_pipeline pipeline in
    let* _ := slift (unwrap_ok r) in
    sret tt.

End operations.

(** ** The packets *)

Definition mac_bytes : list Z := [104; 5; 202; 0; 0; 172; 104; 5; 202; 0; 0; 1; 8; 0].
Definition ip_bytes : list Z := [69; 0; 0; 20; 0; 0; 0; 0; 128; 0; 0; 0; 10; 0; 0; 1; 10; 0; 0; 5].

(** The frame of every generated packet: an Ethernet header to 68:05:ca:00:00:ac with type
    0x0800 and an Internet header of five words from 10.0.0.1 to 10.0.0.5 *)
Definition generated : list Z := mac_bytes ++ ip_bytes.

Section creation.
Context {P : Profile}.

Lemma new_headers pr :
  wf (mac (new pr)) /\ Headers.offset (mac (new pr)) = 14 /\ encode (mac (new pr)) = mac_bytes /\
  wf (ip (new pr)) /\ Headers.offset (ip (new pr)) = 20 /\ encode (ip (new pr)) = ip_bytes.
Proof.
  split; [simpl; unfold Mac.mac_ok; by apply (bool_decide_unpack _)|].
  split; [simpl; unfold Mac.MacHeader_offset; by destruct performance|]. split; [by vm_compute|].
  split; [simpl; by apply (bool_decide_unpack _)|]. split; [simpl; unfold Ip.IpHeader_offset; by destruct performance|by vm_compute].
Qed.

(** An mbuf as the pool hands it out: empty, owned once, with room for the headers *)
Definition blank (m : MBuf) : Prop := mbuf_wf m /\ data_len_ m = 0 /\ refcnt_ m = 1 /\ 34 <= room AddEnd m.

Lemma initialize_packet_ok pr (h : Heap) p m :
  h !! p = Some m -> blank m ->
  exists pkt m', initialize_packet (new pr) (mkPacket p (data_address m 0) 0) h = Ret (pkt, <[p := m']> h) /\
    mbuf pkt = p /\ mbuf_wf m' /\ refcnt_ m' = 1 /\ frame m' = generated.
Proof.
  intros Hp (Hwf & Hlen & Hrc & Hroom). destruct (new_headers pr) as (Hwm & Hom & Hem & Hwi & Hoi & Hei).
  set (pkt0 := mkPacket p (data_address m 0) 0 : Packet NullHeader EmptyMetadata).
  assert (Hok0 : pkt_ok h pkt0 m) by (split_and!; simpl; (done || lia)).
  assert (Hpos0 : payload_pos pkt0 m = 0) by done.
  assert (Hf0 : frame m = []) by (pose proof (length_frame m Hwf); destruct (frame m); [done|simpl in *; lia]).
  assert (Hpl0 : payload_of pkt0 m = []) by (unfold payload_of; by rewrite Hf0, drop_nil).
  destruct (push_header_inserts h pkt0 m (mac (new pr)) Hok0) as [Hpush1 _]; rewrite ?Hpl0, ?Hom in *; try done.
  { split; simpl; [done|]. rewrite Hpos0. lia. }
  destruct Hpush1 as (pkt1 & m1 & Hp1 & Hok1 & Hf1 & Hmb1 & Ho1 & Hh1 & Hr1 & Hroom1); [lia|].
  rewrite Hf0, take_nil, Hem, app_nil_r in Hf1. simpl in Hf1. rewrite Hpos0 in Ho1. simpl in Hmb1.
  pose proof Hok1 as (_ & Hwf1 & _). pose proof (length_frame m1 Hwf1) as Hl1. rewrite Hf1 in Hl1. simpl in Hl1.
  assert (Hpos1 : payload_pos pkt1 m1 = 14) by (unfold payload_pos; rewrite Hh1, Hom; lia).
  assert (Hpl1 : payload_of pkt1 m1 = []) by (unfold payload_of; by rewrite Hpos1, Hf1).
  destruct (push_header_inserts _ pkt1 m1 (ip (new pr)) Hok1) as [Hpush2 _]; rewrite ?Hpl1, ?Hoi in *; try done.
  { split; [by rewrite Hh1, Hom|]. rewrite Hpos1. lia. }
  destruct Hpush2 as (pkt2 & m2 & Hp2 & Hok2 & Hf2 & Hmb2 & _ & _ & Hr2 & _); [lia|].
  rewrite Hpos1, Hf1, Hei, app_nil_r in Hf2. pose proof Hok2 as (_ & Hwf2 & _).
  exists pkt2, m2. split; [|split_and!; [congruence|done|congruence|exact Hf2]].
  unfold initialize_packet. erewrite sbind_Ret by exact Hp1. erewrite sbind_Ret by done. erewrite sbind_Ret by exact Hp2.
  unfold slift. simpl. rewrite Hmb1. by rewrite insert_insert_eq.
Qed.

(** The pool hands out blank mbufs that nobody holds, as long as the supply beside the mbufs
    in use lasts. *)
Class Allocates {Z_ : Zcsi} (supply : nat -> gset Z -> Prop) : Prop :=
  allocates n (h : Heap) : supply (S n) (dom h) ->
    exists p m, mbuf_alloc h = Ret (p, <[p := m]> h) /\ p <> 0 /\ h !! p = None /\ blank m /\ supply n ({[p]} ∪ dom h).

Context {Z_ : Zcsi} {supply : nat -> gset Z -> Prop} {A : Allocates supply}.

Lemma create_packet_ok pr n (h : Heap) :
  supply (S n) (dom h) ->
  exists pkt m, create_packet (new pr) h = Ret (pkt, <[mbuf pkt := m]> h) /\ h !! mbuf pkt = None /\
    mbuf_wf m /\ refcnt_ m = 1 /\ frame m = generated /\ supply n ({[mbuf pkt]} ∪ dom h).
Proof using A.
  intros Hs. destruct (allocates n h Hs) as (p & m & Ha & Hp0 & Hp & Hb & Hs').
  destruct (initialize_packet_ok pr (<[p := m]> h) p m) as (pkt & m' & Hi & <- & Hwf & Hr & Hf); [by rewrite lookup_insert_eq|done|].
  exists pkt, m'. split; [|done]. unfold create_packet, new_packet.
  erewrite sbind_Ret; [|erewrite sbind_Ret by exact Ha; rewrite (proj2 (Z.eqb_neq _ _)) by done;
    erewrite sbind_Ret; [done|unfold packet_from_mbuf_no_increment; erewrite sbind_Ret; [done|];
      eapply peek_ok; [by rewrite lookup_insert_eq|done]]].
  erewrite sbind_Ret by done. unfold Pkt.create_packet. rewrite Hi. by rewrite insert_insert_eq.
Qed.

(** An exhausted pool makes the generator panic. *)
Lemma create_packet_exhausted c (h h' : Heap) : mbuf_alloc h = Ret (0, h') -> create_packet c h = Panic.
Proof. intros Ha. unfold create_packet, new_packet, sbind. by rewrite Ha. Qed.

Context {F : Fuel} {Net : Type} {Q : HasQueues Net}.

(** New mbufs with the frame of the generator *)
Definition produced (h h' : Heap) (ps : list Z) : Prop :=
  NoDup ps /\ (forall p, p ∈ ps -> h !! p = None) /\ (forall p, p ∉ ps -> h' !! p = h !! p) /\
  holds h' ps (replicate (length ps) generated).

Lemma produced_cons h h1 h' p m ps :
  h1 = <[p := m]> h -> h !! p = None -> mbuf_wf m -> refcnt_ m = 1 -> frame m = generated ->
  produced h1 h' ps -> produced h h' (p :: ps).
Proof.
  intros -> Hp Hwf Hr Hf (Hnd & Hnew & Hold & Hh). assert (Hni : p ∉ ps) by (intros Hi; specialize (Hnew p Hi); by rewrite lookup_insert_eq in Hnew).
  assert (Hne : forall x, x ∈ ps -> x <> p) by (by intros x Hx ->). split; [by constructor|]. split; [|split].
  - intros x [->|Hx]%elem_of_cons; [done|]. specialize (Hnew x Hx). by rewrite lookup_insert_ne in Hnew by (by apply not_eq_sym, Hne).
  - intros x [Hx1 Hx2]%not_elem_of_cons. rewrite Hold by done. by rewrite lookup_insert_ne by (by apply not_eq_sym).
  - constructor; [|exact Hh]. exists m. rewrite Hold by done. by rewrite lookup_insert_eq.
Qed.

Lemma send_packets_ok n pr q0 ms q (w : World Net) :
  supply n (dom (heap w)) -> queues (net w) !! producer_queue pr = Some q -> received q0 ms q ->
  exists ps q' w', send_packets n (new pr) w = Ret (tt, w') /\ length ps = n /\ produced (heap w) (heap w') ps /\
    net w' = set_queues (<[producer_queue pr := q']> (queues (net w))) (net w) /\ received q0 (ms ++ ps) q'.
Proof using A.
  revert ms q w. induction n as [|n IH]; intros ms q w Hs Hq Hr.
  - exists [], q, w. split; [done|]. split; [done|]. split.
    { split; [apply NoDup_nil_2|]. split; [by intros p ?%not_elem_of_nil|]. split; [done|]. constructor. }
    rewrite insert_id by done. by rewrite (set_get (get := queues) (set := set_queues)), app_nil_r.
  - destruct (create_packet_ok pr n (heap w) Hs) as (pkt & m & Hc & Hp & Hwf & Hrc & Hf & Hs').
    destruct (received_one loop_fuel q0 ms q pkt Hr) as (b & q1 & He & Hr1).
    set (w1 := mkWorld (<[mbuf pkt := m]> (heap w)) (set_queues (<[producer_queue pr := q1]> (queues (net w))) (net w))).
    destruct (IH (ms ++ [mbuf pkt]) q1 w1) as (ps & q' & w' & Hrun & Hlen & Hpr & Hnet & Hr').
    { simpl. by rewrite dom_insert_L. }
    { simpl. by rewrite (get_set (get := queues) (set := set_queues)), lookup_insert_eq. }
    { done. }
    exists (mbuf pkt :: ps), q', w'. split; [|split; [simpl; lia|split; [by eapply produced_cons|split]]].
    + cbn [send_packets]. erewrite sbind_Ret by (by apply zoom_Ret). erewrite sbind_Ret; [exact Hrun|].
      unfold enqueue_packet, on_queue. simpl. by rewrite Hq, He.
    + rewrite Hnet. simpl. rewrite (get_set (get := queues) (set := set_queues)), insert_insert_eq.
      by rewrite (set_set (get := queues) (set := set_queues)).
    + by rewrite <-app_assoc in Hr'.
Qed.

(** ** The generator and its pipeline *)

Context {Tx : Type} {TxI : PacketTx Net Tx}.

(** The pipeline between executions *)
Definition sending (id : Z) (pb : PacketBatch.PacketBatch) (rcv : Z) (tx : Tx) (snt : Z) :
    Send.SendBatch Tx (Receive.ReceiveBatch MpscConsumer) :=
  Send.mkSend tx (Receive.mkReceive pb (mkConsumer id) rcv) snt.

#[local] Instance bare_wraps : Wraps (Net := Net) (T := NullHeader) (M := EmptyMetadata) (fun (_ : bool) (r : Receive.ReceiveBatch MpscConsumer) => r).
Proof. by split. Qed.

Lemma test_built {Sched} add1 put1 id1 add2 put2 id2 (sch : Sched) (tx : Tx) (w : World Net) :
  (forall pr, hands_over add1 put1 id1 sch /\ hands_over add2 put2 id2 (put1 (new pr) sch)) ->
  exists pr pb w', test add1 add2 [tx] (sch, w) = Ret (tt, (put2 (sending (producer_queue pr) pb 0 tx 0) (put1 (new pr) sch), w')) /\
    heap w' = heap w /\ new_queues w w' [pr] /\ PacketBatch.batch_ok pb /\ PacketBatch.array pb = [] /\
    length (PacketBatch.spare pb) = 32%nat.
Proof.
  intros Ha. destruct (linked_snoc w w [] ∅ (linked_start w)) as (pr & consumer & w' & Hp & [Hh Ho Hd Hn]).
  destruct (Hn 0%nat pr eq_refl) as (Hold & (q & Hq & Hqok & Hqc) & b & Hb & Hcs). simpl in Hcs. rewrite lookup_insert_eq in Hcs.
  injection Hcs as ->. destruct (Ha pr) as [Ha1 Ha2]. exists pr, b, w'. split.
  { unfold test. change (1 <? zlen [tx]) with false. cbn iota. erewrite sbind_Ret by (by apply zoom_Ret). cbn beta iota.
    erewrite sbind_Ret by done. erewrite sbind_Ret by apply Ha1.
    erewrite sbind_Ret by done. erewrite sbind_Ret by apply Ha2. by erewrite sbind_Ret by done. }
  split; [done|]. split; [split; [done|split; [done|]]|]; [constructor; [by split; [|exists q]|constructor]|].
  injection Hb as <-. by split; [split|].
Qed.

(** C14: The generator reaches the port. [test], given one port, makes a queue and hands the
    scheduler the generator task and a pipeline from the queue to the port. While the pool has sixteen mbufs left and the queue
    is empty, one execution of the task takes sixteen new mbufs, gives each the same Ethernet
    and Internet headers and nothing else, and touches no other mbuf; the next execution of
    the pipeline offers the port exactly these mbufs in the order they were made, frees what
    the port does not take, and leaves the queue and the batch empty for the next round. *)
Theorem generator_sends pr tx pb rcv snt q (w : World Net) :
  let id := producer_queue pr in
  supply 16 (dom (heap w)) -> queues (net w) !! id = Some q -> queue_ok q -> Mpsc.contents q = [] -> 16 <= Mpsc.mask q ->
  PacketBatch.batch_ok pb -> PacketBatch.array pb = [] -> (16 <= length (PacketBatch.spare pb) <= loop_fuel)%nat ->
  uint 64 rcv -> rcv + 16 < 2 ^ 64 -> uint 64 snt -> snt + 16 < 2 ^ 64 ->
  (forall (Sched : Type) add1 put1 id1 add2 put2 id2 (sch : Sched) w0,
    (forall pr, hands_over add1 put1 id1 sch /\ hands_over add2 put2 id2 (put1 (new pr) sch)) ->
    exists pr0 pb0 w0', test add1 add2 [tx] (sch, w0) =
        Ret (tt, (put2 (sending (producer_queue pr0) pb0 0 tx 0) (put1 (new pr0) sch), w0')) /\
      heap w0' = heap w0 /\ new_queues w0 w0' [pr0] /\ PacketBatch.batch_ok pb0 /\ PacketBatch.array pb0 = [] /\
      length (PacketBatch.spare pb0) = 32%nat) /\
  exists ps q' w1,
    execute (new pr, w) = Ret (tt, (new pr, w1)) /\ length ps = 16%nat /\ produced (heap w) (heap w1) ps /\
    queue_ok q' /\ Mpsc.contents q' = [] /\ Mpsc.mask q' = Mpsc.mask q /\
    let w2 := mkWorld (heap w1) (set_queues (<[id := q']> (queues (net w))) (net w)) in
    forall j w3 h4, sent_by tx ps w2 j w3 -> PacketBatch.freed (drop (Z.to_nat j) ps) (heap w3) h4 ->
    exists pb',
      execute (sending id pb rcv tx snt, w1) = Ret (tt, (sending id pb' (rcv + 16) tx (snt + j), mkWorld h4 (net w3))) /\
      PacketBatch.array pb' = [] /\ PacketBatch.batch_ok pb' /\
      length (PacketBatch.spare pb') = length (PacketBatch.spare pb).
Proof using A.
  intros id Hs Hq Hqok Hqc Hm Hok Hnil Hsp Hr0 Hr1 Hs0 Hs1. split; [intros; by eapply test_built|].
  destruct (send_packets_ok 16 pr q [] q w Hs Hq (received_nil q Hqok)) as (ps & q1 & w1 & Hrun & Hlen & Hprod & Hnet & Hq1ok & Hm1 & Hc1).
  rewrite Hqc, take_ge in Hc1 by (simpl; lia). simpl in Hc1.
  assert (Hcap : zlen (PacketBatch.spare pb) < 2 ^ 31).
  { destruct Hok as [_ Hc]. unfold PacketBatch.vec_capacity in Hc. rewrite Hnil in Hc. simpl in Hc. lia. }
  destruct (queue_recv id (PacketBatch.spare pb) q1 w1) as (q' & Hrecv & Hqok' & Hqc' & Hqm'); rewrite ?Hc1 in *; try done; try lia.
  { by rewrite Hnet, (get_set (get := queues) (set := set_queues)), lookup_insert_eq. }
  exists ps, q', w1. split; [unfold execute, PacketCreator_Executable; erewrite sbind_Ret by done; by erewrite zoom_Ret by exact Hrun|].
  split; [done|]. split; [done|]. split; [done|]. split; [done|]. split; [congruence|].
  rewrite Hnet, (get_set (get := queues) (set := set_queues)), insert_insert_eq, (set_set (get := queues) (set := set_queues)) in Hrecv.
  intros w2 j w3 h4 Hj Hf4. fold w2 in Hrecv. pose proof Hprod as (Hnd & _ & _ & Hh).
  assert (Htake : take (Z.to_nat (zlen ps)) (ps ++ drop (length ps) (PacketBatch.spare pb)) = ps) by (by rewrite Nat2Z.id, take_app_length).
  assert (Hacted : acted (Receive.mkReceive pb (mkConsumer id) rcv) w1
    (Receive.mkReceive (PacketBatch.received_batch pb (Ok (zlen ps)) (ps ++ drop (length ps) (PacketBatch.spare pb))) (mkConsumer id) (rcv + zlen ps))
    w2 (replicate (length ps) generated)).
  { apply receive_acted; rewrite ?Htake; try done; rewrite ?length_app, ?length_drop; try lia. }
  assert (Harr : PacketBatch.array (PacketBatch.received_batch pb (Ok (zlen ps)) (ps ++ drop (length ps) (PacketBatch.spare pb))) = ps) by exact Htake.
  replace 16 with (zlen ps) by lia.
  apply (forward_acted (fun (_ : bool) (r : Receive.ReceiveBatch MpscConsumer) => r) pb _ (mkConsumer id) rcv _ tx snt w1 w2 _ Hacted);
    rewrite ?Harr; try done; [|lia].
  unfold PacketBatch.vec_capacity. rewrite Harr. simpl. rewrite Nat2Z.id, length_drop, length_app, length_drop. lia.
Qed.

End creation.
End Generator.

(** ** A pool of sixty-four mbufs *)

Module GeneratorSample.
Import Sample BalancingSample Generator.

#[local] Existing Instance release.
#[local] Existing Instance site_queues.
#[local] Existing Instance site_tx.
#[local] Instance fuel : Fuel := 32%nat.

Definition empty_mbuf : MBuf := mkMBuf 4096 0 1 0 0 128 (replicate 128 0) (replicate 128 0).

(** Sixty-four mbufs at addresses other than 0 *)
#[local] Instance pool : Zcsi := {|
  mbuf_alloc h := if decide (base.size (dom h) < 64)%nat then let p := fresh ({[0]} ∪ dom h) in Ret (p, <[p := empty_mbuf]> h) else Ret (0, h);
  mbuf_free p h := Ret (tt, delete p h);
  mbuf_alloc_bulk _ _ := sret (1, []);
  mbuf_free_bulk l h := Ret (0, without l h)
|}.

Definition left_over (n : nat) (s : gset Z) : Prop := (n + base.size s <= 64)%nat.

#[local] Instance pool_allocates : Allocates left_over.
Proof.
  intros n h Hs. set (p := fresh ({[0]} ∪ dom h)). assert (Hp : p ∉ {[0]} ∪ dom h) by apply is_fresh. exists p, empty_mbuf.
  unfold left_over in *. split; [simpl; by rewrite decide_True by lia|]. split; [set_solver|].
  split; [apply not_elem_of_dom; set_solver|]. split; [split; [by apply (bool_decide_unpack _)|done]|].
  rewrite size_union by set_solver. rewrite size_singleton. lia.
Qed.

Definition started : World site := mkWorld ∅ (mkWire [] [], <[7 := queue32]> ∅).

Lemma generator_sends_witness :
  exists ps q' w1,
    execute (new (mkProducer 7), started) = Ret (tt, (new (mkProducer 7), w1)) /\ length ps = 16%nat /\
    produced ∅ (heap w1) ps /\ Mpsc.contents q' = [] /\
    let w2 := mkWorld (heap w1) (set_queues (<[7 := q']> (queues (net started))) (net started)) : World site in
    forall j w3 h4, sent_by tt ps w2 j w3 -> PacketBatch.freed (drop (Z.to_nat j) ps) (heap w3) h4 ->
    exists pb',
      execute (sending 7 batch32 0 tt 0, w1) = Ret (tt, (sending 7 pb' (0 + 16) tt (0 + j), mkWorld h4 (net w3))) /\
      PacketBatch.array pb' = [].
Proof.
  destruct (generator_sends (mkProducer 7) tt batch32 0 0 queue32 started) as (_ & ps & q' & w1 & He & Hl & Hp & _ & Hc & _ & Hx).
  - unfold left_over. vm_compute. lia.
  - reflexivity.
  - exact queue32_ok.
  - reflexivity.
  - done.
  - by split; vm_compute.
  - reflexivity.
  - vm_compute. lia.
  - unfold uint. lia.
  - lia.
  - unfold uint. lia.
  - lia.
  - exists ps, q', w1. split; [exact He|]. split; [exact Hl|]. split; [exact Hp|]. split; [exact Hc|].
    intros w2 j w3 h4 Hj Hf. destruct (Hx j w3 h4 Hj Hf) as (pb' & Hr & Ha & _). exists pb'. split; [exact Hr|exact Ha].
Defined.

End GeneratorSample.
