(* ===== verification/Delay.v ===== *)
(** * A network function from its configuration to its shutdown ([test/shutdown-test])

    [delay] exchanges the Ethernet addresses of every packet and spins for a while; the
    program of [test/shutdown-test] installs one such pipeline per queue on every core, runs
    the schedulers and stops the system. Here everything meets: initialization hands out the
    queues, the context commands the scheduler threads, a scheduler runs the pipelines of its
    core, pipelines move mbufs between the port and the application. *)

From stdpp Require Import pretty.
From S2P Require Import Prelude Headers Packet Batch Operators Pipelines Scheduler Config Ports Display Context Queues.
From S2P Require Import Forwarding Functions NfPipelines.
Import Mbuf Pkt Phy.

(** ** The closure *)

Module Delaying.
Import Swapping.

Section closure.
Context {P : Profile} {F : Fuel}.

(** [while d < delay { lat(); d += 1; }]: [lat] is a [nop]. *)
Fixpoint delay_loop (fuel : nat) (d delay : Z) : outcome Z :=
  if d <? delay then
    match fuel with
    | O => NoFuel
    | S fuel => let! d := uadd 64 d 1 in delay_loop fuel d delay
    end
  else Ret d.

Lemma delay_loop_returns fuel d delay :
  0 <= d -> delay < 2 ^ 64 -> (Z.to_nat (delay - d) <= fuel)%nat -> delay_loop fuel d delay = Ret (Z.max d delay).
Proof.
  revert d. induction fuel as [|fuel IH]; intros d Hd Hb Hf; cbn [delay_loop]; destruct (Z.ltb_spec d delay); try lia.
  - f_equal. lia.
  - rewrite uadd_ok by lia. cbn [obind]. rewrite IH by lia. f_equal. lia.
  - f_equal. lia.
Qed.

(** What the closure of [delay] captures *)
Record Delay : Type := mkDelay { delay_arg : Z }.

#[local] Instance delay_fn : FnMut Delay (Packet Mac.MacHeader EmptyMetadata) (Packet Mac.MacHeader EmptyMetadata) :=
  fun pkt '(c, h) =>
    let! '(r, h) := pkt_refcnt pkt h in
    let! _ := assert_ (r =? 1) (Ret tt) in
    let! '(_, h) := swap_header pkt h in
    let! _ := delay_loop loop_fuel 0 (delay_arg c) in
    Ret (pkt, (c, h)).

#[local] Instance delay_frames : FrameFn Delay Mac.MacHeader EmptyMetadata.
Proof.
  refine {| step pos c fr :=
    if (0 <=? pos) && (pos + 14 <=? zlen fr) then
      let! _ := delay_loop loop_fuel 0 (delay_arg c) in Ret (c, swapped pos fr)
    else Undef |}.
  - intros pos c fr c' fr' Hb. destruct (Z.leb_spec 0 pos), (Z.leb_spec (pos + 14) (zlen fr)); try done.
    intros (? & _ & [= _ <-])%obind_Ret_inv. split; [by apply swapped_length|by apply swapped_bytes_ok].
  - intros h p m pos c c' fr' Hok Hr. destruct (_ && _); [|done]. intros (d & Hd & [= <- <-])%obind_Ret_inv. eexists.
    unfold call_mut, delay_fn.
    assert (Hrc : pkt_refcnt (packet_at p m pos : Packet Mac.MacHeader EmptyMetadata) h = Ret (1, h)).
    { unfold pkt_refcnt. eapply peek_ok; [apply Hok|]. unfold refcnt. by rewrite Hr. }
    rewrite Hrc. cbn [obind]. change (1 =? 1) with true. cbn [assert_ obind]. rewrite (swap_header_ok _ _ _ _ Hok). cbn [obind].
    by rewrite Hd.
Defined.

End closure.

(** ** One execution between two queues *)

Lemma without_received l1 l2 l frs (ms h : Heap) :
  l1 ++ l2 ≡ₚ l -> ms ##ₘ h -> (forall p, is_Some (ms !! p) <-> p ∈ l) -> without l2 (without l1 (reframed l frs (ms ∪ h))) = h.
Proof.
  intros Hl Hd Hm. apply map_eq. intros p. rewrite !lookup_without.
  assert (Hp : p ∈ l <-> p ∈ l1 \/ p ∈ l2) by (rewrite <-Hl; apply elem_of_app). destruct (decide (p ∈ l)) as [Hin|Hin].
  - destruct (proj2 (Hm p) Hin) as [m Hmp]. rewrite (map_disjoint_Some_l _ _ _ _ Hd Hmp). repeat case_decide; tauto.
  - rewrite reframed_other by done. rewrite lookup_union_r by (apply eq_None_not_Some; by rewrite Hm).
    repeat case_decide; tauto.
Qed.

Section pipeline.
Context {P : Profile} {Z_ : Zcsi} {F : Fuel} {Net : Type} {H : HasHost Net} {D : Dpdk Net}.
#[local] Existing Instances delay_fn delay_frames.

(** Mbufs with frames that the header fits in *)
Lemma owns_holds (h : Heap) l :
  owns (T2 := Mac.MacHeader) h l -> exists frs, holds h l frs /\ Forall (fun fr => 14 < zlen fr) frs.
Proof.
  intros [_ Ho]. induction l as [|p l IH]; [exists []; by split; constructor|].
  destruct IH as (frs & Hh & Hs); [intros; apply Ho; by right|]. destruct (Ho p) as (m & Hm & Hwf & Hr & Hsz); [by left|].
  exists (frame m :: frs). pose proof (length_frame m Hwf). simpl in Hsz. unfold Mac.HDR_SIZE in Hsz.
  split; constructor; try done; [by exists m|lia].
Qed.

Lemma holds_owns (h : Heap) l frs :
  NoDup l -> holds h l frs -> Forall (fun fr => 14 < zlen fr) frs -> owns (T2 := Mac.MacHeader) h l.
Proof.
  intros Hnd Hh Hs. split; [done|]. intros p [i Hp]%list_elem_of_lookup.
  destruct (Forall2_lookup_l _ _ _ _ _ Hh Hp) as (fr & Hfr & m & Hm & Hwf & Hr & <-).
  exists m. split; [done|]. split; [done|]. split; [done|]. pose proof (length_frame m Hwf).
  pose proof (Forall_lookup_1 _ _ _ _ Hs Hfr) as Hl. simpl in *. unfold Mac.HDR_SIZE. lia.
Qed.

(** What the closure makes of the frames, whatever the delay *)
Lemma delay_steps d frs :
  0 <= d < 2 ^ 64 -> (Z.to_nat d <= loop_fuel)%nat -> Forall (fun fr => 14 < zlen fr) frs ->
  Forall (parses (Parsed.ParsedBatch Mac.MacHeader (Receive.ReceiveBatch PortQueue))) frs /\
  steps (V := Parsed.ParsedBatch Mac.MacHeader (Receive.ReceiveBatch PortQueue)) (mkDelay d) frs =
    Ret (mkDelay d, swapped 0 <$> frs).
Proof.
  intros Hd Hf Hs. induction Hs as [|fr frs Hl _ [IHp IHs]]; [by split; [constructor|]|]. split.
  - constructor; [|done]. split; [done|]. split; [done|].
    change (behind (V := Receive.ReceiveBatch PortQueue) fr) with 0. simpl. unfold Mac.HDR_SIZE. lia.
  - assert (Hst : step Mac.MacHeader EmptyMetadata 0 (mkDelay d) fr = Ret (mkDelay d, swapped 0 fr)).
    { cbn [step delay_frames]. rewrite (proj2 (Z.leb_le (0 + 14) _)) by lia. cbn [Z.leb Z.compare andb].
      by rewrite delay_loop_returns by (cbn [delay_arg]; lia). }
    cbn [steps]. change (position (Parsed.ParsedBatch Mac.MacHeader (Receive.ReceiveBatch PortQueue)) fr) with 0.
    rewrite Hst. cbn [obind]. by rewrite IHs.
Qed.

(** [delay(parent, delay_arg)] *)
Definition delay {V : Type} (parent : V) (d : Z) : Transform.TransformBatch (Parsed.ParsedBatch Mac.MacHeader V) Delay :=
  Build.transform (Build.parse Mac.MacHeader parent) (mkDelay d).

(** [delay(ReceiveBatch::new(port.clone()), delay_arg).send(port.clone())] *)
Definition pipeline : Type :=
  Send.SendBatch PortQueue (Transform.TransformBatch (Parsed.ParsedBatch Mac.MacHeader (Receive.ReceiveBatch PortQueue)) Delay).
Definition pipeline_on (d : Z) (port : PortQueue) : outcome pipeline :=
  let! b := Receive.new port in Ret (Build.send (delay b d) port).

(** The pipeline between executions *)
Definition delaying (d : Z) (pb : PacketBatch.PacketBatch) (q : PortQueue) (rcv snt : Z) : pipeline :=
  wrapped (fun v => v) pb q rcv (mkDelay d) q snt.

Lemma pipeline_on_ready d q : exists pb, pipeline_on d q = Ret (delaying d pb q 0 0) /\ ready 32 pb.
Proof. eexists. split; [done|]. split_and!; [|done|done]. by split. Qed.

Context {L : OwnershipLaws (T2 := Mac.MacHeader)}.

Lemma delay_once d n pb q rcv snt (w : World Net) r0 t0 :
  0 <= d < 2 ^ 64 -> (Z.to_nat d <= loop_fuel)%nat -> ready n pb -> (n <= loop_fuel)%nat -> rx_id q <> tx_id q ->
  counters (net w) !! rx_id q = Some r0 -> counters (net w) !! tx_id q = Some t0 ->
  Forall (fun x => 0 <= x /\ x + Z.of_nat n < 2 ^ 64) [rcv; snt; r0; t0] ->
  exists pb' w' r k,
    execute (delaying d pb q rcv snt, w) = Ret (tt, (delaying d pb' q (rcv + r) (snt + k), w')) /\
    0 <= k <= r /\ r <= Z.of_nat n /\ ready n pb' /\ heap w' = heap w /\
    counters (net w') = <[tx_id q := t0 + k]> (<[rx_id q := r0 + r]> (counters (net w))).
Proof using L.
  intros Hd Hdf (Hok & Hnil & Hn) Hfuel Hne Hr Ht Hb.
  rewrite !Forall_cons in Hb. destruct Hb as ([??] & [??] & [??] & [??] & _).
  assert (Hsm : zlen (PacketBatch.spare pb) < 2 ^ 31).
  { destruct Hok as [_ Hc]. unfold PacketBatch.vec_capacity in Hc. by rewrite Hnil in Hc. }
  destruct (queue_receives (T2 := Mac.MacHeader) q (PacketBatch.spare pb) w r0)
    as (r & pkts & ms & w1 & Hrecv & Hrb & Hl & Hc1 & Hh1 & Hdis & Ho & Hms); [done|lia..|].
  set (mbufs := take (Z.to_nat r) pkts) in *.
  assert (Hlm : zlen mbufs = r) by (unfold mbufs; rewrite length_take; lia).
  pose proof (owns_union ms (heap w) mbufs Ho) as Ho1. rewrite <-Hh1 in Ho1.
  destruct (owns_holds _ _ Ho1) as (frs & Hh & Hsz). destruct (delay_steps d frs Hd Hdf Hsz) as [Hps Hst].
  pose proof (steps_shapes (V := Parsed.ParsedBatch Mac.MacHeader (Receive.ReceiveBatch PortQueue)) _ _ _ _
    (holds_bytes_ok _ _ _ Hh) Hst) as Hsh.
  set (w2 := mkWorld (reframed mbufs (swapped 0 <$> frs) (heap w1)) (net w1)).
  assert (Ho2 : owns (T2 := Mac.MacHeader) (heap w2) mbufs).
  { apply (holds_owns _ _ (swapped 0 <$> frs)); [apply Ho|by apply (reframed_holds _ _ frs); [apply Ho|..]|].
    clear -Hsz Hsh. induction Hsz as [|fr frs Hl _ IH]; [constructor|]. apply Forall2_cons in Hsh as [[Hs _] Hsh].
    constructor; [lia|by apply IH]. }
  destruct (queue_transmits q mbufs w2 t0) as (k & w3 & Hs & Hkb & Hc3 & Hh3); [done| |lia..|].
  { change (net w2) with (net w1). rewrite Hc1. by rewrite lookup_insert_ne. }
  destruct (owns_split (T2 := Mac.MacHeader) (heap w2) mbufs (take (Z.to_nat k) mbufs) (drop (Z.to_nat k) mbufs)) as (_ & Hdr & Hd2);
    [done|by rewrite take_drop|].
  destruct (wrapped_execute (fun v => v) pb q rcv (mkDelay d) q snt w w1 w3 r pkts frs (mkDelay d) (swapped 0 <$> frs) k
    (without (drop (Z.to_nat k) mbufs) (heap w3))) as (pb' & He & Hnil' & Hok' & Hsp' & _); try done; try lia.
  1-2: unfold uint; lia.
  { apply Ho. }
  { apply (freed_without (T2 := Mac.MacHeader)). rewrite Hh3. apply owns_without; [done|]. intros p Hp Hp'. by apply (Hd2 p). }
  exists pb'. eexists _, r, k. split; [exact He|]. split; [lia|]. split; [lia|]. split; [split_and!; try done; lia|].
  split; [|cbn [net]; rewrite Hc3; change (net w2) with (net w1); by rewrite Hc1].
  cbn [heap]. rewrite Hh3. cbn [heap w2]. rewrite Hh1.
  apply without_received with (ms := ms); [by rewrite take_drop|done|]. intros p. split; [apply Hms|].
  intros Hp. destruct Ho as [_ Ho]. destruct (Ho p Hp) as (m & Hm & _). eauto.
Qed.

End pipeline.

(** ** The program *)

(** Where a scheduler thread runs: the world, the time-stamp counter, and what was printed *)
Record Machine (Net Clk : Type) : Type := mkMachine { mworld : World Net; clk : Clk; printed : list string }.
#[global] Arguments mkMachine {Net Clk}.
#[global] Arguments mworld {Net Clk}.
#[global] Arguments clk {Net Clk}.
#[global] Arguments printed {Net Clk}.

Section program.
Context {P : Profile} {Z_ : Zcsi} {F : Fuel} {Net Clk : Type} {H : HasHost Net} {D : Dpdk Net}.
(** The instruction that reads the counter *)
Context (rdtsc : St Clk Z).
#[local] Existing Instances delay_fn delay_frames.

Abbreviation machine := (Machine Net Clk).

Definition on_world {A} (m : St (World Net) A) : St machine A :=
  zoom mworld (fun w s => mkMachine w (clk s) (printed s)) m.
Definition println (line : string) : St machine unit :=
  smodify (fun s => mkMachine (mworld s) (clk s) (printed s ++ [line])).

#[local] Instance machine_clock : Standalone.Clock machine :=
  zoom clk (fun c s => mkMachine (mworld s) c (printed s)) rdtsc.

(** What the installed closure captured is the delay. *)
Abbreviation Sched := (Standalone.StandaloneScheduler pipeline (Context.Installer Z)).
Abbreviation Sch A := (St (Sched * Standalone.Env machine) A).

Fixpoint print_ports (d : Z) (ports : list PortQueue) : Sch unit :=
  match ports with
  | [] => sret tt
  | q :: ports =>
      let* mac := Standalone.in_world (on_world (mac_address (queue_port q))) in
      let* _ := Standalone.in_world (println ("Receiving port " +:+ to_string mac +:+ " rxq " +:+ pretty (rxq q) +:+
        " txq " +:+ pretty (txq q) +:+ " w/ delay " +:+ pretty d)) in
      print_ports d ports
  end.

Fixpoint add_tasks (l : list pipeline) : Sch unit :=
  match l with
  | [] => sret tt
  | t :: l =>
      let* r := Standalone.add_task t in
      let* _ := slift (unwrap_ok r) in
      add_tasks l
  end.

(** [test(ports, sched, delay_arg)] *)
Definition test (ports : list PortQueue) (d : Z) : Sch unit :=
  let* _ := print_ports d ports in
  let* pipelines := slift (collect (pipeline_on d) ports) in
  let* _ := Standalone.in_world (println ("Running " +:+ pretty (zlen pipelines) +:+ " pipelines")) in
  add_tasks pipelines.

(** The closure that [main] installs takes the physical queues of a core. *)
#[local] Instance runtime : Standalone.Runtime pipeline (Context.Installer Z) machine := {|
  Standalone.task_execute t m :=
    let! '(_, (t, w)) := execute (t, mworld m) in Ret (t, mkMachine w (clk m) (printed m));
  Standalone.call_run f s m :=
    match f with
    | Context.OnPorts d queues =>
        let! '(_, (s, e)) := test queues d (s, Standalone.mkEnv m []) in Ret (s, Standalone.world e)
    | Context.OnVirtual _ _ => Panic
    end
|}.

(** ** What the counter and the driver promise *)

(** The counter never goes back, and asking for the address of a port changes nothing of the
    application's. *)
Class MachineLaws (reading : Clk -> Z) : Prop := {
  ticks c : exists now c', rdtsc c = Ret (now, c') /\ reading c <= now < 2 ^ 64 /\ reading c' = now;
  asks port (w : World Net) : exists mac w', rte_eth_macaddr_get port w = Ret (mac, w') /\ heap w' = heap w /\
    counters (net w') = counters (net w)
}.
Context {reading : Clk -> Z} {ML : MachineLaws reading} {L : OwnershipLaws (T2 := Mac.MacHeader)}.

Definition same_buffers (m m' : machine) : Prop :=
  heap (mworld m') = heap (mworld m) /\ counters (net (mworld m')) = counters (net (mworld m)).

(** *** Installing *)

Lemma print_ports_ok d ports (s : Sched) e :
  exists m', print_ports d ports (s, e) = Ret (tt, (s, Standalone.mkEnv m' (Standalone.answered e))) /\
    same_buffers (Standalone.world e) m' /\ clk m' = clk (Standalone.world e).
Proof using ML.
  revert e. induction ports as [|q ports IH]; intros [m an]; cbn [print_ports].
  { exists m. by split_and!. }
  destruct (asks (port (queue_port q)) (mworld m)) as (mac & w' & Hm & Hh & Hc).
  erewrite sbind_Ret by (apply zoom_Ret, zoom_Ret; exact Hm). erewrite sbind_Ret by done.
  match goal with |- context [print_ports d ports (_, ?e)] => destruct (IH e) as (m' & Hr & [Hh' Hc'] & Hk) end.
  simpl in Hh', Hc', Hk. exists m'. split; [exact Hr|]. simpl. split; [|done]. split; simpl; congruence.
Qed.

Lemma add_tasks_ok l (s : Sched) e :
  exists rs m', add_tasks l (s, e) =
      Ret (tt, (Standalone.set_run_q (Standalone.run_q s ++ rs) s, Standalone.mkEnv m' (Standalone.answered e))) /\
    Standalone.task <$> rs = l /\ Forall (fun r => Standalone.cycles r = 0) rs /\
    mworld m' = mworld (Standalone.world e) /\ reading (clk (Standalone.world e)) <= reading (clk m').
Proof using ML.
  revert s e. induction l as [|t l IH]; intros s [m an]; cbn [add_tasks].
  { exists [], m. rewrite app_nil_r. split_and!; try done. by destruct s. }
  destruct (ticks (clk m)) as (now & c' & Ht & Hn & Hr).
  erewrite sbind_Ret.
  2: { unfold Standalone.add_task, Standalone.from_task, Standalone.from_boxed_task. rewrite sbind_assoc.
       erewrite sbind_Ret by (apply zoom_Ret, zoom_Ret; exact Ht). done. }
  erewrite sbind_Ret by done. cbn [fst snd].
  match goal with |- context [add_tasks l (?s, ?e)] => destruct (IH s e) as (rs & m' & Hrs & Htk & Hcy & Hw & Hk) end.
  simpl in Hw, Hk. exists (Standalone.mkRunnable t 0 now :: rs), m'. split_and!.
  - etransitivity; [exact Hrs|]. do 3 f_equal. unfold Standalone.set_run_q. simpl. by rewrite <-app_assoc.
  - by rewrite fmap_cons, Htk.
  - by constructor.
  - done.
  - simpl. lia.
Qed.

(** The task of a queue: how much it received and sent is what the counters of the queue say. *)
Definition serves (d bound now : Z) (cnt : gmap Z Z) (q : PortQueue) (r : Standalone.Runnable pipeline) : Prop :=
  exists pb rcv snt, Standalone.task r = delaying d pb q rcv snt /\ ready 32 pb /\ 0 <= snt <= rcv /\ rcv <= bound /\
    cnt !! rx_id q = Some rcv /\ cnt !! tx_id q = Some snt /\ 0 <= Standalone.cycles r <= now.

Lemma serves_nothing d now cnt q r :
  serves d 0 now cnt q r -> exists pb, Standalone.task r = delaying d pb q 0 0 /\ ready 32 pb.
Proof.
  intros (pb & rcv & snt & Ht & Hr & Hs & Hb & _). exists pb. assert (rcv = 0 /\ snt = 0) as [-> ->] by lia. done.
Qed.

Lemma pipelines_collected d qs : exists l, collect (pipeline_on d) qs = Ret l /\
  Forall2 (fun q t => exists pb, t = delaying d pb q 0 0 /\ ready 32 pb) qs l.
Proof.
  induction qs as [|q qs (l & Hl & Hf)]; [by exists []|]. destruct (pipeline_on_ready d q) as (pb & Hp & Hr).
  exists (delaying d pb q 0 0 :: l). cbn [collect]. rewrite Hp. cbn [obind]. rewrite Hl. split; [done|]. constructor; eauto.
Qed.

Lemma separate_zero qs cnt q : separate qs cnt -> q ∈ qs -> cnt !! rx_id q = Some 0 /\ cnt !! tx_id q = Some 0.
Proof.
  intros [_ Hz] Hq. rewrite Forall_forall in Hz. split; apply Hz, list_elem_of_bind; exists q; (split; [|done]);
    unfold queue_ids, rx_id, tx_id; rewrite !elem_of_cons; auto.
Qed.

(** Installing gives every queue its task, with nothing received or sent. *)
Lemma test_ok d qs (s : Sched) e now :
  separate qs (counters (net (mworld (Standalone.world e)))) -> 0 <= now ->
  exists rs m', test qs d (s, e) =
      Ret (tt, (Standalone.set_run_q (Standalone.run_q s ++ rs) s, Standalone.mkEnv m' (Standalone.answered e))) /\
    same_buffers (Standalone.world e) m' /\ reading (clk (Standalone.world e)) <= reading (clk m') /\
    Forall2 (serves d 0 now (counters (net (mworld m')))) qs rs.
Proof using ML.
  intros Hs Hnow. unfold test. destruct (print_ports_ok d qs s e) as (m1 & Hp & [Hh1 Hc1] & Hk1).
  erewrite sbind_Ret by exact Hp. destruct (pipelines_collected d qs) as (l & Hl & Hfl).
  rewrite Hl. erewrite sbind_Ret by done. erewrite sbind_Ret by done.
  match goal with |- context [add_tasks l (?s, ?e)] => destruct (add_tasks_ok l s e) as (rs & m' & Hrs & Htk & Hcy & Hw & Hk) end.
  simpl in Hw, Hk. exists rs, m'. rewrite <-Hk1. split_and!; [exact Hrs|split; congruence|done|].
  rewrite Hw, Hc1. subst l. clear -Hfl Hcy Hs Hnow. revert rs Hfl Hcy.
  assert (Hz : forall q, q ∈ qs -> _ /\ _) by (intros q; exact (separate_zero qs _ q Hs)). clear Hs.
  induction qs as [|q qs IH]; intros rs Hfl Hcy.
  - apply Forall2_nil_inv_l, fmap_nil_inv in Hfl as ->. constructor.
  - destruct rs as [|r rs]; [by apply Forall2_nil_inv_r in Hfl|]. rewrite fmap_cons in Hfl.
    apply Forall2_cons in Hfl as [(pb & Ht & Hr) Hfl]. apply Forall_cons in Hcy as [Hc Hcy]. constructor.
    + exists pb, 0, 0. destruct (Hz q) as [??]; [by left|]. rewrite Hc. by split_and!.
    + apply IH; [|done|done]. intros x Hx. apply Hz. by right.
Qed.

(** *** Running *)

Lemma clock_reads (m : machine) now c' :
  rdtsc (clk m) = Ret (now, c') -> Standalone.rdtsc_unsafe m = Ret (now, mkMachine (mworld m) c' (printed m)).
Proof. intros Hr. unfold Standalone.rdtsc_unsafe, machine_clock, zoom. by rewrite Hr. Qed.

Lemma serves_mono d b now cnt b' now' cnt' q r :
  serves d b now cnt q r -> b <= b' -> now <= now' -> (forall id, id ∈ queue_ids q -> cnt' !! id = cnt !! id) ->
  serves d b' now' cnt' q r.
Proof.
  intros (pb & rcv & snt & Ht & Hr & Hs & Hb & Hcr & Hct & Hcy) Hbb Hnn Hid. exists pb, rcv, snt.
  unfold queue_ids, rx_id, tx_id in *. rewrite !Hid by (rewrite !elem_of_cons; auto). split_and!; (done || lia).
Qed.

Context (d : Z) (Hd : 0 <= d < 2 ^ 64) (Hdf : (Z.to_nat d <= loop_fuel)%nat) (Hfuel : (32 <= loop_fuel)%nat).

(** One round over the tasks of a core: every task runs once, the mbufs that came are gone
    again, and the counters of the queues, and no others, have advanced. *)
Lemma round_serves bound qs rs (m : machine) :
  NoDup (all_ids qs) -> 0 <= bound -> bound + 32 < 2 ^ 64 -> 0 <= reading (clk m) ->
  Forall2 (serves d bound (reading (clk m)) (counters (net (mworld m)))) qs rs ->
  exists rs' m', Standalone.run_tasks (reading (clk m)) rs m = Ret (reading (clk m'), rs', m') /\
    heap (mworld m') = heap (mworld m) /\ reading (clk m) <= reading (clk m') /\
    Forall2 (serves d (bound + 32) (reading (clk m')) (counters (net (mworld m')))) qs rs' /\
    (forall id, id ∉ all_ids qs -> counters (net (mworld m')) !! id = counters (net (mworld m)) !! id).
Proof using ML L Hd Hdf Hfuel.
  intros Hnd Hb0 Hb. revert rs m. induction qs as [|q qs IH]; intros rs m Hk Hs.
  { apply Forall2_nil_inv_l in Hs as ->. exists [], m. by split_and!. }
  apply Forall2_cons_inv_l in Hs as (r & rs1 & Hq & Hs & ->).
  change (all_ids (q :: qs)) with (queue_ids q ++ all_ids qs) in *. apply NoDup_app in Hnd as (Hndq & Hdis & Hnd).
  destruct Hq as (pb & rcv & snt & Ht & Hrd & Hrs & Hbd & Hcr & Hct & Hcy).
  assert (Hne : rx_id q <> tx_id q).
  { apply NoDup_cons in Hndq as [Hn _]. intros He. apply Hn. unfold rx_id, tx_id in He. rewrite He. by left. }
  destruct (delay_once d 32 pb q rcv snt (mworld m) rcv snt) as (pb' & w' & n & k & He & Hkn & Hn & Hrd' & Hh & Hc);
    [done..| |].
  { rewrite !Forall_cons, Forall_nil. lia. }
  destruct (ticks (clk m)) as (now & c' & Htk & Hnow & Hrc).
  set (m1 := mkMachine w' c' (printed m)).
  assert (Hother : forall id, id ∉ queue_ids q -> counters (net w') !! id = counters (net (mworld m)) !! id).
  { intros id. unfold queue_ids. rewrite !not_elem_of_cons. intros (H1 & H2 & _).
    rewrite Hc, !lookup_insert_ne by (unfold rx_id, tx_id; congruence). done. }
  destruct (IH Hnd rs1 m1) as (rs' & m' & Hrun & Hh' & Hk' & Hs' & Ho'); cbn [clk m1].
  { lia. }
  { apply Forall2_same_length_lookup_2; [by eapply Forall2_length|]. intros i x y Hx Hy.
    eapply serves_mono; [exact (Forall2_lookup_lr _ _ _ _ _ _ Hs Hx Hy)|lia|lia|]. intros id Hid. apply Hother.
    intros Hin. apply (Hdis id Hin), list_elem_of_bind. exists x. split; [done|by eapply list_elem_of_lookup_2]. }
  cbn [clk m1 mworld] in Hrun, Hh', Hk', Ho'. rewrite Hrc in Hrun, Hk'.
  exists (Standalone.mkRunnable (delaying d pb' q (rcv + n) (snt + k)) (Standalone.cycles r + (now - reading (clk m))) now :: rs'), m'.
  assert (Hrx : counters (net (mworld m')) !! rx_id q = Some (rcv + n) /\ counters (net (mworld m')) !! tx_id q = Some (snt + k)).
  { rewrite !Ho', Hc by (apply Hdis; unfold queue_ids, rx_id, tx_id; rewrite !elem_of_cons; auto).
    by rewrite lookup_insert_eq, (lookup_insert_ne _ (tx_id q)), lookup_insert_eq by done. }
  split_and!; [|congruence|lia| |].
  - cbn [Standalone.run_tasks]. cbn [Standalone.task_execute runtime]. rewrite Ht, He. cbn [obind].
    rewrite (clock_reads (mkMachine w' (clk m) (printed m)) now c' Htk). cbn [obind].
    rewrite usub_small by (unfold uint; lia). cbn [obind]. rewrite uadd_ok by lia. cbn [obind].
    change (mkMachine _ _ _) with m1. by rewrite Hrun.
  - constructor; [|done]. exists pb', (rcv + n), (snt + k). destruct Hrx. cbn [Standalone.task Standalone.cycles].
    split_and!; (done || lia).
  - intros id [H1 H2]%not_elem_of_app. rewrite Ho' by done. by apply Hother.
Qed.

Lemma rounds_serve k bound qs rs (m : machine) :
  NoDup (all_ids qs) -> 0 <= bound -> bound + 32 * Z.of_nat k < 2 ^ 64 -> 0 <= reading (clk m) ->
  Forall2 (serves d bound (reading (clk m)) (counters (net (mworld m)))) qs rs ->
  exists rs' m', Standalone.run_rounds k (reading (clk m)) rs m = Ret (reading (clk m'), rs', m') /\
    heap (mworld m') = heap (mworld m) /\
    Forall2 (serves d (bound + 32 * Z.of_nat k) (reading (clk m')) (counters (net (mworld m')))) qs rs'.
Proof using ML L Hd Hdf Hfuel.
  intros Hnd. revert bound rs m. induction k as [|k IH]; intros bound rs m Hb0 Hb Hk Hs.
  { exists rs, m. rewrite Z.add_0_r. by split_and!. }
  destruct (round_serves bound qs rs m) as (rs1 & m1 & Hr1 & Hh1 & Hk1 & Hs1 & _); [done|done|lia|done|done|].
  destruct (IH (bound + 32) rs1 m1) as (rs' & m' & Hr & Hh & Hs'); [lia..|done|].
  exists rs', m'. cbn [Standalone.run_rounds]. rewrite Hr1. cbn [obind]. rewrite Hr, Hh, Hh1. split_and!; try done.
  by replace (bound + 32 * Z.of_nat (S k)) with (bound + 32 + 32 * Z.of_nat k) by lia.
Qed.

(** C6: A core from its configuration to its shutdown. Let initialization succeed, and let
    the thread of a core that received queues be sent what a start, an installation, an
    execution and, [k] idle polls later, a stop send it. Whatever the driver delivers and
    takes, the thread returns. On the way it installs one pipeline per queue, in the order of
    the queues and with nothing received or sent, and from there its state is exactly the
    result of [k + 1] rounds, in each of which every pipeline is executed once, in order. In
    the end the application owns exactly the mbufs it owned before, and every pipeline has
    received at most 32 packets per round, and has received and sent what the counters of its
    queue say. *)
Theorem core_runs_until_shutdown {HZ : HashOrder Z} {HS : HashOrder string} {NS : PhySpec.NativeSilent}
    debug conf w0 ctx w core k fuel c0 out an :
  PhySpec.native_limits -> Forall queue_vectors (Conf.ports conf) ->
  Context.initialize_system debug conf w0 = Ret (Ok ctx, w) ->
  let qs := Context.ports_of ctx core in
  qs <> [] -> zlen qs < 2 ^ 64 -> 32 * Z.of_nat (S k) < 2 ^ 64 -> (S k * length qs <= fuel)%nat -> 0 <= reading c0 ->
  exists rs0 m0 rs m,
    Standalone.handle_requests (S (S fuel))
      (Standalone.new_with_channel (Context.arrivals k
         [Standalone.Run (Context.OnPorts d qs); Standalone.Execute; Standalone.Shutdown]),
       Standalone.mkEnv (mkMachine w c0 out) an) =
    Ret (tt, (Standalone.mkScheduler rs 0 [] false true, Standalone.mkEnv m an)) /\
    same_buffers (mkMachine w c0 out) m0 /\
    Forall2 (fun q r => exists pb, Standalone.task r = delaying d pb q 0 0 /\ ready 32 pb) qs rs0 /\
    Standalone.run_rounds (S k) (reading (clk m0)) rs0 m0 = Ret (reading (clk m), rs, m) /\
    heap (mworld m) = heap w /\
    Forall2 (serves d (32 * Z.of_nat (S k)) (reading (clk m)) (counters (net (mworld m)))) qs rs.
Proof using ML L Hd Hdf Hfuel.
  intros Hnl Hv Hi qs Hne Hlen Hk Hf Hc0.
  pose proof (initialize_separate debug conf w0 ctx w Hnl Hv Hi core) as Hsep. fold qs in Hsep.
  set (s0 := Standalone.mkScheduler [] 0 (Some Standalone.Execute :: replicate k None ++ [Some Standalone.Shutdown]) false false : Sched).
  destruct (test_ok d qs s0 (Standalone.mkEnv (mkMachine w c0 out) []) 0) as (rs & m1 & Ht & [Hh1 Hc1] & Hk1 & Hs); [done|lia|].
  assert (Hcall : Standalone.call_run (Context.OnPorts d qs) s0 (mkMachine w c0 out) = Ret (Standalone.set_run_q rs s0, m1)).
  { cbn [Standalone.call_run runtime]. by rewrite Ht. }
  simpl in Hh1, Hk1. destruct (ticks (clk m1)) as (begin & c2 & Htk & Hbe & Hr2).
  set (m2 := mkMachine (mworld m1) c2 (printed m1)).
  destruct (rounds_serve (S k) 0 qs rs m2) as (rs' & m' & Hr & Hh & Hs'); cbn [clk m2]; [apply Hsep|lia|lia|lia| |].
  { apply Forall2_same_length_lookup_2; [by eapply Forall2_length|]. intros i x y Hx Hy.
    eapply serves_mono; [exact (Forall2_lookup_lr _ _ _ _ _ _ Hs Hx Hy)|lia|lia|done]. }
  pose proof (Forall2_length _ _ _ Hs) as Hlr. exists rs, m2, rs', m'.
  split; [|split; [by split|split; [|split; [exact Hr|split; [rewrite Hh; exact Hh1|exact Hs']]]]].
  2: { eapply Forall2_impl; [exact Hs|]. intros q r. apply serves_nothing. }
  cbn [clk m2] in Hr. rewrite Hr2 in Hr.
  apply (Context.thread_runs_pipeline ctx core d k fuel rs (Standalone.mkEnv (mkMachine w c0 out) an) m1 begin m2 (reading (clk m'))).
  - exact Hcall.
  - intros ->. by destruct qs.
  - lia.
  - exact (clock_reads m1 begin c2 Htk).
  - exact Hr.
  - lia.
Qed.

End program.

End Delaying.

(** ** A core of the sample system *)

Module DelaySample.
Import Delaying PortSample ContextSample ForwardingSample.

#[local] Existing Instances Prelude.release Sample.zcsi traffic traffic_laws ContextSample.listed.
#[local] Instance fuel40 : Fuel := 40%nat.

(** A counter that saturates *)
Definition count_up (c : Z) : outcome (Z * Z) := Ret (Z.min (c + 1) (2 ^ 64 - 1), c + 1).
Definition value (c : Z) : Z := Z.min c (2 ^ 64 - 1).

#[local] Instance sample_laws : MachineLaws count_up value.
Proof.
  split.
  - intros c. eexists _, _. split; [done|]. unfold value. split; [lia|done].
  - intros port w. eexists _, _. by split.
Qed.

#[local] Instance traffic_silent : PhySpec.NativeSilent (D := traffic).
Proof. by split; intros; intros w a w' [= _ <-]. Qed.

Definition initialized1 : outcome (result Context.NetBricksContext * World host) := Context.initialize_system debug conf12 world0.
Definition ctx1 : Context.NetBricksContext := match initialized1 with Ret (Ok c, _) => c | _ => Context.default_ctx end.
Definition w1 : World host := match initialized1 with Ret (_, w) => w | _ => world0 end.
Definition qs1 : list PortQueue := Context.ports_of ctx1 1.

Lemma core_runs_until_shutdown_witness :
  exists rs0 m0 rs m,
    Standalone.handle_requests (CW := machine_clock count_up) (R := runtime count_up) 5
      (Standalone.new_with_channel (Context.arrivals 2
         [Standalone.Run (Context.OnPorts 3 qs1); Standalone.Execute; Standalone.Shutdown]),
       Standalone.mkEnv (mkMachine w1 0 []) []) =
    Ret (tt, (Standalone.mkScheduler rs 0 [] false true, Standalone.mkEnv m [])) /\
    same_buffers (mkMachine w1 0 []) m0 /\
    Forall2 (fun q r => exists pb, Standalone.task r = delaying 3 pb q 0 0 /\ ready 32 pb) qs1 rs0 /\
    Standalone.run_rounds (CW := machine_clock count_up) (R := runtime count_up) 3 (value (clk m0)) rs0 m0 = Ret (value (clk m), rs, m) /\
    heap (mworld m) = heap w1 /\
    Forall2 (serves 3 96 (value (clk m)) (counters (net (mworld m)))) qs1 rs.
Proof.
  assert (Hd : 0 <= 3 < 2 ^ 64) by lia. assert (Hf : (Z.to_nat 3 <= @loop_fuel fuel40)%nat) by (apply Nat.leb_le; reflexivity).
  assert (Hn : (32 <= @loop_fuel fuel40)%nat) by (apply Nat.leb_le; reflexivity).
  apply (core_runs_until_shutdown count_up 3 Hd Hf Hn debug conf12 world0 ctx1 w1 1 2 3 0 [] [] traffic_limits).
  - constructor; [|constructor]. split; vm_compute; reflexivity.
  - vm_compute. reflexivity.
  - vm_compute. discriminate.
  - vm_compute. reflexivity.
  - reflexivity.
  - apply Nat.leb_le. vm_compute. reflexivity.
  - vm_compute. discriminate.
Defined.

End DelaySample.
