(* ===== verification/Chain.v ===== *)
(** * Chains of network functions ([test/chain-test])

    [chain_nf] exchanges the Ethernet addresses of every packet, counts its time to live down
    and drops it when nothing is left; [chain] puts [len] of them behind each other. A stage
    works on whatever batch it is given, so what a chain does follows by induction on its
    length from what one stage does to the batch in front of it. *)

From S2P Require Import Prelude Headers IpHeader Packet Batch Operators Pipelines Forwarding Functions NfPipelines Stages.
Import Mbuf Pkt.

(** ** One stage *)

Module Chaining.
Import Swapping.

(** The closures of [chain_nf] on the Internet header capture nothing. *)
Inductive Countdown : Type := countdown.
Inductive Living : Type := living.

Section closures.
Context {P : Profile}.

#[global] Instance countdown_fn : FnMut Countdown (Packet Ip.IpHeader EmptyMetadata) (Packet Ip.IpHeader EmptyMetadata) :=
  fun pkt '(c, h) =>
    let! '(hdr, h) := get_header pkt h in
    let! ttl := usub 8 (Ip.ttl hdr) 1 in
    let! '(_, h) := get_mut_header pkt (fun _ => Ip.set_ttl hdr ttl) h in
    Ret (pkt, (c, h)).

#[global] Instance living_fn : FnRef Living (Packet Ip.IpHeader EmptyMetadata) bool := fun pkt h c =>
  let! '(hdr, _) := get_header pkt h in
  Ret (negb (Ip.ttl hdr =? 0), c).

(** The time to live is the ninth byte of the header. *)
Definition ttl_at (pos : Z) (fr : list Z) : Z := nth (Z.to_nat (pos + 8)) fr 0.

Lemma encode_set_ttl h t : wf h -> uint 8 t -> encode (Ip.set_ttl h t) = splice (encode h) 8 [t].
Proof.
  intros Hh Ht. change (Ip.set_ttl h t) with (Ip.ip_set Ip.Ttl h t). rewrite Ip.ip_set_word by done.
  cbn [Ip.word_set Ip.with_w2 encode Ip.IpHeader_Packed enc_fields Ip.version_to_len Ip.id_to_foffset Ip.ttl_to_csum Ip.src_ip Ip.dst_ip].
  rewrite !le_bytes_4. rewrite getf_setf_same, !getf_setf_other by (done || lia). done.
Qed.

Lemma usub_uint w a b t : 0 <= w -> usub w a b = Ret t -> uint w t.
Proof.
  intros Hw. unfold usub, fit. destruct (_ && _) eqn:Hc.
  - intros [= <-]. apply andb_true_iff in Hc as [?%Z.leb_le ?%Z.ltb_lt]. done.
  - destruct overflow_checks; [done|]. intros [= <-]. by apply wrap_range.
Qed.

Lemma ttl_header fr pos :
  0 <= pos -> pos + 20 <= zlen fr -> bytes_ok fr -> Ip.ttl (decode (take 20 (drop (Z.to_nat pos) fr))) = ttl_at pos fr.
Proof.
  intros Hp Hl Hb. change (Ip.ttl ?h) with (Ip.ip_get Ip.Ttl h). rewrite ip_field_at by done. cbn [Ip.view].
  rewrite nth_take_drop by lia. unfold ttl_at. f_equal. lia.
Qed.

#[global] Instance countdown_frames : FrameFn Countdown Ip.IpHeader EmptyMetadata.
Proof.
  refine {| step pos c fr :=
    if (0 <=? pos) && (pos + 20 <=? zlen fr) && bool_decide (bytes_ok fr) then
      let! t := usub 8 (ttl_at pos fr) 1 in Ret (c, splice fr (pos + 8) [t])
    else Undef |}.
  - intros pos c fr c' fr' Hb. destruct (Z.leb_spec 0 pos), (Z.leb_spec (pos + 20) (zlen fr)); try done.
    case_bool_decide; [|done]. simpl. intros (t & Ht & [= _ <-])%obind_Ret_inv. apply usub_uint in Ht; [|done].
    split; [apply length_splice; simpl; lia|]. apply bytes_ok_splice; [done|]. constructor; [done|constructor].
  - intros h p m pos c c' fr' Hok _. destruct (Z.leb_spec 0 pos), (Z.leb_spec (pos + 20) (zlen (frame m))); try done.
    case_bool_decide as Hb; [|done]. simpl. intros (t & Ht & [= <- <-])%obind_Ret_inv. eexists.
    pose proof (usub_uint 8 _ _ _ ltac:(done) Ht) as Htu. pose proof Hok as (Hp & Hwf & _). pose proof (length_frame m Hwf) as Hl.
    unfold call_mut, countdown_fn. rewrite (get_header_ok _ _ _ Hok). cbn [obind].
    change (hdr_of (packet_at p m pos) m) with (decode (take 20 (drop (Z.to_nat pos) (frame m))) : Ip.IpHeader).
    rewrite ttl_header, Ht by done. cbn [obind].
    assert (Hl20 : length (take 20 (drop (Z.to_nat pos) (frame m))) = 20%nat) by (rewrite length_take, length_drop; lia).
    assert (Hlb : bytes_ok (take 20 (drop (Z.to_nat pos) (frame m)))) by (by apply bytes_ok_take, bytes_ok_drop).
    assert (Hw : get_mut_header (packet_at p m pos : Packet Ip.IpHeader EmptyMetadata)
      (fun _ => Ip.set_ttl (decode (take 20 (drop (Z.to_nat pos) (frame m)))) t) h =
      Ret (tt, <[p := with_frame m (splice (frame m) (pos + 8) [t])]> h)); [|by rewrite Hw].
    unfold get_mut_header. erewrite sbind_Ret by (by apply get_header_ok).
    rewrite encode_set_ttl by (done || by apply (decode_wf (T := Ip.IpHeader)); [|simpl; lia]).
    rewrite (encode_decode (T := Ip.IpHeader)), (take_ge _ (size_of Ip.IpHeader)) by (done || simpl; lia).
    simpl header. rewrite write_frame; [|done..|rewrite length_splice; simpl; lia].
    do 4 f_equal. replace 20%nat with (Z.to_nat 20) by done. apply splice_nested; simpl; lia.
Defined.

(** A packet that arrives with no time to live: the subtraction overflows. *)
Lemma spent_packet pos fr :
  0 <= pos -> pos + 20 <= zlen fr -> bytes_ok fr -> ttl_at pos fr = 0 ->
  step Ip.IpHeader EmptyMetadata pos countdown fr = if overflow_checks then Panic else Ret (countdown, splice fr (pos + 8) [255]).
Proof.
  intros Hp Hl Hb Ht. cbv beta iota delta [step countdown_frames].
  rewrite !(proj2 (Z.leb_le _ _)), bool_decide_eq_true_2, Ht by done. simpl. unfold usub, fit. simpl. by destruct overflow_checks.
Qed.

#[global] Instance living_frames : FrameTest Living Ip.IpHeader EmptyMetadata.
Proof.
  refine {| test pos c fr :=
    if (0 <=? pos) && (pos + 20 <=? zlen fr) && bool_decide (bytes_ok fr) then Ret (negb (ttl_at pos fr =? 0), c) else Undef |}.
  intros h p m pos c b c' Hok. destruct (Z.leb_spec 0 pos), (Z.leb_spec (pos + 20) (zlen (frame m))); try done.
  case_bool_decide as Hb; [|done]. simpl. intros [= <- <-]. unfold call_ref, living_fn. rewrite (get_header_ok _ _ _ Hok). cbn [obind].
  change (hdr_of (packet_at p m pos) m) with (decode (take 20 (drop (Z.to_nat pos) (frame m))) : Ip.IpHeader).
  by rewrite ttl_header by done.
Defined.

(** *** What a stage does to a frame *)

(** The time to live of the packet behind the Ethernet header *)
Definition ttl_of (fr : list Z) : Z := ttl_at (mac_end 0 fr) fr.

(** Time left *)
Definition alive (fr : list Z) : Prop := roomy fr /\ bytes_ok fr /\ 1 <= ttl_of fr.

Definition with_ttl (t : Z) (fr : list Z) : list Z := splice fr (mac_end 0 fr + 8) [t].
Definition hop (fr : list Z) : list Z := with_ttl (ttl_of fr - 1) (swapped 0 fr).

Lemma with_ttl_length t fr : roomy fr -> length (with_ttl t fr) = length fr.
Proof. unfold roomy. intros. pose proof (mac_end_range 0 fr). apply length_splice; simpl; lia. Qed.

Lemma mac_end_prefix fr fr' : take 14 fr' = take 14 fr -> mac_end 0 fr' = mac_end 0 fr.
Proof. intros He. unfold mac_end. by rewrite !drop_0, He. Qed.

Lemma with_ttl_mac_end t fr : roomy fr -> mac_end 0 (with_ttl t fr) = mac_end 0 fr.
Proof.
  unfold roomy. intros. pose proof (mac_end_range 0 fr). apply mac_end_prefix. unfold with_ttl, splice.
  rewrite take_app_le by (rewrite length_take; lia). rewrite take_take. f_equal. lia.
Qed.

Lemma ttl_at_splice fr pos t : 0 <= pos -> pos + 8 < zlen fr -> ttl_at pos (splice fr (pos + 8) [t]) = t.
Proof.
  intros. unfold ttl_at. rewrite nth_lookup, splice_lookup by (simpl; lia). rewrite decide_True by (simpl; lia).
  replace (_ - _)%nat with 0%nat by lia. done.
Qed.

Lemma with_ttl_ttl t fr : roomy fr -> ttl_of (with_ttl t fr) = t.
Proof.
  intros Hr. unfold ttl_of. rewrite with_ttl_mac_end by done. pose proof (mac_end_range 0 fr). unfold roomy in Hr.
  apply ttl_at_splice; lia.
Qed.

Lemma with_ttl_same fr : roomy fr -> with_ttl (ttl_of fr) fr = fr.
Proof.
  intros Hr. pose proof (mac_end_range 0 fr). unfold roomy in Hr.
  destruct (lookup_lt_is_Some_2 fr (Z.to_nat (mac_end 0 fr + 8))) as [x Hx]; [lia|].
  assert (Ht : ttl_of fr = x) by (unfold ttl_of, ttl_at; by rewrite nth_lookup, Hx).
  apply list_eq. intros i. unfold with_ttl. rewrite splice_lookup by (simpl; lia). case_decide as Hi; [|done]. simpl in Hi.
  replace i with (Z.to_nat (mac_end 0 fr + 8)) by lia. by rewrite Nat.sub_diag, Hx, Ht.
Qed.

Lemma swapped_ttl fr : roomy fr -> ttl_of (swapped 0 fr) = ttl_of fr.
Proof.
  unfold roomy. intros. pose proof (mac_end_range 0 fr). unfold ttl_of, ttl_at. rewrite Filtering.swapped_mac_end by lia.
  rewrite !nth_lookup. f_equal. set (e := Z.to_nat (mac_end 0 fr + 8)).
  replace e with (e + 0)%nat by lia. rewrite <-!lookup_drop. by rewrite Filtering.swapped_behind by lia.
Qed.

Lemma ttl_uint fr : roomy fr -> bytes_ok fr -> uint 8 (ttl_of fr).
Proof.
  unfold roomy. intros Hr Hb. pose proof (mac_end_range 0 fr). unfold ttl_of, ttl_at.
  destruct (lookup_lt_is_Some_2 fr (Z.to_nat (mac_end 0 fr + 8))) as [x Hx]; [lia|].
  rewrite nth_lookup, Hx. exact (Forall_lookup_1 _ _ _ _ Hb Hx).
Qed.

Lemma hop_ok fr : alive fr ->
  roomy (hop fr) /\ bytes_ok (hop fr) /\ ttl_of (hop fr) = ttl_of fr - 1 /\ mac_end 0 (hop fr) = mac_end 0 fr /\
  length (hop fr) = length fr.
Proof.
  intros (Hr & Hb & Ht). pose proof (swapped_roomy fr Hr) as Hs. pose proof (mac_end_range 0 fr). unfold hop.
  assert (Hme : mac_end 0 (swapped 0 fr) = mac_end 0 fr) by (apply Filtering.swapped_mac_end; unfold roomy in Hr; lia).
  assert (Hl : length (swapped 0 fr) = length fr) by (apply swapped_length; unfold roomy in Hr; lia).
  pose proof (ttl_uint fr Hr Hb) as Hu.
  split_and!.
  - unfold roomy. rewrite with_ttl_mac_end, with_ttl_length by done. exact Hs.
  - apply bytes_ok_splice; [by apply swapped_bytes_ok|]. constructor; [|constructor]. unfold uint in *. lia.
  - by apply with_ttl_ttl.
  - by rewrite with_ttl_mac_end.
  - by rewrite with_ttl_length.
Qed.

(** *** What many stages do *)

Lemma swapped_lookup fr i : 14 <= zlen fr ->
  swapped 0 fr !! i = if decide (i < 6)%nat then fr !! (i + 6)%nat else if decide (i < 12)%nat then fr !! (i - 6)%nat else fr !! i.
Proof.
  intros Hl. rewrite swapped_frame by done. assert (Hl1 : length (take 6 (drop 6 fr)) = 6%nat) by (rewrite length_take, length_drop; lia).
  assert (Hl2 : length (take 6 fr) = 6%nat) by (rewrite length_take; lia). repeat case_decide.
  - rewrite lookup_app_l by lia. rewrite lookup_take_lt, lookup_drop by lia. f_equal. lia.
  - rewrite lookup_app_r, Hl1, lookup_app_l by lia. by rewrite lookup_take_lt by lia.
  - rewrite lookup_app_r, Hl1, lookup_app_r, Hl2, lookup_drop by lia. f_equal. lia.
Qed.

Lemma swapped_with_ttl t fr : roomy fr -> swapped 0 (with_ttl t fr) = with_ttl t (swapped 0 fr).
Proof.
  intros Hr. pose proof (with_ttl_length t fr Hr) as Hl. pose proof (mac_end_range 0 fr). unfold roomy in Hr.
  assert (Hs : length (swapped 0 fr) = length fr) by (apply swapped_length; lia).
  apply list_eq. intros i. rewrite swapped_lookup by lia. unfold with_ttl. rewrite Filtering.swapped_mac_end by lia.
  rewrite !splice_lookup by (simpl; lia). rewrite swapped_lookup by lia. simpl length.
  repeat case_decide; done || lia.
Qed.

Lemma with_ttl_twice t t' fr : roomy fr -> with_ttl t (with_ttl t' fr) = with_ttl t fr.
Proof.
  intros Hr. unfold with_ttl at 1. rewrite with_ttl_mac_end by done. unfold with_ttl. apply splice_splice_same; simpl;
    pose proof (mac_end_range 0 fr); unfold roomy in Hr; lia.
Qed.

(** [n] stages: the time to live is [n] less, the addresses are exchanged if [n] is odd. *)
Definition travelled (n : nat) (flip : bool) (fr : list Z) : list Z :=
  with_ttl (ttl_of fr - Z.of_nat n) (if xorb (Nat.odd n) flip then swapped 0 fr else fr).

Lemma swapped_twice' fr : roomy fr -> swapped 0 (swapped 0 fr) = fr.
Proof. intros Hr. pose proof (mac_end_range 0 fr). unfold roomy in Hr. apply swapped_twice. lia. Qed.

Lemma travelled_roomy n b fr : roomy fr -> roomy (travelled n b fr) /\ ttl_of (travelled n b fr) = ttl_of fr - Z.of_nat n.
Proof.
  intros Hr. unfold travelled. assert (Hr' : roomy (if xorb (Nat.odd n) b then swapped 0 fr else fr)).
  { destruct (xorb _ _); [by apply swapped_roomy|done]. }
  split; [|by apply with_ttl_ttl]. unfold roomy. by rewrite with_ttl_mac_end, with_ttl_length.
Qed.

Lemma swapped_travelled n fr : roomy fr -> swapped 0 (travelled n false fr) = travelled n true fr.
Proof.
  intros Hr. unfold travelled. destruct (Nat.odd n); simpl; rewrite swapped_with_ttl by (done || by apply swapped_roomy); [|done].
  by rewrite swapped_twice'.
Qed.

Lemma hop_travelled n fr : roomy fr -> hop (travelled n false fr) = travelled (S n) false fr.
Proof.
  intros Hr. destruct (travelled_roomy n false fr Hr) as [_ Ht]. unfold hop. rewrite Ht, swapped_travelled by done.
  unfold travelled. rewrite Nat.odd_succ, <-Nat.negb_odd, !xorb_false_r, xorb_true_r.
  rewrite with_ttl_twice by (destruct (Nat.odd n); [done|by apply swapped_roomy]). f_equal. lia.
Qed.

Lemma travelled_none fr : roomy fr -> travelled 0 false fr = fr.
Proof. intros Hr. unfold travelled. simpl. rewrite Z.sub_0_r. by apply with_ttl_same. Qed.

Lemma travelled_alive n fr : alive fr -> Z.of_nat n < ttl_of fr -> alive (travelled n false fr).
Proof.
  intros (Hr & Hb & Ht) Hn. destruct (travelled_roomy n false fr Hr) as [Hr' Ht']. split; [done|]. split; [|lia].
  apply bytes_ok_splice; [destruct (xorb _ _); [by apply swapped_bytes_ok|done]|]. constructor; [|constructor].
  pose proof (ttl_uint fr Hr Hb) as Hu. unfold uint in *. lia.
Qed.

(** The elements that belong to the frames with more than [n] left *)
Definition outlasting {A} (n : nat) (frs : list (list Z)) (l : list A) : list A :=
  keep ((fun fr => bool_decide (Z.of_nat n < ttl_of fr)) <$> frs) l.

Lemma outlasting_all {A} frs (l : list A) : Forall alive frs -> length l = length frs -> outlasting 0 frs l = l.
Proof.
  intros Ha. revert l. induction Ha as [|fr frs (_ & _ & Ht) _ IH]; intros [|x l] Hl; try done. unfold outlasting. cbn [fmap list_fmap keep].
  rewrite bool_decide_true by lia. f_equal. apply IH. simpl in Hl. lia.
Qed.

Lemma outlasting_succ {A} n frs (l : list A) :
  Forall alive frs -> length l = length frs ->
  keep ((fun fr => bool_decide (2 <= ttl_of fr)) <$> (travelled n false <$> outlasting n frs frs)) (outlasting n frs l) =
  outlasting (S n) frs l.
Proof.
  intros Ha. revert l. induction Ha as [|fr frs (Hr & _ & Ht) _ IH]; intros [|x l] Hl; try done.
  assert (Hl' : length l = length frs) by (simpl in Hl; lia). specialize (IH l Hl'). unfold outlasting in *. cbn [fmap list_fmap keep].
  destruct (decide (Z.of_nat n < ttl_of fr)) as [Hn|Hn].
  - rewrite (bool_decide_true _ Hn). cbn [fmap list_fmap keep]. destruct (travelled_roomy n false fr Hr) as [_ Htt]. rewrite Htt, IH.
    destruct (decide (Z.of_nat (S n) < ttl_of fr)) as [Hs|Hs];
      [rewrite !bool_decide_true by lia|rewrite !bool_decide_false by lia]; done.
  - rewrite !bool_decide_false by lia. exact IH.
Qed.

Lemma outlasting_alive n frs : Forall alive frs -> Forall alive (travelled n false <$> outlasting n frs frs).
Proof.
  induction 1 as [|fr frs Ha _ IH]; [constructor|]. unfold outlasting in *. cbn [fmap list_fmap keep].
  case_bool_decide; [|done]. constructor; [by apply travelled_alive|done].
Qed.

Lemma outlasting_hop n frs : Forall alive frs ->
  hop <$> keep ((fun fr => bool_decide (2 <= ttl_of fr)) <$> (travelled n false <$> outlasting n frs frs)) (travelled n false <$> outlasting n frs frs) =
  travelled (S n) false <$> outlasting (S n) frs frs.
Proof.
  intros Ha. rewrite keep_fmap, outlasting_succ by done. rewrite <-list_fmap_compose. apply list_fmap_ext. intros i fr Hi.
  simpl. apply hop_travelled. apply list_elem_of_lookup_2 in Hi. apply elem_of_keep in Hi.
  rewrite Forall_forall in Ha. by apply Ha.
Qed.

End closures.

(** *** A stage behind any batch *)

Section stage.
Context {P : Profile} {Z_ : Zcsi} {F : Fuel} {Net V : Type} {IV : BatchIterator Net V NullHeader EmptyMetadata} {AV : Act Net V}.

Abbreviation swapping := (Transform.TransformBatch (Parsed.ParsedBatch Mac.MacHeader V) Unchecked).
Abbreviation counting := (Transform.TransformBatch (Parsed.ParsedBatch Ip.IpHeader swapping) Countdown).

Definition chain_nf (parent : V) : outcome (Composition.CompositionBatch (Filter.FilterBatch counting Living)) :=
  let swapped := Build.transform (Build.parse Mac.MacHeader parent) unchecked in
  let counted := Build.transform (Build.parse Ip.IpHeader swapped) countdown in
  let! filtered := Build.filter counted living in
  Ret (Build.compose filtered).

(** A stage between [act] and [done], or before it *)
Definition stage (applied : bool) (cap : Z) (v : V) : Composition.CompositionBatch (Filter.FilterBatch counting Living) :=
  Composition.mkComposition (ResetParsing.mkReset (Filter.mkFilter (Transform.mkTransform (Parsed.mkParsedBatch
    (Transform.mkTransform (Parsed.mkParsedBatch v) unchecked applied)) countdown applied) living cap [])).

Lemma chain_nf_built v : 0 <= capacity v -> chain_nf v = Ret (stage false (capacity v) v).
Proof.
  intros Hc. unfold chain_nf, Build.filter, Filter.new. simpl. by rewrite (proj2 (Z.ltb_ge _ _)).
Qed.

Lemma stage_done cap v (w : World Net) v' w' :
  done (v, w) = Ret (tt, (v', w')) -> done (stage true cap v, w) = Ret (tt, (stage false cap v', w')).
Proof.
  intros Hd. etransitivity; [apply on_field_Ret, on_field_Ret, on_field_Ret|].
  { simpl. unfold Transform.done_. erewrite sbind_Ret by done. apply on_field_Ret, on_field_Ret. simpl.
    unfold Transform.done_. erewrite sbind_Ret by done. apply on_field_Ret, on_field_Ret. exact Hd. }
  done.
Qed.

Context {LV : BatchLaws Net V NullHeader EmptyMetadata} {FV : FrameView Net V NullHeader EmptyMetadata}.
(** What the batch in front promises: it shows frames from their start, all with room enough. *)
Context (front : forall fr, position V fr = 0) (accepts : forall fr, roomy fr -> parses V fr).

Lemma stage_view b cap v : view (stage b cap v) = view v.
Proof. done. Qed.
Lemma stage_update b cap pb v : update pb (stage b cap v) = stage b cap (update pb v).
Proof. done. Qed.

(** A stage promises the same. *)
Lemma stage_front fr : position (Composition.CompositionBatch (Filter.FilterBatch counting Living)) fr = 0.
Proof using. done. Qed.
Lemma stage_accepts fr : roomy fr -> parses (Composition.CompositionBatch (Filter.FilterBatch counting Living)) fr.
Proof using front accepts. exact (ip_parses front accepts fr). Qed.

Lemma count_frames_steps frs :
  Forall alive frs ->
  steps (V := Parsed.ParsedBatch Ip.IpHeader swapping) countdown (swapped 0 <$> frs) = Ret (countdown, hop <$> frs).
Proof using front.
  induction 1 as [|fr frs (Hr & Hb & Ht) _ IH]; [done|]. rewrite !fmap_cons. cbn [steps]. rewrite (ip_position front).
  pose proof (swapped_roomy fr Hr) as Hs. pose proof (mac_end_range 0 (swapped 0 fr)). pose proof (swapped_ttl fr Hr) as Htt.
  assert (Hu : uint 8 (ttl_of fr - 1)) by (pose proof (ttl_uint fr Hr Hb); unfold uint in *; lia).
  assert (Hst : step Ip.IpHeader EmptyMetadata (mac_end 0 (swapped 0 fr)) countdown (swapped 0 fr) = Ret (countdown, hop fr)).
  { cbv beta iota delta [step countdown_frames]. unfold roomy in Hs. rewrite !(proj2 (Z.leb_le _ _)) by lia.
    rewrite bool_decide_true by (by apply swapped_bytes_ok). cbn [andb]. fold (ttl_of (swapped 0 fr)). rewrite Htt.
    by rewrite usub_small. }
  rewrite Hst. cbn [obind]. by rewrite IH.
Qed.

(** The verdicts: whose time is not over *)
Definition lasting (frs : list (list Z)) : list bool := (fun fr => bool_decide (2 <= ttl_of fr)) <$> frs.

Lemma living_tests frs :
  Forall alive frs -> tests (V := counting) living (hop <$> frs) = Ret (lasting frs, living).
Proof using front.
  induction 1 as [|fr frs Ha _ IH]; [done|]. rewrite !fmap_cons. cbn [tests].
  change (position counting (hop fr)) with (position (Parsed.ParsedBatch Ip.IpHeader swapping) (hop fr)). rewrite (ip_position front).
  destruct (hop_ok fr Ha) as (Hr & Hb & Ht & Hm & _). pose proof (mac_end_range 0 (hop fr)). unfold roomy in Hr.
  assert (Hte : test Ip.IpHeader EmptyMetadata (mac_end 0 (hop fr)) living (hop fr) = Ret (bool_decide (2 <= ttl_of fr), living)).
  { cbv beta iota delta [test living_frames]. rewrite !(proj2 (Z.leb_le _ _)) by lia. rewrite bool_decide_true by done. cbn [andb].
    fold (ttl_of (hop fr)). rewrite Ht. destruct Ha as (_ & _ & H1). do 2 f_equal.
    destruct (Z.eqb_spec (ttl_of fr - 1) 0); [rewrite bool_decide_false by lia|rewrite bool_decide_true by lia]; done. }
  rewrite Hte. cbn [obind]. by rewrite IH.
Qed.

Context {FH : FreesHeld}.

(** What happened to the mbufs: those still in the batch are there, the others of the batch
    were freed, and nothing else was touched. *)
Definition dropped (mbufs left : list Z) (h h' : Heap) : Prop :=
  (forall p, p ∉ mbufs -> h' !! p = h !! p) /\ (forall p, p ∈ mbufs -> p ∉ left -> h' !! p = None).

Lemma stage_acted cap v w v1 w1 frs :
  acted v w v1 w1 frs -> Forall alive frs ->
  let mbufs := PacketBatch.array (view v1) in
  exists pb w2,
    acted (stage false cap v) w (stage true cap (update pb v1)) w2 (hop <$> keep (lasting frs) frs) /\
    PacketBatch.array pb = keep (lasting frs) mbufs /\ PacketBatch.vec_capacity pb = PacketBatch.vec_capacity (view v1) /\
    net w2 = net w1 /\ dropped mbufs (keep (lasting frs) mbufs) (heap w1) (heap w2).
Proof using front accepts FH.
  intros Hacted Ha mbufs. assert (Hroomy : Forall roomy frs) by (eapply Forall_impl; [exact Ha|]; by intros fr [? _]).
  assert (Hps : Forall (parses (Parsed.ParsedBatch Mac.MacHeader V)) frs).
  { eapply Forall_impl; [exact Hroomy|]. exact (mac_parses front accepts). }
  pose proof (exchange_acted front unchecked _ _ _ _ _ Hacted Hps) as H1.
  set (w' := mkWorld _ _) in H1.
  assert (H2 : acted (Parsed.mkParsedBatch (T2 := Ip.IpHeader) (Transform.mkTransform (Parsed.mkParsedBatch v) unchecked false)) w
    (Parsed.mkParsedBatch (Transform.mkTransform (Parsed.mkParsedBatch v1) unchecked true)) w' (swapped 0 <$> frs)).
  { destruct H1 as [Hact Hr]. split; [|done]. etransitivity; [apply on_field_Ret, Hact|done]. }
  apply (transform_acted _ _ _ _ _ countdown countdown (hop <$> frs)) in H2; [|..|by apply count_frames_steps].
  2: { apply Forall_fmap. eapply Forall_impl; [exact Hroomy|]. intros fr Hfr. by apply (ip_parses front accepts), swapped_roomy. }
  set (w'' := mkWorld _ _) in H2.
  destruct (filter_acted _ _ _ _ _ living cap (lasting frs) living H2) as (pb & H3 & Harr & Hcap & Hlb).
  { apply Forall_fmap. eapply Forall_impl; [exact Ha|]. intros fr Hfr. apply (ip_parses front accepts). by apply hop_ok. }
  { by apply living_tests. }
  exists pb, (mkWorld (without (reject (lasting frs) mbufs) (heap w'')) (net w'')).
  split; [|split; [exact Harr|split; [exact Hcap|split; [done|]]]].
  - destruct H3 as (Hact & Hok & Hnd & Hf & Hh).
    split; [etransitivity; [apply on_field_Ret, on_field_Ret, Hact|done]|]. split; [exact Hok|]. split; [exact Hnd|].
    split; [exact Hf|]. revert Hh. by rewrite keep_fmap.
  - pose proof (keep_reject_permutation (lasting frs) mbufs Hlb) as Hperm. split.
    + intros p Hp. cbn [heap]. rewrite lookup_without, decide_False; [|intros Hr; apply Hp; rewrite <-Hperm; set_solver].
      cbn [w'' heap]. rewrite reframed_other by exact Hp. cbn [w' heap]. by rewrite reframed_other by exact Hp.
    + intros p Hp Hn. cbn [heap]. rewrite lookup_without, decide_True; [done|].
      rewrite <-Hperm, elem_of_app in Hp. tauto.
Qed.

(** The exchange of addresses at the end of a chain *)

Definition swap_back (chained : V) : Composition.CompositionBatch swapping :=
  Build.compose (Build.transform (Build.parse Mac.MacHeader chained) unchecked).

Definition swap_stage (applied : bool) (v : V) : Composition.CompositionBatch swapping :=
  Composition.mkComposition (ResetParsing.mkReset (Transform.mkTransform (Parsed.mkParsedBatch v) unchecked applied)).

Lemma swap_stage_done v (w : World Net) v' w' :
  done (v, w) = Ret (tt, (v', w')) -> done (swap_stage true v, w) = Ret (tt, (swap_stage false v', w')).
Proof.
  intros Hd. etransitivity; [apply on_field_Ret, on_field_Ret|].
  { simpl. unfold Transform.done_. erewrite sbind_Ret by done. apply on_field_Ret, on_field_Ret. exact Hd. }
  done.
Qed.

Lemma swap_stage_acted v w v1 w1 frs :
  acted v w v1 w1 frs -> Forall roomy frs ->
  acted (swap_stage false v) w (swap_stage true v1)
    (mkWorld (reframed (PacketBatch.array (view v1)) (swapped 0 <$> frs) (heap w1)) (net w1)) (swapped 0 <$> frs).
Proof using front accepts.
  intros Hacted Hroomy. destruct (exchange_acted front unchecked _ _ _ _ _ Hacted) as [Hact Hr].
  { eapply Forall_impl; [exact Hroomy|]. exact (mac_parses front accepts). }
  split; [|exact Hr]. etransitivity; [apply on_field_Ret, on_field_Ret, Hact|done].
Qed.

(** *** [macswap] *)

Definition macswap (parent : V) : Transform.TransformBatch (Parsed.ParsedBatch Mac.MacHeader V) Checked :=
  Build.transform (Build.parse Mac.MacHeader parent) checked.

Lemma macswap_acted v w v1 w1 frs :
  acted v w v1 w1 frs -> Forall roomy frs ->
  acted (macswap v) w (Transform.mkTransform (Parsed.mkParsedBatch v1) checked true)
    (mkWorld (reframed (PacketBatch.array (view v1)) (swapped 0 <$> frs) (heap w1)) (net w1)) (swapped 0 <$> frs).
Proof using front accepts.
  intros Hacted Hroomy. apply (exchange_acted front checked); [done|].
  eapply Forall_impl; [exact Hroomy|]. exact (mac_parses front accepts).
Qed.

End stage.

(** ** Chains

    [CompositionBatch] owns a boxed batch of any type; a source is such a type, with what a
    stage needs of it. *)

Section chains.
Context {P : Profile} {Z_ : Zcsi} {F : Fuel} {Net : Type}.

Record Source : Type := mkSource {
  ty : Type;
  src_iter : BatchIterator Net ty NullHeader EmptyMetadata;
  src_act : Act Net ty;
  src_laws : BatchLaws Net ty NullHeader EmptyMetadata;
  src_view : FrameView Net ty NullHeader EmptyMetadata;
  src_front : forall fr, position ty fr = 0;
  src_accepts : forall fr, roomy fr -> parses ty fr
}.
#[local] Existing Instances src_iter src_act src_laws src_view.

Definition stage_source (K : Source) : Source :=
  mkSource _ _ _ _ _ (stage_front (V := ty K)) (stage_accepts (V := ty K) (src_front K) (src_accepts K)).

Definition swap_source (K : Source) : Source :=
  mkSource (Composition.CompositionBatch (Transform.TransformBatch (Parsed.ParsedBatch Mac.MacHeader (ty K)) Unchecked))
    _ _ _ _ (fun _ => eq_refl) (mac_parses (V := ty K) (src_front K) (src_accepts K)).

Fixpoint stages (n : nat) (K : Source) : Source := match n with O => K | S n => stage_source (stages n K) end.

(** [chain_nf] applied [n] times *)
Fixpoint chained (n : nat) (K : Source) (parent : ty K) : outcome (ty (stages n K)) :=
  match n with
  | O => Ret parent
  | S n => let! c := chained n K parent in chain_nf c
  end.

Definition ended (back : bool) (K : Source) : Source := if back then swap_source K else K.
Definition ending (back : bool) (K : Source) : ty K -> ty (ended back K) :=
  match back with true => swap_back | false => fun c => c end.

(** One stage, and one more for every number from 1 up to [len] *)
Definition stage_count (len : Z) : nat := S (Z.to_nat (len - 1)).
Definition swaps_back (len pos : Z) : bool := (len mod 2 =? 0) || (pos mod 2 =? 1).

Definition chain (K : Source) (parent : ty K) (len pos : Z) :
    outcome (ty (ended (swaps_back len pos) (stages (stage_count len) K))) :=
  let! c := chained (stage_count len) K parent in Ret (ending (swaps_back len pos) _ c).

(** *** The chain between executions, and between [act] and [done] *)

Fixpoint chain_state (applied : bool) (cap : Z) (n : nat) (K : Source) (v : ty K) : ty (stages n K) :=
  match n with
  | O => v
  | S n => stage applied cap (chain_state applied cap n K v)
  end.

Definition end_state (applied back : bool) (K : Source) : ty K -> ty (ended back K) :=
  match back with true => swap_stage applied | false => fun v => v end.

Section laws.
Context (K : Source).

Lemma chain_view b cap n v : view (chain_state b cap n K v) = view v.
Proof. induction n as [|n IH]; [done|]. exact IH. Qed.

Lemma chain_update b cap n pb v : update pb (chain_state b cap n K v) = chain_state b cap n K (update pb v).
Proof. induction n as [|n IH]; [done|]. cbn [chain_state]. rewrite <-IH. done. Qed.

Lemma chain_done cap n v (w : World Net) v' w' :
  done (v, w) = Ret (tt, (v', w')) -> done (chain_state true cap n K v, w) = Ret (tt, (chain_state false cap n K v', w')).
Proof. intros Hd. induction n as [|n IH]; [done|]. by apply stage_done. Qed.

Lemma chain_capacity b cap n v : 0 <= cap < 2 ^ 31 -> capacity v = cap -> capacity (chain_state b cap n K v) = cap.
Proof.
  intros Hc Hv. destruct n as [|n]; [done|]. change (as_signed 32 cap = cap). apply as_signed_small; unfold sint; simpl; lia.
Qed.

(** Building a chain panics only when the capacity of its parent is no [i32] from 0 on. *)
Lemma chained_built cap n v : 0 <= cap < 2 ^ 31 -> capacity v = cap -> chained n K v = Ret (chain_state false cap n K v).
Proof.
  intros Hc Hv. induction n as [|n IH]; [done|]. cbn [chained]. rewrite IH. cbn [obind].
  pose proof (chain_capacity false cap n v Hc Hv) as Hcap. rewrite chain_nf_built by (rewrite Hcap; lia). by rewrite Hcap.
Qed.

Lemma dropped_trans l1 l2 l3 (h1 h2 h3 : Heap) :
  (forall p, p ∈ l2 -> p ∈ l1) -> (forall p, p ∈ l3 -> p ∈ l2) -> dropped l1 l2 h1 h2 -> dropped l2 l3 h2 h3 -> dropped l1 l3 h1 h3.
Proof.
  intros H21 H32 [Ha1 Hb1] [Ha2 Hb2]. split.
  - intros p Hp. rewrite Ha2 by auto. by apply Ha1.
  - intros p Hp Hn. destruct (decide (p ∈ l2)) as [H2|H2]; [by apply Hb2|]. rewrite Ha2 by done. by apply Hb1.
Qed.

Lemma outlasting_sub {A} n m frs (l : list A) : (n <= m)%nat -> forall x, x ∈ outlasting m frs l -> x ∈ outlasting n frs l.
Proof.
  intros Hnm x. revert l. induction frs as [|fr frs IH]; intros l Hx; [done|]. destruct l as [|y l]; [done|].
  unfold outlasting in *. cbn [fmap list_fmap keep] in *. destruct (decide (Z.of_nat m < ttl_of fr)).
  - rewrite !bool_decide_true in * by lia. apply elem_of_cons in Hx as [->|Hx]; [left|right; by apply IH].
  - rewrite (bool_decide_false (Z.of_nat m < _)) in Hx by done. case_bool_decide; [right|]; by apply IH.
Qed.

Context {FH : FreesHeld}.

(** [n] stages one after the other: the packets with more than [n] to live are left, with [n]
    less and the addresses exchanged if [n] is odd. *)
Lemma chain_acted cap n (v : ty K) w v1 w1 frs :
  acted v w v1 w1 frs -> Forall alive frs ->
  let mbufs := PacketBatch.array (view v1) in
  exists pb w2,
    acted (chain_state false cap n K v) w (chain_state true cap n K (update pb v1)) w2 (travelled n false <$> outlasting n frs frs) /\
    PacketBatch.array pb = outlasting n frs mbufs /\ PacketBatch.vec_capacity pb = PacketBatch.vec_capacity (view v1) /\
    net w2 = net w1 /\ dropped mbufs (outlasting n frs mbufs) (heap w1) (heap w2).
Proof using FH.
  intros Hacted Ha mbufs. assert (Hlen : length mbufs = length frs).
  { destruct Hacted as (_ & _ & _ & _ & Hh). exact (Forall2_length _ _ _ Hh). }
  induction n as [|n (pb & w2 & IH & Harr & Hcap & Hnet & Hdr)].
  - exists (view v1), w1. rewrite (set_get (get := view) (set := update)), !outlasting_all by done.
    split; [|split; [done|split; [done|split; [done|by split]]]].
    replace (travelled 0 false <$> frs) with frs; [exact Hacted|]. symmetry. rewrite <-(list_fmap_id frs) at 2.
    apply list_fmap_ext. intros i fr Hi. apply travelled_none. by apply (Forall_lookup_1 _ _ _ _ Ha Hi).
  - destruct (stage_acted (src_front (stages n K)) (src_accepts (stages n K)) cap _ _ _ _ _ IH (outlasting_alive n frs Ha))
      as (pb' & w3 & Hst & Harr' & Hcap' & Hnet' & Hdr').
    rewrite chain_view, (get_set (get := view) (set := update)) in Harr', Hcap', Hdr'. unfold lasting in *.
    rewrite Harr, outlasting_succ in Harr', Hdr' by done. rewrite outlasting_hop in Hst by done.
    exists pb', w3. split; [|split; [done|split; [congruence|split; [congruence|]]]].
    + rewrite chain_update, (set_set (get := view) (set := update)) in Hst. exact Hst.
    + eapply dropped_trans; [..|exact Hdr|exact Hdr'].
      * intros p. apply elem_of_keep.
      * apply outlasting_sub. lia.
Qed.

End laws.

(** The exchange at the end *)
Lemma end_acted back (K : Source) (v : ty K) w v1 w1 frs :
  acted v w v1 w1 frs -> Forall roomy frs ->
  exists w2, acted (end_state false back K v) w (end_state true back K v1) w2 (if back then swapped 0 <$> frs else frs) /\
    net w2 = net w1 /\ dropped (PacketBatch.array (view v1)) (PacketBatch.array (view v1)) (heap w1) (heap w2).
Proof.
  intros Hacted Hr. destruct back.
  - eexists. split; [exact (swap_stage_acted (src_front K) (src_accepts K) _ _ _ _ _ Hacted Hr)|]. split; [done|].
    split; [|done]. intros p Hp. by apply reframed_other.
  - exists w1. split; [exact Hacted|]. split; [done|]. by split.
Qed.

Lemma end_done back (K : Source) (v : ty K) (w : World Net) v' w' :
  done (v, w) = Ret (tt, (v', w')) -> done (end_state true back K v, w) = Ret (tt, (end_state false back K v', w')).
Proof. destruct back; [apply swap_stage_done|done]. Qed.

Lemma end_view b back (K : Source) (v : ty K) : view (end_state b back K v) = view v.
Proof. by destruct back. Qed.

Lemma end_update b back (K : Source) pb (v : ty K) : update pb (end_state b back K v) = end_state b back K (update pb v).
Proof. by destruct back. Qed.

Lemma ending_state back (K : Source) v : ending back K v = end_state false back K v.
Proof. by destruct back. Qed.

Lemma ended_frames (back : bool) (n : nat) (frs : list (list Z)) : Forall alive frs ->
  (if back then swapped 0 <$> (travelled n false <$> outlasting n frs frs) else travelled n false <$> outlasting n frs frs) =
  travelled n back <$> outlasting n frs frs.
Proof.
  intros Ha. destruct back; [|done]. rewrite <-list_fmap_compose. apply list_fmap_ext. intros i fr Hi.
  apply swapped_travelled. apply list_elem_of_lookup_2, elem_of_keep in Hi. rewrite Forall_forall in Ha. by apply Ha.
Qed.

(** ** A chain between two ports *)

Section ports.
Context {Rx Tx : Type} {RxI : PacketRx Net Rx} {TxI : PacketTx Net Tx} {FH : FreesHeld}.

Definition receive_source : Source := mkSource (Receive.ReceiveBatch Rx) _ _ _ _ receive_front (fun fr _ => receive_accepts fr).

Definition chain_pipeline (cap : Z) (n : nat) (back : bool) (pb : PacketBatch.PacketBatch) (rx : Rx) (received : Z) (tx : Tx) (sent : Z) :
    Send.SendBatch Tx (ty (ended back (stages n receive_source))) :=
  Send.mkSend tx (end_state false back _ (chain_state false cap n receive_source (Receive.mkReceive pb rx received))) sent.

(** The operators of the chain over a received batch *)
Definition linked_chain (cap : Z) (n : nat) (back applied : bool) (r : Receive.ReceiveBatch Rx) : ty (ended back (stages n receive_source)) :=
  end_state applied back _ (chain_state applied cap n receive_source r).

#[local] Instance linked_chain_wraps cap n back : Wraps (Net := Net) (T := NullHeader) (M := EmptyMetadata) (linked_chain cap n back).
Proof.
  split; intros; unfold linked_chain.
  - by rewrite end_view, chain_view.
  - by rewrite end_update, chain_update.
  - by apply end_done, chain_done.
Qed.

(** [chain(ReceiveBatch::new(port), len, pos).send(port)] *)
Lemma chain_built pb rx (tx : Tx) len pos :
  0 <= PacketBatch.capacity pb < 2 ^ 31 ->
  (let! c := chain receive_source (Receive.mkReceive pb rx 0) len pos in Ret (Build.send c tx)) =
  Ret (chain_pipeline (PacketBatch.capacity pb) (stage_count len) (swaps_back len pos) pb rx 0 tx 0).
Proof.
  intros Hc. unfold chain. rewrite (chained_built receive_source (PacketBatch.capacity pb)) by done. cbn [obind].
  by rewrite ending_state.
Qed.

(** C9: A chain of network functions between two ports. [chain] builds without a panic a
    pipeline of [n] stages, one for a length below one. Let every packet arrive with a time to
    live of at least one. One execution of the pipeline offers the sending port exactly those
    with more than [n] left, in order, each with [n] less, with its Ethernet addresses
    exchanged once per stage and, where the length is even or the position is odd, once more,
    and otherwise unchanged; the packets whose time is over are freed, no other mbuf is touched,
    what the port does not take is freed, and the chain is ready for the next batch. *)
Theorem chain_forwards len pos pb0 pb rx rcv tx snt (w w1 : World Net) k pkts frs :
  let cap := PacketBatch.capacity pb0 in
  let n := stage_count len in
  let back := swaps_back len pos in
  let mbufs := take (Z.to_nat k) pkts in
  let left := outlasting n frs mbufs in
  PacketBatch.batch_ok pb -> PacketBatch.array pb = [] -> (length pkts <= loop_fuel)%nat ->
  recv rx (PacketBatch.spare pb) w = Ret ((Ok k, pkts), w1) ->
  length pkts = length (PacketBatch.spare pb) -> 0 <= k <= zlen pkts ->
  uint 64 rcv -> rcv + k < 2 ^ 64 -> uint 64 snt -> snt + k < 2 ^ 64 ->
  NoDup mbufs -> holds (heap w1) mbufs frs -> Forall alive frs -> 0 <= cap < 2 ^ 31 ->
  (let! c := chain receive_source (Receive.mkReceive pb0 rx 0) len pos in Ret (Build.send c tx)) =
    Ret (chain_pipeline cap n back pb0 rx 0 tx 0) /\
  exists w2, net w2 = net w1 /\ dropped mbufs left (heap w1) (heap w2) /\
    holds (heap w2) left (travelled n back <$> outlasting n frs frs) /\
    forall j w3 h4, sent_by tx left w2 j w3 -> PacketBatch.freed (drop (Z.to_nat j) left) (heap w3) h4 ->
    exists pb',
      execute (chain_pipeline cap n back pb rx rcv tx snt, w) =
        Ret (tt, (chain_pipeline cap n back pb' rx (rcv + k) tx (snt + j), mkWorld h4 (net w3))) /\
      PacketBatch.array pb' = [] /\ PacketBatch.batch_ok pb' /\
      length (PacketBatch.spare pb') = length (PacketBatch.spare pb).
Proof using FH.
  intros cap n back mbufs left Hok Hnil Hfu Hrecv Hl Hk Hr0 Hr1 Hs0 Hs1 Hnd Hh Ha Hcb. split; [by apply chain_built|].
  pose proof (receive_acted pb rx rcv w w1 k pkts frs Hok Hnil Hfu Hrecv Hl Hk Hr0 Hr1 Hnd Hh) as Hacted.
  set (v1 := Receive.mkReceive (PacketBatch.received_batch pb (Ok k) pkts) rx (rcv + k)) in *.
  destruct (chain_acted receive_source cap n _ _ _ _ _ Hacted Ha) as (pb1 & w2 & Hc & Harr & Hcap & Hnet & Hdr).
  change (PacketBatch.array (view v1)) with mbufs in Harr, Hdr. fold left in Harr, Hdr.
  destruct (end_acted back (stages n receive_source) _ _ _ _ _ Hc) as (w2' & He & Hnet' & Hdr').
  { eapply Forall_impl; [exact (outlasting_alive n frs Ha)|]. by intros fr [? _]. }
  rewrite chain_view, (get_set (get := view) (set := update)), Harr in Hdr'.
  exists w2'. split; [congruence|]. split.
  { eapply dropped_trans; [..|exact Hdr|exact Hdr']; [intros p; apply elem_of_keep|done]. }
  assert (Hfrs : (if back then swapped 0 <$> (travelled n false <$> outlasting n frs frs) else travelled n false <$> outlasting n frs frs) =
    travelled n back <$> outlasting n frs frs) by (by apply ended_frames).
  rewrite Hfrs in He. split.
  { destruct He as (_ & _ & _ & _ & Hhb).
    by rewrite end_view, chain_view, (get_set (get := view) (set := update)), Harr in Hhb. }
  intros j w3 h4 Hj Hf4. rewrite <-Harr in Hj, Hf4.
  assert (zlen left <= zlen mbufs) by (apply inj_le, keep_length). unfold mbufs in *. rewrite length_take in *.
  apply (forward_acted (linked_chain cap n back) pb pb1 rx rcv (rcv + k) tx snt w w2' _ He); try done; [|rewrite Harr; lia].
  rewrite Hcap. unfold PacketBatch.vec_capacity. simpl. rewrite length_take, length_drop. lia.
Qed.

End ports.

End chains.

End Chaining.

(** ** Two packets and a chain of two stages: one has five hops left, one has two *)

Module ChainSample.
Import Sample NattingSample Chaining.

#[local] Existing Instance release.
#[local] Existing Instance zcsi.
#[local] Existing Instance rx.
#[local] Existing Instance tx.
#[local] Instance fuel : Fuel := 8%nat.
#[local] Existing Instances src_iter src_act src_laws src_view.

#[local] Instance sample_frees : FreesHeld.
Proof. by intros l h _ _ _. Qed.

Definition ip_bytes (t : Z) : list Z := [69; 0; 0; 30; 0; 0; 0; 0; t; 17; 0; 0; 10; 0; 0; 1; 10; 0; 0; 2; 1; 2; 3; 4; 5; 6; 7; 8; 9; 10].
Definition hops (t : Z) : list Z := ethernet ++ ip_bytes t.
Definition heap52 : Heap := <[1 := frame_mbuf 4096 (hops 5)]> (<[2 := frame_mbuf 8192 (hops 2)]> ∅).

Lemma chain_forwards_witness :
  (let! c := chain receive_source (Receive.mkReceive empty4 tt 0) 2 0 in Ret (Build.send c tt)) =
    Ret (chain_pipeline 4 2 true empty4 tt 0 tt 0) /\
  exists w2 : World wire, net w2 = mkWire [] [] /\ dropped [1; 2] [1] heap52 (heap w2) /\
    holds (heap w2) [1] [travelled 2 true (hops 5)] /\
    forall j w3 h4, sent_by tt [1] w2 j w3 -> PacketBatch.freed (drop (Z.to_nat j) [1]) (heap w3) h4 ->
    exists pb',
      execute (chain_pipeline 4 2 true empty4 tt 0 tt 0, mkWorld heap52 (mkWire [1; 2] [])) =
        Ret (tt, (chain_pipeline 4 2 true pb' tt (0 + 2) tt (0 + j), mkWorld h4 (net w3))) /\
      PacketBatch.array pb' = [] /\ PacketBatch.batch_ok pb' /\
      length (PacketBatch.spare pb') = length (PacketBatch.spare empty4).
Proof.
  assert (Hl : outlasting 2 [hops 5; hops 2] (take (Z.to_nat 2) [1; 2; 0; 0]) = [1]) by (vm_compute; reflexivity).
  assert (Hf : outlasting 2 [hops 5; hops 2] [hops 5; hops 2] = [hops 5]) by (vm_compute; reflexivity).
  assert (Ha : Forall alive [hops 5; hops 2]).
  { repeat apply Forall_cons_2; [..|constructor]; (split; [vm_compute; reflexivity|]);
      (split; [by apply (bool_decide_unpack _)|vm_compute; discriminate]). }
  assert (Hh : holds heap52 (take (Z.to_nat 2) [1; 2; 0; 0]) [hops 5; hops 2]).
  { repeat apply Forall2_cons_2; [..|constructor]; eexists;
      (split; [reflexivity|split; [by apply (bool_decide_unpack _)|split; reflexivity]]). }
  destruct (chain_forwards 2 0 empty4 empty4 tt 0 tt 0 (mkWorld heap52 (mkWire [1; 2] [])) (mkWorld heap52 (mkWire [] []))
    2 [1; 2; 0; 0] [hops 5; hops 2]) as (Hc & w2 & Hn & Hd & Hw & He).
  - by split; vm_compute.
  - done.
  - vm_compute. lia.
  - reflexivity.
  - done.
  - simpl. lia.
  - unfold uint. lia.
  - lia.
  - unfold uint. lia.
  - lia.
  - by apply (bool_decide_unpack _).
  - exact Hh.
  - exact Ha.
  - vm_compute. split; [discriminate|reflexivity].
  - change (stage_count 2) with 2%nat in Hc, Hd, Hw, He. change (swaps_back 2 0) with true in Hc, Hw, He.
    rewrite Hl in Hd, Hw, He. rewrite Hf in Hw. split; [exact Hc|]. exists w2. split; [exact Hn|]. split; [exact Hd|]. split; [exact Hw|exact He].
Defined.

End ChainSample.
